(* ===== verification/_CoqProject ===== *)
-Q . S2P
Prelude.v
Text.v
Cursor.v
Hash.v
Types.v
Script.v
Tx.v
Block.v
BlkFile.v
F64.v
Rounding.v
Utxo.v
UtxoStore.v
UtxoSpec.v
UtxoThms.v
Chain.v
Disk.v
DiskGuard.v
Node.v
Tracker.v
Parquet.v
Reorder.v
Pipeline.v
PipelineThms.v
FileCache.v
Directory.v
Backpressure.v
ParseRun.v
ParseBytes.v
Loader.v
Restart.v
LiveLoop.v
StoreStats.v
Fmt.v
GuardReport.v
Live.v
Bench.v
BenchThms.v
Trial.v
TrialThms.v
Main.v
Digest.v
TestsCore.v
TestsParser.v
TestsStore.v
TestsLive.v
TestsCli.v
TestsBench.v
