(* ===== verification/Prelude.v ===== *)
(** * bitcoindex: a verification library

    This library models [bitcoindex], a Bitcoin block indexer written in Rust
    (the crates under [src/crates/]), and proves what its parts promise. This
    file is its root: the documentation, and the notation, types and lemmas that
    every other file uses.

    ** The program

    [bidx parse] scans the [blkNNNNN.dat] files of Bitcoin Core, possibly
    obfuscated with [xor.dat], builds the index of the best chain from the block
    headers, parses the blocks of a range of heights in parallel, and in height
    order applies them to a RocksDB store of unspent outputs (which gives the
    fees and the spends) and writes their rows to Parquet part files of five
    tables. [bidx live] follows a node over RPC and ZMQ from the stored tip on,
    undoing blocks on a reorganisation. [bidx init-db] and [bidx load] create
    ClickHouse tables and load the part files. A disk guard records the size of
    the index at some heights and refuses to start when the projected size does
    not fit; [bidx bench] times the stages.

    ** The files

    - [Prelude]: results of fallible code ([Res]: a value, an error, a panic),
      computations with a state ([M]) and their equality ([≡ₘ]), the triple
      [runs_to], integers of machine width, slices, sums; [HashOrder] is the
      iteration order of hash maps.
    - [Text]: Rust's [str] and [char] operations used by the program, UTF-8.
    - [Cursor], [Hash], [Types], [Script]: [bidx-core/src/cursor.rs], [hash.rs],
      [types.rs], [script.rs].
    - [Tx], [Block]: the transaction and block parser of [bidx-parser/src/tx.rs];
      [Block] has the serialization it inverts and its theorems.
    - [BlkFile]: [bidx-parser/src/blkfile.rs]; the class [Fs] is the file system.
    - [F64]: Rust's [f64] on the Standard Library's [SpecFloat]; [Rounding]: how
      far above the exact value a rounded result can be; [Fmt]: how Rust prints
      a float.
    - [Chain]: [bidx-parser/src/chain.rs], with the arithmetic of [F64].
    - [Utxo], [UtxoStore]: [bidx-store/src/utxo.rs], first codecs and the cache,
      then the store over the class [RocksDB]. [UtxoSpec] has the abstract effect
      of a block on a set of outputs and the lemmas that relate them, [UtxoThms]
      the theorems.
      [StoreStats]: the properties and sizes a store reports.
    - [Disk], [DiskGuard]: [bidx-core/src/disk.rs], [bidx-cli/src/diskguard.rs];
      [GuardReport]: what the startup check logs and the message of a refusal.
    - [Node]: [bidx-live/src/node.rs] and [zmqsub.rs]; [serves] and [knows] say
      what a node promises. [Tracker]: [bidx-live/src/tracker.rs].
    - [Parquet]: [bidx-store/src/parquet_writers.rs] over the class [ParquetLib].
    - [Reorder]: the reorder buffer, as a protocol over any handler of a block.
      [Pipeline]: [consume_ordered] of [bidx-cli/src/pipeline.rs], and that it
      does not depend on the order of arrival. [PipelineThms]: what it leaves
      over the blocks of a chain. [Restart]: a run that is interrupted, and the
      run after it.
    - [FileCache]: the shared cache of blk files of [pipeline.rs], one call at a
      time and interleaved. [Directory]: what the bytes of a directory of blk files
      hold, and the index made of them. [Backpressure]: the protocol of the workers
      and the consumer, as a step relation. [ParseRun]: [run_parse] and
      [inspect_block] of [pipeline.rs], the watchdog of [bench/mod.rs].
      [ParseBytes]: [run_parse] over the bytes of the directory.
    - [Loader]: [bidx-loader/src/lib.rs] and [schema.rs].
    - [LiveLoop]: the loop of the tracker over any history of the node.
      [Live]: [bidx-cli/src/live.rs].
    - [Bench]: the modes and the consumer of [bench/mod.rs], and
      [bench/metrics.rs]; [BenchThms]: its consumer is [Reorder]'s protocol, what
      it leaves, and the percentiles. [Trial]: the trials, their reports and
      [run_bench]; [TrialThms]: what repeated trials measure.
    - [Main]: [main.rs].
    - [Digest]: SHA-256 and RIPEMD-160, so that the model runs on real blocks.
      [TestsCore], [TestsParser], [TestsStore], [TestsLive], [TestsCli],
      [TestsBench]: the repository's own tests, one boolean per test function, and
      that they are all true of the model.

    A function keeps its name where Rocq allows it; a struct is a record, an
    enum an inductive type, an integer a [Z] with its wrap-around written out
    ([u32], [u64], [sat_add], ...), a hash map a [gmap] read through [HashOrder]
    where its order shows. [&mut self] and interior mutability are the state of
    [M]; [?] is its bind. [panic!], [expect], an index out of range and a
    division by zero are [Panic]; arithmetic wraps as in a release build.

    ** How the parts interact

    [Block] gives [FullBlock]s to [Pipeline] and [Tracker]; both apply them with
    [UtxoStore.apply_block]. [UtxoSpec.block_effect] is the contract between
    them: it says, for any set of outputs, what a block spends, creates, resolves
    and misses, and [after] is the set after it. [Tracker.chain_utxos] and
    [PipelineThms.chain_ops] iterate it over a chain: the set and the rows that a
    run must leave. [Reorder.Handlers] is the interface between the reorder
    buffer and its users: [Pipeline.consumer_handlers] and
    [BenchThms.bench_handlers] implement it. [Parquet.sink_inv] and [finished] say which rows a sink and
    its files hold. [FileCache.read_block] is the cache's contract,
    [Node.serves] the node's.

    ** What is proved

    - Parsing: serializing then parsing gives the rows of the block; accepted
      payloads have consistent rows; no payload makes the parser panic, each
      slice, index, copy and [unwrap] of the reader and the classifier being a
      panic of the model out of range; the classifier is its table of templates.
    - blk files and chain: the records of a file are found, obfuscated or not;
      any bytes are handled within bounds; the index is the path to a tip of
      maximal work.
    - Store: [apply_block] refines the abstract effect and [disconnect_block]
      reverses it, exactly so if the block created no output that was stored
      already; the cache is transparent and bounded; the codecs round-trip.
    - Parse runs: the consumer does the same for every order of arrival, and
      leaves the set of the chain, the rows of each part in its files, and the
      checkpoints; with skipped or missing heights it stops where [Reorder.reached]
      says; the cells pushed are those of the rows and fit the schemas; the workers and the consumer never
      deadlock and hold a bounded number of blocks; the cache of files is
      transparent and bounded under interleaving; and [run_parse] as a whole
      reads the blocks of the index and leaves what the consumer promises. From
      the bytes of the blk files on, that is what the blocks of a heaviest chain
      make ([ParseBytes.parse_directory]).
      Whatever stops a run, the set is that of a prefix of the range, and a run
      over what it left completes it ([Restart]).
    - Live: the tracker reaches the node's tip with the set of its chain, with or
      without a reorganisation of one block, and reports each block once; over a
      database that does not fail its loop reaches the last of a history of
      growing chains, through any finite number of rounds in which a notification
      is lost or the node drops out, though not at the request that confirms the
      stored tip ([LiveLoop]); started at the boundary of a part, [run_live] fills
      the complete parts with the rows that [parse] would.
    - Guard, loader, bench: whose section a checkpoint goes to and what is read
      back, the history of checkpoints in a file's last section, the verdict of the
      startup check, the statements run, the agreement of [bench] with [parse],
      and that repeated trials over one store measure the same.
    - The model against the repository's tests: each of them is evaluated on the
      definitions, over the same bytes, with the digests of [Digest].

    Lemmas at the end of a file prove behaviour the code does not mean to have,
    on concrete inputs: [Tracker.deep_reorg_keeps_orphans],
    [Tracker.short_node_breaks_tip], [Pipeline.skip_after_drain_lost],
    [PipelineThms.parse_stores_no_tip], [Live.reorg_rewrites_part],
    [Live.failed_rotation_panics], [Disk.append_under_other_section],
    [Disk.single_checkpoint_projection], [Disk.detect_ignores_xor_key],
    [DiskGuard.advice_too_small], [DiskGuard.zero_step_panics],
    [Script.multisig_count_wraps], [Tx.inline_count_unbounded],
    [Utxo.cache_order_grows], [UtxoThms.disconnect_loses_recreated_output],
    [Backpressure.buffer_over_watermark], [Bench.drain_is_parse],
    [Restart.reprocessed_range_differs], [LiveLoop.outage_in_catch_up_loses_block],
    [LiveLoop.reapplied_block_loses_undo], [UtxoStore.caches_of_families],
    [GuardReport.insufficient_names_growth].

    ** Parameters

    Code that is not the program's own is a class with the laws it is used by,
    and each has a concrete instance that the witnesses compute with:
    [Hash.Sha256], [Ripemd160] (a stand-in for the witnesses, and the real ones of
    [Digest]), [Hex]; [BlkFile.Fs] and [Disk.AppendIo] (files);
    [F64.Libm] ([log2] and [exp2]); [UtxoStore.RocksDB] and [Clock];
    [Parquet.ParquetLib]; [Node.RpcEnv] and [ZmqLib]; [Prelude.HashOrder];
    [Loader.Command]; and [Backpressure.Rayon]. They may fail at any call unless
    a law says otherwise.

    ** Fuel and bounds

    A loop that is not structural takes fuel and panics, or gives [None], without
    it; the theorems about it show that this does not happen. The walk of a blk
    file and its iterator have the length of the file; the depth-first pass over
    the headers and the walks to a parent have the number of headers; the loops
    of the tracker have the distance to the tip; the drain and skip loops have
    the size of the buffer; the eviction loops have the length of their queue.
    The live loop and the rounds of [run_live] take a number of rounds, any. The
    interleavings of [FileCache] and [Backpressure] are inductive relations, and
    termination of the latter is proved with a measure.

    ** Not modelled

    Memory: allocation does not fail, so what [Vec::with_capacity] does with a
    count read from bytes is left out (the decoder of undo records of [utxo.rs]
    reserves for a count that a corrupt record can make as large as it likes; the
    counts of [tx.rs] are bounded). Progress bars, most logging, and the lines [run_parse] prints at its end; the
    parsing of the command line by [clap]; what a process measures of itself,
    which is an input of [Trial]; the JSON of a report, which is a parameter. The
    index of a percentile is shown to be in range for up to 2^48 samples, far
    more than there are heights. Threads are modelled where they share
    something: the cache of files and the reorder buffer. Elsewhere the outcome
    of the parse stage is an input of [run_parse] and [run_trial], constrained by
    [ParseRun.stage_done] and [TrialThms.workers_done] in the theorems. A callback does not act on the tracker
    that calls it, so its events are handled after its run in [Live]. Time does
    not pass: samples, durations and directory contents are inputs by height.
    Of the repository's tests, those of [clap], of [serde], of [std]'s [Hash] and
    [Display] of errors, of RocksDB's own options and statistics, of the process's
    own samples and of files left in directories are left out, and the test of
    many outputs in one block runs with 32 of them instead of 512. *)
From Corelib Require Export Init.Byte.
From Stdlib Require Strings.Byte.
From stdpp Require Export prelude numbers list list_numbers countable gmap sorting.
From stdpp Require Export option strings.

Declare Scope bidx_scope.
Delimit Scope bidx_scope with bidx.
Open Scope Z_scope.

#[global] Abbreviation byte := Corelib.Init.Byte.byte.
#[global] Abbreviation bytes := (list byte).

(** ** Bytes *)

#[global] Instance byte_eq_dec : EqDecision byte := Byte.byte_eq_dec.
#[global] Instance byte_countable : Countable byte :=
  inj_countable Byte.to_N Byte.of_N Byte.of_to_N.
#[global] Instance byte_inhabited : Inhabited byte := populate x00.

Definition byteZ (b : byte) : Z := Z.of_N (Byte.to_N b).
Definition Zbyte (z : Z) : byte := default x00 (Byte.of_N (Z.to_N (z `mod` 256))).

(** ** Machine integers: a [w]-bit integer is a [Z]; these are the conversions
    and the arithmetic of Rust's release profile (wrapping) and its
    [saturating_*] methods. *)

Definition u8 (z : Z) : Z := z `mod` 2 ^ 8.
Definition u16 (z : Z) : Z := z `mod` 2 ^ 16.
Definition u32 (z : Z) : Z := z `mod` 2 ^ 32.
Definition u64 (z : Z) : Z := z `mod` 2 ^ 64.
Definition i32_of_u32 (z : Z) : Z := if z <? 2 ^ 31 then z else z - 2 ^ 32.
Definition i64_of_u64 (z : Z) : Z := if z <? 2 ^ 63 then z else z - 2 ^ 64.
Definition u64_max : Z := 2 ^ 64 - 1.
Definition u32_max : Z := 2 ^ 32 - 1.
Definition sat_add (a b : Z) : Z := Z.min u64_max (a + b).
Definition sat_sub (a b : Z) : Z := Z.max 0 (a - b).

Definition is_u8 (z : Z) : Prop := 0 ≤ z < 2 ^ 8.
Definition is_u32 (z : Z) : Prop := 0 ≤ z < 2 ^ 32.
Definition is_u64 (z : Z) : Prop := 0 ≤ z < 2 ^ 64.
Definition is_i32 (z : Z) : Prop := - 2 ^ 31 ≤ z < 2 ^ 31.

(** ** Little- and big-endian encodings of [n]-byte integers *)

Fixpoint le_bytes (n : nat) (z : Z) : bytes :=
  match n with
  | O => []
  | S n => Zbyte z :: le_bytes n (z `div` 256)
  end.

Fixpoint le_val (bs : bytes) : Z :=
  match bs with
  | [] => 0
  | b :: bs => byteZ b + 256 * le_val bs
  end.

Definition be_bytes (n : nat) (z : Z) : bytes := rev (le_bytes n z).

(** Length of a list as a [usize]. *)
Definition len {A} (l : list A) : Z := Z.of_nat (length l).

(** [slice a b l] is [&l[a..b]] where the bounds have been checked. *)
Definition slice {A} (a b : Z) (l : list A) : list A :=
  take (Z.to_nat (b - a)) (drop (Z.to_nat a) l).

Definition zeros (n : nat) : bytes := replicate n x00.

(** A Rust [str] is the sequence of its characters, as Unicode scalar values;
    [str] reads an ASCII literal. *)
#[global] Abbreviation rstr := (list Z).

Fixpoint str (s : string) : rstr :=
  match s with
  | EmptyString => []
  | String a s => Z.of_nat (Ascii.nat_of_ascii a) :: str s
  end.
Arguments str _%_string.

(** Sum of [f] over a list. *)
Definition zsum {A} (f : A → Z) (l : list A) : Z := foldr (λ x s, f x + s) 0 l.

(** ** Outcomes: a Rust function returns [Ok], returns [Err], or panics. *)

Inductive Res (E A : Type) : Type :=
  | Ok (a : A)
  | Err (e : E)
  | Panic.
Arguments Ok {E A} _.
Arguments Err {E A} _.
Arguments Panic {E A}.

#[global] Instance Res_ret E : MRet (Res E) := λ A a, Ok a.
#[global] Instance Res_bind E : MBind (Res E) := λ A B f m,
  match m with Ok a => f a | Err e => Err e | Panic => Panic end.
#[global] Instance Res_fmap E : FMap (Res E) := λ A B f m,
  match m with Ok a => Ok (f a) | Err e => Err e | Panic => Panic end.

Definition map_err {E E' A} (f : E → E') (m : Res E A) : Res E' A :=
  match m with Ok a => Ok a | Err e => Err (f e) | Panic => Panic end.
Definition ok_or {E A} (e : E) (o : option A) : Res E A :=
  match o with Some a => Ok a | None => Err e end.
(** [Result::ok]. *)
Definition res_ok {E A} (m : Res E A) : option A :=
  match m with Ok a => Some a | _ => None end.
(** Indexing with [v[i]]: panics out of range. *)
Definition index {E A} (l : list A) (i : Z) : Res E A :=
  match l !! Z.to_nat i with Some a => Ok a | None => Panic end.

(** Slicing with [&v[a..b]]: panics out of range. *)
Definition slice_at {E A} (a b : Z) (l : list A) : Res E (list A) :=
  if (0 <=? a) && (a <=? b) && (b <=? len l) then Ok (slice a b l) else Panic.

(** [dst.copy_from_slice(src)] into a [dst] of [n] elements: panics unless the
    lengths are the same. *)
Definition copy_from_slice {E A} (n : Z) (src : list A) : Res E (list A) :=
  if len src =? n then Ok src else Panic.

(** [a - b] on [usize], wrapping. *)
Definition usize_sub (a b : Z) : Z := if a <? b then a - b + 2 ^ 64 else a - b.

(** ** State and outcome: [&mut S] threaded through a fallible function. The
    state is kept on failure, as a caller of the Rust function sees it. *)

Definition M (S E A : Type) : Type := S → Res E A * S.

#[global] Instance M_ret S E : MRet (M S E) := λ A a s, (Ok a, s).
#[global] Instance M_bind S E : MBind (M S E) := λ A B f m s,
  match m s with
  | (Ok a, s') => f a s'
  | (Err e, s') => (Err e, s')
  | (Panic, s') => (Panic, s')
  end.

Definition m_fail {S E A} (e : E) : M S E A := λ s, (Err e, s).
Definition m_fail_at {S E A} (f : S → E) : M S E A := λ s, (Err (f s), s).
Definition m_panic {S E A} : M S E A := λ s, (Panic, s).
Definition m_get {S E} : M S E S := λ s, (Ok s, s).
Definition m_gets {S E A} (f : S → A) : M S E A := λ s, (Ok (f s), s).
Definition m_put {S E} (s : S) : M S E () := λ _, (Ok (), s).
Definition m_modify {S E} (f : S → S) : M S E () := λ s, (Ok (), f s).
Definition m_lift {S E A} (r : Res E A) : M S E A := λ s, (r, s).
Definition m_map_err {S E E' A} (f : E → E') (m : M S E A) : M S E' A :=
  λ s, let '(r, s') := m s in (map_err f r, s').

(** [for i in i..i+n { v.push(body(i)?) }]. *)
Fixpoint for_collect {S E A} (n : nat) (i : Z) (body : Z → M S E A) : M S E (list A) :=
  match n with
  | O => mret []
  | S n => a ← body i; l ← for_collect n (i + 1) body; mret (a :: l)
  end.

(** [for x in xs { acc = body(acc, x)? }]. *)
Fixpoint for_fold {S E A B} (xs : list A) (acc : B) (body : B → A → M S E B) : M S E B :=
  match xs with
  | [] => mret acc
  | x :: xs => acc' ← body acc x; for_fold xs acc' body
  end.

(** Two computations are the same when they agree from every state. *)
Record m_eq {S E A} (m m' : M S E A) : Prop := mkMEq { m_eq_at : ∀ s, m s = m' s }.
Arguments mkMEq {S E A m m'} _.
Arguments m_eq_at {S E A m m'} _ _.
Infix "≡ₘ" := m_eq (at level 70, no associativity) : bidx_scope.
Open Scope bidx_scope.

(** ** Hash maps: iterating over an [FxHashMap] visits its entries in some order. *)

Class HashOrder := {
  map_iter : ∀ {A}, gmap bytes A → list (bytes * A);
  map_iter_perm : ∀ {A} (m : gmap bytes A), map_iter m ≡ₚ map_to_list m
}.

Program Definition order_ref : HashOrder := {| map_iter A m := map_to_list m |}.
Next Obligation. done. Qed.

(** ** Automation *)

(** The outcome of [m] from [s]: a value and state in [Q], an error in [bad],
    no panic. *)
Definition runs_to {S E A} (bad : E → Prop) (m : M S E A) (s : S) (Q : A → S → Prop) : Prop :=
  match m s with (Ok a, s') => Q a s' | (Err e, _) => bad e | (Panic, _) => False end.

Create HintDb bidx.
Create Rewrite HintDb bidx.

(** Case analysis on the outcome of the first step of a monadic computation
    in a hypothesis. *)
Ltac m_inv H :=
  unfold mbind, M_bind, Res_bind, mret, M_ret, Res_ret in H;
  repeat (case_match; simplify_eq/=; try done).

(** Unfold the monad in the goal. *)
Ltac m_unfold :=
  unfold mbind, M_bind, Res_bind, mret, M_ret, Res_ret, m_fail, m_fail_at, m_panic, m_get,
    m_gets, m_put, m_modify, m_lift, m_map_err.

(** ** Lemmas on computations *)

#[global] Instance m_eq_equiv S E A : Equivalence (@m_eq S E A).
Proof.
  split; [done|intros m m' [H]; by split|]. intros m1 m2 m3 [H] [H']. split. intros s. by rewrite H, H'.
Qed.

#[global] Instance m_bind_proper S E A B :
  Proper (pointwise_relation A m_eq ==> m_eq ==> m_eq) (@mbind (M S E) (M_bind S E) A B).
Proof.
  intros k k' Hk m m' [Hm]. split. intros s. unfold mbind, M_bind. rewrite (Hm s).
  destruct (m' s) as [[a|e|] s']; [|done..]. apply Hk.
Qed.

Lemma m_ret_bind {S E A B} (a : A) (k : A → M S E B) : mret a ≫= k ≡ₘ k a.
Proof. done. Qed.

Lemma m_bind_ret {S E A} (m : M S E A) : (x ← m; mret x) ≡ₘ m.
Proof. split. intros s. unfold mbind, M_bind. by destruct (m s) as [[a|e|] s']. Qed.

Lemma m_bind_unit {S E} (m : M S E ()) : (_ ← m; mret ()) ≡ₘ m.
Proof. split. intros s. unfold mbind, M_bind. by destruct (m s) as [[[]|e|] s']. Qed.

Lemma m_bind_assoc {S E A B C} (m : M S E A) (k : A → M S E B) (h : B → M S E C) :
  (m ≫= k) ≫= h ≡ₘ (m ≫= λ x, k x ≫= h).
Proof. split. intros s. unfold mbind, M_bind. by destruct (m s) as [[a|e|] s']. Qed.

Lemma m_bind_if {S E A B} (c : bool) (m m' : M S E A) (k : A → M S E B) :
  (x ← (if c then m else m'); k x) ≡ₘ (if c then x ← m; k x else x ← m'; k x).
Proof. by destruct c. Qed.

Lemma runs_to_bind {S E A B} bad (m : M S E A) (k : A → M S E B) s Q :
  runs_to bad m s (λ a s', runs_to bad (k a) s' Q) → runs_to bad (m ≫= k) s Q.
Proof. unfold runs_to, mbind, M_bind. by destruct (m s) as [[a|e|] s']. Qed.

Lemma runs_to_ret {S E A} (bad : E → Prop) (a : A) (s : S) (Q : A → S → Prop) :
  Q a s → runs_to bad (mret a) s Q.
Proof. done. Qed.

Lemma runs_to_mono {S E A} (bad : E → Prop) (m : M S E A) s (Q Q' : A → S → Prop) :
  runs_to bad m s Q → (∀ a s', Q a s' → Q' a s') → runs_to bad m s Q'.
Proof. unfold runs_to. destruct (m s) as [[a|e|] s']; auto. Qed.

Lemma runs_to_lift {S E A} (bad : E → Prop) (r : Res E A) a (s : S) (Q : A → S → Prop) :
  r = Ok a → Q a s → runs_to bad (m_lift r) s Q.
Proof. by intros ->. Qed.

Lemma runs_to_lift_err {S E A} (bad : E → Prop) (r : Res E A) (s : S) (Q : A → S → Prop) :
  match r with Ok a => Q a s | Err e => bad e | Panic => False end → runs_to bad (m_lift r) s Q.
Proof. done. Qed.

(** ** Lemmas on machine integers *)

Lemma u32_small z : 0 ≤ z < 2 ^ 32 → u32 z = z.
Proof. apply Z.mod_small. Qed.

Lemma u64_small z : 0 ≤ z < 2 ^ 64 → u64 z = z.
Proof. apply Z.mod_small. Qed.

(** ** Lemmas on bytes *)

Lemma byteZ_bound b : 0 ≤ byteZ b < 256.
Proof.
  unfold byteZ. pose proof (Byte.to_N_bounded b). lia.
Qed.

Lemma Zbyte_byteZ b : Zbyte (byteZ b) = b.
Proof.
  unfold Zbyte. rewrite Z.mod_small by apply byteZ_bound.
  unfold byteZ. rewrite N2Z.id, Byte.of_to_N. done.
Qed.

Lemma byteZ_Zbyte z : byteZ (Zbyte z) = z `mod` 256.
Proof.
  unfold Zbyte. pose proof (Z.mod_pos_bound z 256 ltac:(lia)) as Hb.
  destruct (Byte.of_N (Z.to_N (z `mod` 256))) as [b|] eqn:Hn; simpl.
  - apply Byte.to_of_N in Hn. unfold byteZ. rewrite Hn. lia.
  - apply Byte.of_N_None_iff in Hn. lia.
Qed.

#[global] Instance byteZ_inj : Inj (=) (=) byteZ.
Proof. intros a b H. by rewrite <-(Zbyte_byteZ a), <-(Zbyte_byteZ b), H. Qed.

(** ** Lemmas on encodings *)

Lemma length_le_bytes n z : length (le_bytes n z) = n.
Proof. revert z. induction n; intros; simpl; auto. Qed.

Lemma le_val_cons b bs : le_val (b :: bs) = byteZ b + 256 * le_val bs.
Proof. done. Qed.

Lemma le_val_bytes n z : le_val (le_bytes n z) = z `mod` 256 ^ Z.of_nat n.
Proof.
  revert z. induction n as [|n IH]; intros z; simpl le_bytes; simpl le_val.
  - by rewrite Z.mod_1_r.
  - rewrite IH, byteZ_Zbyte, Nat2Z.inj_succ, Z.pow_succ_r by lia.
    by rewrite Z.rem_mul_r by lia.
Qed.

Lemma le_val_bound bs : 0 ≤ le_val bs < 256 ^ len bs.
Proof.
  unfold len. induction bs as [|b bs IH]; simpl length; simpl le_val; [lia|].
  rewrite Nat2Z.inj_succ, Z.pow_succ_r by lia.
  pose proof (byteZ_bound b). lia.
Qed.

Lemma le_bytes_val bs : le_bytes (length bs) (le_val bs) = bs.
Proof.
  induction bs as [|b bs IH]; simpl; [done|].
  pose proof (byteZ_bound b). f_equal.
  - apply (inj byteZ). rewrite byteZ_Zbyte, Z.mul_comm, Z_mod_plus_full.
    by apply Z.mod_small.
  - by rewrite Z.mul_comm, Z.div_add, Z.div_small, Z.add_0_l by lia.
Qed.

Lemma le_bytes_val_n n bs : length bs = n → le_bytes n (le_val bs) = bs.
Proof. intros <-. apply le_bytes_val. Qed.

Lemma le_val_bytes_small n z : 0 ≤ z < 256 ^ Z.of_nat n → le_val (le_bytes n z) = z.
Proof. intros. rewrite le_val_bytes. by apply Z.mod_small. Qed.

Lemma le_bytes_inj n a b :
  0 ≤ a < 256 ^ Z.of_nat n → 0 ≤ b < 256 ^ Z.of_nat n →
  le_bytes n a = le_bytes n b → a = b.
Proof.
  intros Ha Hb H. by rewrite <-(le_val_bytes_small n a), H, le_val_bytes_small.
Qed.

Lemma i32_of_le_bytes z : is_i32 z → i32_of_u32 (le_val (le_bytes 4 z)) = z.
Proof.
  intros Hz. rewrite le_val_bytes. unfold i32_of_u32, is_i32 in *.
  change (256 ^ Z.of_nat 4) with (2 ^ 32).
  destruct (decide (z < 0)).
  - rewrite <-(Z_mod_plus_full z 1), Z.mod_small by lia. case_match eqn:Hb; lia.
  - rewrite Z.mod_small by lia. case_match eqn:Hb; lia.
Qed.

Lemma length_be_bytes n z : length (be_bytes n z) = n.
Proof. unfold be_bytes. by rewrite length_rev, length_le_bytes. Qed.

(** ** Lemmas on slices and lengths *)

Lemma len_nil {A} : len (@nil A) = 0.
Proof. done. Qed.
Lemma len_cons {A} (x : A) l : len (x :: l) = 1 + len l.
Proof. unfold len. simpl. lia. Qed.
Lemma len_app {A} (k l : list A) : len (k ++ l) = len k + len l.
Proof. unfold len. rewrite length_app. lia. Qed.
Lemma len_nonneg {A} (l : list A) : 0 ≤ len l.
Proof. unfold len. lia. Qed.
Lemma len_le_bytes n z : len (le_bytes n z) = Z.of_nat n.
Proof. unfold len. by rewrite length_le_bytes. Qed.
Lemma len_zeros n : len (zeros n) = Z.of_nat n.
Proof. unfold len, zeros. by rewrite length_replicate. Qed.
Lemma len_map {A B} (f : A → B) l : len (map f l) = len l.
Proof. unfold len. by rewrite length_map. Qed.
Lemma len_fmap {A B} (f : A → B) (l : list A) : len (f <$> l) = len l.
Proof. unfold len. by rewrite length_fmap. Qed.
Lemma len_imap {A B} (f : nat → A → B) (l : list A) : len (imap f l) = len l.
Proof. unfold len. by rewrite length_imap. Qed.
Lemma to_nat_len {A} (l : list A) : Z.to_nat (len l) = length l.
Proof. unfold len. lia. Qed.
Lemma len_zero_nil {A} (l : list A) : len l = 0 → l = [].
Proof. destruct l; [done|]. rewrite len_cons. pose proof (len_nonneg l). lia. Qed.

Lemma mjoin_fmap_cons {A B} (f : A → list B) x xs :
  mjoin (f <$> x :: xs) = f x ++ mjoin (f <$> xs).
Proof. done. Qed.

#[export] Hint Rewrite @len_nil @len_cons @len_app len_le_bytes len_zeros @len_map
  @len_fmap length_le_bytes length_be_bytes : bidx.

(** Normalise lengths, then linear arithmetic. *)
Ltac len_lia :=
  repeat match goal with
         | H : length _ = _ |- _ => apply (f_equal Z.of_nat) in H
         end;
  rewrite ?length_app in *; fold_len; autorewrite with bidx in *;
  pose_len; lia
with fold_len :=
  repeat match goal with
         | H : context [Z.of_nat (length ?l)] |- _ => change (Z.of_nat (length l)) with (len l) in H
         | |- context [Z.of_nat (length ?l)] => change (Z.of_nat (length l)) with (len l)
         end
with pose_len :=
  repeat match goal with
         | |- context [len ?l] =>
           lazymatch goal with
           | _ : 0 ≤ len l |- _ => fail
           | _ => pose proof (len_nonneg l)
           end
         | _ : context [len ?l] |- _ =>
           lazymatch goal with
           | _ : 0 ≤ len l |- _ => fail
           | _ => pose proof (len_nonneg l)
           end
         end.

Lemma slice_app_mid {A} (pre mid post : list A) :
  slice (len pre) (len pre + len mid) (pre ++ mid ++ post) = mid.
Proof.
  unfold slice. rewrite to_nat_len, drop_app_length.
  replace (len pre + len mid - len pre) with (len mid) by lia.
  by rewrite to_nat_len, take_app_length.
Qed.

Lemma slice_app_mid' {A} (a b : Z) (pre mid post : list A) :
  a = len pre → b = len pre + len mid → slice a b (pre ++ mid ++ post) = mid.
Proof. intros -> ->. apply slice_app_mid. Qed.

Lemma slice_prefix {A} (b : Z) (mid post : list A) :
  b = len mid → slice 0 b (mid ++ post) = mid.
Proof. intros ->. apply (slice_app_mid [] mid post). Qed.

Lemma len_slice {A} (a b : Z) (l : list A) :
  0 ≤ a → a ≤ b → b ≤ len l → len (slice a b l) = b - a.
Proof.
  unfold slice, len. intros. rewrite length_take, length_drop. lia.
Qed.

Lemma slice_split {A} (a b : Z) (l : list A) :
  0 ≤ a → a ≤ b → b ≤ len l → ∃ pre post, l = pre ++ slice a b l ++ post ∧ len pre = a.
Proof.
  intros Ha Hab Hb. exists (take (Z.to_nat a) l), (drop (Z.to_nat b) l).
  split.
  - rewrite <-(take_drop (Z.to_nat a) l) at 1. f_equal. unfold slice.
    rewrite <-(take_drop (Z.to_nat (b - a)) (drop (Z.to_nat a) l)) at 1. f_equal.
    rewrite drop_drop. f_equal. lia.
  - unfold len in *. rewrite length_take. lia.
Qed.

Lemma slice_at_ok {E A} (a b : Z) (l : list A) :
  0 ≤ a → a ≤ b → b ≤ len l → slice_at (E := E) a b l = Ok (slice a b l).
Proof. intros. unfold slice_at. case_match eqn:Hb; [done|lia]. Qed.

Lemma copy_from_slice_ok {E A} (n : Z) (l : list A) :
  len l = n → copy_from_slice (E := E) n l = Ok l.
Proof. intros <-. unfold copy_from_slice. by rewrite Z.eqb_refl. Qed.

Lemma usize_sub_le a b : b ≤ a → usize_sub a b = a - b.
Proof. intros H. unfold usize_sub. case_match eqn:Hb; [lia|done]. Qed.

Lemma slice_at_app_mid {E A} (a b : Z) (pre mid post : list A) :
  a = len pre → b = len pre + len mid → slice_at (E := E) a b (pre ++ mid ++ post) = Ok mid.
Proof.
  intros -> ->. rewrite slice_at_ok by (rewrite ?len_app; pose proof (len_nonneg pre);
    pose proof (len_nonneg mid); pose proof (len_nonneg post); lia).
  by rewrite slice_app_mid.
Qed.

Lemma slice_at_prefix {E A} (b : Z) (mid post : list A) :
  b = len mid → slice_at (E := E) 0 b (mid ++ post) = Ok mid.
Proof. intros ->. by apply (slice_at_app_mid _ _ []). Qed.

(** ** Lemmas on sums *)

Lemma zsum_cons {A} (f : A → Z) x l : zsum f (x :: l) = f x + zsum f l.
Proof. done. Qed.

Lemma zsum_app {A} (f : A → Z) k l : zsum f (k ++ l) = zsum f k + zsum f l.
Proof. induction k; [done|]. simpl app. rewrite !zsum_cons. lia. Qed.

Lemma zsum_le {A} (f g : A → Z) l : (∀ x, x ∈ l → f x ≤ g x) → zsum f l ≤ zsum g l.
Proof.
  induction l as [|x l IH]; intros H; [done|]. rewrite !zsum_cons.
  pose proof (H x ltac:(by left)). assert (zsum f l ≤ zsum g l); [|lia].
  apply IH. intros y Hy. apply H. by right.
Qed.

Lemma zsum_nonneg {A} (f : A → Z) l : (∀ x, x ∈ l → 0 ≤ f x) → 0 ≤ zsum f l.
Proof.
  induction l as [|x l IH]; intros H; [done|]. rewrite zsum_cons.
  pose proof (H x ltac:(by left)). assert (0 ≤ zsum f l); [|lia].
  apply IH. intros y Hy. apply H. by right.
Qed.

Lemma zsum_scale {A} c (f : A → Z) l : zsum (λ x, c * f x) l = c * zsum f l.
Proof. induction l as [|x l IH]; [simpl; lia|]. rewrite !zsum_cons, IH. lia. Qed.

Lemma zsum_fmap {A B} (f : B → Z) (g : A → B) l : zsum f (g <$> l) = zsum (f ∘ g) l.
Proof. induction l as [|x l IH]; [done|]. by rewrite fmap_cons, !zsum_cons, IH. Qed.

Lemma zsum_len_mjoin {A B} (f : A → list B) l : zsum (λ x, len (f x)) l = len (mjoin (f <$> l)).
Proof. induction l as [|x l IH]; [done|]. by rewrite zsum_cons, mjoin_fmap_cons, len_app, IH. Qed.

#[global] Arguments le_bytes : simpl never.
#[global] Arguments le_val : simpl never.
#[global] Arguments zeros : simpl never.
#[global] Arguments slice : simpl never.
#[global] Arguments len : simpl never.
