(* ===== verification/Text.v ===== *)
(** * Text: what the program uses of Rust's [str] and of its formatting

    A [str] is the list of its Unicode scalar values. *)
From S2P Require Import Prelude.

(** The number of bytes of the UTF-8 encoding ([str::len]). *)
Definition utf8_len_char (c : Z) : Z :=
  if c <? 0x80 then 1 else if c <? 0x800 then 2 else if c <? 0x10000 then 3 else 4.

Definition utf8_len (s : rstr) : Z := zsum utf8_len_char s.

Definition is_ascii_digit (c : Z) : bool := (48 <=? c) && (c <=? 57).

Fixpoint strip_prefix (p s : rstr) : option rstr :=
  match p, s with
  | [], _ => Some s
  | a :: p, b :: s => if a =? b then strip_prefix p s else None
  | _ :: _, [] => None
  end.

Definition strip_suffix (p s : rstr) : option rstr :=
  (λ r, rev r) <$> strip_prefix (rev p) (rev s).

(** [str::parse] of an unsigned integer at most [maxv]: an optional [+], then
    at least one digit, and no overflow. *)
Fixpoint digits_val (acc maxv : Z) (s : rstr) : option Z :=
  match s with
  | [] => Some acc
  | c :: s =>
    if is_ascii_digit c then
      let acc' := acc * 10 + (c - 48) in
      if maxv <? acc' then None else digits_val acc' maxv s
    else None
  end.

Definition parse_uint (maxv : Z) (s : rstr) : option Z :=
  match s with
  | [] => None
  | c :: r =>
    if (c =? 43) && negb (bool_decide (r = [])) then digits_val 0 maxv r else digits_val 0 maxv s
  end.

(** [{n}]: the decimal digits, and [{n:0w}]: padded with zeros to width [w]. *)
Fixpoint dec_rev (fuel : nat) (n : Z) : rstr :=
  match fuel with
  | O => []
  | S f => if n <? 10 then [48 + n] else (48 + n `mod` 10) :: dec_rev f (n `div` 10)
  end.

Definition fmt_dec (n : Z) : rstr := rev (dec_rev (S (Z.to_nat (Z.log2 n))) n).

Definition pad_left (w : nat) (s : rstr) : rstr := replicate (w - length s) 48 ++ s.

Definition fmt_dec0 (w : nat) (n : Z) : rstr := pad_left w (fmt_dec n).

(** [{n:x}]. *)
Fixpoint hex_rev (fuel : nat) (n : Z) : rstr :=
  let digit d := if d <? 10 then 48 + d else 87 + d in
  match fuel with
  | O => []
  | S f => if n <? 16 then [digit n] else digit (n `mod` 16) :: hex_rev f (n `div` 16)
  end.

Definition fmt_hex (n : Z) : rstr := rev (hex_rev (S (Z.to_nat (Z.log2 n))) n).

Definition fmt_hex0 (w : nat) (n : Z) : rstr := pad_left w (fmt_hex n).

(** [char::is_whitespace]. *)
Definition is_whitespace (c : Z) : bool :=
  ((9 <=? c) && (c <=? 13)) || (c =? 32) || (c =? 0x85) || (c =? 0xA0) || (c =? 0x1680)
  || ((0x2000 <=? c) && (c <=? 0x200A)) || (c =? 0x2028) || (c =? 0x2029) || (c =? 0x202F)
  || (c =? 0x205F) || (c =? 0x3000).

Fixpoint trim_start (s : rstr) : rstr :=
  match s with
  | c :: r => if is_whitespace c then trim_start r else s
  | [] => []
  end.

Definition trim (s : rstr) : rstr := rev (trim_start (rev (trim_start s))).

(** [split_whitespace]; [cur] is the word being read. *)
Fixpoint words (cur s : rstr) : list rstr :=
  match s with
  | [] => if bool_decide (cur = []) then [] else [cur]
  | c :: s =>
    if is_whitespace c then
      if bool_decide (cur = []) then words [] s else cur :: words [] s
    else words (cur ++ [c]) s
  end.

Definition split_whitespace (s : rstr) : list rstr := words [] s.

(** [str::lines] and [BufRead::lines]: the pieces ended by a line feed, without
    it and without a carriage return in front of it, and the rest if any;
    [cur] is the line being read. *)
Definition strip_cr {A} `{EqDecision A} (cr : A) (l : list A) : list A :=
  match last l with
  | Some c => if bool_decide (c = cr) then take (length l - 1) l else l
  | None => l
  end.

Fixpoint split_lines {A} `{EqDecision A} (lf cr : A) (cur s : list A) : list (list A) :=
  match s with
  | [] => if bool_decide (cur = []) then [] else [cur]
  | c :: s =>
    if bool_decide (c = lf) then strip_cr cr cur :: split_lines lf cr [] s
    else split_lines lf cr (cur ++ [c]) s
  end.

Definition str_lines (s : rstr) : list rstr := split_lines 10 13 [] s.

(** [str::from_utf8], and the encoding. *)
Definition cont (b : byte) : bool := (0x80 <=? byteZ b) && (byteZ b <? 0xC0).

Fixpoint utf8_decode (bs : bytes) : option rstr :=
  match bs with
  | [] => Some []
  | a :: r1 =>
    let x := byteZ a in
    if x <? 0x80 then cons x <$> utf8_decode r1
    else
      match r1 with
      | [] => None
      | b :: r2 =>
        let y := byteZ b in
        if (0xC2 <=? x) && (x <? 0xE0) && cont b then
          cons ((x - 0xC0) * 64 + (y - 0x80)) <$> utf8_decode r2
        else
          match r2 with
          | [] => None
          | c :: r3 =>
            let z := byteZ c in
            if (0xE0 <=? x) && (x <? 0xF0) && cont b && cont c
               && (negb (x =? 0xE0) || (0xA0 <=? y)) && (negb (x =? 0xED) || (y <? 0xA0)) then
              cons ((x - 0xE0) * 4096 + (y - 0x80) * 64 + (z - 0x80)) <$> utf8_decode r3
            else
              match r3 with
              | [] => None
              | d :: r4 =>
                if (0xF0 <=? x) && (x <? 0xF5) && cont b && cont c && cont d
                   && (negb (x =? 0xF0) || (0x90 <=? y)) && (negb (x =? 0xF4) || (y <? 0x90)) then
                  cons ((x - 0xF0) * 262144 + (y - 0x80) * 4096 + (z - 0x80) * 64 + (byteZ d - 0x80))
                    <$> utf8_decode r4
                else None
              end
          end
      end
  end.

Definition utf8_encode_char (c : Z) : bytes :=
  if c <? 0x80 then [Zbyte c]
  else if c <? 0x800 then [Zbyte (0xC0 + c `div` 64); Zbyte (0x80 + c `mod` 64)]
  else if c <? 0x10000 then
    [Zbyte (0xE0 + c `div` 4096); Zbyte (0x80 + c `div` 64 `mod` 64); Zbyte (0x80 + c `mod` 64)]
  else
    [Zbyte (0xF0 + c `div` 262144); Zbyte (0x80 + c `div` 4096 `mod` 64);
     Zbyte (0x80 + c `div` 64 `mod` 64); Zbyte (0x80 + c `mod` 64)].

Definition utf8_encode (s : rstr) : bytes := mjoin (utf8_encode_char <$> s).

(** The order of [str] (of the UTF-8 bytes, which is that of the scalar values). *)
Fixpoint str_le (a b : rstr) : bool :=
  match a, b with
  | [], _ => true
  | _ :: _, [] => false
  | x :: a, y :: b => (x <? y) || ((x =? y) && str_le a b)
  end.

(** ** Lemmas *)

Lemma strip_prefix_Some p s r : strip_prefix p s = Some r ↔ s = p ++ r.
Proof.
  revert s. induction p as [|a p IH]; intros s; simpl; [naive_solver|].
  destruct s as [|b s]; [naive_solver|]. case_match eqn:Hab; [|naive_solver lia].
  rewrite IH. assert (a = b) as -> by lia. naive_solver.
Qed.

Lemma strip_suffix_Some p s r : strip_suffix p s = Some r ↔ s = r ++ p.
Proof.
  unfold strip_suffix. rewrite fmap_Some. split.
  - intros (x & Hx & ->). apply strip_prefix_Some in Hx.
    rewrite <-(rev_involutive s), Hx, rev_app_distr. by rewrite rev_involutive.
  - intros ->. exists (rev r). rewrite strip_prefix_Some, rev_app_distr, rev_involutive. done.
Qed.

Lemma digits_val_app acc maxv s c :
  0 ≤ acc → is_ascii_digit c = true →
  digits_val acc maxv (s ++ [c]) =
    (v ← digits_val acc maxv s;
     if maxv <? v * 10 + (c - 48) then None else Some (v * 10 + (c - 48))).
Proof.
  intros Hacc Hc. revert acc Hacc. induction s as [|d s IH]; intros acc Hacc; simpl.
  { rewrite Hc. done. }
  destruct (is_ascii_digit d) eqn:Hd; [|done]. case_match; [done|].
  apply IH. unfold is_ascii_digit in Hd. lia.
Qed.

Lemma dec_rev_digits fuel n :
  0 ≤ n → Forall (λ c, is_ascii_digit c = true) (dec_rev fuel n).
Proof.
  revert n. induction fuel as [|f IH]; intros n Hn; simpl; [constructor|].
  pose proof (Z.mod_pos_bound n 10). case_match; constructor.
  - unfold is_ascii_digit. lia.
  - constructor.
  - unfold is_ascii_digit. lia.
  - apply IH. apply Z.div_pos; lia.
Qed.

Lemma digits_val_dec_rev fuel n maxv :
  0 ≤ n ≤ maxv → n < 2 ^ Z.of_nat fuel →
  digits_val 0 maxv (rev (dec_rev fuel n)) = Some n.
Proof.
  revert n. induction fuel as [|f IH]; intros n Hn Hf; [simpl; f_equal; lia|].
  simpl dec_rev. pose proof (Z.mod_pos_bound n 10 ltac:(lia)) as Hm.
  pose proof (Z.div_mod n 10 ltac:(lia)) as Hdm.
  destruct (n <? 10) eqn:H10.
  - simpl. replace (is_ascii_digit (48 + n)) with true by (unfold is_ascii_digit; lia).
    case_match; [lia|]. f_equal. lia.
  - simpl rev. rewrite Nat2Z.inj_succ, Z.pow_succ_r in Hf by lia.
    assert (0 ≤ n `div` 10) by (apply Z.div_pos; lia).
    rewrite digits_val_app by (done || unfold is_ascii_digit; lia).
    rewrite IH by lia. simpl. case_match; [lia|]. f_equal. lia.
Qed.

Lemma fmt_dec_digits n : 0 ≤ n → Forall (λ c, is_ascii_digit c = true) (fmt_dec n).
Proof. intros. unfold fmt_dec. by apply Forall_rev, dec_rev_digits. Qed.

Lemma digits_val_fmt_dec n maxv : 0 ≤ n ≤ maxv → digits_val 0 maxv (fmt_dec n) = Some n.
Proof.
  intros Hn. apply digits_val_dec_rev; [done|].
  destruct (decide (n = 0)) as [->|]; [done|].
  pose proof (Z.log2_spec n). pose proof (Z.log2_nonneg n).
  rewrite Nat2Z.inj_succ, Z2Nat.id by lia. lia.
Qed.

Lemma fmt_dec_ne n : fmt_dec n ≠ [].
Proof.
  unfold fmt_dec. cbn [dec_rev]. destruct (n <? 10); simpl; [done|].
  intros H%app_eq_nil. naive_solver.
Qed.

Lemma digits_no_plus s : Forall (λ c, is_ascii_digit c = true) s → ∀ r, s ≠ 43 :: r.
Proof. intros Hs r ->. by apply Forall_cons_1 in Hs as [? _]. Qed.

Lemma parse_uint_digits maxv s :
  s ≠ [] → (∀ r, s ≠ 43 :: r) → parse_uint maxv s = digits_val 0 maxv s.
Proof.
  intros Hs Hp. unfold parse_uint. destruct s as [|c s]; [done|].
  destruct (c =? 43) eqn:Hc; [|done]. destruct (Hp s). f_equal. lia.
Qed.

Lemma parse_uint_fmt_dec n maxv : 0 ≤ n ≤ maxv → parse_uint maxv (fmt_dec n) = Some n.
Proof.
  intros Hn. rewrite parse_uint_digits.
  - by apply digits_val_fmt_dec.
  - apply fmt_dec_ne.
  - apply digits_no_plus, fmt_dec_digits. lia.
Qed.

Lemma digits_val_zeros k maxv s : 0 ≤ maxv → digits_val 0 maxv (replicate k 48 ++ s) = digits_val 0 maxv s.
Proof.
  intros Hm. induction k as [|k IH]; [done|]. simpl. case_match; [lia|]. done.
Qed.

Definition is_ascii (s : rstr) : Prop := Forall (λ c, 0 ≤ c < 0x80) s.

Lemma utf8_encode_app s t : utf8_encode (s ++ t) = utf8_encode s ++ utf8_encode t.
Proof. unfold utf8_encode. by rewrite fmap_app, join_app. Qed.

Lemma utf8_decode_ascii_app s bs :
  is_ascii s → utf8_decode (utf8_encode s ++ bs) = app s <$> utf8_decode bs.
Proof.
  induction s as [|c s IH]; intros Hs; simpl.
  { change (utf8_encode []) with (@nil byte). simpl. by destruct (utf8_decode bs). }
  apply Forall_cons in Hs as [Hc Hs]. change (c :: s) with ([c] ++ s).
  rewrite utf8_encode_app, <-app_assoc. unfold utf8_encode at 1. simpl. unfold utf8_encode_char.
  rewrite (proj2 (Z.ltb_lt c _)) by lia. simpl. rewrite byteZ_Zbyte, Z.mod_small by lia.
  rewrite (proj2 (Z.ltb_lt c _)) by lia. rewrite IH by done. by destruct (utf8_decode bs).
Qed.

Lemma utf8_decode_encode_ascii s : is_ascii s → utf8_decode (utf8_encode s) = Some s.
Proof.
  intros Hs. rewrite <-(app_nil_r (utf8_encode s)), utf8_decode_ascii_app by done. simpl.
  by rewrite app_nil_r.
Qed.

Lemma digits_ascii s : Forall (λ c, is_ascii_digit c = true) s → is_ascii s.
Proof. intros H. eapply Forall_impl; [exact H|]. intros c. unfold is_ascii_digit. lia. Qed.

Section lines.
Context {A : Type} `{EqDecision A} (lf cr : A).

(** Complete lines are split off independently of what follows. *)
Lemma split_lines_app cur s t :
  split_lines lf cr cur (s ++ lf :: t) = split_lines lf cr cur (s ++ [lf]) ++ split_lines lf cr [] t.
Proof.
  revert cur. induction s as [|c s IH]; intros cur; simpl.
  { by rewrite bool_decide_true. }
  case_bool_decide; simpl; by rewrite IH.
Qed.

Lemma split_lines_one cur s :
  lf ∉ s → split_lines lf cr cur (s ++ [lf]) = [strip_cr cr (cur ++ s)].
Proof.
  revert cur. induction s as [|c s IH]; intros cur Hs; simpl.
  { rewrite bool_decide_true by done. by rewrite app_nil_r. }
  apply not_elem_of_cons in Hs as [Hc Hs]. rewrite bool_decide_false by done.
  rewrite IH by done. by rewrite <-app_assoc.
Qed.

Lemma strip_cr_id l : (∀ x, last l = Some x → x ≠ cr) → strip_cr cr l = l.
Proof.
  intros Hl. unfold strip_cr. destruct (last l) as [c|]; [|done].
  rewrite bool_decide_false; [done|by apply Hl].
Qed.
End lines.

Lemma words_app cur s c t :
  is_whitespace c = true → words cur (s ++ c :: t) = words cur s ++ words [] t.
Proof.
  intros Hc. revert cur. induction s as [|d s IH]; intros cur; simpl.
  { rewrite Hc. by case_bool_decide. }
  destruct (is_whitespace d); [|by rewrite IH]. case_bool_decide; simpl; by rewrite IH.
Qed.

Lemma words_word cur s :
  Forall (λ c, is_whitespace c = false) s → cur ++ s ≠ [] → words cur s = [cur ++ s].
Proof.
  intros Hs. revert cur. induction Hs as [|c s Hc Hs IH]; intros cur Hne; simpl.
  { rewrite app_nil_r in *. by rewrite bool_decide_false. }
  rewrite Hc, IH, <-app_assoc; [done|]. by intros [[]%app_eq_nil ?]%app_eq_nil.
Qed.

Lemma trim_id s :
  (∀ c, head s = Some c → is_whitespace c = false) →
  (∀ c, last s = Some c → is_whitespace c = false) → trim s = s.
Proof.
  assert (∀ l : rstr, (∀ c, head l = Some c → is_whitespace c = false) → trim_start l = l) as Ht.
  { intros [|c l] Hl; [done|]. simpl. by rewrite (Hl c). }
  intros Hh Hl. unfold trim. rewrite (Ht s) by done. rewrite Ht; [apply rev_involutive|].
  intros c Hc. apply Hl. rewrite <-head_reverse. unfold reverse. by rewrite <-rev_alt.
Qed.
