(* ===== verification/Cursor.v ===== *)
(** * Cursor: the bounds-checked wire-format reader of [bidx-core/src/cursor.rs]

    The [&mut Cursor] of the source is the state of the monad [Rd]; on an error
    the cursor keeps whatever the reads before the failing one consumed, as a
    caller of the Rust method would observe. *)
From S2P Require Import Prelude.

Inductive ParseError : Type :=
  | Eof (offset needed remaining : Z)
  | BadVarInt (offset : Z)
  | CountOverflow (n offset : Z).

Record Cursor : Type := mkCursor { data : bytes; pos : Z }.

Definition MAX_ITEMS : Z := 4000000.

Definition Rd (A : Type) : Type := M Cursor ParseError A.

Definition new (d : bytes) : Cursor := mkCursor d 0.

Definition remaining (c : Cursor) : Z := usize_sub (len (data c)) (pos c).

Definition is_empty (c : Cursor) : bool := len (data c) <=? pos c.

Definition need (n : Z) : Rd () := λ c,
  if remaining c <? n then (Err (Eof (pos c) n (remaining c)), c) else (Ok (), c).

(** [self.pos += n]. *)
Definition advance (n : Z) : Rd () := λ c, (Ok (), mkCursor (data c) (pos c + n)).

(** [&self.data[self.pos..self.pos + n]]: panics past the end of the buffer. *)
Definition window (n : Z) : Rd bytes := λ c, (slice_at (pos c) (pos c + n) (data c), c).

(** [s.read_uN::<LittleEndian>().unwrap()] of [byteorder], on a slice: panics when
    it has fewer than [n] bytes. *)
Definition le_int (n : Z) (s : bytes) : Res ParseError Z :=
  if n <=? len s then Ok (le_val (slice 0 n s)) else Panic.

Definition read_bytes (n : Z) : Rd bytes :=
  _ ← need n; out ← window n; _ ← advance n; mret out.

Definition read_u8 : Rd byte :=
  _ ← need 1;
  v ← (λ c, (index (data c) (pos c), c));
  _ ← advance 1;
  mret v.

Definition read_u16 : Rd Z := _ ← need 2; s ← window 2; _ ← advance 2; m_lift (le_int 2 s).

Definition read_u32 : Rd Z := _ ← need 4; s ← window 4; _ ← advance 4; m_lift (le_int 4 s).

Definition read_i32 : Rd Z :=
  _ ← need 4; s ← window 4; _ ← advance 4; v ← m_lift (le_int 4 s); mret (i32_of_u32 v).

Definition read_u64 : Rd Z := _ ← need 8; s ← window 8; _ ← advance 8; m_lift (le_int 8 s).

Definition read_i64 : Rd Z :=
  _ ← need 8; s ← window 8; _ ← advance 8; v ← m_lift (le_int 8 s); mret (i64_of_u64 v).

Definition read_array (N : Z) : Rd bytes :=
  _ ← need N;
  s ← window N;
  out ← m_lift (copy_from_slice N s);
  _ ← advance N;
  mret out.

Definition skip (n : Z) : Rd () := _ ← need n; advance n.

Definition read_varint : Rd Z :=
  start ← m_gets pos;
  first ← read_u8;
  let f := byteZ first in
  if f <=? 0xfc then mret f
  else if f =? 0xfd then read_u16
  else if f =? 0xfe then read_u32
  else m_map_err (λ _, BadVarInt start) read_u64.

Definition read_count : Rd Z :=
  n ← read_varint;
  if MAX_ITEMS <? n then m_fail_at (λ c, CountOverflow n (pos c)) else mret n.

(** ** Specification vocabulary *)

(** A cursor inside its buffer: the state every method is called in. *)
Definition cursor_ok (c : Cursor) : Prop := 0 ≤ pos c ≤ len (data c).

(** The cursor of a buffer [pre ++ bs ++ post], standing before [bs]. *)
Definition at_cursor (pre rest : bytes) : Cursor := mkCursor (pre ++ rest) (len pre).

(** [reads m bs a]: wherever it stands, [m] consumes exactly the bytes [bs] and
    returns [a], whatever follows them. *)
Definition reads {E A} (m : M Cursor E A) (bs : bytes) (a : A) : Prop :=
  ∀ pre post, m (at_cursor pre (bs ++ post)) = (Ok a, at_cursor (pre ++ bs) post).

(** [well_behaved m]: [m] never panics, keeps the buffer, moves only forward
    and stays inside the buffer, on success and on failure. *)
Definition well_behaved {E A} (m : M Cursor E A) : Prop :=
  ∀ c, cursor_ok c →
    fst (m c) ≠ Panic ∧ data (snd (m c)) = data c ∧
    pos c ≤ pos (snd (m c)) ∧ cursor_ok (snd (m c)).

(** The reference encoding of a compact-size integer. *)
Definition varint (n : Z) : bytes :=
  if n <=? 0xfc then [Zbyte n]
  else if n <=? 0xffff then xfd :: le_bytes 2 n
  else if n <=? 0xffffffff then xfe :: le_bytes 4 n
  else xff :: le_bytes 8 n.

Definition varint_len (n : Z) : Z :=
  if n <=? 0xfc then 1 else if n <=? 0xffff then 3 else if n <=? 0xffffffff then 5 else 9.

(** ** Composition of [reads] *)

Lemma reads_ret {E A} (a : A) : reads (E := E) (mret a) [] a.
Proof. intros pre post. by rewrite app_nil_r. Qed.

Lemma reads_bind {E A B} (m : M Cursor E A) (f : A → M Cursor E B) bs1 bs2 a b :
  reads m bs1 a → reads (f a) bs2 b → reads (m ≫= f) (bs1 ++ bs2) b.
Proof.
  intros Hm Hf pre post. unfold mbind, M_bind.
  by rewrite <-app_assoc, Hm, Hf, app_assoc.
Qed.

Lemma reads_bind_nil {E A B} (m : M Cursor E A) (f : A → M Cursor E B) bs a b :
  reads m [] a → reads (f a) bs b → reads (m ≫= f) bs b.
Proof. apply (reads_bind m f [] bs). Qed.

Lemma reads_bind_last {E A B} (m : M Cursor E A) (f : A → M Cursor E B) bs a b :
  reads m bs a → reads (f a) [] b → reads (m ≫= f) bs b.
Proof. intros Hm Hf. rewrite <-(app_nil_r bs). by apply reads_bind with a. Qed.

Lemma reads_gets {E A B} (g : Cursor → A) (f : A → M Cursor E B) bs b :
  (∀ a, reads (f a) bs b) → reads (m_gets g ≫= f) bs b.
Proof. intros H pre post. unfold mbind, M_bind, m_gets. apply H. Qed.

Lemma reads_map_err {E E' A} (f : E → E') (m : M Cursor E A) bs a :
  reads m bs a → reads (m_map_err f m) bs a.
Proof. intros Hm pre post. unfold m_map_err. by rewrite Hm. Qed.

(** A counted loop reads the encodings of a list, one element a round. *)
Lemma reads_for_collect {E A X} (body : Z → M Cursor E A) (enc : X → bytes)
    (val : Z → X → A) (xs : list X) i :
  (∀ k x, x ∈ xs → reads (body k) (enc x) (val k x)) →
  reads (for_collect (length xs) i body) (mjoin (enc <$> xs))
    (imap (λ k, val (i + Z.of_nat k)) xs).
Proof.
  revert i. induction xs as [|x xs IH]; intros i H; [apply reads_ret|].
  rewrite mjoin_fmap_cons. simpl length. cbn [for_collect].
  apply reads_bind with (val i x); [apply H; left|].
  apply reads_bind_last with (imap (λ k, val (i + 1 + Z.of_nat k)) xs).
  { apply IH. intros k y Hy. apply H. by right. }
  rewrite imap_cons, Z.add_0_r.
  rewrite (imap_ext (λ k, val (i + 1 + Z.of_nat k)) ((λ k, val (i + Z.of_nat k)) ∘ S)).
  - apply reads_ret.
  - intros k y Hy. simpl. f_equal. lia.
Qed.

(** Running a program that starts with a read. *)
Lemma run_reads {E A B} (m : M Cursor E A) (f : A → M Cursor E B) bs a pre rest :
  reads m bs a →
  (m ≫= f) (at_cursor pre (bs ++ rest)) = f a (at_cursor (pre ++ bs) rest).
Proof. intros Hm. unfold mbind, M_bind. by rewrite Hm. Qed.

Lemma run_reads_nil {E A B} (m : M Cursor E A) (f : A → M Cursor E B) a pre rest :
  reads m [] a → (m ≫= f) (at_cursor pre rest) = f a (at_cursor pre rest).
Proof. intros Hm. rewrite <-(app_nil_l rest), (run_reads _ _ _ a), app_nil_r; done. Qed.

Lemma run_gets {E A B} (g : Cursor → A) (f : A → M Cursor E B) c :
  (m_gets g ≫= f) c = f (g c) c.
Proof. done. Qed.

(** ** What each read consumes and returns *)

Lemma at_cursor_ok pre rest : cursor_ok (at_cursor pre rest).
Proof. unfold cursor_ok, at_cursor; simpl. len_lia. Qed.

Lemma remaining_ok c : cursor_ok c → remaining c = len (data c) - pos c.
Proof. unfold cursor_ok. intros Hc. apply usize_sub_le. lia. Qed.

Lemma le_int_ok n s : len s = n → le_int n s = Ok (le_val s).
Proof.
  intros <-. unfold le_int. rewrite Z.leb_refl. by rewrite <-(app_nil_r s) at 2; rewrite slice_prefix.
Qed.

Lemma need_at n pre rest :
  n ≤ len rest → need n (at_cursor pre rest) = (Ok (), at_cursor pre rest).
Proof.
  intros Hn. unfold need. rewrite remaining_ok by apply at_cursor_ok.
  unfold at_cursor; simpl. rewrite len_app. case_match eqn:Hb; [|done]. lia.
Qed.

Lemma window_at bs pre post :
  window (len bs) (at_cursor pre (bs ++ post)) = (Ok bs, at_cursor pre (bs ++ post)).
Proof. unfold window, at_cursor; simpl. by rewrite slice_at_app_mid. Qed.

Lemma advance_at bs pre post :
  advance (len bs) (at_cursor pre (bs ++ post)) = (Ok (), at_cursor (pre ++ bs) post).
Proof.
  unfold advance, at_cursor; simpl. rewrite len_app, <-app_assoc. done.
Qed.

Lemma reads_bytes n bs : len bs = n → reads (read_bytes n) bs bs.
Proof.
  intros <- pre post. unfold read_bytes. m_unfold.
  rewrite need_at by len_lia. by rewrite window_at, advance_at.
Qed.

Lemma reads_array n bs : len bs = n → reads (read_array n) bs bs.
Proof.
  intros <- pre post. unfold read_array. m_unfold.
  rewrite need_at by len_lia. by rewrite window_at, copy_from_slice_ok, advance_at.
Qed.

Lemma reads_skip n bs : len bs = n → reads (skip n) bs ().
Proof.
  intros <- pre post. unfold skip. m_unfold.
  rewrite need_at by len_lia. by rewrite advance_at.
Qed.

Lemma reads_u8 b : reads read_u8 [b] b.
Proof.
  intros pre post. unfold read_u8. m_unfold.
  rewrite need_at by len_lia.
  unfold index. simpl data. simpl pos.
  rewrite to_nat_len, lookup_app_r, Nat.sub_diag by lia. simpl.
  unfold advance, at_cursor; simpl. by rewrite len_app, <-app_assoc.
Qed.

Lemma reads_uint (n : nat) (z : Z) :
  reads (_ ← need (Z.of_nat n); s ← window (Z.of_nat n); _ ← advance (Z.of_nat n);
         m_lift (le_int (Z.of_nat n) s) : Rd Z)
        (le_bytes n z) (le_val (le_bytes n z)).
Proof.
  intros pre post. m_unfold. rewrite <-(len_le_bytes n z).
  rewrite need_at by len_lia. by rewrite window_at, advance_at, le_int_ok.
Qed.

Lemma reads_u16 z : 0 ≤ z < 2 ^ 16 → reads read_u16 (le_bytes 2 z) z.
Proof. intros Hz. rewrite <-(le_val_bytes_small 2 z Hz) at 2. apply (reads_uint 2 z). Qed.

Lemma reads_u32 z : is_u32 z → reads read_u32 (le_bytes 4 z) z.
Proof. intros Hz. rewrite <-(le_val_bytes_small 4 z Hz) at 2. apply (reads_uint 4 z). Qed.

Lemma reads_u64 z : is_u64 z → reads read_u64 (le_bytes 8 z) z.
Proof. intros Hz. rewrite <-(le_val_bytes_small 8 z Hz) at 2. apply (reads_uint 8 z). Qed.

Lemma reads_i32 z : is_i32 z → reads read_i32 (le_bytes 4 z) z.
Proof.
  intros Hz pre post. unfold read_i32. m_unfold. change 4 with (Z.of_nat 4).
  rewrite <-(len_le_bytes 4 z). rewrite need_at by len_lia.
  rewrite window_at, advance_at, le_int_ok by done. by rewrite i32_of_le_bytes.
Qed.

#[export] Hint Resolve reads_u8 reads_u16 reads_u32 reads_u64 reads_i32 reads_bytes
  reads_array reads_skip reads_ret : bidx.

Lemma len_varint n : len (varint n) = varint_len n.
Proof. unfold varint, varint_len. by repeat case_match. Qed.


Lemma reads_varint n : is_u64 n → reads read_varint (varint n) n.
Proof.
  unfold is_u64. intros Hn. unfold read_varint. apply reads_gets. intros start.
  unfold varint. destruct (n <=? 0xfc) eqn:H1.
  { apply reads_bind_last with (Zbyte n); [apply reads_u8|].
    rewrite byteZ_Zbyte, Z.mod_small, H1 by lia. apply reads_ret. }
  destruct (n <=? 0xffff) eqn:H2; [|destruct (n <=? 0xffffffff) eqn:H3].
  - apply (reads_bind _ _ [xfd] _ xfd); [apply reads_u8|]. apply reads_u16. lia.
  - apply (reads_bind _ _ [xfe] _ xfe); [apply reads_u8|]. apply reads_u32.
    unfold is_u32. lia.
  - apply (reads_bind _ _ [xff] _ xff); [apply reads_u8|].
    apply reads_map_err, reads_u64. done.
Qed.

Lemma reads_count n : 0 ≤ n ≤ MAX_ITEMS → reads read_count (varint n) n.
Proof.
  intros Hn. unfold read_count. apply reads_bind_last with n.
  - apply reads_varint. unfold is_u64, MAX_ITEMS in *. lia.
  - case_match; [lia|]. apply reads_ret.
Qed.

#[export] Hint Resolve reads_varint reads_count reads_map_err : bidx.

(** ** Safety of the reads *)

Lemma wb_ret {E A} (a : A) : well_behaved (E := E) (mret a).
Proof. intros c Hc. simpl. repeat split; try done; unfold cursor_ok in *; lia. Qed.

Lemma wb_bind {E A B} (m : M Cursor E A) (f : A → M Cursor E B) :
  well_behaved m → (∀ a, well_behaved (f a)) → well_behaved (m ≫= f).
Proof.
  intros Hm Hf c Hc. destruct (Hm c Hc) as (Hp & Hd & Hle & Hok).
  m_unfold. destruct (m c) as [[a|e|] c']; simpl in *; [|done|done].
  destruct (Hf a c' Hok) as (Hp' & Hd' & Hle' & Hok').
  repeat split; try done; unfold cursor_ok in *; try congruence; lia.
Qed.

Lemma wb_map_err {E E' A} (f : E → E') (m : M Cursor E A) :
  well_behaved m → well_behaved (m_map_err f m).
Proof.
  intros Hm c Hc. destruct (Hm c Hc) as (Hp & Hrest). unfold m_map_err.
  destruct (m c) as [[]]; simpl in *; done.
Qed.

Lemma wb_gets {E A B} (g : Cursor → A) (f : A → M Cursor E B) :
  (∀ a, well_behaved (f a)) → well_behaved (m_gets g ≫= f).
Proof. intros Hf c Hc. apply Hf, Hc. Qed.

Lemma wb_fail_at {E A} (f : Cursor → E) : well_behaved (m_fail_at (A := A) f).
Proof. intros c Hc. simpl. repeat split; try done; unfold cursor_ok in *; lia. Qed.

Lemma wb_if {E A} (b : bool) (m1 m2 : M Cursor E A) :
  well_behaved m1 → well_behaved m2 → well_behaved (if b then m1 else m2).
Proof. by destruct b. Qed.

Lemma wb_for_collect {E A} n i (body : Z → M Cursor E A) :
  (∀ k, well_behaved (body k)) → well_behaved (for_collect n i body).
Proof.
  intros Hb. revert i. induction n as [|n IH]; intros i; simpl; [apply wb_ret|].
  apply wb_bind; [done|]. intros a. apply wb_bind; [done|]. intros l. apply wb_ret.
Qed.

(** ** What the reads return *)

(** The Hoare triple of a computation on the cursor: it is well behaved, moves
    by at least [n] when it returns, and what it returns satisfies [P]. *)
Definition runs {E A} (m : M Cursor E A) (n : Z) (P : A → Prop) : Prop :=
  ∀ c, cursor_ok c →
    match m c with
    | (Ok a, c') => data c' = data c ∧ pos c + n ≤ pos c' ∧ cursor_ok c' ∧ P a
    | (Err _, c') => data c' = data c ∧ pos c ≤ pos c' ∧ cursor_ok c'
    | (Panic, _) => False
    end.

Lemma runs_wb {E A} (m : M Cursor E A) : well_behaved m → runs m 0 (λ _, True).
Proof.
  intros Hm c Hc. destruct (Hm c Hc) as (Hp & Hd & Hle & Hok).
  destruct (m c) as [[a|e|] c']; simpl in *; [|done|done]. split_and!; try done. lia.
Qed.

Lemma wb_runs {E A} (m : M Cursor E A) n P : 0 ≤ n → runs m n P → well_behaved m.
Proof.
  intros Hn Hm c Hc. specialize (Hm c Hc).
  destruct (m c) as [[a|e|] c']; simpl in *; [| |done].
  - destruct Hm as (? & ? & ? & ?). split_and!; try done. lia.
  - destruct Hm as (? & ? & ?). by split_and!.
Qed.

Lemma runs_ret {E A} (a : A) (P : A → Prop) : P a → runs (E := E) (mret a) 0 P.
Proof. intros Ha c Hc. simpl. split_and!; try done. lia. Qed.

Lemma runs_weaken {E A} (m : M Cursor E A) n n' P (Q : A → Prop) :
  n' ≤ n → runs m n P → (∀ a, P a → Q a) → runs m n' Q.
Proof.
  intros Hn Hm HPQ c Hc. specialize (Hm c Hc). destruct (m c) as [[a|e|] c']; [|done|done].
  destruct Hm as (? & ? & ? & ?). split_and!; auto. lia.
Qed.

Lemma runs_bind {E A B} (m : M Cursor E A) (f : A → M Cursor E B) n k P Q :
  0 ≤ n → 0 ≤ k → runs m n P → (∀ a, P a → runs (f a) k Q) → runs (m ≫= f) (n + k) Q.
Proof.
  intros Hn Hk Hm Hf c Hc. specialize (Hm c Hc). m_unfold.
  destruct (m c) as [[a|e|] c']; [|done|done].
  destruct Hm as (Hd & Hle & Hok & Ha). specialize (Hf a Ha c' Hok).
  destruct (f a c') as [[b|e|] c'']; [| |done].
  - destruct Hf as (? & ? & ? & ?). split_and!; try done; try congruence; lia.
  - destruct Hf as (? & ? & ?). split_and!; try congruence; lia.
Qed.

(** The common case: the amount consumed does not matter. *)
Lemma runs_bind0 {E A B} (m : M Cursor E A) (f : A → M Cursor E B) P Q :
  runs m 0 P → (∀ a, P a → runs (f a) 0 Q) → runs (m ≫= f) 0 Q.
Proof. intros. by apply (runs_bind m f 0 0 P Q). Qed.

Lemma runs_map_err {E E' A} (f : E → E') (m : M Cursor E A) n P :
  runs m n P → runs (m_map_err f m) n P.
Proof.
  intros Hm c Hc. specialize (Hm c Hc). unfold m_map_err.
  by destruct (m c) as [[a|e|] c'].
Qed.

Lemma runs_fail_at {E A} (f : Cursor → E) n (P : A → Prop) : runs (m_fail_at f) n P.
Proof. intros c Hc. simpl. split_and!; done. Qed.

Lemma runs_fail {E A} (e : E) n (P : A → Prop) : runs (m_fail e) n P.
Proof. intros c Hc. simpl. split_and!; done. Qed.

Lemma runs_if {E A} (b : bool) (m1 m2 : M Cursor E A) n P :
  (b = true → runs m1 n P) → (b = false → runs m2 n P) → runs (if b then m1 else m2) n P.
Proof. destruct b; auto. Qed.

Lemma runs_gets {E A B} (g : Cursor → A) (f : A → M Cursor E B) n P :
  (∀ a, runs (f a) n P) → runs (m_gets g ≫= f) n P.
Proof. intros Hf c Hc. by apply Hf. Qed.

Lemma runs_for_collect {E A} n i (body : Z → M Cursor E A) (P : Z → A → Prop) :
  (∀ k, runs (body k) 0 (P k)) →
  runs (for_collect n i body) 0
    (λ l, length l = n ∧ ∀ j a, l !! j = Some a → P (i + Z.of_nat j) a).
Proof.
  intros Hb. revert i. induction n as [|n IH]; intros i; simpl.
  { apply runs_ret. split; [done|]. intros j a Hj. done. }
  eapply runs_bind0; [apply Hb|]. intros a Ha.
  eapply runs_bind0; [apply IH|]. intros l [Hl HP]. apply runs_ret. split; [simpl; lia|].
  intros [|j] b Hj; simpl in Hj; simplify_eq.
  - by rewrite Z.add_0_r.
  - replace (i + Z.of_nat (S j)) with (i + 1 + Z.of_nat j) by lia. by apply HP.
Qed.

(** After [need n], what a read does to its window is in range; it moves by [n]. *)
Lemma runs_need {A} n (m : Rd A) (P : A → Prop) :
  (∀ c, cursor_ok c → n ≤ len (data c) - pos c →
    ∃ a, m c = (Ok a, mkCursor (data c) (pos c + n)) ∧ P a) →
  0 ≤ n → runs (_ ← need n; m) n P.
Proof.
  intros Hm Hn c Hc. m_unfold. unfold need. rewrite remaining_ok by done.
  destruct (_ <? n) eqn:Hb; [by split_and!|].
  destruct (Hm c Hc) as (a & -> & Ha); [lia|]. simpl.
  split_and!; [done|lia| |done]. unfold cursor_ok in *. simpl. lia.
Qed.

Lemma window_ok n c : cursor_ok c → 0 ≤ n ≤ len (data c) - pos c →
  ∃ s, window n c = (Ok s, c) ∧ len s = n.
Proof.
  unfold cursor_ok. intros Hc Hn. exists (slice (pos c) (pos c + n) (data c)).
  unfold window. rewrite slice_at_ok, len_slice by lia. split; [done|lia].
Qed.

Lemma runs_bytes n : 0 ≤ n → runs (read_bytes n) n (λ b, len b = n).
Proof.
  intros Hn. apply runs_need; [|done]. intros c Hc Hr. m_unfold.
  destruct (window_ok n c Hc) as (s & -> & Hs); [lia|]. by exists s.
Qed.

Lemma runs_array n : 0 ≤ n → runs (read_array n) n (λ b, len b = n).
Proof.
  intros Hn. apply runs_need; [|done]. intros c Hc Hr. m_unfold.
  destruct (window_ok n c Hc) as (s & -> & Hs); [lia|].
  rewrite copy_from_slice_ok by done. by exists s.
Qed.

Lemma runs_skip n : 0 ≤ n → runs (skip n) n (λ _, True).
Proof. intros Hn. apply runs_need; [|done]. intros c Hc Hr. by exists (). Qed.

Lemma runs_u8 : runs read_u8 1 (λ _, True).
Proof.
  apply runs_need; [|done]. intros c Hc Hr. m_unfold. unfold cursor_ok, index in *.
  destruct (lookup_lt_is_Some_2 (data c) (Z.to_nat (pos c))) as [b ->].
  { unfold len in *. lia. }
  by exists b.
Qed.

(** The four shapes of an integer read. *)
Lemma runs_uint n : 0 ≤ n →
  runs (_ ← need n; s ← window n; _ ← advance n; m_lift (le_int n s) : Rd Z) n
    (λ v, 0 ≤ v < 256 ^ n).
Proof.
  intros Hn. apply runs_need; [|done]. intros c Hc Hr. m_unfold.
  destruct (window_ok n c Hc) as (s & -> & Hs); [lia|]. cbn.
  rewrite le_int_ok by done. eexists. split; [done|]. rewrite <-Hs. apply le_val_bound.
Qed.

Lemma runs_sint n (f : Z → Z) : 0 ≤ n →
  runs (_ ← need n; s ← window n; _ ← advance n; v ← m_lift (le_int n s); mret (f v) : Rd Z) n
    (λ _, True).
Proof.
  intros Hn. apply runs_need; [|done]. intros c Hc Hr. m_unfold.
  destruct (window_ok n c Hc) as (s & -> & Hs); [lia|]. cbn.
  rewrite le_int_ok by done. by eexists.
Qed.

Lemma runs_i32 : runs read_i32 4 (λ _, True).
Proof. by apply (runs_sint 4 i32_of_u32). Qed.

Lemma runs_i64 : runs read_i64 8 (λ _, True).
Proof. by apply (runs_sint 8 i64_of_u64). Qed.

Lemma runs_u16 : runs read_u16 2 (λ n, 0 ≤ n < 2 ^ 16).
Proof. by apply (runs_uint 2). Qed.

Lemma runs_u32 : runs read_u32 4 is_u32.
Proof. by apply (runs_uint 4). Qed.

Lemma runs_u64 : runs read_u64 8 is_u64.
Proof. by apply (runs_uint 8). Qed.

Lemma runs_varint : runs read_varint 1 is_u64.
Proof.
  apply runs_gets. intros start. apply (runs_bind _ _ 1 0 (λ _, True)); [done..|apply runs_u8|].
  intros b _. pose proof (byteZ_bound b). cbv zeta. repeat (apply runs_if; intros ?).
  - apply runs_ret. unfold is_u64. lia.
  - eapply runs_weaken; [|apply runs_u16|]; [done|]. unfold is_u64. simpl. lia.
  - eapply runs_weaken; [|apply runs_u32|]; [done|]. unfold is_u64, is_u32. lia.
  - eapply runs_weaken; [|apply runs_map_err, runs_u64|]; done.
Qed.

Lemma runs_count : runs read_count 1 (λ n, 0 ≤ n ≤ MAX_ITEMS).
Proof.
  apply (runs_bind _ _ 1 0 is_u64); [done..|apply runs_varint|].
  intros n Hn. unfold is_u64 in *. apply runs_if; intros.
  - apply runs_fail_at.
  - apply runs_ret. lia.
Qed.

(** ** Each read is safe *)

Lemma wb_bytes n : 0 ≤ n → well_behaved (read_bytes n).
Proof. intros Hn. by eapply wb_runs, runs_bytes. Qed.
Lemma wb_array n : 0 ≤ n → well_behaved (read_array n).
Proof. intros Hn. by eapply wb_runs, runs_array. Qed.
Lemma wb_skip n : 0 ≤ n → well_behaved (skip n).
Proof. intros Hn. by eapply wb_runs, runs_skip. Qed.
Lemma wb_u8 : well_behaved read_u8.
Proof. by eapply wb_runs, runs_u8. Qed.
Lemma wb_u16 : well_behaved read_u16.
Proof. by eapply wb_runs, runs_u16. Qed.
Lemma wb_u32 : well_behaved read_u32.
Proof. by eapply wb_runs, runs_u32. Qed.
Lemma wb_i32 : well_behaved read_i32.
Proof. by eapply wb_runs, runs_i32. Qed.
Lemma wb_u64 : well_behaved read_u64.
Proof. by eapply wb_runs, runs_u64. Qed.
Lemma wb_i64 : well_behaved read_i64.
Proof. by eapply wb_runs, runs_i64. Qed.
Lemma wb_varint : well_behaved read_varint.
Proof. by eapply wb_runs, runs_varint. Qed.
Lemma wb_count : well_behaved read_count.
Proof. by eapply wb_runs, runs_count. Qed.

#[export] Hint Resolve wb_ret wb_bind wb_map_err wb_gets wb_fail_at wb_if wb_for_collect
  wb_bytes wb_array wb_skip wb_u8 wb_u16 wb_u32 wb_i32 wb_u64 wb_i64 wb_varint wb_count : bidx.

(** One step of a program run from a known cursor. *)
Lemma runs_step {E A B} (m : M Cursor E A) (f : A → M Cursor E B) n P c
    (Post : Res E B * Cursor → Prop) :
  runs m n P → cursor_ok c →
  (∀ a c', data c' = data c → pos c + n ≤ pos c' → cursor_ok c' → P a → Post (f a c')) →
  (∀ e c', Post (Err e, c')) →
  Post ((m ≫= f) c).
Proof.
  intros Hm Hc Hok Herr. specialize (Hm c Hc). m_unfold.
  destruct (m c) as [[a|e|] c']; [|done|done]. destruct Hm as (? & ? & ? & ?). auto.
Qed.
