(* ===== verification/Hash.v ===== *)
(** * Hash: [bidx-core/src/hash.rs]

    A [Hash32] is its 32 bytes in wire order. The digests of the [sha2] and
    [ripemd] crates and the codec of the [hex] crate are not part of the
    repository: they are the classes [Sha256], [Ripemd160] and [Hex] below,
    whose laws state the documented behaviour the code relies on. *)
From S2P Require Import Prelude.

#[global] Abbreviation Hash32 := bytes.

(** The streaming SHA-256 of the [sha2] crate: [Sha256::new], [update],
    [finalize] and the one-shot [digest]. *)
Class Sha256 := {
  sha_state : Type;
  sha_new : sha_state;
  sha_update : sha_state → bytes → sha_state;
  sha_finalize : sha_state → bytes;
  sha_digest : bytes → bytes;
  sha_stream : ∀ chunks, sha_finalize (foldl sha_update sha_new chunks) = sha_digest (mjoin chunks);
  sha_digest_len : ∀ d, len (sha_digest d) = 32
}.

Class Ripemd160 := {
  ripemd_digest : bytes → bytes;
  ripemd_digest_len : ∀ d, len (ripemd_digest d) = 20
}.

(** The [hex] crate: [encode], [decode] and [decode_to_slice] (whose second
    argument is the length of the destination). *)
Class Hex := {
  FromHexError : Type;
  hex_encode : bytes → rstr;
  hex_decode : rstr → Res FromHexError bytes;
  hex_decode_to_slice : rstr → Z → Res FromHexError bytes;
  hex_decode_encode : ∀ b, hex_decode (hex_encode b) = Ok b;
  hex_decode_to_slice_encode : ∀ b, hex_decode_to_slice (hex_encode b) (len b) = Ok b;
  hex_decode_to_slice_len : ∀ s n b, hex_decode_to_slice s n = Ok b → len b = n;
  hex_decode_to_slice_no_panic : ∀ s n, hex_decode_to_slice s n ≠ Panic
}.

Definition ZERO : Hash32 := zeros 32.

Definition hash_default : Hash32 := ZERO.

Definition from_bytes (b : bytes) : Hash32 := b.

Definition as_bytes (h : Hash32) : bytes := h.

Definition from_hex `{Hex} (s : rstr) : Res FromHexError Hash32 :=
  b ← hex_decode_to_slice s 32; mret (rev b).

Definition to_hex `{Hex} (h : Hash32) : rstr := hex_encode (rev h).

Definition to_raw_hex `{Hex} (h : Hash32) : rstr := hex_encode h.

Definition hash_debug `{Hex} (h : Hash32) : rstr := str "Hash32(" ++ to_hex h ++ str ")".

Definition hash_display `{Hex} (h : Hash32) : rstr := to_hex h.

Definition hash_serialize `{Hex} (h : Hash32) : rstr := to_hex h.

Definition hash_deserialize `{Hex} (s : rstr) : Res FromHexError Hash32 := from_hex s.

Definition dsha256 `{Sha256} (d : bytes) : Hash32 :=
  let h1 := sha_digest d in sha_digest h1.

Definition hash160 `{Sha256} `{Ripemd160} (d : bytes) : bytes :=
  let h1 := sha_digest d in ripemd_digest h1.

(** A [Hash32] value has 32 bytes. *)
Definition is_hash32 (h : Hash32) : Prop := len h = 32.

(** ** Lemmas *)

Lemma dsha256_len `{Sha256} d : is_hash32 (dsha256 d).
Proof. apply sha_digest_len. Qed.

Lemma hash160_len `{Sha256} `{Ripemd160} d : len (hash160 d) = 20.
Proof. apply ripemd_digest_len. Qed.

Lemma len_rev {A} (l : list A) : len (rev l) = len l.
Proof. unfold len. by rewrite length_rev. Qed.

Lemma from_hex_len `{Hex} s h : from_hex s = Ok h → is_hash32 h.
Proof.
  unfold from_hex. intros Hs. m_inv Hs. unfold is_hash32. rewrite len_rev.
  by eapply hex_decode_to_slice_len.
Qed.

Lemma from_hex_to_hex `{Hex} h : is_hash32 h → from_hex (to_hex h) = Ok h.
Proof.
  intros Hh. unfold from_hex, to_hex.
  replace 32 with (len (rev h)) by (by rewrite len_rev).
  rewrite hex_decode_to_slice_encode. m_unfold. by rewrite rev_involutive.
Qed.

#[export] Hint Resolve dsha256_len from_hex_len : bidx.

(** ** Concrete instances, for evaluating the model on concrete inputs *)
Module Ref.
(** A stand-in digest: a polynomial hash of the input, as 32 (or 20) bytes. *)
Definition mix (d : bytes) : Z := foldl (λ acc b, acc * 1000003 + byteZ b + 1) 7 d.

Definition sha_ref_digest (d : bytes) : bytes := le_bytes 32 (mix d).

Lemma sha_ref_stream (chunks : list bytes) (acc : bytes) :
  foldl app acc chunks = acc ++ mjoin chunks.
Proof.
  revert acc. induction chunks as [|c cs IH]; intros acc; simpl; [by rewrite app_nil_r|].
  by rewrite IH, app_assoc.
Qed.

Program Definition sha_ref : Sha256 := {|
  sha_state := bytes; sha_new := []; sha_update := app; sha_finalize := sha_ref_digest;
  sha_digest := sha_ref_digest |}.
Next Obligation. intros chunks. simpl. by rewrite sha_ref_stream. Qed.
Next Obligation. intros d. apply len_le_bytes. Qed.

Program Definition ripemd_ref : Ripemd160 := {| ripemd_digest d := le_bytes 20 (mix d) |}.
Next Obligation. intros d. apply len_le_bytes. Qed.

Definition hex_digit (n : Z) : Z := if n <? 10 then 48 + n else 87 + n.
Definition hex_value (c : Z) : option Z :=
  if (48 <=? c) && (c <=? 57) then Some (c - 48)
  else if (97 <=? c) && (c <=? 102) then Some (c - 87)
  else if (65 <=? c) && (c <=? 70) then Some (c - 55)
  else None.
Fixpoint encode_ref (b : bytes) : rstr :=
  match b with
  | [] => []
  | x :: b => hex_digit (byteZ x `div` 16) :: hex_digit (byteZ x `mod` 16) :: encode_ref b
  end.
Fixpoint decode_ref (s : rstr) : Res () bytes :=
  match s with
  | [] => Ok []
  | hi :: lo :: s =>
    match hex_value hi, hex_value lo, decode_ref s with
    | Some h, Some l, Ok b => Ok (Zbyte (h * 16 + l) :: b)
    | _, _, _ => Err ()
    end
  | _ => Err ()
  end.
Definition decode_slice_ref (s : rstr) (n : Z) : Res () bytes :=
  match decode_ref s with
  | Ok b => if len b =? n then Ok b else Err ()
  | _ => Err ()
  end.

Lemma hex_value_digit n : 0 ≤ n < 16 → hex_value (hex_digit n) = Some n.
Proof.
  intros Hn. unfold hex_digit. destruct (n <? 10) eqn:H10; unfold hex_value.
  - replace ((48 <=? 48 + n) && (48 + n <=? 57)) with true by lia. f_equal. lia.
  - replace ((48 <=? 87 + n) && (87 + n <=? 57)) with false by lia.
    replace ((97 <=? 87 + n) && (87 + n <=? 102)) with true by lia. f_equal. lia.
Qed.

Lemma decode_encode_ref b : decode_ref (encode_ref b) = Ok b.
Proof.
  induction b as [|x b IH]; [done|]. simpl. pose proof (byteZ_bound x) as Hx.
  rewrite !hex_value_digit, IH.
  - f_equal. f_equal. rewrite <-(Zbyte_byteZ x) at 3. f_equal.
    pose proof (Z.div_mod (byteZ x) 16). lia.
  - apply Z.mod_pos_bound. lia.
  - split; [apply Z.div_pos; lia|apply Z.div_lt_upper_bound; lia].
Qed.

Lemma decode_ref_no_panic s : decode_ref s ≠ Panic.
Proof.
  revert s. fix IH 1. intros [|hi [|lo s]]; simpl; [done..|].
  by destruct (hex_value hi), (hex_value lo), (decode_ref s).
Qed.

Program Definition hex_ref : Hex := {|
  FromHexError := (); hex_encode := encode_ref; hex_decode := decode_ref;
  hex_decode_to_slice := decode_slice_ref |}.
Next Obligation. apply decode_encode_ref. Qed.
Next Obligation.
  intros b. unfold decode_slice_ref. by rewrite decode_encode_ref, Z.eqb_refl.
Qed.
Next Obligation.
  unfold decode_slice_ref. intros s n b Hb. repeat case_match; simplify_eq; lia.
Qed.
Next Obligation.
  unfold decode_slice_ref. intros s n Hb. repeat case_match; simplify_eq.
Qed.
End Ref.
