(* ===== verification/Types.v ===== *)
(** * Types: network magics, the block header and the row types of
    [bidx-core/src/types.rs]. Record fields carry a prefix per record, since
    the rows share field names. *)
From S2P Require Import Prelude Hash.

Definition BLOCK_MAGIC : Z := 0xD9B4BEF9.
Definition BLOCK_MAGIC_TESTNET3 : Z := 0x0709110B.
Definition BLOCK_MAGIC_SIGNET : Z := 0x40CF030A.
Definition BLOCK_MAGIC_TESTNET4 : Z := 0x283F161C.
Definition BLOCK_MAGIC_REGTEST : Z := 0xDAB5BFFA.

Definition is_known_network_magic (magic : Z) : bool :=
  (magic =? BLOCK_MAGIC) || (magic =? BLOCK_MAGIC_TESTNET3) || (magic =? BLOCK_MAGIC_SIGNET)
  || (magic =? BLOCK_MAGIC_TESTNET4) || (magic =? BLOCK_MAGIC_REGTEST).

Definition BLOCK_HEADER_LEN : Z := 80.

Record BlockHeader : Type := mkHeader {
  version : Z; prev_hash : Hash32; merkle_root : Hash32; time : Z; bits : Z; nonce : Z }.

(** The reads of [BlockHeader::parse] on the fixed 80-byte array: [c] is the
    remaining slice, as in the source. *)
Definition header_parse (raw : bytes) : BlockHeader :=
  let c := raw in
  let version := i32_of_u32 (le_val (slice 0 4 c)) in
  let c := drop 4 c in
  let prev := slice 0 32 c in
  let c := drop 32 c in
  let merkle := slice 0 32 c in
  let c := drop 32 c in
  let time := le_val (slice 0 4 c) in
  let c := drop 4 c in
  let bits := le_val (slice 0 4 c) in
  let c := drop 4 c in
  let nonce := le_val (slice 0 4 c) in
  mkHeader version prev merkle time bits nonce.

Definition header_hash `{Sha256} (h : BlockHeader) (raw : bytes) : Hash32 := dsha256 raw.

Record BlockLocation : Type := mkLoc { file_id : Z; offset : Z; record_len : Z }.

Definition data_offset (l : BlockLocation) : Z := offset l + 8.

Record ChainIndex : Type := mkIndex {
  by_height : list BlockLocation; hash_to_height : gmap Hash32 Z }.

(** [len().checked_sub(1).map(|n| n as u32)]. *)
Definition tip_height (ci : ChainIndex) : option Z :=
  match by_height ci with
  | [] => None
  | _ => Some (u32 (len (by_height ci) - 1))
  end.

Definition TxPk : Type := Z * Z.

Record BlockRow : Type := mkBlockRow {
  br_height : Z; br_hash : bytes; br_prev_hash : bytes; br_merkle_root : bytes;
  br_time : Z; br_bits : Z; br_nonce : Z; br_version : Z; br_tx_count : Z;
  br_size : Z; br_weight : Z; br_total_fee : Z; br_coinbase_value : Z }.

Record TxRow : Type := mkTxRow {
  tr_height : Z; tr_tx_index : Z; tr_txid : bytes; tr_version : Z; tr_locktime : Z;
  tr_size : Z; tr_weight : Z; tr_fee : Z; tr_input_count : Z; tr_output_count : Z;
  tr_has_witness : bool }.

Record InputRow : Type := mkInputRow {
  ir_height : Z; ir_tx_index : Z; ir_input_index : Z; ir_txid : bytes;
  ir_prev_txid : bytes; ir_prev_vout : Z; ir_script_sig_len : Z; ir_sequence : Z;
  ir_witness_items : Z; ir_witness_bytes : Z; ir_is_coinbase : bool }.

Record OutputRow : Type := mkOutputRow {
  or_height : Z; or_tx_index : Z; or_output_index : Z; or_txid : bytes;
  or_value_sat : Z; or_script_pubkey_len : Z; or_script_type : Z; or_address_hash : bytes }.

Record SpendRow : Type := mkSpendRow {
  sr_height : Z; sr_spending_tx_index : Z; sr_spending_input_index : Z;
  sr_spending_txid : bytes; sr_spent_txid : bytes; sr_spent_vout : Z;
  sr_spent_value_sat : Z; sr_spent_script_type : Z; sr_spent_address_hash : bytes;
  sr_spent_height : Z }.

(** Field updates ([tx.fee = ..], [inp.txid = ..], ...). *)
Definition set_tr_fee (fee : Z) (r : TxRow) : TxRow :=
  mkTxRow (tr_height r) (tr_tx_index r) (tr_txid r) (tr_version r) (tr_locktime r)
    (tr_size r) (tr_weight r) fee (tr_input_count r) (tr_output_count r) (tr_has_witness r).

Definition set_ir_txid (txid : bytes) (r : InputRow) : InputRow :=
  mkInputRow (ir_height r) (ir_tx_index r) (ir_input_index r) txid (ir_prev_txid r)
    (ir_prev_vout r) (ir_script_sig_len r) (ir_sequence r) (ir_witness_items r)
    (ir_witness_bytes r) (ir_is_coinbase r).

Definition set_ir_witness (items nbytes : Z) (r : InputRow) : InputRow :=
  mkInputRow (ir_height r) (ir_tx_index r) (ir_input_index r) (ir_txid r) (ir_prev_txid r)
    (ir_prev_vout r) (ir_script_sig_len r) (ir_sequence r) items nbytes (ir_is_coinbase r).

Definition set_or_txid (txid : bytes) (r : OutputRow) : OutputRow :=
  mkOutputRow (or_height r) (or_tx_index r) (or_output_index r) txid (or_value_sat r)
    (or_script_pubkey_len r) (or_script_type r) (or_address_hash r).

Definition set_br_total_fee (fee : Z) (r : BlockRow) : BlockRow :=
  mkBlockRow (br_height r) (br_hash r) (br_prev_hash r) (br_merkle_root r) (br_time r)
    (br_bits r) (br_nonce r) (br_version r) (br_tx_count r) (br_size r) (br_weight r)
    fee (br_coinbase_value r).

(** ** Specification vocabulary *)

(** The 80-byte wire form of a header. *)
Definition header_bytes (h : BlockHeader) : bytes :=
  le_bytes 4 (version h) ++ prev_hash h ++ merkle_root h ++
  le_bytes 4 (time h) ++ le_bytes 4 (bits h) ++ le_bytes 4 (nonce h).

Definition header_wf (h : BlockHeader) : Prop :=
  is_i32 (version h) ∧ is_hash32 (prev_hash h) ∧ is_hash32 (merkle_root h) ∧
  is_u32 (time h) ∧ is_u32 (bits h) ∧ is_u32 (nonce h).

(** ** Lemmas *)

Lemma len_header_bytes h : header_wf h → len (header_bytes h) = 80.
Proof.
  unfold header_wf, is_hash32, header_bytes. intros (_ & Hp & Hm & _).
  autorewrite with bidx. lia.
Qed.

Lemma drop_len_app {A} (n : nat) (k l : list A) : length k = n → drop n (k ++ l) = l.
Proof. intros <-. apply drop_app_length. Qed.

Lemma header_parse_split v p m t b n rest :
  length v = 4%nat → length p = 32%nat → length m = 32%nat → length t = 4%nat →
  length b = 4%nat → length n = 4%nat →
  header_parse (v ++ p ++ m ++ t ++ b ++ n ++ rest) =
  mkHeader (i32_of_u32 (le_val v)) p m (le_val t) (le_val b) (le_val n).
Proof.
  intros. unfold header_parse.
  repeat first
    [ rewrite (slice_prefix 4) by (unfold len; lia)
    | rewrite (slice_prefix 32) by (unfold len; lia)
    | rewrite (drop_len_app 4) by done
    | rewrite (drop_len_app 32) by done ].
  done.
Qed.

Lemma header_parse_bytes h rest :
  header_wf h → header_parse (header_bytes h ++ rest) = h.
Proof.
  destruct h as [v p m t b n]. unfold header_wf, is_hash32, is_u32, header_bytes.
  cbn [version prev_hash merkle_root time bits nonce].
  intros (Hv & Hp & Hm & Ht & Hb & Hn).
  assert (length p = 32%nat) by (unfold len in Hp; lia).
  assert (length m = 32%nat) by (unfold len in Hm; lia).
  rewrite <-!app_assoc, header_parse_split by (done || apply length_le_bytes).
  by rewrite i32_of_le_bytes, !le_val_bytes_small.
Qed.

Lemma known_magic_bytes m :
  is_known_network_magic m = true → is_u32 m ∧ m `mod` 256 ≠ 0.
Proof.
  unfold is_known_network_magic. rewrite !orb_true_iff, !Z.eqb_eq.
  unfold is_u32. intros [[[[->| ->]| ->]| ->]| ->]; vm_compute; done.
Qed.
