(* ===== verification/Script.v ===== *)
(** * Script: scriptPubKey classification, [bidx-core/src/script.rs] *)
From S2P Require Import Prelude Hash.

Inductive ScriptType : Type :=
  | Unknown | P2PK | P2PKH | P2SH | P2WPKH | P2WSH | P2TR | OpReturn
  | BareMultisig | WitnessUnknown.

#[global] Instance ScriptType_eq_dec : EqDecision ScriptType.
Proof. solve_decision. Defined.

(** [script_type as u8], the [#[repr(u8)]] discriminants. *)
Definition script_type_u8 (t : ScriptType) : Z :=
  match t with
  | Unknown => 0 | P2PK => 1 | P2PKH => 2 | P2SH => 3 | P2WPKH => 4 | P2WSH => 5
  | P2TR => 6 | OpReturn => 7 | BareMultisig => 8 | WitnessUnknown => 9
  end.

Definition as_str (t : ScriptType) : rstr :=
  match t with
  | Unknown => str "unknown"
  | P2PK => str "p2pk"
  | P2PKH => str "p2pkh"
  | P2SH => str "p2sh"
  | P2WPKH => str "p2wpkh"
  | P2WSH => str "p2wsh"
  | P2TR => str "p2tr"
  | OpReturn => str "op_return"
  | BareMultisig => str "bare_multisig"
  | WitnessUnknown => str "witness_unknown"
  end.

(** [out[..20].copy_from_slice(&h)] into 32 zero bytes. *)
Definition pad20 (h : bytes) : bytes := h ++ zeros 12.

(** [out[..n].copy_from_slice(&b[..n])] with [n = b.len().min(32)]. *)
Definition pad_slice {E} (b : bytes) : Res E bytes :=
  let n := Z.min (len b) 32 in
  s ← slice_at 0 n b;
  h ← copy_from_slice n s;
  mret (h ++ zeros (Z.to_nat (32 - n))).

(** [spk[i] == v]. *)
Definition byte_is {E} (spk : bytes) (i v : Z) : Res E bool :=
  b ← index spk i; mret (byteZ b =? v).

(** [a && b] and [a || b]: [b] is not evaluated when [a] decides. *)
Definition and_also {E} (a : Res E bool) (b : () → Res E bool) : Res E bool :=
  x ← a; if (x : bool) then b () else mret false.
Definition or_else {E} (a : Res E bool) (b : () → Res E bool) : Res E bool :=
  x ← a; if (x : bool) then mret true else b ().

#[local] Notation "a &&? b" := (and_also a (λ _, b)) (at level 40, left associativity).
#[local] Notation "a ||? b" := (or_else a (λ _, b)) (at level 50, left associativity).

(** The loop over the public-key pushes of [is_bare_multisig]; [end_] is
    [len - 2]. [None] is the early [return false]; [count] is a [u8]. *)
Fixpoint pubkey_walk {E} (fuel : nat) (spk : bytes) (end_ i count : Z) : Res E (option (Z * Z)) :=
  if i <? end_ then
    match fuel with
    | O => Panic
    | S fuel =>
      b ← index spk i;
      let push := byteZ b in
      if negb (push =? 33) && negb (push =? 65) then mret None
      else if end_ <? i + 1 + push then mret None
      else pubkey_walk fuel spk end_ (i + 1 + push) (u8 (count + 1))
    end
  else mret (Some (i, count)).

Definition is_bare_multisig {E} (spk : bytes) : Res E bool :=
  let l := len spk in
  bad ← Ok (l <? 3) ||? (negb <$> byte_is spk (usize_sub l 1) 0xae);
  if bad : bool then mret false
  else
    m ← index spk 0;
    n ← index spk (usize_sub l 2);
    let m := byteZ m in
    let n := byteZ n in
    if negb ((0x51 <=? m) && (m <=? 0x60)) || negb ((0x51 <=? n) && (n <=? 0x60)) then mret false
    else
      let m := m - 0x50 in
      let n := n - 0x50 in
      if (m =? 0) || (n =? 0) || (n <? m) then mret false
      else
        walked ← pubkey_walk (length spk) spk (usize_sub l 2) 1 0;
        match walked with
        | None => mret false
        | Some (i, count) => mret ((i =? usize_sub l 2) && (count =? n))
        end.

Section classify_script.
Context `{Sha256} `{Ripemd160} {E : Type}.

(** The witness programs: an opcode, a push of the rest. [None] falls through. *)
Definition classify_segwit (spk : bytes) : Res E (option (ScriptType * bytes)) :=
  let l := len spk in
  op ← index spk 0;
  push ← index spk 1;
  let op := byteZ op in
  let push_len := byteZ push in
  if (push_len + 2 =? l) && ((2 <=? push_len) && (push_len <=? 40)) then
    if op =? 0x00 then
      if push_len =? 20 then
        s ← slice_at 2 22 spk; h ← pad_slice s; mret (Some (P2WPKH, h))
      else if push_len =? 32 then
        s ← slice_at 2 34 spk; h ← pad_slice s; mret (Some (P2WSH, h))
      else s ← slice_at 2 l spk; h ← pad_slice s; mret (Some (WitnessUnknown, h))
    else if (0x51 <=? op) && (op <=? 0x60) then
      if (op =? 0x51) && (push_len =? 32) then
        s ← slice_at 2 34 spk; h ← pad_slice s; mret (Some (P2TR, h))
      else s ← slice_at 2 l spk; h ← pad_slice s; mret (Some (WitnessUnknown, h))
    else mret None
  else mret None.

(** A public key and [OP_CHECKSIG]. *)
Definition classify_pubkey (spk : bytes) : Res E (option (ScriptType * bytes)) :=
  let l := len spk in
  shape ← (Ok (l =? 35) &&? byte_is spk 0 33 &&? byte_is spk 34 0xac)
          ||? (Ok (l =? 67) &&? byte_is spk 0 65 &&? byte_is spk 66 0xac);
  if shape : bool then
    pk_len ← index spk 0;
    pk ← slice_at 1 (1 + byteZ pk_len) spk;
    k ← index pk 0;
    if (2 <=? byteZ k) && (byteZ k <=? 4) then mret (Some (P2PK, pad20 (hash160 pk)))
    else mret None
  else mret None.

Definition classify_script (spk : bytes) : Res E (ScriptType * bytes) :=
  let l := len spk in
  p2pkh ← Ok (l =? 25) &&? byte_is spk 0 0x76 &&? byte_is spk 1 0xa9 &&? byte_is spk 2 0x14
          &&? byte_is spk 23 0x88 &&? byte_is spk 24 0xac;
  if p2pkh : bool then
    s ← slice_at 3 23 spk; h ← copy_from_slice 20 s; mret (P2PKH, pad20 h)
  else
  p2sh ← Ok (l =? 23) &&? byte_is spk 0 0xa9 &&? byte_is spk 1 0x14 &&? byte_is spk 22 0x87;
  if p2sh : bool then
    s ← slice_at 2 22 spk; h ← copy_from_slice 20 s; mret (P2SH, pad20 h)
  else
  segwit ← (if (4 <=? l) && (l <=? 42) then classify_segwit spk else mret None);
  match segwit with
  | Some r => mret r
  | None =>
    op_return ← Ok (1 <=? l) &&? byte_is spk 0 0x6a;
    if op_return : bool then mret (OpReturn, zeros 32)
    else
    pubkey ← classify_pubkey spk;
    match pubkey with
    | Some r => mret r
    | None =>
      multisig ← is_bare_multisig spk;
      if multisig : bool then mret (BareMultisig, pad20 (hash160 spk))
      else mret (Unknown, zeros 32)
    end
  end.
End classify_script.

(** ** The classifier without its panics

    The same tests on total accesses, which the lemmas reason with;
    [classify_script_ok] shows that the two agree on every script. *)

(** The first 32 bytes, zero-padded. *)
Definition padded (b : bytes) : bytes :=
  let n := Z.min (len b) 32 in
  slice 0 n b ++ zeros (Z.to_nat (32 - n)).

(** The byte at a position. *)
Definition at_ (spk : bytes) (i : Z) : Z := byteZ (spk !!! Z.to_nat i).

Fixpoint keys_walk (fuel : nat) (spk : bytes) (end_ i count : Z) : option (Z * Z) :=
  if i <? end_ then
    match fuel with
    | O => None
    | S fuel =>
      let push := at_ spk i in
      if negb (push =? 33) && negb (push =? 65) then None
      else if end_ <? i + 1 + push then None
      else keys_walk fuel spk end_ (i + 1 + push) (u8 (count + 1))
    end
  else Some (i, count).

Definition multisig_test (spk : bytes) : bool :=
  let l := len spk in
  if (l <? 3) || negb (at_ spk (l - 1) =? 0xae) then false
  else
    let m := at_ spk 0 in
    let n := at_ spk (l - 2) in
    if negb ((0x51 <=? m) && (m <=? 0x60)) || negb ((0x51 <=? n) && (n <=? 0x60)) then false
    else
      let m := m - 0x50 in
      let n := n - 0x50 in
      if (m =? 0) || (n =? 0) || (n <? m) then false
      else
        match keys_walk (length spk) spk (l - 2) 1 0 with
        | None => false
        | Some (i, count) => (i =? l - 2) && (count =? n)
        end.

Definition classify `{Sha256} `{Ripemd160} (spk : bytes) : ScriptType * bytes :=
  let l := len spk in
  if (l =? 25) && (at_ spk 0 =? 0x76) && (at_ spk 1 =? 0xa9) && (at_ spk 2 =? 0x14)
     && (at_ spk 23 =? 0x88) && (at_ spk 24 =? 0xac)
  then (P2PKH, pad20 (slice 3 23 spk))
  else if (l =? 23) && (at_ spk 0 =? 0xa9) && (at_ spk 1 =? 0x14) && (at_ spk 22 =? 0x87)
  then (P2SH, pad20 (slice 2 22 spk))
  else
    let op := at_ spk 0 in
    let push_len := at_ spk 1 in
    let segwit := (4 <=? l) && (l <=? 42) && (push_len + 2 =? l)
                  && (2 <=? push_len) && (push_len <=? 40) in
    if segwit && (op =? 0x00) then
      if push_len =? 20 then (P2WPKH, padded (slice 2 22 spk))
      else if push_len =? 32 then (P2WSH, padded (slice 2 34 spk))
      else (WitnessUnknown, padded (slice 2 l spk))
    else if segwit && ((0x51 <=? op) && (op <=? 0x60)) then
      if (op =? 0x51) && (push_len =? 32) then (P2TR, padded (slice 2 34 spk))
      else (WitnessUnknown, padded (slice 2 l spk))
    else if (1 <=? l) && (at_ spk 0 =? 0x6a) then (OpReturn, zeros 32)
    else
      let pk_len := at_ spk 0 in
      if (((l =? 35) && (at_ spk 0 =? 33) && (at_ spk 34 =? 0xac))
          || ((l =? 67) && (at_ spk 0 =? 65) && (at_ spk 66 =? 0xac)))
         && ((2 <=? at_ spk 1) && (at_ spk 1 <=? 4))
      then (P2PK, pad20 (hash160 (slice 1 (1 + pk_len) spk)))
      else if multisig_test spk then (BareMultisig, pad20 (hash160 spk))
      else (Unknown, zeros 32).

(** ** Specification: the script templates *)

(** A data push of a public key: its length byte, then the key. *)
Definition key_push (k : bytes) : bytes := Zbyte (len k) :: k.

Definition is_pubkey (k : bytes) : Prop := len k = 33 ∨ len k = 65.

(** [OP_m <keys..> OP_n OP_CHECKMULTISIG]. The key count is compared as a [u8]. *)
Definition multisig_script (m n : Z) (keys : list bytes) : bytes :=
  [Zbyte (0x50 + m)] ++ mjoin (key_push <$> keys) ++ [Zbyte (0x50 + n); xae].

Definition multisig_shape (spk : bytes) : Prop :=
  ∃ m n keys, 1 ≤ m ≤ n ∧ n ≤ 16 ∧ Forall is_pubkey keys ∧ u8 (len keys) = n ∧
    spk = multisig_script m n keys.

Inductive script_template `{Sha256} `{Ripemd160} : bytes → ScriptType → bytes → Prop :=
  | T_P2PKH h : len h = 20 →
      script_template ([x76; xa9; x14] ++ h ++ [x88; xac]) P2PKH (h ++ zeros 12)
  | T_P2SH h : len h = 20 → script_template ([xa9; x14] ++ h ++ [x87]) P2SH (h ++ zeros 12)
  | T_P2WPKH h : len h = 20 → script_template ([x00; x14] ++ h) P2WPKH (h ++ zeros 12)
  | T_P2WSH h : len h = 32 → script_template ([x00; x20] ++ h) P2WSH h
  | T_P2TR h : len h = 32 → script_template ([x51; x20] ++ h) P2TR h
  | T_Witness v p : v = 0 ∨ 0x51 ≤ v ≤ 0x60 → 2 ≤ len p ≤ 40 →
      ¬ (v = 0 ∧ (len p = 20 ∨ len p = 32)) → ¬ (v = 0x51 ∧ len p = 32) →
      script_template ([Zbyte v; Zbyte (len p)] ++ p) WitnessUnknown (padded p)
  | T_OpReturn rest : script_template (x6a :: rest) OpReturn (zeros 32)
  | T_P2PK k : is_pubkey k → 2 ≤ at_ k 0 ≤ 4 →
      script_template (key_push k ++ [xac]) P2PK (hash160 k ++ zeros 12)
  | T_BareMultisig spk : multisig_shape spk →
      script_template spk BareMultisig (hash160 spk ++ zeros 12).

(** ** Lemmas: positions in a script *)

Lemma at_bound spk i : 0 ≤ at_ spk i < 256.
Proof. apply byteZ_bound. Qed.

Lemma at_app_l k l i : 0 ≤ i < len k → at_ (k ++ l) i = at_ k i.
Proof.
  intros Hi. unfold at_. rewrite lookup_total_app_l; [done|]. unfold len in Hi. lia.
Qed.

Lemma at_app_r k l i : len k ≤ i → at_ (k ++ l) i = at_ l (i - len k).
Proof.
  intros Hi. unfold at_, len in *. rewrite lookup_total_app_r by lia.
  do 2 f_equal. lia.
Qed.

Lemma at_0 b l : at_ (b :: l) 0 = byteZ b.
Proof. done. Qed.

Lemma at_cons b l i : 0 < i → at_ (b :: l) i = at_ l (i - 1).
Proof.
  intros Hi. unfold at_. replace (Z.to_nat i) with (S (Z.to_nat (i - 1))) by lia. done.
Qed.

(** A byte is known by its value. *)
Lemma at_eq_cons spk z : 0 < len spk → at_ spk 0 = z → ∃ l, spk = Zbyte z :: l ∧ len l = len spk - 1.
Proof.
  destruct spk as [|b l]; [done|]. rewrite at_0. intros _ <-.
  exists l. rewrite Zbyte_byteZ, len_cons. split; [done|lia].
Qed.

Lemma at_last spk i z :
  len spk = i + 1 → 0 ≤ i → at_ spk i = z → ∃ l, spk = l ++ [Zbyte z] ∧ len l = i.
Proof.
  intros Hl Hi Hz. destruct spk as [|b l _] using rev_ind; [unfold len in Hl; simpl in Hl; lia|].
  rewrite len_app, len_cons, len_nil in Hl.
  rewrite at_app_r in Hz by lia. replace (i - len l) with 0 in Hz by lia.
  rewrite at_0 in Hz. exists l. rewrite <-Hz, Zbyte_byteZ. split; [done|lia].
Qed.

Lemma slice_all {A} (l : list A) : slice 0 (len l) l = l.
Proof. rewrite <-(app_nil_r l) at 2. by apply slice_prefix. Qed.

Lemma padded_small b : len b ≤ 32 → padded b = b ++ zeros (Z.to_nat (32 - len b)).
Proof. intros Hb. unfold padded. by rewrite Z.min_l, slice_all. Qed.

Lemma len_padded b : len (padded b) = 32.
Proof.
  unfold padded. rewrite len_app, len_zeros, len_slice; pose proof (len_nonneg b); lia.
Qed.

(** ** Lemmas: the multisig loop *)

Lemma len_key_push k : len (key_push k) = 1 + len k.
Proof. unfold key_push. apply len_cons. Qed.

Lemma u8_add a b : u8 (u8 a + b) = u8 (a + b).
Proof. unfold u8. apply Zplus_mod_idemp_l. Qed.

Lemma split_at {A} (n : Z) (l : list A) : 0 ≤ n ≤ len l → ∃ k r, l = k ++ r ∧ len k = n.
Proof.
  intros Hn. exists (take (Z.to_nat n) l), (drop (Z.to_nat n) l).
  rewrite take_drop. unfold len in *. rewrite length_take. split; [done|lia].
Qed.

Lemma keys_walk_end fuel spk end_ count :
  keys_walk fuel spk end_ end_ count = Some (end_, count).
Proof. destruct fuel; simpl; by rewrite Z.ltb_irrefl. Qed.

Lemma keys_walk_sound fuel pre mid tail count r :
  0 ≤ count < 256 →
  keys_walk fuel (pre ++ mid ++ tail) (len pre + len mid) (len pre) count = Some r →
  ∃ keys, Forall is_pubkey keys ∧ mid = mjoin (key_push <$> keys) ∧
    r = (len pre + len mid, u8 (count + len keys)).
Proof.
  revert pre mid count. induction fuel as [|fuel IH]; intros pre [|b mid] count Hc Hw.
  1,3: rewrite len_nil, Z.add_0_r in Hw; rewrite keys_walk_end in Hw; simplify_eq;
    exists []; rewrite len_nil, !Z.add_0_r; unfold u8; rewrite Z.mod_small by lia; done.
  { simpl in Hw. pose proof (len_nonneg mid). rewrite len_cons in Hw.
    case_match eqn:Hlt; [done|lia]. }
  pose proof (len_nonneg mid). rewrite len_cons in Hw. simpl in Hw.
  case_match eqn:Hlt; [|lia].
  rewrite at_app_r, Z.sub_diag in Hw by lia. simpl in Hw. rewrite at_0 in Hw.
  case_match eqn:Hp; [done|]. case_match eqn:He; [done|].
  assert (byteZ b = 33 ∨ byteZ b = 65) as Hb by lia.
  destruct (split_at (byteZ b) mid) as (k & rest & -> & Hk); [lia|].
  assert (b :: k = key_push k) as Hkp by (unfold key_push; by rewrite Hk, Zbyte_byteZ).
  replace (pre ++ b :: (k ++ rest) ++ tail) with ((pre ++ key_push k) ++ rest ++ tail) in Hw
    by (rewrite <-Hkp; simpl; by rewrite <-!app_assoc).
  rewrite !len_app in *. destruct (IH (pre ++ key_push k) rest (u8 (count + 1))) as (keys & Hall & Hmid & Hr).
  { unfold u8. apply Z.mod_pos_bound. lia. }
  { rewrite !len_app, len_key_push, Hk. rewrite <-Hw. f_equal; lia. }
  exists (k :: keys). split; [constructor; [unfold is_pubkey; lia|done]|].
  split; [by rewrite app_comm_cons, Hkp, Hmid|].
  rewrite Hr, u8_add, !len_cons, !len_app, len_key_push. f_equal; [lia|f_equal; lia].
Qed.

Lemma keys_walk_complete keys fuel pre tail count :
  Forall is_pubkey keys → (length keys ≤ fuel)%nat → 0 ≤ count < 256 →
  keys_walk fuel (pre ++ mjoin (key_push <$> keys) ++ tail)
    (len pre + len (mjoin (key_push <$> keys))) (len pre) count
  = Some (len pre + len (mjoin (key_push <$> keys)), u8 (count + len keys)).
Proof.
  intros Hall. revert fuel pre count. induction Hall as [|k keys Hk Hall IH]; intros fuel pre count Hf Hc.
  { simpl. rewrite len_nil, !Z.add_0_r, keys_walk_end. unfold u8. by rewrite Z.mod_small. }
  destruct fuel as [|fuel]; simpl in Hf; [lia|].
  rewrite mjoin_fmap_cons.
  assert (len k = 33 ∨ len k = 65) as Hl by done.
  set (rest := mjoin (key_push <$> keys)) in *. pose proof (len_nonneg rest).
  rewrite len_app, len_key_push, <-app_assoc. cbn [keys_walk].
  case_match eqn:Hlt; [|lia].
  rewrite at_app_r, Z.sub_diag by lia. unfold key_push at 1 2 3. simpl. rewrite at_0, byteZ_Zbyte, Z.mod_small by lia.
  case_match eqn:Hp; [lia|]. case_match eqn:He; [lia|].
  specialize (IH fuel (pre ++ key_push k) (u8 (count + 1)) ltac:(lia)
    ltac:(unfold u8; apply Z.mod_pos_bound; lia)).
  rewrite len_app, len_key_push, <-!app_assoc in IH. rewrite len_cons.
  replace (len pre + 1 + len k) with (len pre + (1 + len k)) by lia.
  replace (len pre + (1 + len k + len rest)) with (len pre + (1 + len k) + len rest) by lia.
  simpl in IH. rewrite IH, u8_add. do 3 f_equal. lia.
Qed.

Lemma length_keys_le keys : (length keys ≤ length (mjoin (key_push <$> keys)))%nat.
Proof.
  induction keys as [|k keys IH]; [done|].
  rewrite mjoin_fmap_cons, length_app. simpl length. lia.
Qed.

Lemma multisig_ends (spk : bytes) :
  3 ≤ len spk → ∃ a mid b c, spk = [a] ++ mid ++ [b; c] ∧ len mid = len spk - 3.
Proof.
  intros Hl. destruct spk as [|a spk]; [done|]. rewrite len_cons in Hl.
  destruct spk as [|c spk _] using rev_ind; [done|]. rewrite len_app, len_cons, len_nil in Hl.
  destruct spk as [|b mid _] using rev_ind; [done|].
  exists a, mid, b, c. rewrite <-app_assoc. split; [done|].
  rewrite !len_cons, !len_app, !len_cons, !len_nil. lia.
Qed.

Lemma at_multisig a mid b c :
  let spk := [a] ++ mid ++ [b; c] in
  len spk = len mid + 3 ∧ at_ spk 0 = byteZ a ∧
  at_ spk (len spk - 2) = byteZ b ∧ at_ spk (len spk - 1) = byteZ c.
Proof.
  intros spk. assert (len spk = len mid + 3) as Hl.
  { unfold spk. autorewrite with bidx. lia. }
  pose proof (len_nonneg mid). rewrite Hl. unfold spk.
  split_and!; [done|done|..]; simpl app; rewrite at_cons, at_app_r by lia.
  - by replace (len mid + 3 - 2 - 1 - len mid) with 0 by lia.
  - rewrite at_cons by lia. by replace (len mid + 3 - 1 - 1 - len mid - 1) with 0 by lia.
Qed.

Lemma byteZ_eq b z : byteZ b = z → b = Zbyte z.
Proof. intros <-. by rewrite Zbyte_byteZ. Qed.

Lemma multisig_test_sound spk : multisig_test spk = true → multisig_shape spk.
Proof.
  unfold multisig_test. case_match eqn:H1; [done|].
  destruct (multisig_ends spk) as (a & mid & b & c & Hspk & Hmid); [lia|].
  pose proof (at_multisig a mid b c) as (Hl & H0 & Hm2 & Hm1). rewrite <-Hspk in Hl, H0, Hm2, Hm1.
  rewrite H0, Hm2. case_match eqn:H2; [done|]. case_match eqn:H3; [done|].
  intros Hw. case_match; [|done]. case_match; subst.
  replace (len ([a] ++ mid ++ [b; c]) - 2) with (len [a] + len mid) in * by
    (rewrite Hl, len_cons, len_nil; lia).
  apply (keys_walk_sound _ [a] mid [b; c]) in H as (keys & Hall & -> & Hr); [|lia].
  simplify_eq. exists (byteZ a - 0x50), (byteZ b - 0x50), keys.
  rewrite Z.add_0_l in *. split_and!; try done; try lia.
  unfold multisig_script. rewrite !Zplus_minus, !Zbyte_byteZ. do 3 f_equal.
  f_equal. apply (byteZ_eq c 0xae). lia.
Qed.

Lemma multisig_test_complete spk : multisig_shape spk → multisig_test spk = true.
Proof.
  intros (m & n & keys & Hm & Hn & Hall & Hc & ->). unfold multisig_script.
  set (mid := mjoin (key_push <$> keys)).
  pose proof (at_multisig (Zbyte (0x50 + m)) mid (Zbyte (0x50 + n)) xae) as (Hl & H0 & Hm2 & Hm1).
  unfold multisig_test. rewrite H0, Hm2, Hm1, !byteZ_Zbyte, !Z.mod_small by lia.
  pose proof (len_nonneg mid).
  replace (negb (byteZ xae =? 0xae)) with false by done.
  case_match eqn:H1; [lia|]. case_match eqn:H2; [lia|]. case_match eqn:H3; [lia|].
  replace (len _ - 2) with (len [Zbyte (0x50 + m)] + len mid) by
    (rewrite Hl, len_cons, len_nil; lia).
  rewrite (keys_walk_complete keys _ [Zbyte (80 + m)] [Zbyte (80 + n); xae]); [|done| |lia].
  - fold mid. rewrite Z.add_0_l, Hc, Z.eqb_refl. lia.
  - pose proof (length_keys_le keys) as Hk. fold mid in Hk. rewrite !length_app. lia.
Qed.

(** ** Lemmas: the classifier *)

(** Peel the first byte, or the last one, off a script at which it is known. *)
Ltac peel_first H :=
  apply at_eq_cons in H; [|lia]; destruct H as (? & -> & ?).
Ltac peel_last H :=
  apply at_last in H; [|lia|lia]; destruct H as (? & -> & ?).
Ltac at_norm := repeat first [rewrite at_0 | rewrite at_cons by lia].

Lemma Zbyte_lit z b : 0 ≤ z < 256 → byteZ b = z → Zbyte z = b.
Proof. intros _ <-. apply Zbyte_byteZ. Qed.

Section classify.
Context {SHA : Sha256} {RIP : Ripemd160}.

(** The guards of the classifier, as the templates establish them. *)
Lemma classify_p2pkh h : len h = 20 →
  classify ([x76; xa9; x14] ++ h ++ [x88; xac]) = (P2PKH, h ++ zeros 12).
Proof.
  intros Hh. unfold classify. set (spk := _ ++ _).
  assert (len spk = 25) as -> by (unfold spk; rewrite !len_app, Hh; done).
  assert (at_ spk 23 = 0x88) as -> by
    (unfold spk; rewrite at_app_r, at_app_r, Hh by (rewrite ?Hh; done); done).
  assert (at_ spk 24 = 0xac) as -> by
    (unfold spk; rewrite at_app_r, at_app_r, Hh by (rewrite ?Hh; done); done).
  simpl. unfold pad20. do 2 f_equal. unfold spk. by apply slice_app_mid'; rewrite ?Hh.
Qed.

Lemma classify_p2sh h : len h = 20 →
  classify ([xa9; x14] ++ h ++ [x87]) = (P2SH, h ++ zeros 12).
Proof.
  intros Hh. unfold classify. set (spk := _ ++ _).
  assert (len spk = 23) as -> by (unfold spk; rewrite !len_app, Hh; done).
  assert (at_ spk 22 = 0x87) as -> by
    (unfold spk; rewrite at_app_r, at_app_r, Hh by (rewrite ?Hh; done); done).
  simpl. unfold pad20. do 2 f_equal. unfold spk. by apply slice_app_mid'; rewrite ?Hh.
Qed.

(** Segwit programs: an opcode, the length of the program, the program. *)
Lemma classify_witness v p :
  v = 0 ∨ 0x51 ≤ v ≤ 0x60 → 2 ≤ len p ≤ 40 →
  classify ([Zbyte v; Zbyte (len p)] ++ p) =
    (if (v =? 0) && (len p =? 20) then P2WPKH
     else if (v =? 0) && (len p =? 32) then P2WSH
     else if (v =? 0x51) && (len p =? 32) then P2TR
     else WitnessUnknown, padded p).
Proof.
  intros Hv Hp. unfold classify. set (spk := _ ++ _).
  assert (len spk = len p + 2) as Hl by (unfold spk; simpl app; rewrite !len_cons; lia).
  assert (at_ spk 0 = v) as -> by (unfold spk; simpl app; at_norm; rewrite byteZ_Zbyte, Z.mod_small; lia).
  assert (at_ spk 1 = len p) as -> by
    (unfold spk; simpl app; rewrite at_cons, at_0, byteZ_Zbyte, Z.mod_small by lia; lia).
  assert (∀ b, b = len p + 2 → slice 2 b spk = p) as Hs.
  { intros b ->. unfold spk. rewrite <-(app_nil_r p) at 3.
    apply slice_app_mid'; [done|]. rewrite !len_cons, len_nil. lia. }
  rewrite Hl. repeat (case_match; try lia); f_equal; f_equal; apply Hs; lia.
Qed.

Lemma classify_op_return rest : classify (x6a :: rest) = (OpReturn, zeros 32).
Proof.
  unfold classify. rewrite at_0. change (byteZ x6a) with 0x6a.
  pose proof (len_nonneg rest). rewrite len_cons.
  repeat (case_match; try lia); done.
Qed.

Lemma classify_p2pk k : is_pubkey k → 2 ≤ at_ k 0 ≤ 4 →
  classify (key_push k ++ [xac]) = (P2PK, hash160 k ++ zeros 12).
Proof.
  unfold is_pubkey. intros Hk H0. unfold classify. set (spk := _ ++ _).
  assert (len spk = len k + 2) as Hl by (unfold spk; rewrite len_app, len_key_push; done || (rewrite len_cons, len_nil; lia)).
  assert (at_ spk 0 = len k) as Ha0 by
    (unfold spk, key_push; simpl app; rewrite at_0, byteZ_Zbyte, Z.mod_small; lia).
  assert (at_ spk 1 = at_ k 0) as Ha1.
  { unfold spk, key_push. simpl app. rewrite at_cons, at_app_l by lia. done. }
  assert (at_ spk (len spk - 1) = 0xac) as Hac.
  { unfold spk at 1. rewrite at_app_r by (rewrite len_key_push; lia).
    rewrite Hl, len_key_push. by replace (len k + 2 - 1 - (1 + len k)) with 0 by lia. }
  assert (slice 1 (1 + len k) spk = k) as Hs.
  { unfold spk, key_push. apply (slice_app_mid' _ _ [Zbyte (len k)]); done. }
  rewrite Ha0, Ha1, Hs. rewrite Hl in *.
  destruct Hk as [Hk|Hk]; rewrite Hk in *;
    [change (33 + 2 - 1) with 34 in Hac|change (65 + 2 - 1) with 66 in Hac];
    rewrite Hac; repeat (case_match; try lia); done.
Qed.

Lemma classify_multisig spk : multisig_shape spk →
  classify spk = (BareMultisig, hash160 spk ++ zeros 12).
Proof.
  intros Hs. unfold classify. rewrite (multisig_test_complete spk Hs).
  destruct Hs as (m & n & keys & Hm & Hn & Hall & Hc & Hspk).
  destruct keys as [|k keys]; [vm_compute in Hc; lia|].
  apply Forall_cons in Hall as [Hk Hall]. unfold is_pubkey in Hk.
  unfold multisig_script in Hspk. rewrite mjoin_fmap_cons in Hspk.
  set (mid := mjoin (key_push <$> keys)) in *.
  assert (len mid = 0 ∨ 34 ≤ len mid) as Hmid.
  { destruct Hall as [|k' keys Hk' Hall]; [by left|right]. unfold mid.
    rewrite mjoin_fmap_cons, len_app, len_key_push. unfold is_pubkey in Hk'.
    pose proof (len_nonneg (mjoin (key_push <$> keys))). lia. }
  assert (len spk = len mid + len k + 4) as Hl.
  { rewrite Hspk, !len_app, len_key_push, !len_cons, !len_nil. lia. }
  assert (at_ spk 0 = 80 + m) as H0.
  { rewrite Hspk. simpl app. rewrite at_0, byteZ_Zbyte, Z.mod_small; lia. }
  assert (at_ spk 1 = len k) as H1.
  { rewrite Hspk. simpl app. rewrite at_cons, at_0, byteZ_Zbyte, Z.mod_small by lia. lia. }
  rewrite H0, H1, Hl. repeat (case_match; try lia); done.
Qed.

Lemma classify_complete spk t h : script_template spk t h → classify spk = (t, h).
Proof.
  intros [h' ?|h' ?|h' ?|h' ?|h' ?|v p Hv Hp Hn0 Hn1|rest|k ? ?|spk' ?].
  - by apply classify_p2pkh.
  - by apply classify_p2sh.
  - pose proof (classify_witness 0 h') as Hw. rewrite H in Hw.
    rewrite (padded_small h'), H in Hw by lia. exact (Hw ltac:(lia) ltac:(lia)).
  - pose proof (classify_witness 0 h') as Hw. rewrite H in Hw.
    rewrite (padded_small h'), H in Hw by lia.
    change (zeros (Z.to_nat (32 - 32))) with (@nil byte) in Hw. rewrite app_nil_r in Hw.
    exact (Hw ltac:(lia) ltac:(lia)).
  - pose proof (classify_witness 0x51 h') as Hw. rewrite H in Hw.
    rewrite (padded_small h'), H in Hw by lia.
    change (zeros (Z.to_nat (32 - 32))) with (@nil byte) in Hw. rewrite app_nil_r in Hw.
    exact (Hw ltac:(lia) ltac:(lia)).
  - rewrite classify_witness by done. f_equal. repeat (case_match; try lia); done.
  - apply classify_op_return.
  - by apply classify_p2pk.
  - by apply classify_multisig.
Qed.

(** The other direction, one guard of the cascade at a time. *)
Lemma p2pkh_sound spk :
  len spk = 25 → at_ spk 0 = 0x76 → at_ spk 1 = 0xa9 → at_ spk 2 = 0x14 →
  at_ spk 23 = 0x88 → at_ spk 24 = 0xac → script_template spk P2PKH (pad20 (slice 3 23 spk)).
Proof.
  intros Hl H0 H1 H2 H23 H24. peel_first H0. rewrite len_cons in Hl.
  rewrite at_cons in H1, H2, H23, H24 by lia. simpl in *.
  peel_first H1. rewrite at_cons in H2, H23, H24 by lia. simpl in *.
  peel_first H2. rewrite at_cons in H23, H24 by lia. simpl in *.
  apply (at_last _ 21) in H24 as (l & -> & Hl2); [|lia|lia].
  rewrite at_app_l in H23 by lia.
  apply (at_last _ 20) in H23 as (h & -> & Hh); [|lia|lia].
  rewrite <-app_assoc.
  replace (slice 3 23 _) with h; [by apply (T_P2PKH h)|].
  symmetry. by apply (slice_app_mid' 3 23 [_; _; _]); rewrite ?Hh.
Qed.

Lemma p2sh_sound spk :
  len spk = 23 → at_ spk 0 = 0xa9 → at_ spk 1 = 0x14 → at_ spk 22 = 0x87 →
  script_template spk P2SH (pad20 (slice 2 22 spk)).
Proof.
  intros Hl H0 H1 H22. peel_first H0. rewrite len_cons in Hl.
  rewrite at_cons in H1, H22 by lia. simpl in *.
  peel_first H1. rewrite at_cons in H22 by lia. simpl in *.
  apply (at_last _ 20) in H22 as (h & -> & Hh); [|lia|lia].
  replace (slice 2 22 _) with h; [by apply (T_P2SH h)|].
  symmetry. by apply (slice_app_mid' 2 22 [_; _]); rewrite ?Hh.
Qed.

Lemma witness_shape spk :
  4 ≤ len spk ≤ 42 → at_ spk 1 + 2 = len spk →
  ∃ p, spk = [Zbyte (at_ spk 0); Zbyte (len p)] ++ p ∧ len p = at_ spk 1 ∧
    (∀ e, e = len spk → slice 2 e spk = p).
Proof.
  intros Hl H1. destruct spk as [|a [|b p]]; [done|done|]. rewrite !len_cons in *.
  rewrite (at_cons a (b :: p) 1) in H1 |- * by lia. simpl in H1 |- *. rewrite !at_0 in *.
  exists p. rewrite Zbyte_byteZ. replace (len p) with (byteZ b) by lia.
  rewrite Zbyte_byteZ. split_and!; [done|done|]. intros e ->.
  rewrite <-(app_nil_r p) at 1. apply (slice_app_mid' _ _ [a; b]); [done|].
  change (len [a; b]) with 2. lia.
Qed.

Lemma p2pk_sound spk :
  len spk = at_ spk 0 + 2 → at_ spk 0 = 33 ∨ at_ spk 0 = 65 →
  at_ spk (at_ spk 0 + 1) = 0xac → 2 ≤ at_ spk 1 ≤ 4 →
  script_template spk P2PK (pad20 (hash160 (slice 1 (1 + at_ spk 0) spk))).
Proof.
  intros Hl H0 Hac H1. destruct spk as [|a spk]; [rewrite len_nil in Hl; lia|].
  rewrite len_cons in Hl. rewrite at_0 in *. rewrite at_cons in Hac, H1 by lia.
  rewrite Z.add_simpl_r in Hac. simpl in H1.
  apply (at_last _ (byteZ a)) in Hac as (k & -> & Hk); [|lia|lia].
  rewrite at_app_l in H1 by lia.
  replace (slice 1 _ _) with k.
  - replace a with (Zbyte (len k)) by (by rewrite Hk, Zbyte_byteZ).
    apply (T_P2PK k); [unfold is_pubkey; lia|done].
  - symmetry. apply (slice_app_mid' 1 _ [a]); [done|]. rewrite len_cons, len_nil. lia.
Qed.

(** The tests after the segwit ones. *)
Definition classify_tail (spk : bytes) : ScriptType * bytes :=
  let l := len spk in
  if (1 <=? l) && (at_ spk 0 =? 0x6a) then (OpReturn, zeros 32)
  else
    let pk_len := at_ spk 0 in
    if (((l =? 35) && (at_ spk 0 =? 33) && (at_ spk 34 =? 0xac))
        || ((l =? 67) && (at_ spk 0 =? 65) && (at_ spk 66 =? 0xac)))
       && ((2 <=? at_ spk 1) && (at_ spk 1 <=? 4))
    then (P2PK, pad20 (hash160 (slice 1 (1 + pk_len) spk)))
    else if multisig_test spk then (BareMultisig, pad20 (hash160 spk))
    else (Unknown, zeros 32).

Lemma classify_tail_sound spk t h :
  classify_tail spk = (t, h) → t ≠ Unknown → script_template spk t h.
Proof.
  unfold classify_tail. intros Hc Ht.
  case_match eqn:Ho.
  { simplify_eq. destruct (at_eq_cons spk 0x6a) as (l & -> & _); [lia|lia|].
    apply T_OpReturn. }
  case_match eqn:Hk.
  { simplify_eq. apply andb_true_iff in Hk as [Hk Hb]. apply orb_true_iff in Hk as [Hk|Hk].
    - apply p2pk_sound; [lia|lia| |lia]. replace (at_ spk 0 + 1) with 34 by lia. lia.
    - apply p2pk_sound; [lia|lia| |lia]. replace (at_ spk 0 + 1) with 66 by lia. lia. }
  case_match eqn:Hm; simplify_eq.
  apply T_BareMultisig. by apply multisig_test_sound.
Qed.

Lemma classify_segwit_sound spk t h :
  4 ≤ len spk ≤ 42 → at_ spk 1 + 2 = len spk → 2 ≤ at_ spk 1 ≤ 40 →
  (if at_ spk 0 =? 0 then
     if at_ spk 1 =? 20 then (P2WPKH, padded (slice 2 22 spk))
     else if at_ spk 1 =? 32 then (P2WSH, padded (slice 2 34 spk))
     else (WitnessUnknown, padded (slice 2 (len spk) spk))
   else if (0x51 <=? at_ spk 0) && (at_ spk 0 <=? 0x60) then
     if (at_ spk 0 =? 0x51) && (at_ spk 1 =? 32) then (P2TR, padded (slice 2 34 spk))
     else (WitnessUnknown, padded (slice 2 (len spk) spk))
   else classify_tail spk) = (t, h) → t ≠ Unknown → script_template spk t h.
Proof.
  intros Hl Hpl Hp2 Hc Ht. destruct (witness_shape spk) as (p & Hspk & Hp & Hs); [lia|lia|].
  rewrite (Hs (len spk)) in Hc by done.
  destruct (at_ spk 0 =? 0) eqn:Hop.
  { assert (at_ spk 0 = 0) as Hop0 by lia. rewrite Hop0 in Hspk.
    destruct (at_ spk 1 =? 20) eqn:H20; [|destruct (at_ spk 1 =? 32) eqn:H32]; injection Hc as <- <-.
    - rewrite (Hs 22), padded_small by lia. rewrite Hspk.
      replace (len p) with 20 by lia. apply T_P2WPKH. lia.
    - rewrite (Hs 34), padded_small by lia. rewrite Hspk.
      replace (len p) with 32 by lia. rewrite app_nil_r. apply T_P2WSH. lia.
    - rewrite Hspk. apply T_Witness; lia. }
  destruct ((0x51 <=? at_ spk 0) && (at_ spk 0 <=? 0x60)) eqn:Hr;
    [|by apply classify_tail_sound].
  destruct ((at_ spk 0 =? 0x51) && (at_ spk 1 =? 32)) eqn:Htr; injection Hc as <- <-.
  - rewrite (Hs 34), padded_small by lia. rewrite Hspk.
    replace (at_ spk 0) with 0x51 by lia.
    replace (len p) with 32 by lia. rewrite app_nil_r. apply T_P2TR. lia.
  - rewrite Hspk. apply T_Witness; lia.
Qed.

Lemma classify_sound spk t h :
  classify spk = (t, h) → t ≠ Unknown → script_template spk t h.
Proof.
  unfold classify. intros Hc Ht.
  case_match eqn:G1; [simplify_eq; apply p2pkh_sound; lia|].
  case_match eqn:G2; [simplify_eq; apply p2sh_sound; lia|].
  destruct ((4 <=? len spk) && (len spk <=? 42) && (at_ spk 1 + 2 =? len spk)
            && (2 <=? at_ spk 1) && (at_ spk 1 <=? 40)) eqn:GS.
  - apply classify_segwit_sound; [lia|lia|lia| |done]. rewrite <-Hc. done.
  - by apply classify_tail_sound.
Qed.

Lemma classify_unknown_hash spk h : classify spk = (Unknown, h) → h = zeros 32.
Proof. unfold classify. intros Hc. repeat (case_match; simplify_eq); done. Qed.

Lemma classify_hash_len spk : len (snd (classify spk)) = 32.
Proof.
  assert (∀ x, len (pad20 (hash160 x)) = 32) as Hh.
  { intros x. unfold pad20. rewrite len_app, hash160_len, len_zeros. done. }
  unfold classify. repeat case_match; simpl; rewrite ?Hh, ?len_padded, ?len_zeros; try done.
  all: unfold pad20; rewrite len_app, len_zeros, len_slice; lia.
Qed.
End classify.

Lemma template_not_unknown `{Sha256} `{Ripemd160} spk t h : script_template spk t h → t ≠ Unknown.
Proof. by intros []. Qed.

(** ** Lemmas: no test reads out of range *)

Section in_range.
Context {E : Type}.

Lemma index_ok (spk : bytes) i : 0 ≤ i < len spk → index (E := E) spk i = Ok (spk !!! Z.to_nat i).
Proof.
  intros Hi. unfold index, len in *.
  destruct (lookup_lt_is_Some_2 spk (Z.to_nat i)) as [b Hb]; [lia|].
  rewrite Hb. by rewrite (list_lookup_total_correct _ _ _ Hb).
Qed.

Lemma byte_is_ok spk i v : 0 ≤ i < len spk → byte_is (E := E) spk i v = Ok (at_ spk i =? v).
Proof. intros Hi. unfold byte_is. by rewrite index_ok. Qed.

Lemma and_also_ok a b : Ok (E := E) a &&? Ok b = Ok (a && b).
Proof. by destruct a. Qed.

Lemma or_else_ok a b : Ok (E := E) a ||? Ok b = Ok (a || b).
Proof. by destruct a. Qed.

Lemma ok_bind {A B} (a : A) (k : A → Res E B) : (Ok a ≫= k) = k a.
Proof. done. Qed.

Lemma pad_slice_ok b : pad_slice (E := E) b = Ok (padded b).
Proof.
  unfold pad_slice, padded. pose proof (len_nonneg b).
  rewrite slice_at_ok, ok_bind by lia. rewrite copy_from_slice_ok; [done|]. rewrite len_slice; lia.
Qed.

Lemma pubkey_walk_ok fuel spk end_ i count :
  0 ≤ i → end_ ≤ len spk → end_ - i ≤ Z.of_nat fuel →
  pubkey_walk (E := E) fuel spk end_ i count = Ok (keys_walk fuel spk end_ i count).
Proof.
  revert i count. induction fuel as [|fuel IH]; intros i count Hi Hl Hf; cbn [pubkey_walk keys_walk].
  { case_match; [lia|done]. }
  case_match eqn:He; [|done]. rewrite index_ok, ok_bind by lia. fold (at_ spk i).
  pose proof (at_bound spk i). case_match eqn:Hp; [done|]. case_match eqn:Hq; [done|].
  apply IH; lia.
Qed.

Lemma is_bare_multisig_ok spk : is_bare_multisig (E := E) spk = Ok (multisig_test spk).
Proof.
  unfold is_bare_multisig, multisig_test. destruct (len spk <? 3) eqn:Hl; [done|].
  rewrite !usize_sub_le, byte_is_ok by lia. cbn [or_else mbind Res_bind mret Res_ret fmap Res_fmap orb].
  case_match; [done|]. rewrite !index_ok, !ok_bind by lia.
  fold (at_ spk 0) (at_ spk (len spk - 2)).
  case_match; [done|]. case_match; [done|].
  rewrite pubkey_walk_ok, ok_bind by (unfold len in *; lia). by destruct (keys_walk _ _ _ _ _) as [[??]|].
Qed.
End in_range.

(** Evaluate the tests of a script whose length is known. *)
Ltac in_range :=
  rewrite ?byte_is_ok by lia; unfold mret, Res_ret;
  rewrite ?and_also_ok, ?or_else_ok.

Section classify_ok.
Context {SHA : Sha256} {RIP : Ripemd160} {E : Type}.

Lemma classify_segwit_ok spk : 4 ≤ len spk ≤ 42 →
  classify_segwit (E := E) spk =
    Ok (if (at_ spk 1 + 2 =? len spk) && (2 <=? at_ spk 1) && (at_ spk 1 <=? 40) then
          if at_ spk 0 =? 0 then
            Some (if at_ spk 1 =? 20 then (P2WPKH, padded (slice 2 22 spk))
                  else if at_ spk 1 =? 32 then (P2WSH, padded (slice 2 34 spk))
                  else (WitnessUnknown, padded (slice 2 (len spk) spk)))
          else if (0x51 <=? at_ spk 0) && (at_ spk 0 <=? 0x60) then
            Some (if (at_ spk 0 =? 0x51) && (at_ spk 1 =? 32) then (P2TR, padded (slice 2 34 spk))
                  else (WitnessUnknown, padded (slice 2 (len spk) spk)))
          else None
        else None).
Proof.
  intros Hl. unfold classify_segwit. rewrite !index_ok, !ok_bind by lia.
  fold (at_ spk 0) (at_ spk 1). rewrite andb_assoc. case_match eqn:Hp; [|done].
  repeat case_match; try done; rewrite slice_at_ok, ok_bind, pad_slice_ok by lia; done.
Qed.

Lemma classify_pubkey_ok spk :
  classify_pubkey (E := E) spk =
    Ok (if (((len spk =? 35) && (at_ spk 0 =? 33) && (at_ spk 34 =? 0xac))
            || ((len spk =? 67) && (at_ spk 0 =? 65) && (at_ spk 66 =? 0xac)))
           && ((2 <=? at_ spk 1) && (at_ spk 1 <=? 4))
        then Some (P2PK, pad20 (hash160 (slice 1 (1 + at_ spk 0) spk))) else None).
Proof.
  unfold classify_pubkey. set (sh := _ || _).
  assert ((Ok (E := E) (len spk =? 35) &&? byte_is spk 0 33 &&? byte_is spk 34 0xac)
    ||? (Ok (len spk =? 67) &&? byte_is spk 0 65 &&? byte_is spk 66 0xac) = Ok sh) as ->.
  { unfold sh. destruct (len spk =? 35) eqn:H35; [|destruct (len spk =? 67) eqn:H67; [|done]].
    - replace (len spk =? 67) with false by lia.
      change (Ok (E := E) false &&? byte_is spk 0 65 &&? byte_is spk 66 0xac) with (@Ok E _ false).
      in_range. done.
    - in_range. done. }
  rewrite ok_bind. destruct sh eqn:Hsh; [|done]. subst sh.
  assert (at_ spk 0 = 33 ∧ len spk = 35 ∨ at_ spk 0 = 65 ∧ len spk = 67) as Hk by lia.
  rewrite index_ok, ok_bind by lia. fold (at_ spk 0).
  rewrite slice_at_ok, ok_bind by lia. rewrite index_ok by (rewrite len_slice; lia).
  rewrite ok_bind.
  assert (byteZ (slice 1 (1 + at_ spk 0) spk !!! Z.to_nat 0) = at_ spk 1) as ->.
  { unfold slice. rewrite lookup_total_take_lt by lia. by rewrite lookup_total_drop. }
  by case_match.
Qed.

(** The tests after the segwit ones, whose conditions both sides share. *)
Ltac classify_rest :=
  cbn [andb]; destruct ((1 <=? len _) && _); [done|];
  destruct ((_ || _) && _); [done|]; by destruct (multisig_test _).

(** Every index and slice of the classifier is in range, and the answer is that
    of the tests above. *)
Lemma classify_script_ok spk : classify_script (E := E) spk = Ok (classify spk).
Proof.
  unfold classify_script, classify.
  set (b1 := (len spk =? 25) && _ && _ && _ && _ && (at_ spk 24 =? _)).
  set (b2 := (len spk =? 23) && _ && _ && (at_ spk 22 =? _)).
  match goal with |- (?t ≫= _) = _ => assert (t = Ok b1) as -> end.
  { unfold b1. destruct (len spk =? 25) eqn:Hl; [in_range|]; done. }
  rewrite ok_bind. destruct b1 eqn:H1; subst b1.
  { rewrite slice_at_ok, ok_bind by lia. rewrite copy_from_slice_ok by (rewrite len_slice; lia). done. }
  match goal with |- (?t ≫= _) = _ => assert (t = Ok b2) as -> end.
  { unfold b2. destruct (len spk =? 23) eqn:Hl; [in_range|]; done. }
  rewrite ok_bind. destruct b2 eqn:H2; subst b2.
  { rewrite slice_at_ok, ok_bind by lia. rewrite copy_from_slice_ok by (rewrite len_slice; lia). done. }
  assert (Ok (E := E) (1 <=? len spk) &&? byte_is spk 0 0x6a
          = Ok ((1 <=? len spk) && (at_ spk 0 =? 0x6a))) as Hop.
  { destruct (1 <=? len spk) eqn:Hl; [in_range|]; done. }
  rewrite Hop, classify_pubkey_ok, is_bare_multisig_ok, !ok_bind. cbv zeta.
  destruct ((4 <=? len spk) && (len spk <=? 42)) eqn:Hl.
  - rewrite classify_segwit_ok, ok_bind by lia. rewrite andb_true_l.
    destruct ((at_ spk 1 + 2 =? len spk) && (2 <=? at_ spk 1) && (at_ spk 1 <=? 40)) eqn:Hs;
      [destruct (at_ spk 0 =? 0) eqn:H0; [by repeat case_match|]|];
      [destruct ((0x51 <=? at_ spk 0) && (at_ spk 0 <=? 0x60)) eqn:H5; [by repeat case_match|]|];
      classify_rest.
  - rewrite !andb_false_l. classify_rest.
Qed.
End classify_ok.

(** ** Theorems *)

Section theorems.
Context {SHA : Sha256} {RIP : Ripemd160} {E : Type}.

(** C13: Equivalence with the templates. [classify_script] returns a type and a
    32-byte hash exactly when the script is an instance of that type's
    template, with the hash the template carries, and [Unknown] with the zero
    hash exactly when no template matches; it never panics, so the nested byte
    tests, their order and their index arithmetic implement the declarative
    definition. *)
Theorem classify_script_iff (spk : bytes) :
  (∃ t h, classify_script (E := E) spk = Ok (t, h)) ∧
  ∀ t h, classify_script (E := E) spk = Ok (t, h) ↔
    script_template spk t h ∨
    (t = Unknown ∧ h = zeros 32 ∧ ∀ t' h', ¬ script_template spk t' h').
Proof.
  rewrite classify_script_ok. split; [destruct (classify spk); eauto|].
  intros t h. split.
  - intros [= Hc]. destruct (decide (t = Unknown)) as [->|Ht].
    + right. split_and!; [done|by eapply classify_unknown_hash|].
      intros t' h' Ht. pose proof (template_not_unknown _ _ _ Ht) as Hn.
      apply classify_complete in Ht. congruence.
    + left. by apply classify_sound.
  - intros [Ht|(-> & -> & Hno)]; [by rewrite (classify_complete _ _ _ Ht)|].
    destruct (classify spk) as [t' h'] eqn:Hc.
    destruct (decide (t' = Unknown)) as [->|Ht]; [|by destruct (Hno t' h'); apply classify_sound].
    do 2 f_equal. by eapply classify_unknown_hash.
Qed.
End theorems.

(** The wrap-around of the [u8] key count: 257 keys pass for one
    (release profile; a debug build panics on the overflow). *)
Lemma multisig_count_wraps {E} (k : bytes) (Hk : is_pubkey k) :
  is_bare_multisig (E := E) (multisig_script 1 1 (replicate 257 k)) = Ok true.
Proof.
  rewrite is_bare_multisig_ok. f_equal.
  apply multisig_test_complete. exists 1, 1, (replicate 257 k).
  split_and!; try done. by apply Forall_replicate.
Qed.
