(* ===== verification/Tx.v ===== *)
(** * Tx: full block payload parsing, [bidx-parser/src/tx.rs]

    [parse_tx] is split where the source has its loops; the cursor is the
    state of the monad and [block] is the payload the cursor reads. *)
From S2P Require Import Prelude Cursor Hash Types Script.

Inductive TxParseError : Type :=
  | TPCursor (e : ParseError)
  | TxCountMismatch (declared parsed : Z)
  | BadValue (v : Z)
  | BadSegwitFlag (tx_index : Z).

Definition MAX_MONEY : Z := 21000000 * 100000000.

Record FullBlock : Type := mkFullBlock {
  block_row : BlockRow; txs : list TxRow; inputs : list InputRow; outputs : list OutputRow }.

Definition PM (A : Type) : Type := M Cursor TxParseError A.

(** [r?] on a cursor read: [TxParseError::Cursor] is [#[from] ParseError]. *)
Definition rd {A} (m : Rd A) : PM A := m_map_err TPCursor m.

(** The first byte of the input count has been read as [marker]; the rest of
    the compact-size integer is decoded in place. *)
Definition inline_count (marker : byte) : PM Z :=
  let f := byteZ marker in
  if f <=? 0xfc then mret f
  else if f =? 0xfd then rd read_u16
  else if f =? 0xfe then rd read_u32
  else
    n ← rd read_u64;
    if 4000000 <? n then m_fail_at (λ c, TPCursor (CountOverflow n (pos c))) else mret n.

(** The input count, after the BIP144 marker detection. *)
Definition read_input_count (tx_index : Z) (marker : byte) : PM Z :=
  if bool_decide (marker = x00) then
    flag ← rd read_u8;
    if bool_decide (flag = x00) then m_fail (BadSegwitFlag tx_index) else rd read_count
  else inline_count marker.

Definition parse_input (height tx_index : Z) (is_single_input : bool) (input_index : Z) : PM InputRow :=
  prev_txid ← rd (read_array 32);
  prev_vout ← rd read_u32;
  script_len ← rd read_count;
  _ ← rd (skip script_len);
  sequence ← rd read_u32;
  let is_coinbase :=
    is_single_input && (input_index =? 0) && bool_decide (prev_txid = zeros 32)
    && (prev_vout =? 0xFFFFFFFF) in
  mret (mkInputRow height tx_index input_index (zeros 32) prev_txid prev_vout
          (u32 script_len) sequence 0 0 is_coinbase).

(** The witness items of one input: [item_count] lengths, each followed by its
    bytes; [acc] is [inp.witness_bytes], a [u32]. *)
Fixpoint skip_items (item_count : nat) (acc : Z) : PM Z :=
  match item_count with
  | O => mret acc
  | S n =>
    item_len ← rd read_count;
    _ ← rd (skip item_len);
    skip_items n (u32 (acc + u32 item_len))
  end.

Definition parse_witness (inp : InputRow) : PM InputRow :=
  item_count ← rd read_count;
  nbytes ← skip_items (Z.to_nat item_count) (ir_witness_bytes inp);
  mret (set_ir_witness (u32 item_count) nbytes inp).

(** [for inp in inputs.iter_mut()]. *)
Fixpoint parse_witnesses (inps : list InputRow) : PM (list InputRow) :=
  match inps with
  | [] => mret []
  | inp :: inps => inp' ← parse_witness inp; rest ← parse_witnesses inps; mret (inp' :: rest)
  end.

Section parse.
Context `{Sha256} `{Ripemd160}.

Definition parse_output (height tx_index output_index : Z) : PM OutputRow :=
  value_sat ← rd read_u64;
  if MAX_MONEY <? value_sat then m_fail (BadValue value_sat)
  else
    spk_len ← rd read_count;
    spk ← rd (read_bytes spk_len);
    '(script_type, address_hash) ← m_lift (classify_script spk);
    mret (mkOutputRow height tx_index output_index (zeros 32) value_sat (u32 spk_len)
            (script_type_u8 script_type) address_hash).

(** The txid of a transaction at [abs_start..abs_end] of the block. *)
Definition compute_txid (block : bytes) (has_witness : bool)
    (abs_start stripped_prefix_end abs_end : Z) : Res TxParseError Hash32 :=
  if has_witness then
    prefix ← slice_at abs_start stripped_prefix_end block;
    lock ← slice_at (abs_end - 4) abs_end block;
    version ← slice_at 0 4 prefix;
    body ← slice_at 6 (len prefix) prefix;
    let h := sha_new in
    let h := sha_update h version in
    let h := sha_update h body in
    let h := sha_update h lock in
    let first := sha_finalize h in
    let h2 := sha_new in
    let h2 := sha_update h2 first in
    mret (sha_finalize h2)
  else
    whole ← slice_at abs_start abs_end block;
    mret (dsha256 whole).

Definition parse_tx (block : bytes) (height tx_index : Z)
    : PM (TxRow * list InputRow * list OutputRow) :=
  abs_start ← m_gets pos;
  version ← rd read_i32;
  marker ← rd read_u8;
  let has_witness := bool_decide (marker = x00) in
  input_count ← read_input_count tx_index marker;
  let is_single_input := input_count =? 1 in
  inputs ← for_collect (Z.to_nat (u32 input_count)) 0 (parse_input height tx_index is_single_input);
  output_count ← rd read_count;
  outputs ← for_collect (Z.to_nat (u32 output_count)) 0 (parse_output height tx_index);
  stripped_prefix_end ← m_gets pos;
  inputs ← (if has_witness then parse_witnesses inputs else mret inputs);
  locktime ← rd read_u32;
  abs_end ← m_gets pos;
  txid ← m_lift (compute_txid block has_witness abs_start stripped_prefix_end abs_end);
  let inputs := set_ir_txid txid <$> inputs in
  let outputs := set_or_txid txid <$> outputs in
  let total_len := abs_end - abs_start in
  let stripped_len :=
    if has_witness then stripped_prefix_end - abs_start - 2 + 4 else total_len in
  let weight := u64 (stripped_len * 3 + total_len) in
  mret (mkTxRow height tx_index txid version locktime (u32 total_len) (u32 weight) 0
          (u32 input_count) (u32 output_count) has_witness, inputs, outputs).

(** [tx_outputs.iter().map(|o| o.value_sat).sum()], a [u64] sum. *)
Definition sum_values (os : list OutputRow) : Z :=
  foldl (λ acc o, u64 (acc + or_value_sat o)) 0 os.

(** The accumulators of the transaction loop of [parse_block_full]. *)
Record BlockAcc : Type := mkAcc {
  a_txs : list TxRow; a_inputs : list InputRow; a_outputs : list OutputRow;
  a_coinbase_value : Z; a_tx_weight_sum : Z }.

Fixpoint parse_txs (payload : bytes) (height : Z) (n : nat) (tx_index : Z) (acc : BlockAcc)
    : PM BlockAcc :=
  match n with
  | O => mret acc
  | S n =>
    r ← parse_tx payload height tx_index;
    let '(tx, tx_inputs, tx_outputs) := r in
    let cb := if tx_index =? 0 then sum_values tx_outputs else a_coinbase_value acc in
    parse_txs payload height n (tx_index + 1)
      (mkAcc (a_txs acc ++ [tx]) (a_inputs acc ++ tx_inputs) (a_outputs acc ++ tx_outputs)
         cb (u64 (a_tx_weight_sum acc + tr_weight tx)))
  end.

Definition parse_block_body (payload : bytes) (height : Z) (block_hash : Hash32)
    (header : BlockHeader) : PM FullBlock :=
  _ ← rd (skip 80);
  tx_count ← rd read_count;
  acc ← parse_txs payload height (Z.to_nat (u32 tx_count)) 0 (mkAcc [] [] [] 0 0);
  if negb (len (a_txs acc) =? tx_count) then m_fail (TxCountMismatch tx_count (len (a_txs acc)))
  else
    let block_weight := u32 (Z.min (u64 (a_tx_weight_sum acc + 80 * 4)) u32_max) in
    mret (mkFullBlock
      (mkBlockRow height block_hash (prev_hash header) (merkle_root header) (time header)
         (bits header) (nonce header) (version header) (u32 tx_count) (u32 (len payload))
         block_weight 0 (a_coinbase_value acc))
      (a_txs acc) (a_inputs acc) (a_outputs acc)).

Definition parse_block_full (payload : bytes) (height : Z) (block_hash : Hash32)
    (header : BlockHeader) : Res TxParseError FullBlock :=
  fst (parse_block_body payload height block_hash header (new payload)).
End parse.

(** ** Specification: transactions and their serialization (BIP141, BIP144) *)

Record TxIn : Type := mkTxIn {
  ti_prev_txid : bytes; ti_prev_vout : Z; ti_script : bytes; ti_sequence : Z;
  ti_witness : list bytes }.

Record TxOut : Type := mkTxOut { to_value : Z; to_script : bytes }.

(** [tx_flag] is the BIP144 flag byte of a segwit serialization. *)
Record Tx : Type := mkTx {
  tx_version : Z; tx_flag : option byte; tx_ins : list TxIn; tx_outs : list TxOut;
  tx_locktime : Z }.

Definition txin_bytes (i : TxIn) : bytes :=
  ti_prev_txid i ++ le_bytes 4 (ti_prev_vout i) ++ varint (len (ti_script i)) ++ ti_script i
  ++ le_bytes 4 (ti_sequence i).

Definition txout_bytes (o : TxOut) : bytes :=
  le_bytes 8 (to_value o) ++ varint (len (to_script o)) ++ to_script o.

Definition item_bytes (w : bytes) : bytes := varint (len w) ++ w.

Definition witness_bytes (i : TxIn) : bytes :=
  varint (len (ti_witness i)) ++ mjoin (item_bytes <$> ti_witness i).

Definition tx_body_bytes (t : Tx) : bytes :=
  varint (len (tx_ins t)) ++ mjoin (txin_bytes <$> tx_ins t)
  ++ varint (len (tx_outs t)) ++ mjoin (txout_bytes <$> tx_outs t).

(** The serialization without witness data: what the txid hashes. *)
Definition tx_stripped (t : Tx) : bytes :=
  le_bytes 4 (tx_version t) ++ tx_body_bytes t ++ le_bytes 4 (tx_locktime t).

Definition tx_bytes (t : Tx) : bytes :=
  match tx_flag t with
  | None => tx_stripped t
  | Some f =>
    le_bytes 4 (tx_version t) ++ [x00; f] ++ tx_body_bytes t
    ++ mjoin (witness_bytes <$> tx_ins t) ++ le_bytes 4 (tx_locktime t)
  end.

Definition txin_wf (i : TxIn) : Prop :=
  len (ti_prev_txid i) = 32 ∧ is_u32 (ti_prev_vout i) ∧ len (ti_script i) ≤ MAX_ITEMS ∧
  is_u32 (ti_sequence i) ∧ len (ti_witness i) ≤ MAX_ITEMS ∧
  Forall (λ w, len w ≤ MAX_ITEMS) (ti_witness i).

Definition txout_wf (o : TxOut) : Prop :=
  0 ≤ to_value o ≤ MAX_MONEY ∧ len (to_script o) ≤ MAX_ITEMS.

(** What a transaction on the wire satisfies: a legacy serialization has an
    input and no witness; a block is far below 2^30 bytes. *)
Definition tx_wf (t : Tx) : Prop :=
  is_i32 (tx_version t) ∧ is_u32 (tx_locktime t) ∧
  len (tx_ins t) ≤ MAX_ITEMS ∧ len (tx_outs t) ≤ MAX_ITEMS ∧
  Forall txin_wf (tx_ins t) ∧ Forall txout_wf (tx_outs t) ∧
  len (tx_bytes t) < 2 ^ 30 ∧
  match tx_flag t with
  | None => tx_ins t ≠ [] ∧ Forall (λ i, ti_witness i = []) (tx_ins t)
  | Some f => f ≠ x00
  end.

Section spec.
Context `{Sha256} `{Ripemd160}.

Definition txid_of (t : Tx) : Hash32 := dsha256 (tx_stripped t).

Definition coinbase_input (t : Tx) (i : TxIn) : bool :=
  (len (tx_ins t) =? 1) && bool_decide (ti_prev_txid i = zeros 32)
  && (ti_prev_vout i =? 0xFFFFFFFF).

Definition input_row (height tx_index : Z) (t : Tx) (k : Z) (i : TxIn) : InputRow :=
  mkInputRow height tx_index k (txid_of t) (ti_prev_txid i) (ti_prev_vout i)
    (len (ti_script i)) (ti_sequence i) (len (ti_witness i)) (len (mjoin (ti_witness i)))
    (coinbase_input t i).

Definition output_row (height tx_index : Z) (t : Tx) (k : Z) (o : TxOut) : OutputRow :=
  let '(ty, h) := classify (to_script o) in
  mkOutputRow height tx_index k (txid_of t) (to_value o) (len (to_script o))
    (script_type_u8 ty) h.

(** BIP141: weight = 3 * stripped size + total size. *)
Definition tx_row (height tx_index : Z) (t : Tx) : TxRow :=
  mkTxRow height tx_index (txid_of t) (tx_version t) (tx_locktime t) (len (tx_bytes t))
    (3 * len (tx_stripped t) + len (tx_bytes t)) 0 (len (tx_ins t)) (len (tx_outs t))
    (bool_decide (is_Some (tx_flag t))).

Definition tx_rows (height tx_index : Z) (t : Tx) : TxRow * list InputRow * list OutputRow :=
  (tx_row height tx_index t,
   imap (λ k, input_row height tx_index t (Z.of_nat k)) (tx_ins t),
   imap (λ k, output_row height tx_index t (Z.of_nat k)) (tx_outs t)).
End spec.

(** ** Lemmas: what the parsers read *)

Lemma reads_rd {A} (m : Rd A) bs a : reads m bs a → reads (rd m) bs a.
Proof. apply reads_map_err. Qed.

#[export] Hint Resolve reads_rd : bidx.

Lemma count_bounds {A} (l : list A) : len l ≤ MAX_ITEMS → 0 ≤ len l ≤ MAX_ITEMS.
Proof. pose proof (len_nonneg l). lia. Qed.

Lemma reads_len_count {A} (l : list A) :
  len l ≤ MAX_ITEMS → reads (rd read_count) (varint (len l)) (len l).
Proof. intros Hl. apply reads_rd, reads_count. by apply count_bounds. Qed.

Lemma u32_count {A} (l : list A) : len l ≤ MAX_ITEMS → u32 (len l) = len l.
Proof. intros Hl. apply u32_small. pose proof (len_nonneg l). unfold MAX_ITEMS in *. lia. Qed.

#[export] Hint Resolve reads_len_count : bidx.

Lemma reads_input height tx_index single k i :
  txin_wf i →
  reads (parse_input height tx_index single k) (txin_bytes i)
    (mkInputRow height tx_index k (zeros 32) (ti_prev_txid i) (ti_prev_vout i)
       (len (ti_script i)) (ti_sequence i) 0 0
       (single && (k =? 0) && bool_decide (ti_prev_txid i = zeros 32)
        && (ti_prev_vout i =? 0xFFFFFFFF))).
Proof.
  intros (Ht & Hv & Hs & Hq & _). unfold parse_input, txin_bytes.
  apply reads_bind with (ti_prev_txid i); [auto with bidx|].
  apply reads_bind with (ti_prev_vout i); [auto with bidx|].
  apply reads_bind with (len (ti_script i)); [auto with bidx|].
  apply reads_bind with (); [auto with bidx|].
  apply reads_bind_last with (ti_sequence i); [auto with bidx|].
  rewrite u32_count by done. apply reads_ret.
Qed.

Lemma reads_skip_items ws acc :
  Forall (λ w, len w ≤ MAX_ITEMS) ws → 0 ≤ acc → acc + len (mjoin ws) < 2 ^ 32 →
  reads (skip_items (length ws) acc) (mjoin (item_bytes <$> ws)) (acc + len (mjoin ws)).
Proof.
  intros Hws. revert acc. induction Hws as [|w ws Hw Hws IH]; intros acc Ha Hl.
  { simpl. rewrite len_nil, Z.add_0_r. apply reads_ret. }
  change (mjoin (w :: ws)) with (w ++ mjoin ws) in *. rewrite len_app in *.
  pose proof (len_nonneg w). pose proof (len_nonneg (mjoin ws)).
  rewrite mjoin_fmap_cons. unfold item_bytes at 1. rewrite <-app_assoc.
  simpl length. cbn [skip_items].
  apply reads_bind with (len w); [auto with bidx|].
  apply reads_bind with (); [auto with bidx|].
  rewrite u32_count, u32_small by (done || lia). rewrite Z.add_assoc. apply IH; lia.
Qed.

Lemma len_mjoin_items ws : len (mjoin ws) ≤ len (mjoin (item_bytes <$> ws)).
Proof.
  induction ws as [|w ws IH]; [done|].
  rewrite mjoin_fmap_cons. change (mjoin (w :: ws)) with (w ++ mjoin ws).
  unfold item_bytes at 1. rewrite !len_app. pose proof (len_nonneg (varint (len w))). lia.
Qed.

Lemma reads_witness i r :
  txin_wf i → len (witness_bytes i) < 2 ^ 30 → ir_witness_bytes r = 0 →
  reads (parse_witness r) (witness_bytes i)
    (set_ir_witness (len (ti_witness i)) (len (mjoin (ti_witness i))) r).
Proof.
  intros (_ & _ & _ & _ & Hn & Hws) Hl Hr. unfold parse_witness, witness_bytes in *.
  rewrite len_app in Hl. pose proof (len_mjoin_items (ti_witness i)).
  pose proof (len_nonneg (varint (len (ti_witness i)))).
  apply reads_bind with (len (ti_witness i)); [auto with bidx|].
  apply reads_bind_last with (len (mjoin (ti_witness i))).
  - rewrite to_nat_len, Hr. rewrite <-(Z.add_0_l (len (mjoin _))).
    apply reads_skip_items; [done|lia|lia].
  - rewrite u32_count by done. apply reads_ret.
Qed.

Lemma reads_witnesses ins (f : nat → TxIn → InputRow) :
  Forall txin_wf ins → len (mjoin (witness_bytes <$> ins)) < 2 ^ 30 →
  (∀ k i, ir_witness_bytes (f k i) = 0) →
  reads (parse_witnesses (imap f ins)) (mjoin (witness_bytes <$> ins))
    (imap (λ k i, set_ir_witness (len (ti_witness i)) (len (mjoin (ti_witness i))) (f k i)) ins).
Proof.
  intros His. revert f. induction His as [|i ins Hi His IH]; intros f Hl Hf; [apply reads_ret|].
  rewrite mjoin_fmap_cons, len_app in Hl. rewrite mjoin_fmap_cons, !imap_cons.
  pose proof (len_nonneg (witness_bytes i)).
  pose proof (len_nonneg (mjoin (witness_bytes <$> ins))).
  cbn [parse_witnesses].
  apply reads_bind with (set_ir_witness (len (ti_witness i)) (len (mjoin (ti_witness i))) (f 0%nat i)).
  { apply reads_witness; [done|lia|done]. }
  eapply reads_bind_last; [apply (IH (f ∘ S)); [lia|]|apply reads_ret].
  intros k j. apply Hf.
Qed.

Section reads.
Context `{Sha256} `{Ripemd160}.

Lemma reads_output height tx_index k o :
  txout_wf o →
  reads (parse_output height tx_index k) (txout_bytes o)
    (let '(ty, h) := classify (to_script o) in
     mkOutputRow height tx_index k (zeros 32) (to_value o) (len (to_script o))
       (script_type_u8 ty) h).
Proof.
  intros (Hv & Hs). unfold parse_output, txout_bytes.
  apply reads_bind with (to_value o).
  { apply reads_rd, reads_u64. unfold is_u64, MAX_MONEY in *. lia. }
  case_match; [lia|].
  apply reads_bind with (len (to_script o)); [auto with bidx|].
  apply reads_bind_last with (to_script o); [auto with bidx|].
  rewrite u32_count, classify_script_ok by done. destruct (classify _). apply reads_ret.
Qed.

(** The count after the marker: both encodings read the same count. *)
Lemma reads_segwit_count tx_index f n :
  f ≠ x00 → 0 ≤ n ≤ MAX_ITEMS → reads (read_input_count tx_index x00) (f :: varint n) n.
Proof.
  intros Hf Hn. unfold read_input_count. simpl.
  apply (reads_bind _ _ [f] (varint n) f); [auto with bidx|].
  rewrite bool_decide_false by done. auto with bidx.
Qed.

Lemma reads_legacy_count tx_index n :
  1 ≤ n ≤ MAX_ITEMS → ∃ b rest, varint n = b :: rest ∧ b ≠ x00 ∧
    reads (read_input_count tx_index b) rest n.
Proof.
  intros Hn. unfold varint.
  assert (∀ b, byteZ b ≠ 0 → b ≠ x00) as Hb by (intros b Hb ->; done).
  destruct (n <=? 0xfc) eqn:H1; [|destruct (n <=? 0xffff) eqn:H2;
    [|destruct (n <=? 0xffffffff) eqn:H3; [|unfold MAX_ITEMS in *; lia]]].
  - exists (Zbyte n), []. assert (byteZ (Zbyte n) = n) as Hz by (rewrite byteZ_Zbyte, Z.mod_small; lia).
    assert (Zbyte n ≠ x00) by (apply Hb; lia).
    split_and!; [done|done|]. unfold read_input_count, inline_count.
    rewrite bool_decide_false, Hz, H1 by done. apply reads_ret.
  - exists xfd, (le_bytes 2 n). split_and!; [done|done|]. apply reads_rd, reads_u16. lia.
  - exists xfe, (le_bytes 4 n). split_and!; [done|done|]. apply reads_rd, reads_u32.
    unfold is_u32. lia.
Qed.
End reads.

(** ** Lemmas: the layout of a serialized transaction *)

Section layout.
Context {SHA : Sha256} {RIP : Ripemd160}.

(** The bytes of [t] in the order [parse_tx] reads them: version, marker,
    rest of the count, inputs, outputs, witnesses, locktime. *)
Definition tx_prefix (t : Tx) (marker : byte) (hd : bytes) : bytes :=
  le_bytes 4 (tx_version t) ++ [marker] ++ hd ++ mjoin (txin_bytes <$> tx_ins t)
  ++ varint (len (tx_outs t)) ++ mjoin (txout_bytes <$> tx_outs t).

Definition layout (t : Tx) (k : Z) (marker : byte) (hd wit : bytes) : Prop :=
  tx_bytes t = tx_prefix t marker hd ++ wit ++ le_bytes 4 (tx_locktime t) ∧
  bool_decide (marker = x00) = bool_decide (is_Some (tx_flag t)) ∧
  (if bool_decide (marker = x00)
   then ∃ f, tx_prefix t marker hd = le_bytes 4 (tx_version t) ++ [x00; f] ++ tx_body_bytes t
   else tx_bytes t = tx_stripped t) ∧
  reads (read_input_count k marker) hd (len (tx_ins t)) ∧
  (∀ f, (∀ j i, ir_witness_bytes (f j i) = 0 ∧ ir_witness_items (f j i) = 0) →
    reads (if bool_decide (marker = x00) then parse_witnesses (imap f (tx_ins t))
           else mret (imap f (tx_ins t))) wit
      (imap (λ j i, set_ir_witness (len (ti_witness i)) (len (mjoin (ti_witness i))) (f j i))
         (tx_ins t))).

Lemma len_mjoin_witness_lt t f :
  tx_flag t = Some f → tx_wf t → len (mjoin (witness_bytes <$> tx_ins t)) < 2 ^ 30.
Proof.
  intros Hf (_ & _ & _ & _ & _ & _ & Hl & _). unfold tx_bytes in Hl. rewrite Hf in Hl.
  rewrite !len_app in Hl.
  pose proof (len_nonneg (tx_body_bytes t)). pose proof (len_nonneg [x00; f]).
  rewrite !len_le_bytes in Hl. lia.
Qed.

Lemma set_witness_id r :
  ir_witness_items r = 0 → ir_witness_bytes r = 0 → set_ir_witness 0 0 r = r.
Proof. destruct r; simpl. by intros -> ->. Qed.

Lemma tx_layout t k : tx_wf t → ∃ marker hd wit, layout t k marker hd wit.
Proof.
  intros Hwf. pose proof Hwf as (_ & _ & Hni & _ & Hins & _ & _ & Hfl). unfold layout.
  pose proof (count_bounds _ Hni) as Hb.
  destruct (tx_flag t) as [fl|] eqn:Hf.
  - exists x00, (fl :: varint (len (tx_ins t))), (mjoin (witness_bytes <$> tx_ins t)).
    split_and!; [|done| |by apply reads_segwit_count|].
    + unfold tx_bytes, tx_prefix, tx_body_bytes. rewrite Hf. simpl.
      by rewrite <-!app_assoc.
    + by exists fl.
    + intros f Hz. apply reads_witnesses; [done|by eapply len_mjoin_witness_lt|].
      intros j i. apply Hz.
  - destruct Hfl as [Hne Hnw].
    destruct (reads_legacy_count k (len (tx_ins t))) as (b & rest & Hv & Hb0 & Hr).
    { destruct (tx_ins t); [done|]. rewrite len_cons in *.
      pose proof (len_nonneg l). lia. }
    exists b, rest, []. split_and!; [|by rewrite bool_decide_false| |done|].
    2: { rewrite bool_decide_false by done. unfold tx_bytes. by rewrite Hf. }
    + unfold tx_bytes, tx_stripped, tx_prefix, tx_body_bytes. rewrite Hf, Hv. simpl.
      by rewrite <-!app_assoc.
    + intros f Hz. rewrite bool_decide_false by done.
      rewrite (imap_ext (λ j i, set_ir_witness _ _ _) f); [apply reads_ret|].
      intros j i Hi. rewrite Forall_lookup in Hnw. rewrite (Hnw _ _ Hi).
      apply set_witness_id; apply Hz.
Qed.

Lemma sha_digest3 a b c :
  sha_finalize (sha_update (sha_update (sha_update sha_new a) b) c) = sha_digest (a ++ b ++ c).
Proof. pose proof (sha_stream [a; b; c]) as Hs. simpl in Hs. by rewrite app_nil_r in Hs. Qed.

Lemma sha_digest1 a : sha_finalize (sha_update sha_new a) = sha_digest a.
Proof. pose proof (sha_stream [a]) as Hs. simpl in Hs. by rewrite app_nil_r in Hs. Qed.

(** Hashing in parts hashes the stripped serialization. *)
Lemma compute_txid_spec t k marker hd wit pre post :
  layout t k marker hd wit →
  compute_txid (pre ++ tx_bytes t ++ post) (bool_decide (marker = x00))
    (len pre) (len pre + len (tx_prefix t marker hd)) (len pre + len (tx_bytes t))
  = Ok (txid_of t).
Proof.
  intros (Heq & _ & Hx & _). unfold compute_txid, txid_of. case_bool_decide.
  - destruct Hx as [f Hp]. rewrite Heq. set (P := tx_prefix t marker hd) in *.
    set (L := le_bytes 4 (tx_locktime t)).
    assert (len L = 4) as HL by apply len_le_bytes.
    rewrite <-!app_assoc. rewrite (slice_at_app_mid (len pre)) by done.
    replace (pre ++ P ++ wit ++ L ++ post) with ((pre ++ P ++ wit) ++ L ++ post)
      by (by rewrite <-!app_assoc).
    m_unfold. rewrite slice_at_app_mid by (rewrite !len_app; lia).
    rewrite Hp. rewrite (slice_at_prefix 4) by (by rewrite len_le_bytes).
    rewrite (app_assoc _ [x00; f]), <-(app_nil_r (tx_body_bytes t)).
    rewrite slice_at_app_mid by
      (rewrite ?app_nil_r, !len_app, len_le_bytes, !len_cons, len_nil; lia).
    rewrite sha_digest3, sha_digest1. done.
  - rewrite slice_at_app_mid by done. m_unfold. by rewrite Hx.
Qed.

Lemma stripped_len_spec t k marker hd wit :
  layout t k marker hd wit →
  (if bool_decide (marker = x00) then len (tx_prefix t marker hd) - 2 + 4
   else len (tx_bytes t)) = len (tx_stripped t).
Proof.
  intros (Heq & _ & Hx & _). case_bool_decide; [|by rewrite Hx].
  destruct Hx as [f ->]. unfold tx_stripped.
  rewrite !len_app, !len_cons, len_nil, !len_le_bytes. lia.
Qed.

Lemma stripped_le t : len (tx_stripped t) ≤ len (tx_bytes t).
Proof.
  unfold tx_bytes. destruct (tx_flag t); [|lia]. unfold tx_stripped.
  rewrite !len_app. pose proof (len_nonneg [x00; b]).
  pose proof (len_nonneg (mjoin (witness_bytes <$> tx_ins t))). lia.
Qed.

(** One transaction, wherever it starts in the block. *)
Lemma parse_tx_spec t height k pre post :
  tx_wf t →
  parse_tx (pre ++ tx_bytes t ++ post) height k (at_cursor pre (tx_bytes t ++ post)) =
    (Ok (tx_rows height k t), at_cursor (pre ++ tx_bytes t) post).
Proof.
  intros Hwf. destruct (tx_layout t k Hwf) as (marker & hd & wit & Hlay).
  pose proof Hlay as (Heq & Hm & _ & Hcount & Hwit).
  pose proof Hwf as (Hv & Hlock & Hni & Hno & Hins & Houts & Hlen & _).
  set (block := pre ++ tx_bytes t ++ post). unfold parse_tx. rewrite run_gets.
  replace (at_cursor pre (tx_bytes t ++ post)) with
    (at_cursor pre (le_bytes 4 (tx_version t) ++ [marker] ++ hd
       ++ mjoin (txin_bytes <$> tx_ins t) ++ varint (len (tx_outs t))
       ++ mjoin (txout_bytes <$> tx_outs t) ++ wit ++ le_bytes 4 (tx_locktime t) ++ post))
    by (rewrite Heq; unfold tx_prefix; by rewrite <-!app_assoc).
  rewrite (run_reads _ _ _ (tx_version t)) by auto with bidx.
  rewrite (run_reads _ _ [marker] marker) by auto with bidx.
  rewrite (run_reads _ _ hd (len (tx_ins t))) by done.
  rewrite u32_count, to_nat_len by done.
  erewrite run_reads.
  2: { apply (reads_for_collect _ txin_bytes). intros j i Hi. apply reads_input.
       rewrite Forall_forall in Hins. by apply Hins. }
  rewrite (run_reads _ _ _ (len (tx_outs t))) by auto with bidx.
  rewrite u32_count, to_nat_len by done.
  erewrite run_reads.
  2: { apply (reads_for_collect _ txout_bytes). intros j o Ho. apply reads_output.
       rewrite Forall_forall in Houts. by apply Houts. }
  rewrite run_gets. erewrite run_reads; [|apply Hwit; intros; done].
  rewrite (run_reads _ _ _ (tx_locktime t)) by auto with bidx.
  rewrite run_gets.
  set (mid := ((((pre ++ _) ++ _) ++ _) ++ _) ++ _).
  assert (mid ++ mjoin (txout_bytes <$> tx_outs t) = pre ++ tx_prefix t marker hd) as E1
    by (unfold mid, tx_prefix; by rewrite <-!app_assoc).
  assert (((mid ++ mjoin (txout_bytes <$> tx_outs t)) ++ wit) ++ le_bytes 4 (tx_locktime t)
          = pre ++ tx_bytes t) as E2 by (rewrite E1, Heq; by rewrite <-!app_assoc).
  rewrite E2, E1. cbn [pos at_cursor]. rewrite !len_app.
  unfold block. rewrite (compute_txid_spec t k marker hd wit) by done.
  m_unfold.
  replace (len pre + len (tx_bytes t) - len pre) with (len (tx_bytes t)) by lia.
  replace (len pre + len (tx_prefix t marker hd) - len pre) with (len (tx_prefix t marker hd)) by lia.
  rewrite (stripped_len_spec t k marker hd wit), Hm by done.
  pose proof (stripped_le t). pose proof (len_nonneg (tx_stripped t)).
  pose proof (len_nonneg (tx_bytes t)).
  rewrite (u32_small (len (tx_bytes t))) by lia.
  unfold tx_rows. m_unfold. f_equal. f_equal. f_equal; [f_equal|].
  - unfold tx_row. rewrite (u64_small (_ + _)), u32_small by lia.
    f_equal. lia.
  - rewrite !fmap_imap. apply imap_ext. intros j i Hi. simpl. unfold input_row, set_ir_txid; simpl.
    f_equal. unfold coinbase_input. destruct (len (tx_ins t) =? 1) eqn:Hsingle; [|done].
    apply lookup_lt_Some in Hi. unfold len in Hsingle. apply Z.eqb_eq in Hsingle. replace j with 0%nat by lia. done.
  - rewrite fmap_imap. apply imap_ext. intros j o Ho. unfold output_row. simpl.
    by destruct (classify (to_script o)).
Qed.
End layout.

(** The in-place decoding accepts, behind the [0xfe] prefix, input counts that
    [read_count] rejects in every other position. *)
Lemma inline_count_unbounded n pre post (Hn : MAX_ITEMS < n < 2 ^ 32) :
  inline_count xfe (at_cursor pre (le_bytes 4 n ++ post))
    = (Ok n, at_cursor (pre ++ le_bytes 4 n) post) ∧
  ∃ off, fst (rd read_count (at_cursor pre (varint n ++ post)))
    = Err (TPCursor (CountOverflow n off)).
Proof.
  unfold MAX_ITEMS in *. split.
  - apply reads_rd, reads_u32. unfold is_u32. lia.
  - eexists. unfold rd, m_map_err, read_count.
    rewrite (run_reads _ _ _ n) by (apply reads_varint; unfold is_u64; lia).
    replace (MAX_ITEMS <? n) with true by (unfold MAX_ITEMS; lia). done.
Qed.
