(* ===== verification/Block.v ===== *)
(** * Block: what [parse_block_full] computes, for whole blocks

    The round trip of a serialized block through the parser, and what holds of
    the rows of every payload the parser accepts, well-formed or not. *)
From S2P Require Import Prelude Cursor Hash Types Script Tx.

(** ** Specification: blocks *)

Section spec.
Context {SHA : Sha256} {RIP : Ripemd160}.

Definition block_wire (h : BlockHeader) (ts : list Tx) : bytes :=
  header_bytes h ++ varint (len ts) ++ mjoin (tx_bytes <$> ts).

Definition block_wf (h : BlockHeader) (ts : list Tx) : Prop :=
  header_wf h ∧ Forall tx_wf ts ∧ len ts ≤ MAX_ITEMS ∧ len (block_wire h ts) < 2 ^ 30.

Definition tx_weight (t : Tx) : Z := 3 * len (tx_stripped t) + len (tx_bytes t).

Definition rows_of (height : Z) (ts : list Tx) : list (TxRow * list InputRow * list OutputRow) :=
  imap (λ k, tx_rows height (Z.of_nat k)) ts.

(** The rows of a block whose payload has [size] bytes. *)
Definition block_rows (height : Z) (hash : Hash32) (h : BlockHeader) (ts : list Tx)
    (size : Z) : FullBlock :=
  let rows := rows_of height ts in
  mkFullBlock
    (mkBlockRow height hash (prev_hash h) (merkle_root h) (time h) (bits h) (nonce h)
       (version h) (len ts) size (80 * 4 + zsum tx_weight ts) 0
       (u64 (zsum to_value (from_option tx_outs [] (head ts)))))
    ((λ r, r.1.1) <$> rows) (mjoin ((λ r, r.1.2) <$> rows)) (mjoin ((λ r, r.2) <$> rows)).
End spec.

(** ** Lemmas: the round trip *)

Section roundtrip.
Context {SHA : Sha256} {RIP : Ripemd160}.

Lemma sum_values_spec acc os :
  foldl (λ acc o, u64 (acc + or_value_sat o)) (u64 acc) os = u64 (acc + zsum or_value_sat os).
Proof.
  revert acc. induction os as [|o os IH]; intros acc; simpl.
  { by rewrite Z.add_0_r. }
  replace (u64 (u64 acc + or_value_sat o)) with (u64 (acc + or_value_sat o))
    by (unfold u64; by rewrite Zplus_mod_idemp_l).
  rewrite IH. f_equal. lia.
Qed.

Lemma sum_values_outputs height k t :
  sum_values (imap (λ j, output_row height k t (Z.of_nat j)) (tx_outs t)) = u64 (zsum to_value (tx_outs t)).
Proof.
  unfold sum_values.
  change 0 with (u64 0) at 1. rewrite sum_values_spec. f_equal.
  rewrite Z.add_0_l. generalize (tx_outs t). intros os.
  assert (∀ f : nat → Z, zsum or_value_sat (imap (λ j, output_row height k t (f j)) os)
                         = zsum to_value os) as H; [|apply (H Z.of_nat)].
  induction os as [|o os IH]; intros f; [done|].
  rewrite imap_cons, !zsum_cons. unfold output_row at 1.
  destruct (classify _). simpl. f_equal. apply (IH (f ∘ S)).
Qed.

Lemma tx_weight_bounds t : 0 ≤ tx_weight t ≤ 4 * len (tx_bytes t).
Proof.
  unfold tx_weight. pose proof (stripped_le t). pose proof (len_nonneg (tx_stripped t)). lia.
Qed.

Lemma weights_bounds ts : 0 ≤ zsum tx_weight ts ≤ 4 * len (mjoin (tx_bytes <$> ts)).
Proof.
  rewrite <-zsum_len_mjoin, <-zsum_scale. split.
  - apply zsum_nonneg. intros t _. apply tx_weight_bounds.
  - apply zsum_le. intros t _. apply tx_weight_bounds.
Qed.

Lemma parse_txs_spec ts height k acc pre post :
  Forall tx_wf ts →
  0 ≤ k → 0 ≤ a_tx_weight_sum acc → a_tx_weight_sum acc + zsum tx_weight ts < 2 ^ 64 →
  let rows := imap (λ j, tx_rows height (k + Z.of_nat j)) ts in
  parse_txs (pre ++ mjoin (tx_bytes <$> ts) ++ post) height (length ts) k acc
    (at_cursor pre (mjoin (tx_bytes <$> ts) ++ post)) =
  (Ok (mkAcc (a_txs acc ++ ((λ r, r.1.1) <$> rows))
         (a_inputs acc ++ mjoin ((λ r, r.1.2) <$> rows))
         (a_outputs acc ++ mjoin ((λ r, r.2) <$> rows))
         (if (k =? 0) && negb (bool_decide (ts = []))
          then u64 (zsum to_value (from_option tx_outs [] (head ts)))
          else a_coinbase_value acc)
         (a_tx_weight_sum acc + zsum tx_weight ts)),
   at_cursor (pre ++ mjoin (tx_bytes <$> ts)) post).
Proof.
  intros Hts. revert k acc pre. induction Hts as [|t ts Ht Hts IH]; intros k acc pre Hk Ha Hs rows.
  { unfold rows. simpl. rewrite !app_nil_r, andb_false_r, Z.add_0_r. by destruct acc. }
  rewrite zsum_cons in Hs. pose proof (tx_weight_bounds t). pose proof (weights_bounds ts).
  unfold rows. rewrite mjoin_fmap_cons, <-app_assoc. simpl length. cbn [parse_txs].
  unfold mbind at 1, M_bind at 1. rewrite parse_tx_spec by done.
  unfold tx_rows at 1. cbv zeta.
  rewrite (app_assoc pre).
  rewrite IH; [|lia| |]; cbn [a_tx_weight_sum a_txs a_inputs a_outputs a_coinbase_value tr_weight tx_row];
    unfold tx_weight in *.
  2,3: rewrite u64_small by lia; lia.
  rewrite imap_cons, !fmap_cons. rewrite !zsum_cons, (u64_small (a_tx_weight_sum acc + _)) by lia.
  rewrite (imap_ext (λ j, tx_rows height (k + 1 + Z.of_nat j))
    ((λ j, tx_rows height (k + Z.of_nat j)) ∘ S))
    by (intros j x _; unfold compose; f_equal; lia).
  rewrite Z.add_0_r. simpl mjoin. rewrite <-!app_assoc. simpl app.
  replace (k + 1 =? 0) with false by lia. rewrite andb_false_l.
  rewrite bool_decide_false, andb_true_r by done. simpl head.
  rewrite sum_values_outputs. do 3 f_equal. lia.
Qed.
End roundtrip.

(** ** Lemmas: every payload, well-formed or not *)

Section safety.
Context {SHA : Sha256} {RIP : Ripemd160}.

(** What a transaction's rows satisfy whatever the bytes: the counts declared
    are the rows present, numbered from 0, carrying the transaction's id. *)
Definition tx_sane (height k : Z) (r : TxRow * list InputRow * list OutputRow) : Prop :=
  let '(tx, ins, outs) := r in
  tr_height tx = height ∧ tr_tx_index tx = k ∧ len (tr_txid tx) = 32 ∧
  len ins = tr_input_count tx ∧ len outs = tr_output_count tx ∧
  is_u32 (tr_input_count tx) ∧ is_u32 (tr_output_count tx) ∧
  (∀ j i, ins !! j = Some i →
     ir_height i = height ∧ ir_tx_index i = k ∧ ir_input_index i = Z.of_nat j ∧
     ir_txid i = tr_txid tx ∧ len (ir_prev_txid i) = 32 ∧ is_u32 (ir_prev_vout i) ∧
     (ir_is_coinbase i = true →
        len ins = 1 ∧ ir_prev_txid i = zeros 32 ∧ ir_prev_vout i = 0xFFFFFFFF)) ∧
  (∀ j o, outs !! j = Some o →
     or_height o = height ∧ or_tx_index o = k ∧ or_output_index o = Z.of_nat j ∧
     or_txid o = tr_txid tx ∧ 0 ≤ or_value_sat o ≤ MAX_MONEY ∧
     0 ≤ or_script_type o < 256 ∧ len (or_address_hash o) = 32).

Definition input_sane (height k : Z) (single : bool) (j : Z) (i : InputRow) : Prop :=
  ir_height i = height ∧ ir_tx_index i = k ∧ ir_input_index i = j ∧
  len (ir_prev_txid i) = 32 ∧ is_u32 (ir_prev_vout i) ∧
  (ir_is_coinbase i = true →
     single = true ∧ ir_prev_txid i = zeros 32 ∧ ir_prev_vout i = 0xFFFFFFFF).

Definition output_sane (height k j : Z) (o : OutputRow) : Prop :=
  or_height o = height ∧ or_tx_index o = k ∧ or_output_index o = j ∧
  0 ≤ or_value_sat o ≤ MAX_MONEY ∧ 0 ≤ or_script_type o < 256 ∧ len (or_address_hash o) = 32.

Lemma runs_skip0 n : 0 ≤ n → runs (skip n) 0 (λ _, True).
Proof. intros. by apply runs_wb, wb_skip. Qed.

Lemma runs_count0 : runs (rd read_count) 0 (λ n, 0 ≤ n ≤ MAX_ITEMS).
Proof. eapply runs_weaken; [|apply runs_map_err, runs_count|]; done. Qed.

Lemma runs_u32_0 : runs (rd read_u32) 0 is_u32.
Proof. eapply runs_weaken; [|apply runs_map_err, runs_u32|]; done. Qed.

Lemma runs_input height k single j :
  runs (parse_input height k single j) 0 (input_sane height k single j).
Proof.
  eapply runs_bind0.
  { eapply runs_weaken; [|apply runs_map_err, (runs_array 32)|]; done. }
  intros p Hp. eapply runs_bind0; [apply runs_u32_0|]. intros v Hv.
  eapply runs_bind0; [apply runs_count0|]. intros n Hn; cbv beta in Hn.
  eapply runs_bind0; [apply runs_map_err, runs_skip0; lia|]. intros _ _.
  eapply runs_bind0; [apply runs_u32_0|]. intros q Hq.
  apply runs_ret. unfold input_sane; simpl. split_and!; try done.
  rewrite !andb_true_iff, bool_decide_eq_true, !Z.eqb_eq. intros [[[Hs Hj] Hz] Hv0]; auto.
Qed.

Lemma runs_output height k j :
  runs (parse_output height k j) 0 (output_sane height k j).
Proof.
  eapply runs_bind0; [eapply (runs_weaken _ 8 0); [|apply runs_map_err, runs_u64|]; done|].
  intros v Hv. cbv beta in Hv. apply runs_if; intros Hmax; [apply runs_fail|].
  eapply runs_bind0; [apply runs_count0|]. intros n Hn; cbv beta in Hn.
  eapply runs_bind0; [apply runs_map_err, runs_wb, wb_bytes; lia|]. intros s _.
  rewrite classify_script_ok. pose proof (classify_hash_len s). destruct (classify s) as [t a].
  apply runs_ret.
  unfold output_sane, is_u64 in *; simpl. split_and!; try done; try lia; by destruct t.
Qed.

Lemma runs_skip_items n acc : runs (skip_items n acc) 0 (λ _, True).
Proof.
  revert acc. induction n as [|n IH]; intros acc; [by apply runs_ret|]. cbn [skip_items].
  eapply runs_bind0; [apply runs_count0|]. intros l Hl; cbv beta in Hl.
  eapply runs_bind0; [apply runs_map_err, runs_skip0; lia|]. intros _ _. apply IH.
Qed.

(** The witness pass changes the witness columns only. *)
Definition same_input (i i' : InputRow) : Prop :=
  ∃ a b, i' = set_ir_witness a b i.

Lemma runs_witnesses inps :
  runs (parse_witnesses inps) 0 (Forall2 same_input inps).
Proof.
  induction inps as [|i inps IH]; cbn [parse_witnesses]; [by apply runs_ret|].
  eapply (runs_bind0 _ _ (same_input i)).
  { eapply runs_bind0; [apply runs_count0|]. intros n Hn; cbv beta in Hn.
    eapply runs_bind0; [apply runs_skip_items|]. intros b _.
    apply runs_ret. by exists (u32 n), b. }
  intros i' Hi. eapply runs_bind0; [apply IH|]. intros l Hl. apply runs_ret. by constructor.
Qed.

Lemma runs_witness_pass (b : bool) inps :
  runs (if b then parse_witnesses inps else mret inps) 0 (Forall2 same_input inps).
Proof.
  apply runs_if; intros _; [apply runs_witnesses|]. apply runs_ret.
  apply Forall_Forall2_diag, Forall_true. intros [].
  eexists _, _. unfold set_ir_witness; simpl. done.
Qed.

(** The input count; a segwit marker is followed by its flag. *)
Lemma runs_input_count k marker :
  runs (read_input_count k marker) (if bool_decide (marker = x00) then 1 else 0) is_u32.
Proof.
  unfold read_input_count. case_bool_decide.
  - apply (runs_bind _ _ 1 0 (λ _, True)); [done..|apply runs_map_err, runs_u8|].
    intros f _. apply runs_if; intros _; [apply runs_fail|].
    eapply runs_weaken; [|apply runs_count0|]; [done|].
    unfold is_u32, MAX_ITEMS. intros; simpl in *; lia.
  - unfold inline_count. pose proof (byteZ_bound marker). cbv zeta.
    repeat (apply runs_if; intros ?).
    + apply runs_ret. unfold is_u32. lia.
    + eapply runs_weaken; [|apply runs_map_err, runs_u16|]; [done|].
      unfold is_u32; intros; simpl in *; lia.
    + eapply runs_weaken; [|apply runs_map_err, runs_u32|]; done.
    + eapply (runs_bind0 _ _ is_u64).
      { eapply runs_weaken; [|apply runs_map_err, runs_u64|]; done. }
      intros n Hn; cbv beta in Hn. unfold is_u64 in Hn. apply runs_if; intros Hm; [apply runs_fail_at|].
      apply runs_ret. unfold is_u32. lia.
Qed.

(** The slices of [compute_txid] are in range. *)
Lemma compute_txid_ok block hw a p e :
  0 ≤ a → a + 4 ≤ p → (hw = true → a + 6 ≤ p) → p ≤ e - 4 → e ≤ len block →
  ∃ h, compute_txid block hw a p e = Ok h ∧ len h = 32.
Proof.
  intros Ha Hp Hw He Hb. unfold compute_txid. destruct hw.
  - specialize (Hw eq_refl). rewrite !slice_at_ok by lia. m_unfold.
    rewrite !slice_at_ok by (rewrite ?len_slice; lia). eexists. split; [done|].
    rewrite sha_digest1. apply sha_digest_len.
  - rewrite slice_at_ok by lia. m_unfold. eexists. split; [done|]. apply dsha256_len.
Qed.

(** Outcome of a transaction: never a panic; on success the cursor has moved
    inside the block and the rows are sane. *)
Definition tx_outcome (block : bytes) (height k : Z)
    (r : Res TxParseError (TxRow * list InputRow * list OutputRow) * Cursor) : Prop :=
  match r with
  | (Ok rows, c') => data c' = block ∧ cursor_ok c' ∧ tx_sane height k rows
  | (Err _, _) => True
  | (Panic, _) => False
  end.

Lemma rows_sane height k (n m : nat) tx ins ins' outs txid single :
  length ins = n → length outs = m → len txid = 32 →
  tr_height tx = height → tr_tx_index tx = k → tr_txid tx = txid →
  tr_input_count tx = Z.of_nat n → tr_output_count tx = Z.of_nat m →
  is_u32 (tr_input_count tx) → is_u32 (tr_output_count tx) →
  (single = true → Z.of_nat n = 1) →
  (∀ j i, ins !! j = Some i → input_sane height k single (0 + Z.of_nat j) i) →
  Forall2 same_input ins ins' →
  (∀ j o, outs !! j = Some o → output_sane height k (0 + Z.of_nat j) o) →
  tx_sane height k (tx, set_ir_txid txid <$> ins', set_or_txid txid <$> outs).
Proof.
  intros Hn Hm Ht Hh Hk Hid Hi Ho Hic Hoc Hs Hins Hsame Houts. unfold tx_sane.
  pose proof (Forall2_length _ _ _ Hsame) as Hl.
  rewrite !len_fmap. unfold len at 2 3. rewrite <-Hl, Hn, Hm.
  split_and!; try congruence.
  - intros j i Hj. rewrite list_lookup_fmap in Hj.
    destruct (ins' !! j) as [i'|] eqn:Hj'; simplify_eq/=.
    destruct (Forall2_lookup_r _ _ _ _ _ Hsame Hj') as (i0 & Hi0 & x & y & ->).
    destruct (Hins j i0 Hi0) as (? & ? & ? & ? & ? & Hc); simpl.
    split_and!; try done. intros Hcb. destruct (Hc Hcb) as (Hsing & ? & ?).
    specialize (Hs Hsing). unfold len. split_and!; try done; lia.
  - intros j o Hj. rewrite list_lookup_fmap in Hj.
    destruct (outs !! j) as [o'|] eqn:Hj'; simplify_eq/=.
    destruct (Houts j o' Hj') as (? & ? & ? & ? & ? & ?); simpl.
    split_and!; try done; lia.
Qed.

Lemma parse_tx_outcome block height k c :
  cursor_ok c → data c = block → tx_outcome block height k (parse_tx block height k c).
Proof.
  intros Hc Hd. unfold parse_tx. rewrite run_gets.
  eapply runs_step; [apply runs_map_err, runs_i32|done| |done]. intros v c1 Hd1 Hp1 Hc1 _.
  eapply runs_step; [apply runs_map_err, runs_u8|done| |done]. intros mk c2 Hd2 Hp2 Hc2 _.
  eapply runs_step; [apply runs_input_count|done| |done]. intros n c3 Hd3 Hp3 Hc3 Hn.
  rewrite u32_small by done.
  eapply runs_step; [apply runs_for_collect, runs_input|done| |done].
  intros ins c4 Hd4 Hp4 Hc4 [Hli Hins].
  eapply runs_step; [apply runs_count0|done| |done]. intros m c5 Hd5 Hp5 Hc5 Hm.
  cbv beta in Hm. rewrite u32_small by (unfold MAX_ITEMS in Hm; lia).
  eapply runs_step; [apply runs_for_collect, runs_output|done| |done].
  intros outs c6 Hd6 Hp6 Hc6 [Hlo Houts]. rewrite run_gets.
  eapply runs_step; [apply runs_witness_pass|done| |done].
  intros ins' c7 Hd7 Hp7 Hc7 Hsame.
  eapply runs_step; [apply runs_map_err, runs_u32|done| |done].
  intros l c8 Hd8 Hp8 Hc8 _. rewrite run_gets.
  destruct (compute_txid_ok block (bool_decide (mk = x00)) (pos c) (pos c6) (pos c8))
    as (txid & Htx & Hl32); [unfold cursor_ok in *|..].
  { lia. } { case_bool_decide; lia. } { intros Hb. rewrite Hb in *. lia. }
  { lia. } { unfold cursor_ok in Hc8. replace block with (data c8) by congruence. lia. }
  rewrite Htx. m_unfold. unfold tx_outcome. split_and!; [congruence|done|].
  unfold is_u32 in Hn.
  apply (rows_sane _ _ (Z.to_nat n) (Z.to_nat m) _ ins _ _ _ (n =? 1)); simpl;
    rewrite ?u32_small by (unfold MAX_ITEMS in *; lia); try done;
    unfold is_u32, MAX_ITEMS in *; lia.
Qed.

(** ** The transaction loop *)

Definition acc_sane (height : Z) (rows : list (TxRow * list InputRow * list OutputRow))
    (acc : BlockAcc) : Prop :=
  a_txs acc = (λ r, r.1.1) <$> rows ∧ a_inputs acc = mjoin ((λ r, r.1.2) <$> rows) ∧
  a_outputs acc = mjoin ((λ r, r.2) <$> rows) ∧
  ∀ j r, rows !! j = Some r → tx_sane height (Z.of_nat j) r.

Lemma acc_sane_snoc height rows acc r cb w :
  acc_sane height rows acc → tx_sane height (len rows) r →
  acc_sane height (rows ++ [r])
    (mkAcc (a_txs acc ++ [r.1.1]) (a_inputs acc ++ r.1.2) (a_outputs acc ++ r.2) cb w).
Proof.
  intros (Ht & Hi & Ho & Hs) Hr. unfold acc_sane; cbn [a_txs a_inputs a_outputs].
  rewrite !fmap_app, !join_app, Ht, Hi, Ho. simpl. rewrite !app_nil_r.
  split_and!; try done. intros j x [Hj|[Hl Hx]]%lookup_app_Some; [by apply Hs|].
  apply list_lookup_singleton_Some in Hx as [Hz <-].
  replace (Z.of_nat j) with (len rows) by (unfold len; lia). done.
Qed.

Lemma parse_txs_outcome block height n rows acc c :
  cursor_ok c → data c = block → acc_sane height rows acc →
  match parse_txs block height n (len rows) acc c with
  | (Ok acc', c') => data c' = block ∧ cursor_ok c' ∧
      ∃ rows', length rows' = (length rows + n)%nat ∧ acc_sane height rows' acc'
  | (Err _, _) => True
  | (Panic, _) => False
  end.
Proof.
  revert rows acc c. induction n as [|n IH]; intros rows acc c Hc Hd Ha; cbn [parse_txs].
  { simpl. split_and!; try done. exists rows. split; [lia|done]. }
  pose proof (parse_tx_outcome block height (len rows) c Hc Hd) as Ho.
  unfold mbind, M_bind. destruct (parse_tx _ _ _ c) as [[[[tx ins] outs]|e|] c']; [|done|done].
  destruct Ho as (Hd' & Hc' & Hs).
  pose proof (acc_sane_snoc height rows acc (tx, ins, outs)
    (if len rows =? 0 then sum_values outs else a_coinbase_value acc)
    (u64 (a_tx_weight_sum acc + tr_weight tx)) Ha Hs) as Ha'.
  specialize (IH (rows ++ [(tx, ins, outs)]) _ c' Hc' Hd' Ha').
  rewrite len_app in IH. cbn [fst snd] in IH.
  change (len [_]) with 1 in IH.
  destruct (parse_txs _ _ n _ _ c') as [[acc'|e|] c'']; [|done|done].
  destruct IH as (? & ? & rows' & Hl & ?). split_and!; try done. exists rows'.
  rewrite length_app in Hl. simpl in Hl. split; [lia|done].
Qed.

Lemma parse_block_outcome payload height hash h :
  match parse_block_full payload height hash h with
  | Ok fb => 81 ≤ len payload ∧ len (txs fb) = br_tx_count (block_row fb) ∧ len (txs fb) ≤ MAX_ITEMS ∧
      ∃ rows, txs fb = (λ r, r.1.1) <$> rows ∧ inputs fb = mjoin ((λ r, r.1.2) <$> rows) ∧
        outputs fb = mjoin ((λ r, r.2) <$> rows) ∧
        ∀ k r, rows !! k = Some r → tx_sane height (Z.of_nat k) r
  | Err _ => True
  | Panic => False
  end.
Proof.
  unfold parse_block_full, parse_block_body, new.
  assert (cursor_ok (mkCursor payload 0)) as Hc.
  { unfold cursor_ok; simpl. pose proof (len_nonneg payload). lia. }
  set (Post := λ r : Res TxParseError FullBlock * Cursor, match r.1 with
    | Ok fb => 81 ≤ len payload ∧ len (txs fb) = br_tx_count (block_row fb) ∧ len (txs fb) ≤ MAX_ITEMS ∧
      ∃ rows, txs fb = (λ r, r.1.1) <$> rows ∧ inputs fb = mjoin ((λ r, r.1.2) <$> rows) ∧
        outputs fb = mjoin ((λ r, r.2) <$> rows) ∧
        ∀ k r, rows !! k = Some r → tx_sane height (Z.of_nat k) r
    | Err _ => True | Panic => False end).
  match goal with |- match fst ?x with _ => _ end => change (Post x) end.
  eapply runs_step; [by apply runs_map_err, (runs_skip 80)|done| |done].
  intros [] c1 Hd1 Hp1 Hc1 _.
  eapply runs_step; [apply runs_map_err, runs_count|done| |done].
  intros n c2 Hd2 Hp2 Hc2 Hn. cbv beta in Hn.
  assert (81 ≤ len payload) as H81.
  { unfold cursor_ok in Hc2. rewrite Hd2, Hd1 in Hc2. simpl in *. lia. }
  rewrite u32_small by (unfold MAX_ITEMS in Hn; lia).
  pose proof (parse_txs_outcome payload height (Z.to_nat n) [] (mkAcc [] [] [] 0 0) c2 Hc2
    ltac:(rewrite Hd2, Hd1; done) ltac:(by split_and!; try done; intros [])) as Ho.
  unfold mbind, M_bind. change (len []) with 0 in Ho.
  destruct (parse_txs _ _ _ 0 _ c2) as [[acc|e|] c3].
  - destruct Ho as (_ & _ & rows & Hl & Hs).
    case_match eqn:Hne; [done|]. unfold Post; simpl.
    split_and!; [done|unfold MAX_ITEMS in Hn; lia|unfold MAX_ITEMS in *; lia|]. exists rows. apply Hs.
  - done.
  - done.
Qed.
End safety.

(** ** Lemmas: a serialized block *)

Section wire.
Context {SHA : Sha256} {RIP : Ripemd160}.

Lemma parse_block_wire (h : BlockHeader) (ts : list Tx) (height : Z) (hash : Hash32) :
  block_wf h ts →
  parse_block_full (block_wire h ts) height hash h = Ok (block_rows height hash h ts (len (block_wire h ts))).
Proof.
  intros (Hh & Hts & Hn & Hlen). set (payload := block_wire h ts). unfold parse_block_full, parse_block_body.
  replace (new payload) with (at_cursor [] payload) by done.
  unfold payload, block_wire in *. rewrite <-(app_nil_r (mjoin _)).
  rewrite (run_reads _ _ (header_bytes h) ()) by (apply reads_rd, reads_skip, len_header_bytes, Hh).
  rewrite (run_reads _ _ _ (len ts)) by auto with bidx.
  rewrite u32_count, to_nat_len by done. rewrite !len_app in Hlen.
  pose proof (weights_bounds ts). pose proof (len_nonneg (header_bytes h)).
  pose proof (len_nonneg (varint (len ts))). rewrite len_header_bytes in Hlen by done.
  unfold mbind, M_bind. rewrite app_nil_l.
  rewrite (app_assoc (header_bytes h)), parse_txs_spec; [|done|lia|simpl; lia|simpl; lia].
  cbn [a_txs a_inputs a_outputs a_tx_weight_sum a_coinbase_value]. rewrite !app_nil_l.
  rewrite !len_fmap, len_imap, Z.eqb_refl, Z.add_0_l. simpl negb. cbv iota.
  cbv [mret M_ret fst]. unfold block_rows, rows_of. f_equal. f_equal. f_equal.
  - apply u32_small. rewrite app_nil_r, !len_app, len_header_bytes by done. lia.
  - rewrite u64_small, Z.min_l, u32_small by (unfold u32_max; lia). lia.
  - by destruct ts.
Qed.
End wire.

(** ** Theorems *)

Section theorems.
Context {SHA : Sha256} {RIP : Ripemd160}.

(** C1: Round trip. On the serialization of a header and any list of legacy and
    segwit transactions, the header parser gives the header back and
    [parse_block_full] returns exactly the rows of those transactions: every
    field, txids as the double SHA-256 of the serialization without witness,
    BIP141 weights, witness item counts and sizes, classified outputs, and a
    block row with their totals. *)
Theorem parse_block_roundtrip (h : BlockHeader) (ts : list Tx) (height : Z) (hash : Hash32)
    (Hwf : block_wf h ts) :
  let payload := block_wire h ts in
  header_parse payload = h ∧
  parse_block_full payload height hash (header_parse payload)
    = Ok (block_rows height hash h ts (len payload)).
Proof.
  intros payload. assert (header_parse payload = h) as Hparse by (apply header_parse_bytes, Hwf).
  split; [done|]. rewrite Hparse. by apply parse_block_wire.
Qed.

(** C24: Safety. No payload, however malformed or truncated, makes the block
    parser panic. The panics of the source are those of the model: slicing and
    indexing the buffer in a cursor read, [unwrap] on a short integer,
    [copy_from_slice] between different lengths, each [spk[i]] and [spk[a..b]] of
    the classifier and of its multisig loop, each [block[a..b]] and
    [prefix[6..]] of the txid computation; none is reached out of range. *)
Theorem parse_block_never_panics (payload : bytes) (height : Z) (hash : Hash32) (h : BlockHeader) :
  parse_block_full payload height hash h ≠ Panic.
Proof.
  pose proof (parse_block_outcome payload height hash h) as Ho.
  by destruct (parse_block_full _ _ _ _).
Qed.

(** C23: Consistency of what is accepted. Whenever the parser accepts a payload,
    its input and output rows are grouped by transaction in order, each
    transaction has as many rows as it declares, numbered from 0 and carrying
    its txid, no output exceeds 21M BTC, and only the single input of a
    transaction spending the null outpoint is marked coinbase. *)
Theorem parse_block_consistent (payload : bytes) (height : Z) (hash : Hash32) (h : BlockHeader)
    (fb : FullBlock) (Hok : parse_block_full payload height hash h = Ok fb) :
  81 ≤ len payload ∧ len (txs fb) = br_tx_count (block_row fb) ∧ len (txs fb) ≤ MAX_ITEMS ∧
  ∃ rows, txs fb = (λ r, r.1.1) <$> rows ∧ inputs fb = mjoin ((λ r, r.1.2) <$> rows) ∧
    outputs fb = mjoin ((λ r, r.2) <$> rows) ∧
    ∀ k r, rows !! k = Some r → tx_sane height (Z.of_nat k) r.
Proof.
  pose proof (parse_block_outcome payload height hash h) as Ho. by rewrite Hok in Ho.
Qed.
End theorems.

(** ** A concrete block: a segwit coinbase and a legacy payment *)

Module Ex.
Definition header : BlockHeader :=
  mkHeader 2 (zeros 32) (le_bytes 32 77) 1231006505 0x1d00ffff 2083236893.

Definition coinbase : Tx :=
  mkTx 2 (Some x01)
    [mkTxIn (zeros 32) 0xFFFFFFFF [x03; x01; x02; x03] 0xFFFFFFFF [zeros 32]]
    [mkTxOut 5000000000 ([x00; x14] ++ le_bytes 20 5); mkTxOut 0 [x6a; x01; x02]] 0.

Definition payment : Tx :=
  mkTx 1 None [mkTxIn (le_bytes 32 9) 1 [x51] 0xFFFFFFFE []; mkTxIn (le_bytes 32 8) 0 [] 7 []]
    [mkTxOut 1234 ([x76; xa9; x14] ++ le_bytes 20 6 ++ [x88; xac])] 500000.

Definition txs : list Tx := [coinbase; payment].
End Ex.

Lemma parse_block_roundtrip_witness :
  block_wf Ex.header Ex.txs ∧
  @parse_block_full Ref.sha_ref Ref.ripemd_ref (block_wire Ex.header Ex.txs) 7 ZERO
      (header_parse (block_wire Ex.header Ex.txs))
    = Ok (@block_rows Ref.sha_ref Ref.ripemd_ref 7 ZERO Ex.header Ex.txs
            (len (block_wire Ex.header Ex.txs))).
Proof.
  assert (block_wf Ex.header Ex.txs) as Hwf.
  { split_and!; [by vm_compute| |by vm_compute|by vm_compute].
    repeat (constructor || split_and!); by vm_compute. }
  split; [exact Hwf|].
  exact (proj2 (@parse_block_roundtrip Ref.sha_ref Ref.ripemd_ref _ _ 7 ZERO Hwf)).
Defined.

Lemma parse_block_consistent_witness :
  ∃ fb, @parse_block_full Ref.sha_ref Ref.ripemd_ref (block_wire Ex.header Ex.txs) 7 ZERO
          Ex.header = Ok fb ∧ len (txs fb) = br_tx_count (block_row fb) ∧ len (txs fb) = 2.
Proof.
  eexists. split; [vm_compute; reflexivity|]. split; [|vm_compute; reflexivity].
  eapply (@parse_block_consistent Ref.sha_ref Ref.ripemd_ref
            (block_wire Ex.header Ex.txs) 7 ZERO Ex.header).
  vm_compute. reflexivity.
Defined.
