(* ===== verification/BlkFile.v ===== *)
(** * BlkFile: the blk file reader, [bidx-parser/src/blkfile.rs]

    Finding the end of the data, the XOR obfuscation of Bitcoin Core v28, the
    record iterator, random access to a block and the discovery of the files. *)
From S2P Require Import Prelude Text Hash Types.

(** The file system as the program sees it ([std::fs], [memmap2]); a path is a
    string, [fs_join] and [fs_parent] are [Path::join] and [Path::parent]. *)
Class Fs := {
  IoError : Type;
  fs_open : rstr → Res IoError rstr;
  fs_mmap : rstr → Res IoError bytes;
  fs_read : rstr → Res IoError bytes;
  fs_read_dir : rstr → Res IoError (list (Res IoError (rstr * rstr)));
  fs_parent : rstr → option rstr;
  fs_join : rstr → rstr → rstr
}.

Inductive BlkError `{Fs} : Type :=
  | Io (path : rstr) (source : IoError)
  | NoFiles (path : rstr)
  | NoRecords (path : rstr)
  | Corrupt (file_id offset : Z) (reason : rstr).

Record BlkRecord : Type := mkRecord {
  location : BlockLocation; rec_header : BlockHeader; rec_hash : Hash32; header_raw : bytes }.

Record BlkFile : Type := mkBlkFile {
  bf_file_id : Z; bf_path : rstr; mmap : bytes; decoded : option bytes; data_end : Z }.

Definition bxor (a b : byte) : byte := Zbyte (Z.lxor (byteZ a) (byteZ b)).

(** The [word] helper of [record_walk_end]. *)
Definition word (raw : bytes) (off : Z) (key : option bytes) : Z :=
  let b := slice off (off + 4) raw in
  le_val (match key with
          | Some k => imap (λ i x, bxor x (k !!! Z.to_nat (Z.land (off + Z.of_nat i) 7))) b
          | None => b
          end).

(** The [while] loop of [record_walk_end], from [pos] with the end found so far. *)
Fixpoint walk (fuel : nat) (raw : bytes) (key : option bytes) (pos end_ : Z) : Z :=
  match fuel with
  | O => end_
  | S fuel =>
    if pos + 8 + BLOCK_HEADER_LEN <=? len raw then
      if negb (is_known_network_magic (word raw pos key)) then end_
      else
        let l := word raw (pos + 4) key in
        if (l <? BLOCK_HEADER_LEN) || (len raw - pos - 8 <? l) then end_
        else let pos := pos + (8 + l) in walk fuel raw key pos pos
    else end_
  end.

Definition record_walk_end (raw : bytes) (key : option bytes) : Z :=
  let end_ := walk (S (length raw)) raw key 0 0 in
  if (end_ =? 0) && negb (bool_decide (raw = [])) && negb (bool_decide (raw !!! 0%nat = x00))
  then len raw else end_.

(** [chunks_exact(8)] and its remainder. *)
Fixpoint chunks8 (buf : bytes) : list bytes * bytes :=
  match buf with
  | a :: b :: c :: d :: e :: f :: g :: h :: rest =>
    let '(cs, r) := chunks8 rest in ([a; b; c; d; e; f; g; h] :: cs, r)
  | _ => ([], buf)
  end.

Definition xor_decode (buf key : bytes) : bytes :=
  let k64 := le_val key in
  let '(chunks, rem) := chunks8 buf in
  let out := mjoin ((λ c, le_bytes 8 (Z.lxor (le_val c) k64)) <$> chunks) in
  let start := len buf - len rem in
  out ++ imap (λ i b, bxor b (key !!! Z.to_nat ((start + Z.of_nat i) `mod` 8))) rem.

(** The order of [sort_unstable_by_key(|(id, _)| *id)]. *)
Definition by_id (a b : Z * rstr) : Prop := a.1 ≤ b.1.

#[global] Instance by_id_dec a b : Decision (by_id a b) := Z_le_dec a.1 b.1.
#[global] Instance by_id_total : Total by_id.
Proof. intros a b. unfold by_id. lia. Qed.
#[global] Instance by_id_trans : Transitive by_id.
Proof. intros a b c. unfold by_id. lia. Qed.

Section blkfile.
Context `{Fs} `{Sha256}.

Definition read_xor_key (blk_path : rstr) : option bytes :=
  dir ← fs_parent blk_path;
  let p := fs_join dir (str "xor.dat") in
  match fs_read p with
  | Ok raw =>
    if negb (len raw =? 8) then None
    else if bool_decide (raw = zeros 8) then None else Some raw
  | _ => None
  end.

Definition open (path : rstr) (file_id : Z) : Res BlkError BlkFile :=
  file ← map_err (Io path) (fs_open path);
  mm ← map_err (Io path) (fs_mmap file);
  let xor_key := read_xor_key path in
  let data_end := record_walk_end mm xor_key in
  let decoded := (λ key, take (Z.to_nat data_end) (xor_decode mm key)) <$> xor_key in
  mret (mkBlkFile file_id path mm decoded data_end).

Definition data (f : BlkFile) : bytes :=
  match decoded f with
  | Some v => v
  | None => slice 0 (data_end f) (mmap f)
  end.

Definition blk_len (f : BlkFile) : Z := len (data f).

Definition blk_is_empty (f : BlkFile) : bool := bool_decide (data f = []).

Definition block_bytes (f : BlkFile) (loc : BlockLocation) : Res BlkError bytes :=
  let start := data_offset loc in
  let l := u64 (record_len loc - 8) in
  let end_ := u64 (start + l) in
  let buf := data f in
  if len buf <? end_ then
    Err (Corrupt (bf_file_id f) (offset loc)
           (str "record overruns file: end " ++ fmt_dec end_ ++ str ", file len "
            ++ fmt_dec (len buf)))
  else slice_at start end_ buf.

Record BlkRecordIter : Type := mkIter { it_file_id : Z; it_data : bytes; it_pos : Z }.

Definition records (f : BlkFile) : BlkRecordIter := mkIter (bf_file_id f) (data f) 0.

(** [while self.pos < data.len() && data[self.pos] == 0]: the number of zero
    bytes in front. *)
Fixpoint leading_zeros (l : bytes) : nat :=
  match l with
  | b :: l => if bool_decide (b = x00) then S (leading_zeros l) else O
  | [] => O
  end.

(** [Iterator::next]: the item and the iterator after the call. *)
Definition next (it : BlkRecordIter) : option (Res BlkError BlkRecord) * BlkRecordIter :=
  let d := it_data it in
  let pos := it_pos it + Z.of_nat (leading_zeros (drop (Z.to_nat (it_pos it)) d)) in
  let it := mkIter (it_file_id it) d pos in
  if len d <? pos + 8 then (None, it)
  else
    let offset := pos in
    let magic := le_val (slice pos (pos + 4) d) in
    let l := le_val (slice (pos + 4) (pos + 8) d) in
    if negb (is_known_network_magic magic) then
      (Some (Err (Corrupt (it_file_id it) offset (str "bad magic 0x" ++ fmt_hex0 8 magic))), it)
    else if (l <? BLOCK_HEADER_LEN) || (len d <? pos + 8 + l) then
      (Some (Err (Corrupt (it_file_id it) offset (str "bad record len " ++ fmt_dec l))), it)
    else
      let payload := slice (pos + 8) (pos + 8 + l) d in
      let raw := slice 0 80 payload in
      let header := header_parse raw in
      let hash := header_hash header raw in
      let location := mkLoc (it_file_id it) offset (u32 (l + 8)) in
      (Some (Ok (mkRecord location header hash raw)), mkIter (it_file_id it) d (pos + (8 + l))).

(** [for rec in iter { v.push(rec?) }]. [None] when the fuel runs out. *)
Fixpoint collect (fuel : nat) (it : BlkRecordIter) : option (Res BlkError (list BlkRecord)) :=
  match fuel with
  | O => None
  | S fuel =>
    match next it with
    | (None, _) => Some (Ok [])
    | (Some (Ok r), it') => rs ← collect fuel it'; Some (rs' ← rs; Ok (r :: rs'))
    | (Some (Err e), _) => Some (Err e)
    | (Some Panic, _) => Some Panic
    end
  end.

Definition all_records (f : BlkFile) : option (Res BlkError (list BlkRecord)) :=
  collect (S (length (data f))) (records f).

Definition parse_blk_name (name : rstr) : option Z :=
  stem ← (s ← strip_prefix (str "blk") name; strip_suffix (str ".dat") s);
  if negb (utf8_len stem =? 5) || negb (forallb is_ascii_digit stem) then None
  else parse_uint u32_max stem.

(** The loop over the directory entries; [(name, path)] per entry. *)
Fixpoint scan_dir (blocks_dir : rstr) (rd : list (Res IoError (rstr * rstr)))
    (out : list (Z * rstr)) : Res BlkError (list (Z * rstr)) :=
  match rd with
  | [] => Ok out
  | entry :: rd =>
    e ← map_err (Io blocks_dir) entry;
    scan_dir blocks_dir rd
      (match parse_blk_name e.1 with Some id => out ++ [(id, e.2)] | None => out end)
  end.

Definition discover_blk_files (blocks_dir : rstr) : Res BlkError (list (Z * rstr)) :=
  rd ← map_err (Io blocks_dir) (fs_read_dir blocks_dir);
  out ← scan_dir blocks_dir rd [];
  let out := merge_sort by_id out in
  if bool_decide (out = []) then Err (NoFiles blocks_dir) else Ok out.
End blkfile.

(** ** Specification: the record framing and the obfuscation *)

(** [magic(4) || len(4) || payload]. *)
Definition frame (r : Z * bytes) : bytes := le_bytes 4 r.1 ++ le_bytes 4 (len r.2) ++ r.2.

Definition frames (rs : list (Z * bytes)) : bytes := mjoin (frame <$> rs).

Definition frame_wf (r : Z * bytes) : Prop :=
  is_known_network_magic r.1 = true ∧ BLOCK_HEADER_LEN ≤ len r.2 < 2 ^ 32 - 8.

(** Bytes that do not start with a complete record. *)
Definition no_record (t : bytes) : Prop :=
  len t < 8 + BLOCK_HEADER_LEN ∨ is_known_network_magic (le_val (slice 0 4 t)) = false ∨
  le_val (slice 4 8 t) < BLOCK_HEADER_LEN ∨ len t - 8 < le_val (slice 4 8 t).

(** Byte [i] of a file is XORed with byte [i mod 8] of the key. *)
Definition xor_mask (key bs : bytes) : bytes :=
  imap (λ i b, bxor b (key !!! (i `mod` 8)%nat)) bs.

Definition obfuscate (key : option bytes) (bs : bytes) : bytes :=
  match key with Some k => xor_mask k bs | None => bs end.

(** ** Lemmas: XOR *)

Lemma land_low_high a b : 0 ≤ a < 256 → Z.land a (Z.shiftl b 8) = 0.
Proof.
  intros Ha. apply Z.bits_inj_0. intros n. rewrite Z.land_spec.
  destruct (decide (n < 8)) as [Hn|Hn].
  - destruct (decide (n < 0)); [by rewrite Z.testbit_neg_r|].
    rewrite (Z.shiftl_spec_low b) by lia. apply andb_false_r.
  - replace a with (a `mod` 2 ^ 8) by (apply Z.mod_small; lia).
    by rewrite Z.mod_pow2_bits_high by lia.
Qed.

Lemma lxor_low_bound a b : 0 ≤ a < 256 → 0 ≤ b < 256 → 0 ≤ Z.lxor a b < 256.
Proof.
  intros Ha Hb. assert (0 ≤ Z.lxor a b) as H0 by (apply Z.lxor_nonneg; lia).
  split; [done|]. assert (Z.lxor a b = Z.lxor a b `mod` 2 ^ 8) as ->.
  { apply Z.bits_inj'. intros n Hn. destruct (decide (n < 8)).
    - by rewrite Z.mod_pow2_bits_low.
    - rewrite Z.mod_pow2_bits_high, Z.lxor_spec by lia.
      rewrite <-(Z.mod_small a (2 ^ 8)), <-(Z.mod_small b (2 ^ 8)) by lia.
      by rewrite !Z.mod_pow2_bits_high by lia. }
  apply Z.mod_pos_bound. lia.
Qed.

Lemma lxor_split a b x y :
  0 ≤ a < 256 → 0 ≤ b < 256 →
  Z.lxor (a + 256 * x) (b + 256 * y) = Z.lxor a b + 256 * Z.lxor x y.
Proof.
  intros Ha Hb.
  assert (∀ c z, 0 ≤ c < 256 → c + 256 * z = Z.lxor c (Z.shiftl z 8)) as Hs.
  { intros c z Hc. rewrite <-Z.add_nocarry_lxor by (by apply land_low_high).
    rewrite Z.shiftl_mul_pow2 by lia. lia. }
  rewrite !Hs by (done || by apply lxor_low_bound).
  rewrite Z.shiftl_lxor. rewrite !Z.lxor_assoc. f_equal.
  rewrite <-!Z.lxor_assoc. f_equal. apply Z.lxor_comm.
Qed.

Lemma byteZ_bxor a b : byteZ (bxor a b) = Z.lxor (byteZ a) (byteZ b).
Proof.
  unfold bxor. rewrite byteZ_Zbyte. apply Z.mod_small.
  apply lxor_low_bound; apply byteZ_bound.
Qed.

Lemma bxor_involutive a b : bxor (bxor a b) b = a.
Proof.
  apply (inj byteZ). rewrite !byteZ_bxor, Z.lxor_assoc, Z.lxor_nilpotent. apply Z.lxor_0_r.
Qed.

(** A wide XOR is the XOR of the bytes. *)
Lemma le_val_lxor xs ys :
  length xs = length ys → le_val (zip_with bxor xs ys) = Z.lxor (le_val xs) (le_val ys).
Proof.
  revert ys. induction xs as [|x xs IH]; intros [|y ys] Hl; simplify_eq/=; [done|].
  rewrite !le_val_cons, IH, lxor_split by (done || apply byteZ_bound).
  by rewrite byteZ_bxor.
Qed.

Lemma le_bytes_lxor xs ys n :
  length xs = n → length ys = n → le_bytes n (Z.lxor (le_val xs) (le_val ys)) = zip_with bxor xs ys.
Proof.
  intros Hx Hy. rewrite <-le_val_lxor by congruence. apply le_bytes_val_n.
  rewrite length_zip_with. lia.
Qed.

Lemma chunks8_spec buf :
  Forall (λ c, length c = 8%nat) (chunks8 buf).1 ∧ buf = mjoin (chunks8 buf).1 ++ (chunks8 buf).2 ∧
  (length (chunks8 buf).2 < 8)%nat.
Proof.
  revert buf. fix IH 1. intros buf.
  destruct buf as [|a [|b [|c [|d [|e [|f [|g [|h rest]]]]]]]];
    try (split_and!; [constructor|done|simpl; lia]).
  destruct (IH rest) as (Hf & Heq & Hl). simpl. destruct (chunks8 rest) as [cs r]. simpl in *.
  split_and!; [by constructor|by rewrite Heq at 1|done].
Qed.

Lemma xor_mask_app key xs ys :
  (length xs `mod` 8 = 0)%nat → xor_mask key (xs ++ ys) = xor_mask key xs ++ xor_mask key ys.
Proof.
  intros Hm. unfold xor_mask. rewrite imap_app. f_equal. apply imap_ext. intros i b _.
  unfold compose. do 2 f_equal. rewrite <-Nat.Div0.add_mod_idemp_l. by rewrite Hm.
Qed.

Lemma xor_mask_chunk key c :
  length key = 8%nat → length c = 8%nat →
  xor_mask key c = le_bytes 8 (Z.lxor (le_val c) (le_val key)).
Proof.
  intros Hk Hc. rewrite le_bytes_lxor by done. unfold xor_mask.
  apply list_eq_same_length with 8%nat.
  { rewrite length_zip_with. lia. } { by rewrite length_imap. }
  intros i x y Hi. rewrite list_lookup_imap, lookup_zip_with. rewrite !fmap_Some, bind_Some.
  intros (b & Hb & ->) (b' & Hb' & Hy). apply bind_Some in Hy as (k & Hk' & Hy).
  rewrite Nat.mod_small by lia. rewrite (list_lookup_total_correct _ _ _ Hk'). by simplify_eq.
Qed.

(** The word-at-a-time decoder is the bytewise mask. *)
Lemma xor_decode_mask key buf : length key = 8%nat → xor_decode buf key = xor_mask key buf.
Proof.
  intros Hk. unfold xor_decode. destruct (chunks8_spec buf) as (Hf & Heq & Hl).
  destruct (chunks8 buf) as [cs r]. simpl in *. subst buf.
  assert (length (mjoin cs) `mod` 8 = 0)%nat as Hm.
  { clear -Hf. induction Hf as [|c cs Hc Hf IH]; [done|].
    change (mjoin (c :: cs)) with (c ++ mjoin cs). rewrite length_app, Hc.
    by rewrite <-Nat.Div0.add_mod_idemp_r, IH. }
  rewrite xor_mask_app by done. f_equal.
  - clear -Hf Hk. induction Hf as [|c cs Hc Hf IH]; [done|].
    rewrite mjoin_fmap_cons. change (mjoin (c :: cs)) with (c ++ mjoin cs).
    rewrite xor_mask_app by (by rewrite Hc). by rewrite xor_mask_chunk, IH.
  - unfold xor_mask. apply imap_ext. intros i b _. do 2 f_equal.
    rewrite len_app, Z.add_simpl_r. unfold len.
    rewrite <-Nat2Z.inj_add, <-(Nat2Z.inj_mod _ 8), Nat2Z.id.
    by rewrite <-Nat.Div0.add_mod_idemp_l, Hm.
Qed.

Lemma xor_mask_involutive key bs : xor_mask key (xor_mask key bs) = bs.
Proof.
  apply list_eq. intros i. unfold xor_mask. rewrite !list_lookup_imap.
  destruct (bs !! i); [|done]. simpl. by rewrite bxor_involutive.
Qed.

Lemma len_xor_mask key bs : len (xor_mask key bs) = len bs.
Proof. apply len_imap. Qed.

Lemma word_mask raw off key :
  0 ≤ off → word raw off (Some key) = word (xor_mask key raw) off None.
Proof.
  intros Ho. unfold word, slice, xor_mask. f_equal. apply list_eq. intros i.
  rewrite list_lookup_imap. destruct (decide (i < Z.to_nat (off + 4 - off))%nat) as [Hi|Hi].
  - rewrite !lookup_take_lt, !lookup_drop, list_lookup_imap by done.
    destruct (raw !! _) as [b|]; [|done]. simpl. do 3 f_equal.
    change 7 with (Z.ones 3). rewrite Z.land_ones by lia.
    replace (off + Z.of_nat i) with (Z.of_nat (Z.to_nat off + i)) by lia.
    by rewrite <-(Nat2Z.inj_mod _ 8), Nat2Z.id.
  - by rewrite !lookup_take_ge by lia.
Qed.

(** ** Lemmas: the framing *)

#[global] Instance no_record_dec t : Decision (no_record t).
Proof. unfold no_record. apply _. Defined.

Lemma frames_cons r rs : frames (r :: rs) = frame r ++ frames rs.
Proof. done. Qed.

Lemma len_frame r : len (frame r) = 8 + len r.2.
Proof. unfold frame. autorewrite with bidx. lia. Qed.

Lemma length_frames rs : (length rs ≤ length (frames rs))%nat.
Proof.
  induction rs as [|r rs IH]; [done|]. rewrite frames_cons, length_app. simpl length.
  pose proof (len_frame r). pose proof (len_nonneg r.2). unfold len in *. lia.
Qed.

Lemma magic_wf r : frame_wf r → is_u32 r.1.
Proof. intros [Hm _]. apply known_magic_bytes, Hm. Qed.

Lemma frame_magic pre r rest :
  frame_wf r → le_val (slice (len pre) (len pre + 4) (pre ++ frame r ++ rest)) = r.1.
Proof.
  intros Hr. unfold frame. rewrite <-!app_assoc.
  rewrite slice_app_mid' by (rewrite ?len_le_bytes; lia).
  apply le_val_bytes_small. by apply magic_wf.
Qed.

Lemma frame_len pre r rest :
  frame_wf r → le_val (slice (len pre + 4) (len pre + 8) (pre ++ frame r ++ rest)) = len r.2.
Proof.
  intros [_ Hr]. unfold frame. rewrite <-!app_assoc, (app_assoc pre).
  rewrite slice_app_mid' by (rewrite ?len_app, ?len_le_bytes; lia).
  apply le_val_bytes_small. pose proof (len_nonneg r.2). lia.
Qed.

Lemma frame_payload pre r rest :
  slice (len pre + 8) (len pre + 8 + len r.2) (pre ++ frame r ++ rest) = r.2.
Proof.
  unfold frame. rewrite <-!app_assoc, (app_assoc pre), (app_assoc (pre ++ _)).
  apply slice_app_mid'; rewrite !len_app, !len_le_bytes; lia.
Qed.

(** The walk stops exactly behind the last complete record. *)
Lemma walk_frames fuel pre rs tl :
  Forall frame_wf rs → no_record tl → (length rs < fuel)%nat →
  walk fuel (pre ++ frames rs ++ tl) None (len pre) (len pre) = len pre + len (frames rs).
Proof.
  intros Hrs Htl. revert fuel pre. induction Hrs as [|r rs Hr Hrs IH]; intros [|fuel] pre Hf;
    simpl in Hf; try lia; cbn [walk].
  - change (frames []) with (@nil byte). simpl app. rewrite len_app, len_nil.
    pose proof (len_nonneg tl). unfold no_record, BLOCK_HEADER_LEN in *.
    case_match eqn:Hb; [|lia].
    assert (∀ a b, 0 ≤ a → slice (len pre + a) (len pre + b) (pre ++ tl) = slice a b tl) as Hs.
    { intros a b Ha. unfold slice. replace (Z.to_nat (len pre + a))
        with (length pre + Z.to_nat a)%nat by (unfold len; lia).
      rewrite drop_app_add. f_equal. lia. }
    pose proof (Hs 0 4) as H04. rewrite Z.add_0_r in H04. pose proof (Hs 4 8) as H48.
    unfold word. rewrite H04 by lia. replace (len pre + 4 + 4) with (len pre + 8) by lia.
    rewrite H48 by lia. destruct (is_known_network_magic (le_val (slice 0 4 tl))) eqn:Hm; simpl; [|lia].
    case_match eqn:Hl; [lia|]. exfalso. destruct Htl as [?|[?|[?|?]]]; [lia|done|lia|lia].
  - rewrite frames_cons, <-!app_assoc.
    unfold word. rewrite (frame_magic pre r) by done.
    replace (len pre + 4 + 4) with (len pre + 8) by lia. rewrite frame_len by done.
    destruct Hr as [Hm Hl]. rewrite Hm. unfold BLOCK_HEADER_LEN in *.
    rewrite !len_app, len_frame. pose proof (len_nonneg (frames rs)). pose proof (len_nonneg tl).
    simpl negb. cbv iota. case_match eqn:Hb; [|lia]. case_match eqn:Hb2; [lia|].
    cbv zeta. replace (len pre + (8 + len r.2)) with (len (pre ++ frame r))
      by (rewrite len_app, len_frame; lia).
    rewrite (app_assoc pre), IH by lia. rewrite len_app, len_frame. lia.
Qed.

Lemma walk_mask fuel raw k pos e :
  0 ≤ pos → walk fuel raw (Some k) pos e = walk fuel (xor_mask k raw) None pos e.
Proof.
  revert pos e. induction fuel as [|fuel IH]; intros pos e Hp; [done|]. cbn [walk].
  rewrite len_xor_mask, !word_mask by lia. repeat case_match; try done.
  cbv zeta. apply IH. unfold BLOCK_HEADER_LEN in *. lia.
Qed.

(** Every byte string is a sequence of records and a rest that is not one. *)
Lemma split_frames d :
  len d < 2 ^ 32 → ∃ rs tl, d = frames rs ++ tl ∧ Forall frame_wf rs ∧ no_record tl.
Proof.
  remember (length d) as n eqn:Hn. revert d Hn. induction (Nat.lt_wf_0 n) as [n _ IH].
  intros d Hn Hd. destruct (decide (no_record d)) as [Hno|Hyes].
  { exists [], d. by split_and!. }
  unfold no_record, BLOCK_HEADER_LEN in Hyes.
  set (m := le_val (slice 0 4 d)) in *. set (l := le_val (slice 4 8 d)) in *.
  assert (88 ≤ len d ∧ is_known_network_magic m = true ∧ 80 ≤ l ∧ l ≤ len d - 8)
    as (H88 & Hm & H80 & Hl).
  { split_and!; try lia. destruct (is_known_network_magic m); naive_solver. }
  assert (d = frame (m, slice 8 (8 + l) d) ++ drop (Z.to_nat (8 + l)) d) as Hd'.
  { unfold frame; cbn [fst snd]. rewrite len_slice by lia. replace (8 + l - 8) with l by lia.
    unfold m, l. rewrite !le_bytes_val_n
      by (apply Nat2Z.inj; change (Z.of_nat (length ?x)) with (len x); rewrite len_slice; lia).
    fold l. unfold slice. rewrite Z.sub_0_r. change (Z.to_nat 0) with 0%nat. rewrite drop_0.
    rewrite <-!app_assoc. replace (8 + l - 8) with l by lia.
    rewrite <-(take_drop 4 d) at 1. f_equal.
    rewrite <-(take_drop 4 (drop 4 d)) at 1. f_equal. rewrite drop_drop.
    rewrite <-(take_drop (Z.to_nat l) (drop _ d)) at 1. f_equal.
    rewrite drop_drop. f_equal. lia. }
  destruct (IH (length (drop (Z.to_nat (8 + l)) d))) with (d := drop (Z.to_nat (8 + l)) d)
    as (rs & tl & Heq & Hrs & Htl); [|done| |].
  { rewrite length_drop. unfold len in *. lia. }
  { unfold len in *. rewrite length_drop. lia. }
  exists ((m, slice 8 (8 + l) d) :: rs), tl. rewrite frames_cons, <-app_assoc, <-Heq.
  split_and!; [done| |done]. constructor; [|done].
  split; simpl; [done|]. rewrite len_slice by lia. unfold BLOCK_HEADER_LEN. lia.
Qed.

(** ** Lemmas: the iterator *)

Section iter.
Context `{Fs} `{Sha256}.

(** The record the iterator makes of a framed block at [off]. *)
Definition record_at (file_id off : Z) (r : Z * bytes) : BlkRecord :=
  let raw := slice 0 80 r.2 in
  mkRecord (mkLoc file_id off (8 + len r.2)) (header_parse raw) (dsha256 raw) raw.

Fixpoint locate (file_id off : Z) (rs : list (Z * bytes)) : list BlkRecord :=
  match rs with
  | [] => []
  | r :: rs => record_at file_id off r :: locate file_id (off + (8 + len r.2)) rs
  end.

Lemma drop_len {A} (k l : list A) : drop (Z.to_nat (len k)) (k ++ l) = l.
Proof. by rewrite to_nat_len, drop_app_length. Qed.

Lemma frame_leading r rest : frame_wf r → leading_zeros (frame r ++ rest) = O.
Proof.
  intros [Hm _]. apply known_magic_bytes in Hm as [_ Hm].
  unfold frame. rewrite <-app_assoc. change (le_bytes 4 r.1) with (Zbyte r.1 :: le_bytes 3 (r.1 `div` 256)).
  cbn [app leading_zeros]. rewrite bool_decide_false; [done|].
  intros Hz. apply (f_equal byteZ) in Hz. rewrite byteZ_Zbyte in Hz. done.
Qed.

Lemma next_frame id pre r rest :
  frame_wf r →
  next (mkIter id (pre ++ frame r ++ rest) (len pre)) =
    (Some (Ok (record_at id (len pre) r)),
     mkIter id (pre ++ frame r ++ rest) (len (pre ++ frame r))).
Proof.
  intros Hr. unfold next. cbn [it_data it_pos it_file_id].
  rewrite drop_len, frame_leading by done. rewrite Z.add_0_r.
  rewrite frame_magic, frame_len, frame_payload by done.
  destruct Hr as [Hm Hl]. rewrite Hm. unfold BLOCK_HEADER_LEN in *.
  rewrite !len_app, len_frame. pose proof (len_nonneg rest). pose proof (len_nonneg r.2).
  simpl negb. cbv iota.
  case_match eqn:Hb1; [lia|]. case_match eqn:Hb2; [lia|]. unfold record_at, header_hash.
  rewrite (Z.add_comm (len r.2)). by replace (u32 (8 + len r.2)) with (8 + len r.2)
    by (unfold u32; rewrite Z.mod_small; lia).
Qed.

Lemma next_end id pre : next (mkIter id pre (len pre)) = (None, mkIter id pre (len pre)).
Proof.
  unfold next. cbn [it_data it_pos it_file_id].
  rewrite to_nat_len, drop_all. simpl leading_zeros. rewrite Z.add_0_r.
  case_match; [done|lia].
Qed.

Lemma collect_frames fuel id pre rs :
  Forall frame_wf rs → (length rs < fuel)%nat →
  collect fuel (mkIter id (pre ++ frames rs) (len pre)) = Some (Ok (locate id (len pre) rs)).
Proof.
  intros Hrs. revert fuel pre. induction Hrs as [|r rs Hr Hrs IH]; intros [|fuel] pre Hf;
    simpl in Hf; try lia; cbn [collect].
  - change (frames []) with (@nil byte). by rewrite app_nil_r, next_end.
  - rewrite frames_cons, next_frame by done. rewrite (app_assoc pre), IH by lia.
    simpl. by rewrite len_app, len_frame.
Qed.

Lemma leading_zeros_drop l : leading_zeros (drop (leading_zeros l) l) = O.
Proof.
  induction l as [|b l IH]; [done|]. simpl. case_bool_decide as Hb; simpl; [done|].
  by rewrite bool_decide_false.
Qed.

(** A record of [locate] is read back by [block_bytes]. *)
Lemma block_bytes_locate f rs k r :
  data f = frames rs → Forall frame_wf rs → len (data f) < 2 ^ 32 → rs !! k = Some r →
  ∃ rec, locate (bf_file_id f) 0 rs !! k = Some rec ∧ block_bytes f (location rec) = Ok r.2 ∧
    header_raw rec = slice 0 80 r.2.
Proof.
  intros Hd Hrs Hl Hk. unfold block_bytes. rewrite Hd in *. clear Hd.
  assert (∃ rec off pre post, locate (bf_file_id f) 0 rs !! k = Some rec ∧
    rec = record_at (bf_file_id f) off r ∧ frames rs = pre ++ frame r ++ post ∧ off = len pre)
    as (rec & off & pre & post & Hrec & -> & Heq & Hoff).
  { change 0 with (len (@nil byte)). change (frames rs) with ([] ++ frames rs).
    generalize (@nil byte). clear Hrs Hl. revert k Hk.
    induction rs as [|x rs IH]; intros k Hk pre; [done|].
    destruct k as [|k]; simpl in Hk; simplify_eq.
    - rewrite frames_cons. cbn [locate]. eexists _, _, _, _. by split_and!.
    - rewrite frames_cons, app_assoc. cbn [locate].
      destruct (IH k Hk (pre ++ frame x)) as (rec & off & p & q & ? & ? & ? & ?).
      rewrite len_app, len_frame in *. eexists _, _, _, _. split_and!; [|done..].
      simpl. done. }
  exists (record_at (bf_file_id f) off r). split; [done|]. split; [|done].
  rewrite Heq, !len_app, len_frame in *. pose proof (len_nonneg pre).
  pose proof (len_nonneg post). pose proof (len_nonneg r.2).
  unfold record_at, data_offset. cbn [location offset record_len].
  unfold u64. rewrite !(Z.mod_small (8 + len r.2 - 8)), Z.mod_small by lia.
  case_match eqn:Hb; [lia|].
  rewrite Hoff in *. replace (len pre + 8 + (8 + len r.2 - 8)) with (len pre + 8 + len r.2) in * by lia.
  rewrite slice_at_ok by (rewrite ?len_app, ?len_frame; lia).
  by rewrite frame_payload.
Qed.

Lemma read_xor_key_len path k : read_xor_key path = Some k → length k = 8%nat.
Proof.
  unfold read_xor_key. rewrite bind_Some. intros (d & _ & Hk).
  repeat case_match; simplify_eq. unfold len in *. lia.
Qed.

Lemma record_walk_end_spec path raw rs tl :
  obfuscate (read_xor_key path) raw = frames rs ++ tl → Forall frame_wf rs → no_record tl →
  record_walk_end raw (read_xor_key path) =
    if bool_decide (rs = []) && negb (bool_decide (raw = []))
       && negb (bool_decide (raw !!! 0%nat = x00))
    then len raw else len (frames rs).
Proof.
  intros Hraw Hrs Htl. unfold record_walk_end.
  assert (walk (S (length raw)) raw (read_xor_key path) 0 0 = len (frames rs)) as ->.
  { transitivity (walk (S (length raw)) (frames rs ++ tl) None 0 0).
    - rewrite <-Hraw. destruct (read_xor_key path); [by rewrite walk_mask|done].
    - change 0 with (len (@nil byte)) at 1 2. rewrite <-(app_nil_l (frames rs ++ tl)).
      rewrite walk_frames; [done|done|done|].
      pose proof (length_frames rs). apply (f_equal length) in Hraw.
      unfold obfuscate, xor_mask in Hraw. rewrite length_app in Hraw.
      destruct (read_xor_key path); rewrite ?length_imap in Hraw; lia. }
  replace (len (frames rs) =? 0) with (bool_decide (rs = [])); [done|].
  destruct rs as [|r rs]; [done|]. rewrite bool_decide_false, frames_cons, len_app, len_frame by done.
  pose proof (len_nonneg r.2). pose proof (len_nonneg (frames rs)). lia.
Qed.

(** The data of an opened file: the records, or the whole of a file that
    starts with something else. *)
Lemma open_data path id file raw rs tl :
  fs_open path = Ok file → fs_mmap file = Ok raw →
  obfuscate (read_xor_key path) raw = frames rs ++ tl → Forall frame_wf rs → no_record tl →
  ∃ f, open path id = Ok f ∧ bf_file_id f = id ∧
    data f = (if bool_decide (rs = []) && negb (bool_decide (raw = []))
                 && negb (bool_decide (raw !!! 0%nat = x00))
              then tl else frames rs).
Proof.
  intros Ho Hm Hraw Hrs Htl. unfold open. rewrite Ho. simpl. rewrite Hm. simpl.
  eexists. split; [done|]. split; [done|].
  rewrite (record_walk_end_spec path raw rs tl) by done. unfold data; simpl.
  destruct (read_xor_key path) as [k|] eqn:Hk; simpl in Hraw |- *.
  - rewrite xor_decode_mask, Hraw by (by eapply read_xor_key_len).
    destruct (bool_decide (rs = []) && _ && _) eqn:Hc.
    + apply andb_true_iff in Hc as [[Hc _]%andb_true_iff _].
      apply bool_decide_eq_true in Hc as ->. rewrite <-(len_xor_mask k raw), Hraw.
      simpl. by rewrite to_nat_len, firstn_all.
    + by rewrite to_nat_len, take_app_length.
  - rewrite Hraw. destruct (bool_decide (rs = []) && _ && _) eqn:Hc.
    + apply andb_true_iff in Hc as [[Hc _]%andb_true_iff _].
      apply bool_decide_eq_true in Hc as ->. simpl.
      rewrite <-(app_nil_r tl) at 2. by apply slice_prefix.
    + by apply slice_prefix.
Qed.

(** Records of a data slice, in bounds and disjoint. *)
Definition in_bounds (id pos n : Z) (r : BlkRecord) : Prop :=
  file_id (location r) = id ∧ pos ≤ offset (location r) ∧
  8 + BLOCK_HEADER_LEN ≤ record_len (location r) ∧
  offset (location r) + record_len (location r) ≤ n ∧ len (header_raw r) = BLOCK_HEADER_LEN.

Definition before (r r' : BlkRecord) : Prop :=
  offset (location r) + record_len (location r) ≤ offset (location r').

Lemma next_ok it r it' :
  0 ≤ it_pos it → len (it_data it) < 2 ^ 32 → next it = (Some (Ok r), it') →
  in_bounds (it_file_id it) (it_pos it) (len (it_data it)) r ∧
  it' = mkIter (it_file_id it) (it_data it) (offset (location r) + record_len (location r)).
Proof.
  destruct it as [id d pos]. unfold next. cbn [it_data it_pos it_file_id]. intros Hp Hd Hn.
  set (p := pos + _) in *. assert (pos ≤ p) by (unfold p; lia).
  case_match eqn:Hb; [done|]. case_match eqn:Hm; [done|]. case_match eqn:Hl; [done|].
  injection Hn as <- <-. unfold in_bounds. cbn [location file_id offset record_len header_raw].
  unfold BLOCK_HEADER_LEN, u32 in *. rewrite Z.mod_small by lia.
  rewrite len_slice by (rewrite ?len_slice; lia). split_and!; try done; try lia.
  f_equal. lia.
Qed.

Lemma next_no_panic it it' : next it ≠ (Some Panic, it').
Proof. unfold next. repeat case_match; done. Qed.

Lemma collect_total fuel id d pos :
  0 ≤ pos → len d < 2 ^ 32 → (length d - Z.to_nat pos < fuel)%nat →
  ∃ r, collect fuel (mkIter id d pos) = Some r ∧ r ≠ Panic ∧
    ∀ rs, r = Ok rs → Forall (in_bounds id pos (len d)) rs ∧ StronglySorted before rs.
Proof.
  revert pos. induction fuel as [|fuel IH]; intros pos Hp Hd Hf; [lia|]. cbn [collect].
  destruct (next (mkIter id d pos)) as [[[r|e|]|] it'] eqn:Hn.
  - apply next_ok in Hn as [Hr ->]; [|done..]. cbn [it_data it_pos it_file_id] in *.
    pose proof Hr as (Hid & Hpos & H88 & Hend & Hraw). unfold BLOCK_HEADER_LEN in *.
    destruct (IH (offset (location r) + record_len (location r))) as (x & Hx & Hnp & Hok);
      [lia|done|unfold len in *; lia|].
    rewrite Hx. simpl. eexists. split; [done|]. destruct x as [rs|e|]; [|done|done].
    split; [done|]. intros ? [= <-]. destruct (Hok rs eq_refl) as [Hin Hso].
    split; constructor; try done.
    + eapply Forall_impl; [apply Hin|]. unfold in_bounds. intros r'. intuition lia.
    + eapply Forall_impl; [apply Hin|]. unfold in_bounds, before. intros r'. lia.
  - by exists (Err e).
  - by apply next_no_panic in Hn.
  - exists (Ok []). split_and!; try done. intros rs [= <-]. by split; constructor.
Qed.
End iter.

(** ** Lemmas: file names *)

Lemma dec_rev_length fuel n (k : nat) :
  0 ≤ n < 10 ^ Z.of_nat k → (0 < k)%nat → (length (dec_rev fuel n) ≤ k)%nat.
Proof.
  revert n k. induction fuel as [|f IH]; intros n k Hn Hk; simpl; [lia|].
  destruct (n <? 10) eqn:H10; simpl; [lia|].
  destruct k as [|[|k]]; [lia| |].
  - change (10 ^ Z.of_nat 1) with 10 in Hn. lia.
  - assert (length (dec_rev f (n `div` 10)) ≤ S k)%nat; [|lia]. apply IH; [|lia].
    rewrite (Nat2Z.inj_succ (S k)), Z.pow_succ_r in Hn by lia.
    split; [apply Z.div_pos; lia|apply Z.div_lt_upper_bound; lia].
Qed.

Definition digits (s : rstr) : Prop := Forall (λ c, is_ascii_digit c = true) s.

Lemma fmt_dec5 n :
  0 ≤ n < 100000 → length (fmt_dec0 5 n) = 5%nat ∧ digits (fmt_dec0 5 n) ∧
  digits_val 0 u32_max (fmt_dec0 5 n) = Some n.
Proof.
  intros Hn. unfold fmt_dec0, pad_left.
  assert (length (fmt_dec n) ≤ 5)%nat as Hl.
  { unfold fmt_dec. rewrite length_rev. by apply dec_rev_length; [|lia]. }
  split_and!.
  - rewrite length_app, length_replicate. lia.
  - apply Forall_app. split; [by apply Forall_replicate|apply fmt_dec_digits; lia].
  - rewrite digits_val_zeros by done. apply digits_val_fmt_dec. unfold u32_max. lia.
Qed.

Lemma digits_val_inj5 s t n :
  length s = 5%nat → length t = 5%nat → digits s → digits t →
  digits_val 0 u32_max s = Some n → digits_val 0 u32_max t = Some n → s = t.
Proof.
  unfold digits. intros Hs Ht.
  destruct s as [|a [|b [|c [|d [|e [|]]]]]]; try done.
  destruct t as [|a' [|b' [|c' [|d' [|e' [|]]]]]]; try done.
  rewrite !Forall_cons, !Forall_nil. intros Ds Dt. unfold digits_val.
  repeat match goal with H : _ ∧ _ |- _ => destruct H end.
  repeat match goal with H : is_ascii_digit ?x = true |- _ => rewrite H end.
  repeat match goal with
         | H : is_ascii_digit ?x = true |- _ =>
           assert (48 ≤ x ≤ 57) by (unfold is_ascii_digit in H; lia); clear H
         end.
  unfold u32_max. repeat (case_match; [done|]). intros [= <-] [= He]. repeat f_equal; lia.
Qed.

Lemma utf8_len_digits s : digits s → utf8_len s = len s.
Proof.
  unfold utf8_len. induction 1 as [|c s Hc Hs IH]; [done|].
  rewrite zsum_cons, IH, len_cons. f_equal. unfold utf8_len_char, is_ascii_digit in *.
  case_match; lia.
Qed.

Lemma digits_forallb s : forallb is_ascii_digit s = true ↔ digits s.
Proof.
  unfold digits. induction s as [|c s IH]; simpl; [by split|].
  by rewrite andb_true_iff, Forall_cons, IH.
Qed.

Lemma parse_stem stem n :
  (if negb (utf8_len stem =? 5) || negb (forallb is_ascii_digit stem) then None
   else parse_uint u32_max stem) = Some n ↔ 0 ≤ n < 100000 ∧ stem = fmt_dec0 5 n.
Proof.
  split.
  - destruct (forallb is_ascii_digit stem) eqn:Hd; [|by rewrite orb_true_r].
    apply digits_forallb in Hd. rewrite utf8_len_digits by done.
    destruct (len stem =? 5) eqn:Hl; simpl; [|done]. intros Hp.
    assert (length stem = 5%nat) as H5 by (unfold len in Hl; lia).
    rewrite parse_uint_digits in Hp; [|by intros ->|by apply digits_no_plus].
    assert (0 ≤ n < 100000) as Hn.
    { clear -Hp H5 Hd. unfold digits in Hd. destruct stem as [|a [|b [|c [|d [|e [|]]]]]]; try done.
      rewrite !Forall_cons in Hd. unfold digits_val in Hp.
      destruct Hd as (Ha & Hb & Hc & Hd & He & _).
      rewrite Ha, Hb, Hc, Hd, He in Hp. unfold is_ascii_digit in *.
      unfold u32_max in Hp. repeat (case_match; [done|]). simplify_eq. lia. }
    split; [done|]. destruct (fmt_dec5 n Hn) as (? & ? & ?).
    by eapply digits_val_inj5.
  - intros [Hn ->]. destruct (fmt_dec5 n Hn) as (Hl & Hd & Hv).
    rewrite utf8_len_digits by done. unfold len. rewrite Hl. simpl.
    apply digits_forallb in Hd as Hf. rewrite Hf. simpl.
    rewrite parse_uint_digits; [done| |by apply digits_no_plus].
    intros Hnil. by rewrite Hnil in Hl.
Qed.

(** ** Lemmas: discovery *)

Section discover.
Context `{Fs}.

Lemma parse_blk_name_iff name n :
  parse_blk_name name = Some n ↔
  0 ≤ n < 100000 ∧ name = str "blk" ++ fmt_dec0 5 n ++ str ".dat".
Proof.
  unfold parse_blk_name. rewrite bind_Some. setoid_rewrite bind_Some.
  setoid_rewrite strip_prefix_Some. setoid_rewrite strip_suffix_Some.
  setoid_rewrite parse_stem. naive_solver.
Qed.

(** The entries of a directory that are blk files, in the order listed. *)
Definition blk_entries (es : list (rstr * rstr)) : list (Z * rstr) :=
  omap (λ e, (λ id, (id, e.2)) <$> parse_blk_name e.1) es.

Lemma scan_dir_ok dir es out :
  scan_dir dir (Ok <$> es) out = Ok (out ++ blk_entries es).
Proof.
  revert out. induction es as [|e es IH]; intros out; [by rewrite app_nil_r|].
  simpl. rewrite IH. unfold blk_entries. simpl.
  destruct (parse_blk_name e.1); simpl; [by rewrite <-app_assoc|done].
Qed.
End discover.

(** ** Theorems *)

Section theorems.
Context `{Fs} {SHA : Sha256}.

(** C15: Round trip of a blk file. A file holding framed blocks followed by
    anything that is not a complete record (zero padding, a record still being
    written), obfuscated or not with the key of [xor.dat], opens; the padding
    is cut off exactly; iterating gives one record per block, in file order,
    with its offset, parsed header and hash; and reading each recorded location
    returns that block's bytes. *)
Theorem blkfile_roundtrip (path file : rstr) (id : Z) (raw tl : bytes) (rs : list (Z * bytes))
    (Hopen : fs_open path = Ok file) (Hmap : fs_mmap file = Ok raw)
    (Hraw : raw = obfuscate (read_xor_key path) (frames rs ++ tl))
    (Hrs : Forall frame_wf rs) (Hne : rs ≠ []) (Htl : no_record tl) (Hlen : len raw < 2 ^ 32) :
  ∃ f, open path id = Ok f ∧ data f = frames rs ∧
    all_records f = Some (Ok (locate id 0 rs)) ∧
    ∀ k r, rs !! k = Some r →
      ∃ rec, locate id 0 rs !! k = Some rec ∧ block_bytes f (location rec) = Ok r.2.
Proof.
  assert (obfuscate (read_xor_key path) raw = frames rs ++ tl) as Hdec.
  { rewrite Hraw. unfold obfuscate. destruct (read_xor_key path); [|done].
    apply xor_mask_involutive. }
  destruct (open_data path id file raw rs tl) as (f & Hf & Hid & Hd); [done..|].
  rewrite (bool_decide_false (rs = [])) in Hd by done. simpl in Hd.
  exists f. split_and!; [done|done| |].
  - unfold all_records, records. rewrite Hd, Hid.
    apply (collect_frames _ id [] rs); [done|]. pose proof (length_frames rs). lia.
  - intros k r Hk. destruct (block_bytes_locate f rs k r) as (rec & Hl & Hb & _); [done..| |done|].
    { rewrite Hd. apply (f_equal len) in Hdec. rewrite len_app in Hdec.
      pose proof (len_nonneg tl). revert Hdec. unfold obfuscate.
      destruct (read_xor_key path); rewrite ?len_xor_mask; lia. }
    exists rec. by rewrite <-Hid.
Qed.

(** C25: Any file. Whatever its bytes, a readable file below 4 GiB opens; they
    decompose into complete records and a rest that does not start with one,
    and the data kept is exactly those records, unless there is none and the
    file does not start with a zero byte (then all of it is kept, so that the
    iterator reports the malformed record). Iteration always terminates
    without a panic, and the records it returns lie inside the data, in order
    and without overlap. *)
Theorem blkfile_any_bytes (path file : rstr) (id : Z) (raw : bytes)
    (Hopen : fs_open path = Ok file) (Hmap : fs_mmap file = Ok raw) (Hlen : len raw < 2 ^ 32) :
  ∃ f rs tl r, open path id = Ok f ∧
    obfuscate (read_xor_key path) raw = frames rs ++ tl ∧ Forall frame_wf rs ∧ no_record tl ∧
    data f = (if bool_decide (rs = []) && negb (bool_decide (raw = []))
                 && negb (bool_decide (raw !!! 0%nat = x00))
              then tl else frames rs) ∧
    all_records f = Some r ∧ r ≠ Panic ∧
    ∀ recs, r = Ok recs → Forall (in_bounds id 0 (len (data f))) recs ∧ StronglySorted before recs.
Proof.
  assert (len (obfuscate (read_xor_key path) raw) = len raw) as Hlo.
  { unfold obfuscate. destruct (read_xor_key path); [apply len_xor_mask|done]. }
  destruct (split_frames (obfuscate (read_xor_key path) raw)) as (rs & tl & Hsp & Hrs & Htl); [lia|].
  destruct (open_data path id file raw rs tl) as (f & Hf & Hid & Hd); [done..|].
  assert (len (data f) < 2 ^ 32) as Hdl.
  { rewrite Hsp, len_app in Hlo. pose proof (len_nonneg tl). pose proof (len_nonneg (frames rs)).
    rewrite Hd. case_match; lia. }
  destruct (collect_total (S (length (data f))) id (data f) 0) as (r & Hr & Hnp & Hok); [lia..|].
  exists f, rs, tl, r. unfold all_records, records. rewrite Hid. by split_and!.
Qed.

(** XOR obfuscation. Decoding eight bytes at a time XORs every byte [i]
    with key byte [i mod 8], tail included, and decoding twice is the identity. *)
Theorem xor_decode_bytewise (buf key : bytes) (Hkey : length key = 8%nat) :
  xor_decode buf key = imap (λ i b, bxor b (key !!! (i `mod` 8)%nat)) buf ∧
  xor_decode (xor_decode buf key) key = buf.
Proof. rewrite !xor_decode_mask by done. split; [done|]. apply xor_mask_involutive. Qed.

(** A failed record is final. Once the iterator reports a corrupt record it
    reports that same record for ever: no later record of a damaged file can be
    reached by polling on. *)
Theorem iterator_error_sticky (it it' : BlkRecordIter) (e : BlkError) (Hpos : 0 ≤ it_pos it)
    (Herr : next it = (Some (Err e), it')) :
  next it' = (Some (Err e), it').
Proof.
  destruct it as [id d pos]. unfold next in Herr. cbn [it_data it_pos it_file_id] in *.
  set (p := pos + _) in *.
  assert (leading_zeros (drop (Z.to_nat p) d) = O) as Hz.
  { unfold p. rewrite Z2Nat.inj_add, Nat2Z.id by lia. rewrite <-drop_drop.
    apply leading_zeros_drop. }
  destruct (len d <? p + 8) eqn:Hend; [done|].
  destruct (negb (is_known_network_magic (le_val (slice p (p + 4) d)))) eqn:Hm;
    [|destruct ((le_val (slice (p + 4) (p + 8) d) <? BLOCK_HEADER_LEN)
        || (len d <? p + 8 + le_val (slice (p + 4) (p + 8) d))) eqn:Hl; [|done]];
    injection Herr as <- <-; unfold next; cbn [it_data it_pos it_file_id];
    rewrite Hz, Z.add_0_r, Hend, Hm, ?Hl; done.
Qed.

(** C39: Discovery. In a readable directory exactly the entries named
    [blkNNNNN.dat] are found, each with the number its name spells, sorted by
    that number; if there is none the error names the directory. *)
Theorem discover_blk_files_spec (dir : rstr) (es : list (rstr * rstr))
    (Hdir : fs_read_dir dir = Ok (Ok <$> es)) :
  (∀ e n, e ∈ es → (parse_blk_name e.1 = Some n ↔
     0 ≤ n < 100000 ∧ e.1 = str "blk" ++ fmt_dec0 5 n ++ str ".dat")) ∧
  match discover_blk_files dir with
  | Ok fs => fs ≡ₚ blk_entries es ∧ StronglySorted by_id fs ∧ fs ≠ []
  | Err e => e = NoFiles dir ∧ blk_entries es = []
  | Panic => False
  end.
Proof.
  split; [intros; apply parse_blk_name_iff|].
  unfold discover_blk_files. rewrite Hdir. simpl. rewrite scan_dir_ok. simpl.
  pose proof (merge_sort_Permutation by_id (blk_entries es)) as Hp.
  case_bool_decide as Hn.
  - split; [done|]. rewrite Hn in Hp. by apply Permutation_nil_l in Hp.
  - split_and!; [done| |done]. apply StronglySorted_merge_sort; apply _.
Qed.
End theorems.

(** ** A concrete directory: one obfuscated, zero-padded blk file *)

Module Ex.
Definition key : bytes := [x01; xab; x00; x10; x42; xfe; x07; x99].
Definition recs : list (Z * bytes) :=
  [(BLOCK_MAGIC, le_bytes 85 12345); (BLOCK_MAGIC_REGTEST, le_bytes 91 777)].
(** Zero padding decodes to the key pattern. *)
Definition pad : bytes := take 19 (drop (length (frames recs)) (xor_mask key (zeros 400))).
Definition raw : bytes := xor_mask key (frames recs ++ pad).

#[export, program] Instance fs : Fs := {
  IoError := ();
  fs_open p := if bool_decide (p = str "b/blk00007.dat") then Ok p else Err ();
  fs_mmap _ := Ok raw;
  fs_read p := if bool_decide (p = str "b/xor.dat") then Ok key else Err ();
  fs_read_dir _ := Ok [Ok (str "blk00010.dat", str "b/blk00010.dat"); Ok (str "xor.dat", str "b/xor.dat");
                       Ok (str "blk00007.dat", str "b/blk00007.dat")];
  fs_parent _ := Some (str "b");
  fs_join d n := d ++ str "/" ++ n
}.

Definition path : rstr := str "b/blk00007.dat".
End Ex.

Lemma blkfile_roundtrip_witness :
  slice 176 192 Ex.raw ≠ zeros 16 ∧ drop 192 Ex.raw = zeros 19 ∧
  ∃ f, @open Ex.fs Ex.path 7 = Ok f ∧
    @all_records Ex.fs Ref.sha_ref f = Some (Ok (@locate Ref.sha_ref 7 0 Ex.recs)).
Proof.
  split; [by vm_compute|]. split; [by vm_compute|].
  destruct (@blkfile_roundtrip Ex.fs Ref.sha_ref Ex.path Ex.path 7 Ex.raw Ex.pad Ex.recs)
    as (f & Hf & _ & Hr & _); [reflexivity|reflexivity|vm_compute; reflexivity| |done| |by vm_compute|].
  - repeat constructor; by vm_compute.
  - left. by vm_compute.
  - by exists f.
Defined.

Lemma blkfile_any_bytes_witness :
  ∃ f rs tl r, @open Ex.fs Ex.path 7 = Ok f ∧ @all_records Ex.fs Ref.sha_ref f = Some r ∧ r ≠ Panic ∧
    obfuscate (Some Ex.key) Ex.raw = frames rs ++ tl.
Proof.
  destruct (@blkfile_any_bytes Ex.fs Ref.sha_ref Ex.path Ex.path 7 Ex.raw)
    as (f & rs & tl & r & H1 & H2 & H3 & H4 & H5 & H6 & H7 & _); [reflexivity|reflexivity|by vm_compute|].
  exists f, rs, tl, r. by split_and!.
Defined.

Lemma xor_decode_bytewise_witness :
  length Ex.key = 8%nat ∧ xor_decode (xor_decode (zeros 13) Ex.key) Ex.key = zeros 13.
Proof. split; [reflexivity|]. apply (xor_decode_bytewise (zeros 13) Ex.key). reflexivity. Defined.

Lemma iterator_error_sticky_witness :
  let it := mkIter 3 (zeros 5 ++ replicate 20 x01) 0 in
  ∃ e it', @next Ex.fs Ref.sha_ref it = (Some (Err e), it') ∧
           @next Ex.fs Ref.sha_ref it' = (Some (Err e), it').
Proof.
  eexists _, _. split; [vm_compute; reflexivity|].
  eapply (@iterator_error_sticky Ex.fs Ref.sha_ref (mkIter 3 (zeros 5 ++ replicate 20 x01) 0));
    [done|vm_compute; reflexivity].
Defined.

Lemma discover_blk_files_spec_witness :
  @discover_blk_files Ex.fs (str "b")
    = Ok [(7, str "b/blk00007.dat"); (10, str "b/blk00010.dat")] ∧
  ∀ n, parse_blk_name (str "blk00010.dat") = Some n ↔
       0 ≤ n < 100000 ∧ str "blk00010.dat" = str "blk" ++ fmt_dec0 5 n ++ str ".dat".
Proof.
  split; [vm_compute; reflexivity|]. intros n.
  refine (proj1 (@discover_blk_files_spec Ex.fs (str "b")
    [(str "blk00010.dat", str "b/blk00010.dat"); (str "xor.dat", str "b/xor.dat");
     (str "blk00007.dat", str "b/blk00007.dat")] eq_refl)
    (str "blk00010.dat", str "b/blk00010.dat") n _). left.
Defined.
