(* ===== verification/F64.v ===== *)
(** * F64: IEEE 754 binary64, through the Standard Library's [SpecFloat]

    The arithmetic of Rust's [f64]; [log2] and [exp2], which IEEE 754 does not
    fix, are the class [Libm]. The comparison is shown to be a total order on
    the values that are not NaN. *)
From Stdlib Require Export Floats.SpecFloat.
From S2P Require Import Prelude.

#[global] Abbreviation f64 := spec_float.

Definition f64_add : f64 → f64 → f64 := SFadd 53 1024.
Definition f64_sub : f64 → f64 → f64 := SFsub 53 1024.
Definition f64_mul : f64 → f64 → f64 := SFmul 53 1024.
Definition f64_div : f64 → f64 → f64 := SFdiv 53 1024.
Definition f64_zero : f64 := S754_zero false.

(** [z as f64]: round to nearest even. *)
Definition f64_of_Z (z : Z) : f64 := binary_normalize 53 1024 z 0 false.

Definition f64_le (x y : f64) : bool := SFleb x y.
Definition f64_lt (x y : f64) : bool := SFltb x y.
Definition f64_eq (x y : f64) : bool := SFeqb x y.

Definition f64_neg : f64 → f64 := SFopp.
Definition f64_abs : f64 → f64 := SFabs.

(** [f64::max]: a NaN loses against the other operand. *)
Definition f64_max (x y : f64) : f64 :=
  match x, y with
  | S754_nan, _ => y
  | _, S754_nan => x
  | _, _ => if f64_lt x y then y else x
  end.

(** [f64::EPSILON] is 2^-52. *)
Definition f64_epsilon : f64 := binary_normalize 53 1024 1 (-52) false.

(** [x as u64]: truncated, saturating, NaN to 0. *)
Definition f64_to_u64 (x : f64) : Z :=
  match x with
  | S754_nan | S754_zero _ | S754_infinity true | S754_finite true _ _ => 0
  | S754_infinity false => u64_max
  | S754_finite false m e =>
    Z.min u64_max (if 0 <=? e then Z.pos m * 2 ^ e else Z.pos m `div` 2 ^ (- e))
  end.

Class Libm := { f64_log2 : f64 → f64; f64_exp2 : f64 → f64 }.

(** ** The order *)

Definition f64_key (x : f64) : Z * Z * Z :=
  match x with
  | S754_zero _ => (0, 0, 0)
  | S754_infinity s => (if s then -2 else 2, 0, 0)
  | S754_nan => (3, 0, 0)
  | S754_finite s m e => if s then (-1, - e, - Z.pos m) else (1, e, Z.pos m)
  end.

Definition key_le (a b : Z * Z * Z) : Prop :=
  let '(a1, a2, a3) := a in
  let '(b1, b2, b3) := b in
  a1 < b1 ∨ (a1 = b1 ∧ (a2 < b2 ∨ (a2 = b2 ∧ a3 ≤ b3))).

Definition not_nan (x : f64) : Prop := x ≠ S754_nan.

Lemma f64_le_key x y : not_nan x → not_nan y → f64_le x y = true ↔ key_le (f64_key x) (f64_key y).
Proof.
  unfold not_nan, f64_le, SFleb. intros Hx Hy.
  destruct x as [sx|sx| |sx mx ex], y as [sy|sy| |sy my ey]; try done;
    destruct sx; try destruct sy; simpl; try (split; [lia|done]); try (split; [done|lia]).
  - destruct (Z.compare_spec ex ey) as [->|?|?]; [|split; [done|lia]|split; [lia|done]].
    change (PosDef.Pos.compare_cont Eq mx my) with (Pos.compare mx my).
    destruct (Pos.compare_spec mx my) as [->|?|?]; simpl; split; try done; lia.
  - destruct (Z.compare_spec ex ey) as [->|?|?]; [|split; [lia|done]|split; [done|lia]].
    change (PosDef.Pos.compare_cont Eq mx my) with (Pos.compare mx my).
    destruct (Pos.compare_spec mx my) as [->|?|?]; simpl; split; try done; lia.
Qed.

Lemma key_le_total a b : key_le a b ∨ key_le b a.
Proof. destruct a as [[]], b as [[]]. simpl. lia. Qed.

Lemma key_le_trans a b c : key_le a b → key_le b c → key_le a c.
Proof. destruct a as [[]], b as [[]], c as [[]]. simpl. lia. Qed.

Lemma f64_le_total x y : not_nan x → not_nan y → f64_le x y = true ∨ f64_le y x = true.
Proof. intros. rewrite !f64_le_key by done. apply key_le_total. Qed.

Lemma f64_le_refl x : not_nan x → f64_le x x = true.
Proof. intros. by destruct (f64_le_total x x). Qed.

Lemma f64_le_trans x y z :
  not_nan x → not_nan y → not_nan z → f64_le x y = true → f64_le y z = true → f64_le x z = true.
Proof. intros ???. rewrite !f64_le_key by done. apply key_le_trans. Qed.
