(* ===== verification/Rounding.v ===== *)
(** * Rounding: error bounds of the binary64 operations

    How far above the exact value a rounded result can be, for the operations
    that compute an index: [f64_of_Z], a subtraction of 1, a product. Values are
    scaled by [2 ^ K] to be integers. *)
From S2P Require Import Prelude F64.

Definition K : Z := 4000.

(** [m * 2 ^ e], scaled. *)
Definition val (m e : Z) : Z := m * 2 ^ (e + K).

(** [x] is at most [v], scaled, or not positive at all. *)
Definition upto (x : f64) (v : Z) : Prop :=
  match x with
  | S754_finite false m e => - 1074 ≤ e ∧ val (Z.pos m) e ≤ v
  | S754_infinity false => False
  | _ => True
  end.

Definition not_positive (x : f64) : Prop :=
  match x with S754_finite false _ _ | S754_infinity false => False | _ => True end.

Lemma not_positive_upto x v : not_positive x → upto x v.
Proof. by destruct x as [?|[]| |[] ? ?]. Qed.

(** ** Shifts *)

Lemma pow_split a b : 0 ≤ a → 0 ≤ b → 2 ^ (a + b) = 2 ^ a * 2 ^ b.
Proof. intros. by apply Z.pow_add_r. Qed.

Lemma pow_pos a : 0 ≤ a → 0 < 2 ^ a.
Proof. intros. by apply Z.pow_pos_nonneg. Qed.

Lemma digits_bounds m : 2 ^ (Z.pos (digits2_pos m) - 1) ≤ Z.pos m < 2 ^ Z.pos (digits2_pos m).
Proof.
  induction m as [m IH|m IH|]; [..|done]; cbn [digits2_pos]; rewrite Pos2Z.inj_succ, Z.pow_succ_r by lia;
    replace (Z.succ (Z.pos (digits2_pos m)) - 1) with (Z.succ (Z.pos (digits2_pos m) - 1)) by lia;
    rewrite Z.pow_succ_r by lia; lia.
Qed.

Lemma shr_1_half mrs : 0 ≤ shr_m mrs → shr_m (shr_1 mrs) = shr_m mrs `div` 2.
Proof.
  destruct mrs as [[|[p|p|]|] r s]; cbn [shr_m shr_1]; intros Hm; try done.
  - replace (Z.pos p~1) with (1 + Z.pos p * 2) by lia. by rewrite Z.div_add.
  - replace (Z.pos p~0) with (Z.pos p * 2) by lia. by rewrite Z.div_mul.
Qed.

Lemma iter_shr p mrs : 0 ≤ shr_m mrs → shr_m (iter_pos shr_1 p mrs) = shr_m mrs `div` 2 ^ Z.pos p.
Proof.
  revert mrs. assert (∀ mrs, 0 ≤ shr_m mrs → shr_m (iter_pos shr_1 p mrs) = shr_m mrs `div` 2 ^ Z.pos p ∧
    0 ≤ shr_m (iter_pos shr_1 p mrs)) as Hgen; [|intros mrs Hm; by apply Hgen].
  induction p as [p IH|p IH|]; intros mrs Hm; cbn [iter_pos].
  - assert (0 ≤ shr_m (shr_1 mrs)) as H1 by (rewrite shr_1_half by done; apply Z.div_pos; lia).
    destruct (IH _ H1) as [E1 H2]. destruct (IH _ H2) as [E2 H3]. split; [|done].
    pose proof (pow_pos (Z.pos p) ltac:(lia)).
    rewrite E2, E1, shr_1_half, !Z.div_div by first [done|nia]. f_equal.
    replace (Z.pos p~1) with (1 + (Z.pos p + Z.pos p)) by lia. rewrite (pow_split 1), (pow_split (Z.pos p)) by lia. ring.
  - destruct (IH _ Hm) as [E1 H2]. destruct (IH _ H2) as [E2 H3]. split; [|done].
    pose proof (pow_pos (Z.pos p) ltac:(lia)). rewrite E2, E1, Z.div_div by lia. f_equal.
    replace (Z.pos p~0) with (Z.pos p + Z.pos p) by lia. by rewrite pow_split by lia.
  - rewrite shr_1_half by done. split; [done|]. apply Z.div_pos; lia.
Qed.

Lemma fexp_low e : - 1074 ≤ fexp 53 1024 e.
Proof. unfold fexp, emin. lia. Qed.

(** What the shift of [shr_fexp] leaves. *)
Lemma shr_fexp_spec m e :
  0 ≤ m →
  let '(mrs, e') := shr_fexp 53 1024 m e loc_Exact in
  e ≤ e' ∧ - 1074 ≤ e' ∧ shr_m mrs = m `div` 2 ^ (e' - e) ∧
  ((e' = e ∧ loc_of_shr_record mrs = loc_Exact) ∨ e' = fexp 53 1024 (Zdigits2 m + e)).
Proof.
  intros Hm. unfold shr_fexp, shr. pose proof (fexp_low (Zdigits2 m + e)) as Hlow. destruct (fexp 53 1024 (Zdigits2 m + e) - e) as [|p|p] eqn:Hn.
  - rewrite Z.sub_diag, Z.div_1_r. split; [lia|]. split; [lia|]. split; [done|]. by left.
  - rewrite iter_shr by done. replace (e + Z.pos p - e) with (Z.pos p) by lia. split; [lia|]. split; [lia|]. split; [done|]. right. lia.
  - rewrite Z.sub_diag, Z.div_1_r. split; [lia|]. split; [lia|]. split; [done|]. by left.
Qed.

(** ** Rounding *)

Lemma val_shift m e n : 0 ≤ m → 0 ≤ n → 0 ≤ e + K → val (m `div` 2 ^ n) (e + n) ≤ val m e.
Proof.
  intros Hm Hn He. unfold val. replace (e + n + K) with (n + (e + K)) by lia. rewrite pow_split by lia.
  pose proof (pow_pos n Hn). pose proof (pow_pos _ He). pose proof (Z.mul_div_le m (2 ^ n) ltac:(lia)). nia.
Qed.

(** The scaled bound of the absolute error of subnormal results. *)
Definition tiny : Z := 2 ^ (K - 1074).

(** Rounding adds at most one part in 2^52, and [tiny]. *)
Lemma round_up m e :
  0 < m → - 1500 ≤ e →
  match binary_round_aux 53 1024 false m e loc_Exact with
  | S754_finite false m' e' => - 1074 ≤ e' ∧ 2 ^ 52 * val (Z.pos m') e' ≤ (2 ^ 52 + 1) * val m e + 2 ^ 52 * tiny
  | S754_infinity false => 2 ^ 52 * 2 ^ (900 + K) ≤ (2 ^ 52 + 1) * val m e + 2 ^ 52 * tiny
  | x => not_positive x
  end.
Proof.
  intros Hm He. unfold binary_round_aux. pose proof (shr_fexp_spec m e ltac:(lia)) as H1.
  destruct (shr_fexp 53 1024 m e loc_Exact) as [mrs e1]. destruct H1 as (He1 & _ & Hmrs & Hcase).
  set (m1 := round_nearest_even (shr_m mrs) (loc_of_shr_record mrs)).
  assert (0 ≤ shr_m mrs) as Hnn by (rewrite Hmrs; apply Z.div_pos; [lia|apply pow_pos; lia]).
  assert (shr_m mrs ≤ m1 ≤ shr_m mrs + 1) as Hm1.
  { subst m1. unfold round_nearest_even. destruct (loc_of_shr_record mrs) as [|[]]; [lia| |lia..].
    destruct (Z.even _); lia. }
  assert (2 ^ 52 * val m1 e1 ≤ (2 ^ 52 + 1) * val m e + 2 ^ 52 * tiny) as Hv1.
  { pose proof (val_shift m e (e1 - e) ltac:(lia) ltac:(lia) ltac:(unfold K; lia)) as Hs.
    rewrite <-Hmrs in Hs. replace (e + (e1 - e)) with e1 in Hs by lia.
    assert (0 < tiny) by (apply pow_pos; unfold K; lia).
    assert (0 ≤ val m e) by (unfold val; pose proof (pow_pos (e + K) ltac:(unfold K; lia)); nia).
    destruct Hcase as [[-> Hl]|Hf].
    - unfold m1. rewrite Hl. cbn [round_nearest_even]. lia.
    - assert (val m1 e1 ≤ val (shr_m mrs) e1 + 2 ^ (e1 + K)) as Hd.
      { unfold val. pose proof (pow_pos (e1 + K) ltac:(unfold K; lia)). nia. }
      assert (2 ^ 52 * 2 ^ (e1 + K) ≤ val m e + 2 ^ 52 * tiny) as Hu; [|lia].
      unfold fexp, emin in Hf. destruct (Z.max_spec (Zdigits2 m + e - 53) (3 - 1024 - 53)) as [[Hlt Hmax]|[Hle Hmax]].
      + rewrite Hf, Hmax. replace (3 - 1024 - 53 + K) with (K - 1074) by lia. fold tiny. lia.
      + rewrite Hf, Hmax. destruct m as [|p|p]; [lia| |lia]. cbn [Zdigits2] in *. pose proof (digits_bounds p).
        rewrite <-pow_split by (unfold K; lia).
        replace (52 + (Z.pos (digits2_pos p) + e - 53 + K)) with ((Z.pos (digits2_pos p) - 1) + (e + K)) by lia.
        rewrite pow_split by (unfold K; lia). unfold val at 1.
        rewrite <-(Z.add_0_r (2 ^ _ * _)). apply Z.add_le_mono; [|lia].
        apply Z.mul_le_mono_nonneg_r; [|lia]. apply Z.lt_le_incl, pow_pos. unfold K. lia. }
  pose proof (shr_fexp_spec m1 e1 ltac:(lia)) as H2.
  destruct (shr_fexp 53 1024 m1 e1 loc_Exact) as [mrs2 e2]. destruct H2 as (He2 & Hlow & Hmrs2 & _).
  pose proof (val_shift m1 e1 (e2 - e1) ltac:(lia) ltac:(lia) ltac:(unfold K; lia)) as Hs2.
  rewrite <-Hmrs2 in Hs2. replace (e1 + (e2 - e1)) with e2 in Hs2 by lia.
  assert (0 ≤ shr_m mrs2) as Hnn2 by (rewrite Hmrs2; apply Z.div_pos; [lia|apply pow_pos; lia]).
  destruct (shr_m mrs2) as [|p|p]; [done| |lia]. destruct (Z.leb_spec e2 (1024 - 53)) as [Hle|Hgt]; [split; lia|].
  assert (2 ^ (900 + K) ≤ val (Z.pos p) e2); [|lia]. unfold val.
  replace (e2 + K) with ((e2 - 900) + (900 + K)) by lia.
  rewrite (pow_split (e2 - 900)) by (unfold K; lia).
  pose proof (pow_pos (e2 - 900) ltac:(lia)).
  pose proof (pow_pos (900 + K) ltac:(unfold K; lia)). rewrite Z.mul_assoc, <-(Z.mul_1_l (2 ^ (900 + K))) at 1.
  apply Z.mul_le_mono_nonneg_r; [lia|nia].
Qed.

Lemma round_negative m e : not_positive (binary_round_aux 53 1024 true m e loc_Exact).
Proof.
  unfold binary_round_aux. destruct (shr_fexp _ _ m e _) as [mrs e1].
  destruct (shr_fexp _ _ (round_nearest_even _ _) e1 _) as [mrs2 e2].
  destruct (shr_m mrs2); [done| |done]. by destruct (_ <=? _).
Qed.

Lemma shl_align_val m e e' :
  - 1500 ≤ e → - 1500 ≤ e' →
  let '(mz, ez) := shl_align m e e' in - 1500 ≤ ez ∧ val (Z.pos mz) ez = val (Z.pos m) e.
Proof.
  intros He He'. unfold shl_align. destruct (e' - e) as [|d|d] eqn:Hd; [done..|]. split; [done|].
  assert (Z.pos (Pos.iter xO m d) = Z.pos m * 2 ^ Z.pos d) as ->.
  { clear Hd. induction d as [|d IH] using Pos.peano_ind; [cbn; lia|].
    rewrite Pos.iter_succ, Pos2Z.inj_xO, IH, Pos2Z.inj_succ, Z.pow_succ_r by lia. ring. }
  unfold val. rewrite <-Z.mul_assoc, <-pow_split by (unfold K; lia). do 2 f_equal; lia.
Qed.

(** What rounding adds, when [val m e] is at most [2 ^ 48 * 2 ^ K] and a bit. *)
Definition grain : Z := 2 ^ (K - 6).

Lemma grain_facts : 0 < grain ∧ 2 ^ K = 64 * grain ∧ 2 ^ 52 * tiny ≤ grain ∧ 2 ^ 100 * grain ≤ 2 ^ (900 + K).
Proof.
  unfold grain, tiny. assert (0 < 2 ^ (K - 1074)) by (apply pow_pos; unfold K; lia).
  assert (0 < 2 ^ (K - 6)) by (apply pow_pos; unfold K; lia). split_and!; [done| | |].
  - change 64 with (2 ^ 6). rewrite <-pow_split by (unfold K; lia). f_equal; lia.
  - rewrite <-pow_split by (unfold K; lia). apply Z.pow_le_mono_r; unfold K; lia.
  - rewrite <-pow_split by (unfold K; lia). apply Z.pow_le_mono_r; unfold K; lia.
Qed.

Lemma upto_round m e v :
  0 < m → - 1500 ≤ e → val m e ≤ v → v ≤ 2 ^ 55 * grain →
  upto (binary_round_aux 53 1024 false m e loc_Exact) (v + 9 * grain).
Proof.
  intros Hm He Hv Hle. pose proof (round_up m e Hm He) as Hr. pose proof grain_facts as (Hu & HK & Ht & Hbig).
  destruct (binary_round_aux _ _ _ _ _ _) as [s|[]| |[] m' e']; cbn [upto]; [exact I|exact I|lia|exact I|exact I|].
  destruct Hr as [He' Hr]. split; lia.
Qed.

Lemma upto_normalize z e v :
  - 1500 ≤ e → val z e ≤ v → v ≤ 2 ^ 55 * grain → upto (binary_normalize 53 1024 z e false) (v + 9 * grain).
Proof.
  intros He Hv Hle. destruct z as [|m|m]; [done| |].
  - cbn [binary_normalize]. unfold binary_round.
    pose proof (shl_align_val m e (fexp 53 1024 (Z.pos (digits2_pos m) + e)) He
      ltac:(pose proof (fexp_low (Z.pos (digits2_pos m) + e)); lia)) as Hs.
    destruct (shl_align _ _ _) as [mz ez]. destruct Hs as [Hez Hs]. apply upto_round; [done|done|lia|done].
  - apply not_positive_upto. cbn [binary_normalize]. unfold binary_round. destruct (shl_align _ _ _). apply round_negative.
Qed.

(** ** The operations *)

Lemma upto_of_Z n : 0 ≤ n ≤ 2 ^ 48 → upto (f64_of_Z n) (n * (64 * grain) + 9 * grain).
Proof.
  intros Hn. pose proof grain_facts as (Hu & HK & _). apply upto_normalize; [lia| |].
  - unfold val. rewrite Z.add_0_l, HK. lia.
  - pose proof (Z.mul_le_mono_nonneg_r n (2 ^ 48) (64 * grain)). lia.
Qed.

Lemma normalize_negative m e : not_positive (binary_normalize 53 1024 (Z.neg m) e false).
Proof. cbn [binary_normalize]. unfold binary_round. destruct (shl_align _ _ _). apply round_negative. Qed.

Lemma upto_sub_one x v :
  upto x v → v ≤ 2 ^ 55 * grain →
  upto (f64_sub x (f64_of_Z 1)) (v - 64 * grain + 9 * grain).
Proof.
  intros Hx Hv. change (f64_of_Z 1) with (S754_finite false 4503599627370496 (-52)).
  pose proof grain_facts as (Hu & HK & _). destruct x as [s|[]| |s m e]; [done|done|done|done|].
  unfold f64_sub, SFsub. set (ez := Z.min e (-52)). destruct s.
  { apply not_positive_upto. destruct (shl_align m e ez) as [m1 e1], (shl_align 4503599627370496 (-52) ez) as [m2 e2].
    apply normalize_negative. }
  cbn [upto] in Hx. destruct Hx as [He Hx].
  pose proof (shl_align_val m e ez ltac:(lia) ltac:(lia)) as H1.
  pose proof (shl_align_val 4503599627370496 (-52) ez ltac:(lia) ltac:(lia)) as H2.
  assert ((shl_align m e ez).2 = ez ∧ (shl_align 4503599627370496 (-52) ez).2 = ez) as [E1 E2].
  { unfold shl_align. split; (destruct (ez - _) as [|d|d] eqn:Hd; cbn; lia). }
  destruct (shl_align m e ez) as [m1 e1], (shl_align 4503599627370496 (-52) ez) as [m2 e2]. cbn [fst snd] in *. subst e1 e2.
  destruct H1 as [He1 H1], H2 as [_ H2]. cbn [cond_Zopp].
  assert (val (Z.pos m2) ez = 64 * grain) as Hone.
  { rewrite H2, <-HK. unfold val. change (Z.pos 4503599627370496) with (2 ^ 52).
    rewrite <-pow_split by (unfold K; lia). f_equal; lia. }
  apply upto_normalize; [done| |lia]. unfold val in *. rewrite Z.mul_sub_distr_r. lia.
Qed.

Lemma upto_mul x v mq eq :
  upto x v → v ≤ 2 ^ 55 * grain → - 100 ≤ eq → Z.pos mq * 2 ^ (eq + 200) ≤ 2 ^ 200 →
  upto (f64_mul x (S754_finite false mq eq)) (v + 9 * grain).
Proof.
  intros Hx Hv Heq Hq. destruct x as [s|[]| |[] m e]; [exact I|exact I|done|exact I|..].
  { apply not_positive_upto, round_negative. }
  destruct Hx as [He Hx]. unfold f64_mul, SFmul. cbn [xorb]. apply upto_round; [done|lia| |done].
  transitivity (val (Z.pos m) e); [|done]. unfold val. rewrite Pos2Z.inj_mul.
  set (t := e + K - 200). assert (0 ≤ t) by (unfold t, K; lia).
  replace (e + eq + K) with ((eq + 200) + t) by (unfold t; lia). replace (e + K) with (200 + t) by (unfold t; lia).
  rewrite (pow_split (eq + 200)), (pow_split 200) by lia. rewrite <-Z.mul_assoc. apply Z.mul_le_mono_nonneg_l; [done|].
  rewrite !Z.mul_assoc. apply Z.mul_le_mono_nonneg_r; [|done]. by apply Z.lt_le_incl, pow_pos.
Qed.

(** Rounded to an integer, half up, less than half above [n] is [n] at most. *)
Lemma round_half_up_upto m e n :
  0 ≤ n → - 1074 ≤ e → val (Z.pos m) e ≤ n * (64 * grain) + 31 * grain →
  0 ≤ (if 0 <=? e then Z.pos m * 2 ^ e else (Z.pos m + 2 ^ (- e - 1)) `div` 2 ^ (- e)) ≤ n.
Proof.
  intros Hn He Hv. pose proof grain_facts as (Hg & HK & _). unfold val in Hv. destruct (Z.leb_spec 0 e) as [Hpos|Hneg].
  - rewrite pow_split, HK in Hv by (unfold K; lia). pose proof (pow_pos e Hpos). nia.
  - pose proof (pow_pos (- e) ltac:(lia)) as Hp. pose proof (pow_pos (- e - 1) ltac:(lia)) as Hp1.
    assert (2 ^ (- e) = 2 * 2 ^ (- e - 1)) as H2 by (rewrite <-Z.pow_succ_r by lia; f_equal; lia).
    split; [apply Z.div_pos; lia|]. apply Z.lt_succ_r, Z.div_lt_upper_bound; [done|].
    assert (2 ^ (- e) * 2 ^ (e + K) = 64 * grain) as HX by (rewrite <-HK, <-pow_split by (unfold K; lia); f_equal; lia).
    pose proof (pow_pos (e + K) ltac:(unfold K; lia)) as Hx. set (X := 2 ^ (e + K)) in *. set (h := 2 ^ (- e - 1)) in *.
    rewrite H2 in HX |- *. assert (h * X = 32 * grain) as HhX by lia.
    assert ((Z.pos m + h) * X < (2 * h * Z.succ n) * X) as Hlt; [|by apply Zmult_lt_reg_r in Hlt].
    replace ((Z.pos m + h) * X) with (Z.pos m * X + h * X) by ring.
    replace (2 * h * Z.succ n * X) with (2 * (h * X) * Z.succ n) by ring. rewrite HhX. nia.
Qed.
