(* ===== verification/Utxo.v ===== *)
(** * Utxo: the data of the UTXO store, [bidx-store/src/utxo.rs]

    The value and undo codecs, the keys, and the cache of recent outputs. *)
From S2P Require Import Prelude F64 Cursor Hash.

(** ** Values *)

Record UtxoValue : Type := mkUtxo {
  uv_value_sat : Z; uv_script_type : byte; uv_height : Z; uv_address_hash : bytes }.

Definition ENCODED_LEN : Z := 8 + 1 + 4 + 32.

Definition utxo_encode (v : UtxoValue) : bytes :=
  le_bytes 8 (uv_value_sat v) ++ [uv_script_type v] ++ le_bytes 4 (uv_height v)
  ++ uv_address_hash v.

Definition utxo_decode (b : bytes) : option UtxoValue :=
  if negb (len b =? ENCODED_LEN) then None
  else Some (mkUtxo (le_val (slice 0 8 b)) (b !!! 8%nat) (le_val (slice 9 13 b)) (slice 13 45 b)).

Definition make_key (txid : bytes) (vout : Z) : bytes := txid ++ le_bytes 4 vout.

Definition undo_key (height : Z) : bytes := be_bytes 4 height.

(** ** The recent-output cache *)

Definition CACHE_ENTRY_COST : Z := 112.

(** [c_order] is the deque, front first. *)
Record RecentUtxoCache : Type := mkCache {
  c_map : gmap bytes UtxoValue; c_order : list bytes; c_budget : Z; c_hits : Z; c_misses : Z }.

Definition cache_new (budget_bytes : Z) : RecentUtxoCache := mkCache ∅ [] budget_bytes 0 0.

Definition cache_len (c : RecentUtxoCache) : Z := Z.of_nat (size (c_map c)).

Definition cache_bytes (c : RecentUtxoCache) : Z := cache_len c * CACHE_ENTRY_COST.

(** The [while] loop of [evict_to_budget], a round per queued key. *)
Fixpoint evict (m : gmap bytes UtxoValue) (order : list bytes) (budget : Z)
    : gmap bytes UtxoValue * list bytes :=
  if budget <? Z.of_nat (size m) * CACHE_ENTRY_COST then
    match order with
    | k :: order => evict (delete k m) order budget
    | [] => (m, [])
    end
  else (m, order).

Definition evict_to_budget (c : RecentUtxoCache) : RecentUtxoCache :=
  let '(m, order) := evict (c_map c) (c_order c) (c_budget c) in
  mkCache m order (c_budget c) (c_hits c) (c_misses c).

Definition cache_insert (key : bytes) (val : UtxoValue) (c : RecentUtxoCache) : RecentUtxoCache :=
  let m := <[key := val]> (c_map c) in
  match c_map c !! key with
  | None => evict_to_budget (mkCache m (c_order c ++ [key]) (c_budget c) (c_hits c) (c_misses c))
  | Some _ => mkCache m (c_order c) (c_budget c) (c_hits c) (c_misses c)
  end.

Definition cache_remove (key : bytes) (c : RecentUtxoCache) : option UtxoValue * RecentUtxoCache :=
  match c_map c !! key with
  | Some v => (Some v, mkCache (delete key (c_map c)) (c_order c) (c_budget c)
                         (u64 (c_hits c + 1)) (c_misses c))
  | None => (None, mkCache (c_map c) (c_order c) (c_budget c) (c_hits c) (u64 (c_misses c + 1)))
  end.

Record CacheStats : Type := mkCacheStats {
  cs_entries : Z; cs_bytes : Z; cs_budget_bytes : Z; cs_hits : Z; cs_misses : Z }.

Definition hit_rate (s : CacheStats) : option f64 :=
  let total := u64 (cs_hits s + cs_misses s) in
  if total =? 0 then None else Some (f64_div (f64_of_Z (cs_hits s)) (f64_of_Z total)).

(** ** Undo records *)

Record BlockUndo : Type := mkUndo { bu_spent : list (bytes * UtxoValue); bu_created : list bytes }.

Definition put_varint (out : bytes) (n : Z) : bytes :=
  if n <=? 0xfc then out ++ [Zbyte n]
  else if n <=? 0xffff then (out ++ [xfd]) ++ le_bytes 2 (u16 n)
  else if n <=? 0xffffffff then (out ++ [xfe]) ++ le_bytes 4 (u32 n)
  else (out ++ [xff]) ++ le_bytes 8 n.

(** The slice is advanced even when [None] is returned. *)
Definition read_varint (b : bytes) : option Z * bytes :=
  match b with
  | [] => (None, b)
  | first :: b =>
    let f := byteZ first in
    if f <=? 0xfc then (Some f, b)
    else if f =? 0xfd then if len b <? 2 then (None, b) else (Some (le_val (slice 0 2 b)), drop 2 b)
    else if f =? 0xfe then if len b <? 4 then (None, b) else (Some (le_val (slice 0 4 b)), drop 4 b)
    else if len b <? 8 then (None, b) else (Some (le_val (slice 0 8 b)), drop 8 b)
  end.

Definition undo_encode (u : BlockUndo) : bytes :=
  let out := put_varint [] (len (bu_spent u)) in
  let out := foldl (λ out (e : bytes * UtxoValue), (out ++ e.1) ++ utxo_encode e.2) out (bu_spent u) in
  let out := put_varint out (len (bu_created u)) in
  foldl (λ out key, out ++ key) out (bu_created u).

(** The two loops of [decode]; a declared count is at most the bytes left, so
    the loop runs on the length of the input and stops at the count. *)
Fixpoint decode_spent (fuel : nat) (n : Z) (b : bytes) : option (list (bytes * UtxoValue) * bytes) :=
  if n <=? 0 then Some ([], b)
  else
    match fuel with
    | O => None
    | S fuel =>
      if len b <? 81 then None
      else
        let key := slice 0 36 b in
        val ← utxo_decode (slice 36 81 b);
        '(rest, b') ← decode_spent fuel (n - 1) (drop 81 b);
        Some ((key, val) :: rest, b')
    end.

Fixpoint decode_created (fuel : nat) (n : Z) (b : bytes) : option (list bytes * bytes) :=
  if n <=? 0 then Some ([], b)
  else
    match fuel with
    | O => None
    | S fuel =>
      if len b <? 36 then None
      else
        let key := slice 0 36 b in
        '(rest, b') ← decode_created fuel (n - 1) (drop 36 b);
        Some (key :: rest, b')
    end.

(** [BlockUndo::decode]. The capacity reserved for each count is left out. *)
Definition undo_decode (b : bytes) : option BlockUndo :=
  let '(n_spent, b) := read_varint b in
  n_spent ← n_spent;
  '(spent, b) ← decode_spent (S (length b)) n_spent b;
  let '(n_created, b) := read_varint b in
  n_created ← n_created;
  '(created, _) ← decode_created (S (length b)) n_created b;
  Some (mkUndo spent created).

(** ** Specification vocabulary *)

(** A value with every field in its type. *)
Definition utxo_wf (v : UtxoValue) : Prop :=
  is_u64 (uv_value_sat v) ∧ is_u32 (uv_height v) ∧ len (uv_address_hash v) = 32.

Definition undo_wf (u : BlockUndo) : Prop :=
  Forall (λ e : bytes * UtxoValue, len e.1 = 36 ∧ utxo_wf e.2) (bu_spent u) ∧
  Forall (λ k, len k = 36) (bu_created u) ∧
  len (bu_spent u) < 2 ^ 64 ∧ len (bu_created u) < 2 ^ 64.

(** ** Lemmas: codecs *)

Lemma len_utxo_encode v : utxo_wf v → len (utxo_encode v) = 45.
Proof.
  intros (_ & _ & Ha). unfold utxo_encode. rewrite !len_app, !len_le_bytes, Ha. done.
Qed.

Lemma utxo_decode_encode v : utxo_wf v → utxo_decode (utxo_encode v) = Some v.
Proof.
  intros Hv. pose proof (len_utxo_encode v Hv) as Hl. destruct Hv as (Hs & Hh & Ha).
  unfold utxo_decode. rewrite Hl. change (45 =? ENCODED_LEN) with true. cbn [negb].
  f_equal. unfold utxo_encode.
  destruct v as [s t h a]. cbn [uv_value_sat uv_script_type uv_height uv_address_hash] in *. f_equal.
  - rewrite (slice_prefix 8) by (by rewrite len_le_bytes). by apply le_val_bytes_small.
  - rewrite app_assoc.
    rewrite slice_app_mid' by (by rewrite ?len_app, ?len_le_bytes).
    by apply le_val_bytes_small.
  - rewrite <-(app_nil_r a) at 1. rewrite (app_assoc (le_bytes 8 s)), (app_assoc _ (le_bytes 4 h)).
    apply slice_app_mid'; rewrite !len_app, !len_le_bytes; change (len [t]) with 1; lia.
Qed.

Lemma utxo_encode_decode b v : utxo_decode b = Some v → utxo_encode v = b ∧ utxo_wf v.
Proof.
  unfold utxo_decode, ENCODED_LEN. destruct (len b =? 8 + 1 + 4 + 32) eqn:Hl; [|done].
  intros [= <-]. apply Z.eqb_eq in Hl. unfold utxo_encode, utxo_wf, is_u64, is_u32.
  cbn [uv_value_sat uv_script_type uv_height uv_address_hash].
  assert (∀ x y : Z, 0 ≤ x → x ≤ y → y ≤ 45 → len (slice x y b) = y - x) as Hs.
  { intros. apply len_slice; lia. }
  split.
  - rewrite !le_bytes_val_n
      by (apply Nat2Z.inj; change (Z.of_nat (length ?l)) with (len l); rewrite Hs; lia).
    apply list_eq. intros i.
    assert (∃ b0 b1 b2 b3, b = b0 ++ b1 ++ b2 ++ b3 ∧ len b0 = 8 ∧ len b1 = 1 ∧ len b2 = 4 ∧ len b3 = 32)
      as (b0 & b1 & b2 & b3 & -> & H0 & H1 & H2 & H3).
    { exists (slice 0 8 b), (slice 8 9 b), (slice 9 13 b), (slice 13 45 b).
      rewrite !Hs by lia. split_and!; try done. unfold slice. cbn.
      rewrite <-(take_drop 8 b) at 1. f_equal. rewrite <-(take_drop 1 (drop 8 b)) at 1.
      rewrite drop_drop. f_equal. rewrite <-(take_drop 4 (drop 9 b)) at 1. f_equal.
      rewrite drop_drop. symmetry. apply take_ge. rewrite length_drop. unfold len in Hl. lia. }
    rewrite (slice_prefix 8) by done.
    rewrite lookup_total_app_r by (unfold len in *; lia).
    replace (8 - length b0)%nat with 0%nat by (unfold len in *; lia).
    destruct b1 as [|t [|x b1]]; [done| |rewrite !len_cons in H1; pose proof (len_nonneg b1); lia].
    change (([t] ++ b2 ++ b3) !!! 0%nat) with t.
    replace (slice 9 13 (b0 ++ [t] ++ b2 ++ b3)) with b2
      by (rewrite (app_assoc b0); symmetry; apply slice_app_mid'; rewrite ?len_app, ?H0, ?H1; lia).
    replace (slice 13 45 (b0 ++ [t] ++ b2 ++ b3)) with b3; [done|].
    rewrite <-(app_nil_r b3) at 2. rewrite (app_assoc b0), (app_assoc _ b2).
    symmetry. apply slice_app_mid'; rewrite ?len_app, ?H0, ?H1, ?H2; lia.
  - pose proof (le_val_bound (slice 0 8 b)). pose proof (le_val_bound (slice 9 13 b)).
    rewrite !Hs in * by lia. change (256 ^ (8 - 0)) with (2 ^ 64) in *.
    change (256 ^ (13 - 9)) with (2 ^ 32) in *. split_and!; lia.
Qed.

Lemma len_make_key txid vout : len txid = 32 → len (make_key txid vout) = 36.
Proof. intros H. unfold make_key. by rewrite len_app, len_le_bytes, H. Qed.

Lemma make_key_inj t1 v1 t2 v2 :
  len t1 = 32 → len t2 = 32 → is_u32 v1 → is_u32 v2 →
  make_key t1 v1 = make_key t2 v2 → t1 = t2 ∧ v1 = v2.
Proof.
  intros H1 H2 Hv1 Hv2 Hk. apply app_inj_1 in Hk as [-> Hk]; [|unfold len in *; lia].
  split; [done|]. by apply (le_bytes_inj 4).
Qed.

(** The writer of the undo log is the reference encoding of compact-size integers. *)
Lemma put_varint_spec out n : 0 ≤ n < 2 ^ 64 → put_varint out n = out ++ varint n.
Proof.
  intros Hn. unfold put_varint, varint, u16, u32.
  repeat case_match; try done; rewrite <-app_assoc; try done; rewrite Z.mod_small; done || lia.
Qed.

Lemma read_varint_spec n rest : 0 ≤ n < 2 ^ 64 → read_varint (varint n ++ rest) = (Some n, rest).
Proof.
  intros Hn. unfold varint.
  assert (∀ (k : nat) z, 0 ≤ z < 256 ^ Z.of_nat k →
    (len (le_bytes k z ++ rest) <? Z.of_nat k) = false ∧
    le_val (slice 0 (Z.of_nat k) (le_bytes k z ++ rest)) = z ∧
    drop k (le_bytes k z ++ rest) = rest) as Hk.
  { intros k z Hz. split_and!.
    - rewrite len_app, len_le_bytes. pose proof (len_nonneg rest). lia.
    - rewrite slice_prefix by (by rewrite len_le_bytes). by apply le_val_bytes_small.
    - by rewrite drop_app_length' by (by rewrite length_le_bytes). }
  destruct (n <=? 0xfc) eqn:H1; [|destruct (n <=? 0xffff) eqn:H2; [|destruct (n <=? 0xffffffff) eqn:H3]].
  - unfold read_varint. simpl. rewrite byteZ_Zbyte, Z.mod_small, H1 by lia. done.
  - destruct (Hk 2%nat n ltac:(lia)) as (Ha & Hb & Hc). cbn [app]. unfold read_varint.
    change (byteZ xfd) with 253. simpl (_ <=? _). simpl (_ =? _). cbv iota.
    change (Z.of_nat 2) with 2 in *. by rewrite Ha, Hb, Hc.
  - destruct (Hk 4%nat n ltac:(lia)) as (Ha & Hb & Hc). cbn [app]. unfold read_varint.
    change (byteZ xfe) with 254. simpl (_ <=? _). simpl (_ =? _). cbv iota.
    change (Z.of_nat 4) with 4 in *. by rewrite Ha, Hb, Hc.
  - destruct (Hk 8%nat n ltac:(lia)) as (Ha & Hb & Hc). cbn [app]. unfold read_varint.
    change (byteZ xff) with 255. simpl (_ <=? _). simpl (_ =? _). cbv iota.
    change (Z.of_nat 8) with 8 in *. by rewrite Ha, Hb, Hc.
Qed.

Lemma decode_spent_spec fuel es rest :
  Forall (λ e : bytes * UtxoValue, len e.1 = 36 ∧ utxo_wf e.2) es → (length es < fuel)%nat →
  decode_spent fuel (len es) (mjoin ((λ e, e.1 ++ utxo_encode e.2) <$> es) ++ rest) = Some (es, rest).
Proof.
  intros Hes. revert fuel. induction Hes as [|[k v] es [Hk Hv] Hes IH]; intros [|fuel] Hf;
    simpl in Hf; try lia; cbn [decode_spent].
  { done. }
  rewrite len_cons. pose proof (len_nonneg es). pose proof (len_utxo_encode v Hv) as Hlv.
  cbn [fst snd] in *. rewrite mjoin_fmap_cons. cbn [fst snd]. rewrite <-!app_assoc.
  case_match eqn:Hn; [lia|]. clear Hn. case_match eqn:Hb.
  { rewrite !len_app, Hk, Hlv in Hb. pose proof (len_nonneg rest).
    pose proof (len_nonneg (mjoin ((λ e, e.1 ++ utxo_encode e.2) <$> es))). lia. }
  rewrite (slice_prefix 36) by done.
  rewrite (slice_app_mid' 36 81) by (rewrite ?Hk, ?Hlv; done).
  rewrite utxo_decode_encode by done. cbn [mbind option_bind].
  rewrite app_assoc, drop_app_length' by (rewrite length_app; unfold len in *; lia).
  replace (1 + len es - 1) with (len es) by lia. rewrite IH by lia. done.
Qed.

Lemma decode_created_spec fuel ks rest :
  Forall (λ k, len k = 36) ks → (length ks < fuel)%nat →
  decode_created fuel (len ks) (mjoin ks ++ rest) = Some (ks, rest).
Proof.
  intros Hks. revert fuel. induction Hks as [|k ks Hk Hks IH]; intros [|fuel] Hf;
    simpl in Hf; try lia; cbn [decode_created]; [done|].
  rewrite len_cons. pose proof (len_nonneg ks). change (mjoin (k :: ks)) with (k ++ mjoin ks).
  rewrite <-!app_assoc. case_match eqn:Hn; [lia|]. clear Hn. case_match eqn:Hb.
  { rewrite !len_app, Hk in Hb. pose proof (len_nonneg rest). pose proof (len_nonneg (mjoin ks)). lia. }
  rewrite (slice_prefix 36) by done.
  rewrite drop_app_length' by (unfold len in *; lia).
  replace (1 + len ks - 1) with (len ks) by lia. rewrite IH by lia. done.
Qed.

Lemma foldl_app_mjoin {A} (g : bytes → A → bytes) (f : A → bytes) (out : bytes) (l : list A) :
  (∀ o e, g o e = o ++ f e) → foldl g out l = out ++ mjoin (f <$> l).
Proof.
  intros Hg. revert out. induction l as [|x l IH]; intros out; simpl; [by rewrite app_nil_r|].
  by rewrite IH, Hg, <-app_assoc.
Qed.

Lemma undo_encode_eq u :
  undo_wf u → undo_encode u =
    varint (len (bu_spent u)) ++ mjoin ((λ e, e.1 ++ utxo_encode e.2) <$> bu_spent u)
    ++ varint (len (bu_created u)) ++ mjoin (bu_created u).
Proof.
  intros (_ & _ & Hs & Hc). unfold undo_encode. pose proof (len_nonneg (bu_spent u)).
  pose proof (len_nonneg (bu_created u)). rewrite !put_varint_spec by lia.
  rewrite (foldl_app_mjoin _ (λ e : bytes * UtxoValue, e.1 ++ utxo_encode e.2))
    by (intros; by rewrite <-app_assoc).
  rewrite (foldl_app_mjoin _ (λ k, k)) by done.
  by rewrite list_fmap_id, app_nil_l, <-!app_assoc.
Qed.

Lemma length_mjoin_ge {A} (f : A → bytes) (l : list A) :
  (∀ x, x ∈ l → f x ≠ []) → (length l ≤ length (mjoin (f <$> l)))%nat.
Proof.
  induction l as [|x l IH]; intros Hf; [done|]. rewrite mjoin_fmap_cons, length_app. simpl length.
  assert (f x ≠ []) by (apply Hf; left). destruct (f x); [done|]. simpl.
  assert (length l ≤ length (mjoin (f <$> l)))%nat; [|lia]. apply IH. intros y Hy. apply Hf. by right.
Qed.

Lemma undo_decode_encode u : undo_wf u → undo_decode (undo_encode u) = Some u.
Proof.
  intros Hu. rewrite (undo_encode_eq u Hu). destruct Hu as (Hs & Hc & Hns & Hnc).
  unfold undo_decode. rewrite read_varint_spec by (pose proof (len_nonneg (bu_spent u)); lia).
  cbn [mbind option_bind]. rewrite (decode_spent_spec _ (bu_spent u)); [|done|].
  2: { rewrite length_app.
    pose proof (length_mjoin_ge (λ e : bytes * UtxoValue, e.1 ++ utxo_encode e.2) (bu_spent u)) as Hl.
    assert (length (bu_spent u) ≤ _)%nat by (apply Hl; intros [k v] Hin Heq;
      rewrite Forall_forall in Hs; destruct (Hs _ Hin) as [Hk _]; apply app_eq_nil in Heq as [Heq _];
      simpl in *; by rewrite Heq in Hk). lia. }
  cbn [mbind option_bind]. rewrite read_varint_spec by (pose proof (len_nonneg (bu_created u)); lia).
  cbn [mbind option_bind]. rewrite <-(app_nil_r (mjoin (bu_created u))).
  rewrite (decode_created_spec _ (bu_created u)); [by destruct u|done|].
  rewrite app_nil_r. pose proof (length_mjoin_ge (λ k : bytes, k) (bu_created u)) as Hl.
  rewrite list_fmap_id in Hl. assert (∀ k, k ∈ bu_created u → k ≠ []) as Hne; [|apply Hl in Hne; lia].
  intros k Hin ->. rewrite Forall_forall in Hc. by specialize (Hc _ Hin).
Qed.

(** Undo keys order as heights do: comparing big-endian bytes compares numbers. *)
Fixpoint bytes_lt (a b : bytes) : bool :=
  match a, b with
  | [], [] => false
  | [], _ => true
  | _, [] => false
  | x :: a, y :: b => (byteZ x <? byteZ y) || ((byteZ x =? byteZ y) && bytes_lt a b)
  end.

Lemma be_bytes_cons n z : be_bytes (S n) z = be_bytes n (z `div` 256) ++ [Zbyte z].
Proof. done. Qed.

Lemma bytes_lt_snoc a b x y :
  length a = length b →
  bytes_lt (a ++ [x]) (b ++ [y]) = bytes_lt a b || (bool_decide (a = b) && (byteZ x <? byteZ y)).
Proof.
  revert b. induction a as [|c a IH]; intros [|d b] Hl; simplify_eq/=.
  - destruct (byteZ x <? byteZ y); simpl; [done|]. by rewrite andb_false_r.
  - rewrite IH by done. destruct (byteZ c <? byteZ d) eqn:Hlt; [done|]. simpl.
    destruct (byteZ c =? byteZ d) eqn:Heq; simpl.
    + assert (c = d) as -> by (apply (inj byteZ); lia). f_equal.
      by rewrite (bool_decide_ext (d :: a = d :: b) (a = b)) by naive_solver.
    + rewrite bool_decide_false; [done|]. intros [= -> ->]. lia.
Qed.

Lemma be_bytes_lt n a b :
  0 ≤ a < 256 ^ Z.of_nat n → 0 ≤ b < 256 ^ Z.of_nat n →
  bytes_lt (be_bytes n a) (be_bytes n b) = (a <? b).
Proof.
  revert a b. induction n as [|n IH]; intros a b Ha Hb.
  { simpl in Ha, Hb. symmetry. apply Z.ltb_ge. lia. }
  rewrite Nat2Z.inj_succ, Z.pow_succ_r in Ha, Hb by lia.
  pose proof (Z.div_mod a 256 ltac:(lia)). pose proof (Z.div_mod b 256 ltac:(lia)).
  pose proof (Z.mod_pos_bound a 256 ltac:(lia)). pose proof (Z.mod_pos_bound b 256 ltac:(lia)).
  assert (0 ≤ a `div` 256 < 256 ^ Z.of_nat n) by (split; [apply Z.div_pos; lia|apply Z.div_lt_upper_bound; lia]).
  assert (0 ≤ b `div` 256 < 256 ^ Z.of_nat n) by (split; [apply Z.div_pos; lia|apply Z.div_lt_upper_bound; lia]).
  rewrite !be_bytes_cons, bytes_lt_snoc by (by rewrite !length_be_bytes).
  rewrite IH, !byteZ_Zbyte by done.
  case_bool_decide as He.
  - assert (a `div` 256 = b `div` 256) as Hd.
    { apply (f_equal (@rev byte)) in He. unfold be_bytes in He. rewrite !rev_involutive in He.
      by apply (le_bytes_inj n). }
    simpl. apply eq_bool_prop_intro. split; intros ?%Is_true_true; apply Is_true_true; lia.
  - assert (a `div` 256 ≠ b `div` 256) by congruence. rewrite andb_false_l, orb_false_r.
    apply eq_bool_prop_intro. split; intros ?%Is_true_true; apply Is_true_true; lia.
Qed.

(** ** Lemmas: the cache *)

(** Every resident key is queued, and the budget holds. *)
Definition cache_inv (c : RecentUtxoCache) : Prop :=
  (∀ k, is_Some (c_map c !! k) → k ∈ c_order c) ∧ 0 ≤ c_budget c ∧ cache_bytes c ≤ c_budget c.

Lemma evict_spec m order budget :
  (∀ k, is_Some (m !! k) → k ∈ order) → 0 ≤ budget →
  let '(m', order') := evict m order budget in
  m' ⊆ m ∧ (∀ k, is_Some (m' !! k) → k ∈ order') ∧
  Z.of_nat (size m') * CACHE_ENTRY_COST ≤ budget.
Proof.
  revert m. induction order as [|k order IH]; intros m Hm Hb; cbn [evict]; destruct (budget <? _) eqn:Hc.
  - assert (m = ∅) as ->.
    { apply map_empty. intros k. apply eq_None_not_Some. intros Hk%Hm. by apply not_elem_of_nil in Hk. }
    rewrite map_size_empty in Hc. unfold CACHE_ENTRY_COST in Hc. apply Z.ltb_lt in Hc. simpl in Hc. lia.
  - split_and!; [done|done|lia].
  - specialize (IH (delete k m)). destruct (evict (delete k m) order budget) as [m' order'].
    destruct IH as (Hsub & Hin & Hsz); [|done|].
    + intros x [Hne Hx]%lookup_delete_is_Some. apply Hm, elem_of_cons in Hx as [->|]; done.
    + split_and!; [|done|done]. etrans; [done|]. apply delete_subseteq.
  - split_and!; [done|done|lia].
Qed.

Lemma cache_insert_spec k v c :
  cache_inv c → cache_inv (cache_insert k v c) ∧ c_map (cache_insert k v c) ⊆ <[k := v]> (c_map c) ∧
  c_budget (cache_insert k v c) = c_budget c.
Proof.
  unfold cache_inv. intros (Hin & Hb & Hsz). unfold cache_insert. destruct (c_map c !! k) as [w|] eqn:Hk.
  - split_and!; try done; cbn [c_map c_order c_budget].
    + intros x Hx. apply Hin. apply lookup_insert_is_Some in Hx as [->|[_ Hx]]; [by rewrite Hk|done].
    + unfold cache_bytes, cache_len in *. cbn [c_map]. by rewrite map_size_insert_Some.
  - unfold evict_to_budget. cbn [c_map c_order c_budget c_hits c_misses].
    pose proof (evict_spec (<[k:=v]> (c_map c)) (c_order c ++ [k]) (c_budget c)) as He.
    destruct (evict _ _ _) as [m' order']. destruct He as (Hsub & Hin' & Hsz'); [|done|].
    + intros x [->|[_ Hx]]%lookup_insert_is_Some; apply elem_of_app; [by right; left|left; auto].
    + by split_and!.
Qed.

Lemma cache_remove_spec k c :
  cache_inv c → cache_inv (cache_remove k c).2 ∧ (cache_remove k c).1 = c_map c !! k ∧
  c_map (cache_remove k c).2 = delete k (c_map c) ∧ c_budget (cache_remove k c).2 = c_budget c.
Proof.
  unfold cache_inv. intros (Hin & Hb & Hsz). unfold cache_remove. destruct (c_map c !! k) as [w|] eqn:Hk; simpl.
  - split_and!; try done; cbn [c_map c_order c_budget].
    + intros x [_ Hx]%lookup_delete_is_Some. by apply Hin.
    + unfold cache_bytes, cache_len in *. cbn [c_map].
      rewrite map_size_delete_Some by (by rewrite Hk). unfold CACHE_ENTRY_COST in *. lia.
  - split_and!; try done. by rewrite delete_id.
Qed.

Lemma cache_insert_inv k v c : cache_inv c → cache_inv (cache_insert k v c).
Proof. intros Hc. by apply cache_insert_spec. Qed.

Lemma cache_remove_inv k c : cache_inv c → cache_inv (cache_remove k c).2.
Proof. intros Hc. by apply cache_remove_spec. Qed.

#[export] Hint Resolve cache_insert_inv cache_remove_inv : bidx.

(** A history of cache operations, and the same history on a plain map. *)
Inductive CacheOp : Type :=
  | CInsert (k : bytes) (v : UtxoValue)
  | CRemove (k : bytes).

Definition cache_op (c : RecentUtxoCache) (o : CacheOp) : RecentUtxoCache :=
  match o with CInsert k v => cache_insert k v c | CRemove k => (cache_remove k c).2 end.

Definition map_op (m : gmap bytes UtxoValue) (o : CacheOp) : gmap bytes UtxoValue :=
  match o with CInsert k v => <[k := v]> m | CRemove k => delete k m end.

Lemma cache_history ops c m :
  cache_inv c → c_map c ⊆ m →
  let c' := foldl cache_op c ops in
  cache_inv c' ∧ c_map c' ⊆ foldl map_op m ops ∧ c_budget c' = c_budget c.
Proof.
  revert c m. induction ops as [|[k v|k] ops IH]; intros c m Hc Hm; [by split_and!| |].
  - destruct (cache_insert_spec k v c Hc) as (Hc' & Hsub & Hb). simpl.
    destruct (IH (cache_insert k v c) (<[k:=v]> m)) as (? & ? & ?); [done| |split_and!; [done|done|congruence]].
    etrans; [done|]. by apply insert_mono.
  - destruct (cache_remove_spec k c Hc) as (Hc' & _ & Hdel & Hb). simpl.
    destruct (IH (cache_remove k c).2 (delete k m)) as (? & ? & ?); [done| |split_and!; [done|done|congruence]].
    rewrite Hdel. by apply delete_mono.
Qed.

(** ** Theorems *)

(** C34: Codec round trips of the store. A value and an undo record decode to
    themselves; a decoded value re-encodes to the bytes read; keys of distinct
    outpoints are distinct; and undo keys compare as heights do. *)
Theorem store_codecs_roundtrip (v : UtxoValue) (u : BlockUndo) (t1 t2 : bytes) (v1 v2 h1 h2 : Z)
    (Hv : utxo_wf v) (Hu : undo_wf u) (Ht1 : len t1 = 32) (Ht2 : len t2 = 32)
    (Hv1 : is_u32 v1) (Hv2 : is_u32 v2) (Hh1 : is_u32 h1) (Hh2 : is_u32 h2) :
  utxo_decode (utxo_encode v) = Some v ∧ undo_decode (undo_encode u) = Some u ∧
  (∀ b w, utxo_decode b = Some w → utxo_encode w = b) ∧
  (make_key t1 v1 = make_key t2 v2 ↔ t1 = t2 ∧ v1 = v2) ∧
  bytes_lt (undo_key h1) (undo_key h2) = (h1 <? h2).
Proof.
  split_and!.
  - by apply utxo_decode_encode.
  - by apply undo_decode_encode.
  - intros b w Hw. by apply utxo_encode_decode.
  - split; [by apply make_key_inj|by intros [-> ->]].
  - by apply (be_bytes_lt 4).
Qed.

(** C32: The recent-output cache. After any history of insertions and removals
    the bytes it accounts for are within the budget it was created with, and
    every entry it holds is the entry of the same history run on an unbounded
    map: eviction loses entries but never invents or keeps a stale one. *)
Theorem cache_bounded_and_sound (budget : Z) (ops : list CacheOp) (Hb : 0 ≤ budget) :
  let c := foldl cache_op (cache_new budget) ops in
  cache_bytes c ≤ budget ∧ c_budget c = budget ∧ c_map c ⊆ foldl map_op ∅ ops.
Proof.
  destruct (cache_history ops (cache_new budget) ∅) as ((_ & _ & Hsz) & Hsub & Hbud); [|done|].
  - split_and!; [|done|done]. intros k. cbn [c_map cache_new]. rewrite lookup_empty. by intros [].
  - rewrite Hbud in Hsz. by split_and!.
Qed.

(** The queue keeps the keys of spent outputs: with room in the budget it grows
    with every output ever created while the map stays empty. *)
Lemma cache_order_grows (ks : list bytes) (v : UtxoValue) (budget : Z) (Hb : CACHE_ENTRY_COST ≤ budget) :
  let c := foldl (λ c k, (cache_remove k (cache_insert k v c)).2) (cache_new budget) ks in
  c_map c = ∅ ∧ c_order c = ks.
Proof.
  assert (∀ c, c_map c = ∅ → c_budget c = budget →
    let c' := foldl (λ c k, (cache_remove k (cache_insert k v c)).2) c ks in
    c_map c' = ∅ ∧ c_order c' = c_order c ++ ks) as H; [|by apply H].
  induction ks as [|k ks IH]; intros c Hm Hc; simpl; [by rewrite app_nil_r|].
  assert ((cache_remove k (cache_insert k v c)).2 =
    mkCache ∅ (c_order c ++ [k]) budget (u64 (c_hits c + 1)) (c_misses c)) as ->.
  { unfold cache_insert, evict_to_budget. rewrite Hm, Hc, lookup_empty. cbn [c_map c_order c_budget].
    assert (evict (<[k:=v]> ∅) (c_order c ++ [k]) budget = (<[k:=v]> ∅, c_order c ++ [k])) as ->.
    { destruct (c_order c ++ [k]); cbn [evict]; rewrite map_size_insert_None, map_size_empty
        by apply lookup_empty; (case_match eqn:Hs; [|done]); unfold CACHE_ENTRY_COST in *; apply Z.ltb_lt in Hs; simpl in Hs; lia. }
    unfold cache_remove. cbn [c_map]. rewrite lookup_insert_eq. simpl. f_equal.
    apply delete_insert_id. apply lookup_empty. }
  pose proof (IH (mkCache ∅ (c_order c ++ [k]) budget (u64 (c_hits c + 1)) (c_misses c)) eq_refl eq_refl)
    as [IHm IHo]. split; [exact IHm|]. etrans; [exact IHo|]. cbn [c_order]. by rewrite <-app_assoc.
Qed.

Module Ex.
Definition value (n : Z) : UtxoValue := mkUtxo n x04 7 (zeros 32).
Definition key (n : Z) : bytes := make_key (le_bytes 32 n) 1.
Definition undo : BlockUndo := mkUndo [(key 1, value 5)] [key 2; key 3].
End Ex.

Lemma store_codecs_roundtrip_witness :
  utxo_decode (utxo_encode (Ex.value 5)) = Some (Ex.value 5) ∧
  undo_decode (undo_encode Ex.undo) = Some Ex.undo ∧
  bytes_lt (undo_key 255) (undo_key 256) = (255 <? 256).
Proof.
  edestruct (store_codecs_roundtrip (Ex.value 5) Ex.undo (zeros 32) (zeros 32) 0 1 255 256)
    as (? & ? & _ & _ & ?); [..|by split_and!];
    repeat (split_and! || constructor); by vm_compute.
Defined.

Lemma cache_bounded_and_sound_witness :
  let ops := [CInsert (Ex.key 1) (Ex.value 1); CInsert (Ex.key 2) (Ex.value 2);
              CRemove (Ex.key 1); CInsert (Ex.key 3) (Ex.value 3)] in
  cache_bytes (foldl cache_op (cache_new 150) ops) ≤ 150.
Proof. apply (cache_bounded_and_sound 150). lia. Defined.
