(* ===== verification/UtxoStore.v ===== *)
(** * UtxoStore: applying and disconnecting blocks, [bidx-store/src/utxo.rs]

    The database is the class [RocksDB]: reads and atomic batched writes over
    the column families, with the law that relates them to a finite map. *)
From S2P Require Import Prelude F64 Text Hash Types Utxo.

Inductive Cf : Type := CfDefault | CfUndo | CfMeta.

#[global] Instance Cf_eq_dec : EqDecision Cf.
Proof. solve_decision. Defined.
Definition cf_id (c : Cf) : nat := match c with CfDefault => 0 | CfUndo => 1 | CfMeta => 2 end.

#[global] Instance Cf_countable : Countable Cf :=
  inj_countable cf_id (λ n, match n with 0 => Some CfDefault | 1 => Some CfUndo | _ => Some CfMeta end)%nat
    (λ c, match c with CfDefault | CfUndo | CfMeta => eq_refl end).

(** A [WriteBatch] is the list of its operations, applied in order. *)
Inductive BatchOp : Type :=
  | Put (cf : Cf) (k v : bytes)
  | Delete (cf : Cf) (k : bytes).

Abbreviation View := (gmap (Cf * bytes) bytes).

Definition batch_op (m : View) (o : BatchOp) : View :=
  match o with Put cf k v => <[(cf, k) := v]> m | Delete cf k => delete (cf, k) m end.

Definition batch_apply (m : View) (b : list BatchOp) : View := foldl batch_op m b.

(** [WriteOptions]: [set_sync(true)], [disable_wal(true)], or the default. *)
Inductive WriteOptions : Type := SetSync | DisableWal.

(** ** Options

    A setter of [rocksdb::Options] fixes a field; the crate's own default is
    [None]. A block cache is an object: its identity is [lc_id]. *)
Inductive Compression : Type := Lz4 | Zstd.

Record LruCache : Type := mkLru { lc_id : nat; lc_capacity : Z }.

Record BlockBasedOptions : Type := mkBlockOpts {
  bo_cache : option LruCache; bo_cache_index_and_filter : option bool; bo_pin_l0 : option bool;
  bo_bloom_bits : option Z; bo_bloom_block_based : option bool; bo_whole_key_filtering : option bool }.

Definition block_opts_default : BlockBasedOptions := mkBlockOpts None None None None None None.

Record DbOptions : Type := mkDbOptions {
  do_create_if_missing : option bool; do_create_missing_cfs : option bool; do_write_buffer_size : option Z;
  do_max_write_buffer_number : option Z; do_target_file_size_base : option Z; do_l0_compaction : option Z;
  do_l0_slowdown : option Z; do_l0_stop : option Z; do_max_background_jobs : option Z; do_parallelism : option Z;
  do_compression : option Compression; do_bottommost : option Compression; do_table : option BlockBasedOptions;
  do_statistics : bool; do_stats_dump_period : option Z }.

Definition db_options_default : DbOptions :=
  mkDbOptions None None None None None None None None None None None None None false None.

(** [Cache::new_lru_cache]: a new object each time; the state is the next identity. *)
Definition new_lru_cache {E} (capacity : Z) : M nat E LruCache := λ next, (Ok (mkLru next capacity), S next).

Definition BLOCK_CACHE_BYTES : Z := Z.shiftl 1 30.

Definition tuned_options {E} (statistics : bool) : M nat E DbOptions :=
  cache ← new_lru_cache BLOCK_CACHE_BYTES;
  let block_opts := mkBlockOpts (Some cache) (Some true) (Some true) (Some 10) (Some false) (Some true) in
  mret (mkDbOptions (Some true) (Some true) (Some (Z.shiftl 512 20)) (Some 4) (Some (Z.shiftl 256 20)) (Some 8) (Some 20)
    (Some 30) (Some 8) (Some 8) (Some Lz4) (Some Zstd) (Some block_opts) statistics
    (if statistics then Some 0 else None)).

(** The families of the undo records and of the tip. *)
Definition aux_options {E} : M nat E DbOptions :=
  cache ← new_lru_cache BLOCK_CACHE_BYTES;
  mret (mkDbOptions None None None None None None None None None None (Some Lz4) None
    (Some (mkBlockOpts (Some cache) None None None None None)) false None).

(** The options of the database and of each family, as [open_with] makes them. *)
Definition open_options {E} (statistics : bool) : M nat E (DbOptions * list (Cf * DbOptions)) :=
  opts ← tuned_options statistics;
  utxo_cf_opts ← tuned_options statistics;
  aux_cf_opts ← aux_options;
  mret (opts, [(CfDefault, utxo_cf_opts); (CfUndo, aux_cf_opts); (CfMeta, aux_cf_opts)]).

(** ** The database *)

(** [rocksdb::properties], as far as they are asked for. *)
Inductive PropName : Type :=
  | CUR_SIZE_ALL_MEM_TABLES | SIZE_ALL_MEM_TABLES | CUR_SIZE_ACTIVE_MEM_TABLE | NUM_IMMUTABLE_MEM_TABLE
  | MEM_TABLE_FLUSH_PENDING | NUM_RUNNING_FLUSHES | COMPACTION_PENDING | NUM_RUNNING_COMPACTIONS
  | IS_WRITE_STOPPED | ACTUAL_DELAYED_WRITE_RATE | ESTIMATE_NUM_KEYS | ESTIMATE_LIVE_DATA_SIZE
  | TOTAL_SST_FILES_SIZE | BLOCK_CACHE_CAPACITY | BLOCK_CACHE_USAGE | num_files_at_level (n : Z) | STATS.

(** The [rocksdb] crate: [DB::open_cf_descriptors], [get_cf] and [get_pinned],
    [write_opt], [flush], [property_value]. A read returns the content; a write
    applies its batch, or fails and changes nothing. The first argument of
    [db_open] is the database that this process closed in the directory, if any:
    opening it again finds what it held. *)
Class RocksDB := {
  DB : Type;
  RocksError : Type;
  db_open : option DB → DbOptions → rstr → list (Cf * DbOptions) → Res RocksError DB;
  db_get : DB → Cf → bytes → Res RocksError (option bytes);
  db_write : DB → list BatchOp → WriteOptions → Res RocksError () * DB;
  db_flush : DB → Res RocksError () * DB;
  db_property : DB → PropName → RocksError + option rstr;
  db_view : DB → View;
  db_open_again : ∀ d opts path cfs d', db_open (Some d) opts path cfs = Ok d' → db_view d' = db_view d;
  db_get_ok : ∀ d cf k r, db_get d cf k = Ok r → r = db_view d !! (cf, k);
  db_write_ok : ∀ d b wo d', db_write d b wo = (Ok (), d') → db_view d' = batch_apply (db_view d) b;
  db_write_err : ∀ d b wo e d', db_write d b wo = (Err e, d') → db_view d' = db_view d;
  db_get_no_panic : ∀ d cf k, db_get d cf k ≠ Panic;
  db_write_no_panic : ∀ d b wo, fst (db_write d b wo) ≠ Panic
}.

(** [Instant::now] and [elapsed] around the lookup of a key. *)
Class Clock := { lookup_nanos : bytes → Z }.

Inductive UtxoError `{RocksDB} : Type :=
  | Rocks (e : RocksError)
  | NoUndo (height : Z)
  | CorruptUndo (height : Z)
  | NoTip.

Definition META_TIP_KEY : bytes := [x74; x69; x70].

Record TipState : Type := mkTip { tip_h : Z; tip_hash : Hash32 }.

Record SpendResult : Type := mkSpendResult {
  spends : list SpendRow; fees : list Z; missing : Z; db_lookups : Z; db_nanos : Z;
  pending_hits : Z; cache_hits : Z }.

Section store.
Context `{RocksDB} `{Clock} `{HashOrder}.

Record UtxoStore : Type := mkStore {
  db : DB; store_path : rstr; pending : gmap bytes UtxoValue; recent : option RecentUtxoCache;
  undo_enabled : bool; statistics : bool }.

(** WAL is always on: [disable_wal] is an option of each write. [left] is what
    this process closed in the directory. *)
Definition open_with (left : option DB) (path : rstr) (wal undo_enabled statistics : bool) : Res UtxoError UtxoStore :=
  o ← fst (open_options statistics 0%nat);
  db ← map_err Rocks (db_open left o.1 path o.2);
  mret (mkStore db path ∅ None undo_enabled statistics).

Definition store_open (left : option DB) (path : rstr) : Res UtxoError UtxoStore := open_with left path false false false.

Definition open_live (left : option DB) (path : rstr) : Res UtxoError UtxoStore := open_with left path true true false.

Definition open_statistics (left : option DB) (path : rstr) : Res UtxoError UtxoStore :=
  open_with left path false false true.

Definition set_recent (c : option RecentUtxoCache) (s : UtxoStore) : UtxoStore :=
  mkStore (db s) (store_path s) (pending s) c (undo_enabled s) (statistics s).

Definition set_db (d : DB) (s : UtxoStore) : UtxoStore :=
  mkStore d (store_path s) (pending s) (recent s) (undo_enabled s) (statistics s).

Definition open_cached (left : option DB) (path : rstr) (cache_bytes : Z) : Res UtxoError UtxoStore :=
  store ← open_with left path false false false;
  mret (set_recent (Some (cache_new cache_bytes)) store).

Definition open_cached_statistics (left : option DB) (path : rstr) (cache_bytes : Z) : Res UtxoError UtxoStore :=
  store ← open_with left path false false true;
  mret (set_recent (Some (cache_new cache_bytes)) store).

(** What the input loop of [apply_block] mutates. *)
Record Applying : Type := mkApplying {
  p_pending : gmap bytes UtxoValue; p_recent : option RecentUtxoCache; p_batch : list BatchOp;
  p_spends : list SpendRow; p_fees : list Z; p_missing : Z;
  p_undo_spent : list (bytes * UtxoValue); p_same_block : gset bytes;
  p_db_lookups : Z; p_db_nanos : Z; p_pending_hits : Z; p_cache_hits : Z }.

Definition spend_row (height : Z) (inp : InputRow) (v : UtxoValue) : SpendRow :=
  mkSpendRow height (ir_tx_index inp) (ir_input_index inp) (ir_txid inp) (ir_prev_txid inp)
    (ir_prev_vout inp) (uv_value_sat v) (byteZ (uv_script_type v)) (uv_address_hash v) (uv_height v).

(** [record_spend]: the new [spends] and [fees]; indexing [fees] may panic. *)
Definition record_spend (sp : list SpendRow) (fs : list Z) (height : Z) (inp : InputRow)
    (v : UtxoValue) : Res UtxoError (list SpendRow * list Z) :=
  let sp := sp ++ [spend_row height inp v] in
  f ← index fs (ir_tx_index inp);
  mret (sp, <[Z.to_nat (ir_tx_index inp) := sat_add f (uv_value_sat v)]> fs).

(** One round of the input loop. An error leaves the state it interrupted. *)
Definition apply_input (d : DB) (undo : bool) (height : Z) (inp : InputRow) : M Applying UtxoError () :=
  if ir_is_coinbase inp then mret ()
  else
    s ← m_get;
    let key := make_key (ir_prev_txid inp) (ir_prev_vout inp) in
    match p_pending s !! key with
    | Some v =>
      r ← m_lift (record_spend (p_spends s) (p_fees s) height inp v);
      m_put (mkApplying (delete key (p_pending s)) (p_recent s) (p_batch s) r.1 r.2 (p_missing s)
        (p_undo_spent s) (if undo then {[key]} ∪ p_same_block s else p_same_block s)
        (p_db_lookups s) (p_db_nanos s) (u64 (p_pending_hits s + 1)) (p_cache_hits s))
    | None =>
      let hit := match p_recent s with
                 | Some c => let '(v, c) := cache_remove key c in (v, Some c)
                 | None => (None, None)
                 end in
      match hit with
      | (Some v, rc) =>
        r ← m_lift (record_spend (p_spends s) (p_fees s) height inp v);
        m_put (mkApplying (p_pending s) rc (p_batch s ++ [Delete CfDefault key]) r.1 r.2
          (p_missing s) (p_undo_spent s) (p_same_block s) (p_db_lookups s) (p_db_nanos s)
          (p_pending_hits s) (u64 (p_cache_hits s + 1)))
      | (None, rc) =>
        let lookups := u64 (p_db_lookups s + 1) in
        let nanos := u64 (p_db_nanos s + lookup_nanos key) in
        let not_found := mkApplying (p_pending s) rc (p_batch s) (p_spends s) (p_fees s)
          (u64 (p_missing s + 1)) (p_undo_spent s) (p_same_block s) lookups nanos
          (p_pending_hits s) (p_cache_hits s) in
        _ ← m_put (mkApplying (p_pending s) rc (p_batch s) (p_spends s) (p_fees s) (p_missing s)
          (p_undo_spent s) (p_same_block s) lookups nanos (p_pending_hits s) (p_cache_hits s));
        got ← m_lift (map_err Rocks (db_get d CfDefault key));
        match got with
        | Some raw =>
          match utxo_decode raw with
          | Some v =>
            r ← m_lift (record_spend (p_spends s) (p_fees s) height inp v);
            m_put (mkApplying (p_pending s) rc (p_batch s ++ [Delete CfDefault key]) r.1 r.2
              (p_missing s) (if undo then p_undo_spent s ++ [(key, v)] else p_undo_spent s)
              (p_same_block s) lookups nanos (p_pending_hits s) (p_cache_hits s))
          | None => m_put not_found
          end
        | None => m_put not_found
        end
      end
    end.

Fixpoint apply_inputs (d : DB) (undo : bool) (height : Z) (inputs : list InputRow)
    : M Applying UtxoError () :=
  match inputs with
  | [] => mret ()
  | inp :: inputs => _ ← apply_input d undo height inp; apply_inputs d undo height inputs
  end.

Definition output_key (out : OutputRow) : bytes := make_key (or_txid out) (or_output_index out).

Definition output_value (height : Z) (out : OutputRow) : UtxoValue :=
  mkUtxo (or_value_sat out) (Zbyte (or_script_type out)) height (or_address_hash out).

(** The first loop: [pending] and [undo.created]. *)
Definition seed_pending (height : Z) (outputs : list OutputRow) : gmap bytes UtxoValue :=
  foldl (λ p out, <[output_key out := output_value height out]> p) ∅ outputs.

(** [fees[out.tx_index].saturating_sub(..)] over the outputs. *)
Fixpoint subtract_outputs (outputs : list OutputRow) (fs : list Z) : Res UtxoError (list Z) :=
  match outputs with
  | [] => mret fs
  | out :: outputs =>
    f ← index fs (or_tx_index out);
    subtract_outputs outputs (<[Z.to_nat (or_tx_index out) := sat_sub f (or_value_sat out)]> fs)
  end.

Definition put_entries (p : gmap bytes UtxoValue) : list BatchOp :=
  (λ e, Put CfDefault e.1 (utxo_encode e.2)) <$> map_iter p.

Definition publish (p : gmap bytes UtxoValue) (c : RecentUtxoCache) : RecentUtxoCache :=
  foldl (λ c e, cache_insert e.1 e.2 c) c (map_iter p).

Definition apply_block (height : Z) (txs : list TxRow) (inputs : list InputRow)
    (outputs : list OutputRow) : M UtxoStore UtxoError SpendResult := λ s,
  let seeded := seed_pending height outputs in
  let created := if undo_enabled s then output_key <$> outputs else [] in
  let start := mkApplying seeded (recent s) [] [] (replicate (length txs) 0) 0 [] ∅ 0 0 0 0 in
  let '(r, a) := apply_inputs (db s) (undo_enabled s) height inputs start in
  let with_state pend rc d := mkStore d (store_path s) pend rc (undo_enabled s) (statistics s) in
  match r with
  | Err e => (Err e, with_state (p_pending a) (p_recent a) (db s))
  | Panic => (Panic, with_state (p_pending a) (p_recent a) (db s))
  | Ok _ =>
    let rc := publish (p_pending a) <$> p_recent a in
    let created :=
      if undo_enabled s && negb (bool_decide (p_same_block a = ∅))
      then filter (λ k, k ∉ p_same_block a) created else created in
    match subtract_outputs outputs (p_fees a) with
    | Ok fs =>
      let batch := p_batch a ++ put_entries (p_pending a) in
      let batch :=
        if undo_enabled s
        then batch ++ [Put CfUndo (undo_key height) (undo_encode (mkUndo (p_undo_spent a) created))]
        else batch in
      let wo := if undo_enabled s then SetSync else DisableWal in
      let '(w, d) := db_write (db s) batch wo in
      (match w with
       | Ok _ => Ok (mkSpendResult (p_spends a) fs (p_missing a) (p_db_lookups a) (p_db_nanos a)
                       (p_pending_hits a) (p_cache_hits a))
       | Err e => Err (Rocks e)
       | Panic => Panic
       end, with_state ∅ rc d)
    | Err e => (Err e, with_state (p_pending a) rc (db s))
    | Panic => (Panic, with_state (p_pending a) rc (db s))
    end
  end.

Definition store_write (batch : list BatchOp) (wo : WriteOptions) : M UtxoStore UtxoError () := λ s,
  let '(r, d) := db_write (db s) batch wo in (map_err Rocks r, set_db d s).

Definition disconnect_block (height : Z) : M UtxoStore UtxoError () :=
  s ← m_get;
  raw ← m_lift (map_err Rocks (db_get (db s) CfUndo (undo_key height)));
  raw ← m_lift (ok_or (NoUndo height) raw);
  undo ← m_lift (ok_or (CorruptUndo height) (undo_decode raw));
  let restored := (λ e : bytes * UtxoValue, Put CfDefault e.1 (utxo_encode e.2)) <$> bu_spent undo in
  let removed := Delete CfDefault <$> bu_created undo in
  store_write (restored ++ removed ++ [Delete CfUndo (undo_key height)]) SetSync.

Definition set_tip (tip : TipState) : M UtxoStore UtxoError () :=
  store_write [Put CfMeta META_TIP_KEY (le_bytes 4 (tip_h tip) ++ tip_hash tip)] SetSync.

Definition tip (s : UtxoStore) : Res UtxoError (option TipState) :=
  r ← map_err Rocks (db_get (db s) CfMeta META_TIP_KEY);
  mret (match r with
        | Some b =>
          if len b =? 36 then Some (mkTip (le_val (slice 0 4 b)) (slice 4 36 b)) else None
        | None => None
        end).

Definition cache_stats (s : UtxoStore) : option CacheStats :=
  c ← recent s;
  Some (mkCacheStats (cache_len c) (cache_bytes c) (c_budget c) (c_hits c) (c_misses c)).

Definition flush : M UtxoStore UtxoError () := λ s,
  let '(r, d) := db_flush (db s) in (map_err Rocks r, set_db d s).

Definition statistics_enabled (s : UtxoStore) : bool := statistics s.

Definition path_of (s : UtxoStore) : rstr := store_path s.

(** An opened store is a database under the options, and empty caches. *)
Lemma open_with_ok left path wal undo stats s :
  open_with left path wal undo stats = Ok s →
  ∃ opts d cfs, db_open left opts path cfs = Ok d ∧ s = mkStore d path ∅ None undo stats.
Proof.
  unfold open_with. destruct (fst (open_options stats 0%nat)) as [o|e|]; [|done..]. cbn.
  destruct (db_open _ _ _ _) as [d|e|] eqn:Hd; [|done..]. intros [= <-]. by exists o.1, d, o.2.
Qed.
End store.

(** The comment on the cache's capacity says that every family shares it: the
    outputs have one of their own, and only the undo records and the tip share
    another; a third is made for the database's own options, which no family uses. *)
Lemma caches_of_families stats :
  match fst (@open_options () stats 0%nat) with
  | Ok (opts, cfs) =>
    (λ o : DbOptions, lc_id <$> (do_table o ≫= bo_cache)) <$> opts :: cfs.*2 = [Some 0; Some 1; Some 2; Some 2]%nat
  | _ => False
  end.
Proof. by destruct stats. Qed.

(** ** A concrete database: the map itself, which never fails *)

Program Definition rocks_ref : RocksDB := {|
  DB := View; RocksError := (); db_open left _ _ _ := Ok (default ∅ left);
  db_get d cf k := Ok (d !! (cf, k)); db_write d b _ := (Ok (), batch_apply d b);
  db_flush d := (Ok (), d); db_property _ _ := inr None; db_view d := d |}.
Solve All Obligations with naive_solver.

Definition clock_ref : Clock := {| lookup_nanos _ := 5 |}.
