(* ===== verification/UtxoSpec.v ===== *)
(** * UtxoSpec: what the UTXO store promises

    The abstract UTXO set, the effect of a block on it, and the proofs that
    [apply_block] implements that effect with and without the cache, and that
    [disconnect_block] reverses it. *)
From S2P Require Import Prelude F64 Text Hash Types Utxo UtxoStore.

(** ** Specification *)

(** The UTXO set a database holds. *)
Definition utxos (m : View) (k : bytes) : option UtxoValue := m !! (CfDefault, k) ≫= utxo_decode.

(** The progress of a block over a set [U]: the outputs of the block not yet
    spent, the outputs of [U] spent, the inputs resolved with the output each
    spends, how many were not found, the outpoints created and spent in the
    block, and how many inputs were considered. *)
Record Effect : Type := mkEffect {
  e_new : gmap bytes UtxoValue; e_spent : list (bytes * UtxoValue);
  e_resolved : list (InputRow * UtxoValue); e_missing : Z; e_same : gset bytes; e_seen : Z }.

Definition input_key (inp : InputRow) : bytes := make_key (ir_prev_txid inp) (ir_prev_vout inp).

Definition effect_input (U : bytes → option UtxoValue) (e : Effect) (inp : InputRow) : Effect :=
  if ir_is_coinbase inp then e
  else
    let k := input_key inp in
    match e_new e !! k with
    | Some v => mkEffect (delete k (e_new e)) (e_spent e) (e_resolved e ++ [(inp, v)])
                  (e_missing e) ({[k]} ∪ e_same e) (e_seen e + 1)
    | None =>
      match U k with
      | Some v => mkEffect (e_new e) (e_spent e ++ [(k, v)]) (e_resolved e ++ [(inp, v)])
                    (e_missing e) (e_same e) (e_seen e + 1)
      | None => mkEffect (e_new e) (e_spent e) (e_resolved e) (e_missing e + 1) (e_same e)
                  (e_seen e + 1)
      end
    end.

Definition block_effect (U : bytes → option UtxoValue) (height : Z) (inputs : list InputRow)
    (outputs : list OutputRow) : Effect :=
  foldl (effect_input U) (mkEffect (seed_pending height outputs) [] [] 0 ∅ 0) inputs.

(** The set after the block. *)
Definition after (U : bytes → option UtxoValue) (e : Effect) (k : bytes) : option UtxoValue :=
  match e_new e !! k with
  | Some v => Some v
  | None => if decide (k ∈ (e_spent e).*1) then None else U k
  end.

(** The fee of transaction [t]: what its resolved inputs are worth, at most
    [u64::MAX], less its outputs, at least zero. *)
Definition fee_of (e : Effect) (outputs : list OutputRow) (t : Z) : Z :=
  Z.max 0 (Z.min u64_max (zsum (λ r : InputRow * UtxoValue,
                            if ir_tx_index r.1 =? t then uv_value_sat r.2 else 0) (e_resolved e))
           - zsum (λ o, if or_tx_index o =? t then or_value_sat o else 0) outputs).

Definition output_wf (o : OutputRow) : Prop :=
  is_u64 (or_value_sat o) ∧ 0 ≤ or_script_type o < 256 ∧ len (or_address_hash o) = 32 ∧
  len (or_txid o) = 32.

(** Rows as the block parser produces them, for a block of [n] transactions. *)
Definition rows_wf (n : nat) (inputs : list InputRow) (outputs : list OutputRow) : Prop :=
  Forall (λ i, 0 ≤ ir_tx_index i < Z.of_nat n ∧ len (ir_prev_txid i) = 32) inputs ∧
  Forall (λ o, 0 ≤ or_tx_index o < Z.of_nat n ∧ output_wf o) outputs ∧
  len inputs < 2 ^ 63 ∧ len outputs < 2 ^ 63.

(** Project the records of the loop state and of the effect. *)
Ltac carries_cbn :=
  cbn [p_pending p_recent p_batch p_spends p_fees p_missing
    p_undo_spent p_same_block p_db_lookups p_pending_hits p_cache_hits e_new e_spent e_resolved
    e_missing e_same e_seen fst snd].

Section store.
Context `{RocksDB} `{Clock} `{HashOrder}.

(** A cache tells the truth about the set. *)
Definition coherent (U : bytes → option UtxoValue) (rc : option RecentUtxoCache) : Prop :=
  match rc with
  | Some c => cache_inv c ∧ ∀ k v, c_map c !! k = Some v → U k = Some v
  | None => True
  end.

(** The invariant of a store: live mode has no cache, and a cache is coherent. *)
Definition store_inv (s : UtxoStore) : Prop :=
  (undo_enabled s = true → recent s = None) ∧ coherent (utxos (db_view (db s))) (recent s).

(** ** Lemmas: batches *)

Lemma batch_apply_app m b1 b2 : batch_apply m (b1 ++ b2) = batch_apply (batch_apply m b1) b2.
Proof. apply foldl_app. Qed.

Lemma batch_deletes m ks cf k :
  batch_apply m (Delete CfDefault <$> ks) !! (cf, k) =
    if decide (cf = CfDefault ∧ k ∈ ks) then None else m !! (cf, k).
Proof.
  revert m. induction ks as [|x ks IH]; intros m; simpl.
  { rewrite decide_False; [done|]. intros [_ Hk]. by apply not_elem_of_nil in Hk. }
  unfold batch_apply in *. rewrite IH. destruct (decide (cf = CfDefault ∧ k ∈ ks)) as [Hk|Hk].
  { rewrite decide_True; [done|]. split; [naive_solver|]. right. naive_solver. }
  simpl. destruct (decide ((cf, k) = (CfDefault, x))) as [[= -> ->]|Hne].
  - rewrite decide_True by (split; [done|left]). by rewrite lookup_delete_eq.
  - rewrite lookup_delete_ne by done. rewrite decide_False; [done|].
    intros [-> Hin]. apply elem_of_cons in Hin as [->|Hin]; naive_solver.
Qed.

Lemma batch_puts m (es : list (bytes * UtxoValue)) cf k :
  NoDup es.*1 →
  batch_apply m ((λ e, Put CfDefault e.1 (utxo_encode e.2)) <$> es) !! (cf, k) =
    match list_to_map (M := gmap bytes UtxoValue) es !! k with
    | Some v => if decide (cf = CfDefault) then Some (utxo_encode v) else m !! (cf, k)
    | None => m !! (cf, k)
    end.
Proof.
  revert m. induction es as [|[x v] es IH]; intros m Hnd; [done|].
  apply NoDup_cons in Hnd as [Hx Hnd]. cbn [fst] in Hx. unfold batch_apply in *. simpl.
  rewrite IH by done. simpl. destruct (decide (x = k)) as [->|Hne].
  - rewrite lookup_insert_eq. apply not_elem_of_list_to_map in Hx. rewrite Hx.
    case_decide as Hc; [subst; by rewrite lookup_insert_eq|]. rewrite lookup_insert_ne; [done|]. congruence.
  - rewrite (lookup_insert_ne (list_to_map es)) by done.
    rewrite lookup_insert_ne by congruence. done.
Qed.

Lemma nodup_map_iter {A} (m : gmap bytes A) : NoDup (map_iter m).*1.
Proof. rewrite map_iter_perm. apply NoDup_fst_map_to_list. Qed.

Lemma list_to_map_iter {A} (m : gmap bytes A) : list_to_map (map_iter m) = m.
Proof.
  rewrite <-(list_to_map_to_list m) at 2. apply list_to_map_proper.
  - apply nodup_map_iter.
  - apply map_iter_perm.
Qed.

Lemma batch_put_entries m p cf k :
  batch_apply m (put_entries p) !! (cf, k) =
    match p !! k with
    | Some v => if decide (cf = CfDefault) then Some (utxo_encode v) else m !! (cf, k)
    | None => m !! (cf, k)
    end.
Proof. unfold put_entries. rewrite batch_puts, list_to_map_iter; [done|apply nodup_map_iter]. Qed.

(** ** Lemmas: fees *)

Definition add_fee (fs : list Z) (r : InputRow * UtxoValue) : list Z :=
  alter (λ f, sat_add f (uv_value_sat r.2)) (Z.to_nat (ir_tx_index r.1)) fs.

Lemma record_spend_ok sp fs h inp v :
  0 ≤ ir_tx_index inp < len fs →
  record_spend sp fs h inp v = Ok (sp ++ [spend_row h inp v], add_fee fs (inp, v)).
Proof.
  intros Hi. unfold record_spend, index, add_fee.
  destruct (lookup_lt_is_Some_2 fs (Z.to_nat (ir_tx_index inp))) as [f Hf]; [unfold len in Hi; lia|].
  rewrite Hf. cbn [fst snd]. m_unfold. f_equal. f_equal. apply list_eq. intros i.
  rewrite list_lookup_alter. destruct (decide (Z.to_nat (ir_tx_index inp) = i)) as [<-|Hne].
  - rewrite Hf. apply list_lookup_insert_eq. by eapply lookup_lt_Some.
  - by apply list_lookup_insert_ne.
Qed.

Lemma length_add_fee fs r : length (add_fee fs r) = length fs.
Proof. apply length_alter. Qed.

(** Saturating additions saturate the sum. *)
Lemma add_fees_lookup rs fs t f :
  (∀ r, r ∈ rs → 0 ≤ ir_tx_index r.1 ∧ 0 ≤ uv_value_sat r.2) →
  fs !! t = Some f → 0 ≤ f ≤ u64_max →
  foldl add_fee fs rs !! t =
    Some (Z.min u64_max (f + zsum (λ r : InputRow * UtxoValue,
            if ir_tx_index r.1 =? Z.of_nat t then uv_value_sat r.2 else 0) rs)).
Proof.
  revert fs f. induction rs as [|[i v] rs IH]; intros fs f Hrs Hf Hb; simpl.
  { rewrite Hf. f_equal. lia. }
  destruct (Hrs (i, v)) as [Hi Hv]; [by left|]. cbn [fst snd] in *.
  assert (∀ r, r ∈ rs → 0 ≤ ir_tx_index r.1 ∧ 0 ≤ uv_value_sat r.2) as Hrs'
    by (intros; apply Hrs; by right).
  assert (0 ≤ zsum (λ r : InputRow * UtxoValue,
            if ir_tx_index r.1 =? Z.of_nat t then uv_value_sat r.2 else 0) rs).
  { apply zsum_nonneg. intros r Hr. apply Hrs' in Hr as [_ Hr]. case_match; lia. }
  destruct (ir_tx_index i =? Z.of_nat t) eqn:He.
  - rewrite (IH (add_fee fs (i, v)) (sat_add f (uv_value_sat v))).
    + f_equal. unfold sat_add. lia.
    + done.
    + unfold add_fee. cbn [fst snd]. replace (Z.to_nat (ir_tx_index i)) with t by lia.
      by rewrite list_lookup_alter_eq, Hf.
    + unfold sat_add. lia.
  - rewrite (IH (add_fee fs (i, v)) f); [f_equal; lia|done| |done].
    unfold add_fee. cbn [fst snd]. rewrite list_lookup_alter_ne by lia. done.
Qed.

Lemma subtract_outputs_spec outs fs :
  Forall (λ o, 0 ≤ or_tx_index o < len fs ∧ 0 ≤ or_value_sat o) outs →
  ∃ fs', subtract_outputs outs fs = Ok fs' ∧ length fs' = length fs ∧
    ∀ t f, fs !! t = Some f → 0 ≤ f →
      fs' !! t = Some (Z.max 0 (f - zsum (λ o, if or_tx_index o =? Z.of_nat t then or_value_sat o else 0) outs)).
Proof.
  intros Ho. revert fs Ho. induction outs as [|o outs IH]; intros fs Ho; simpl.
  { exists fs. split_and!; try done. intros t f -> Hf. f_equal. lia. }
  apply Forall_cons in Ho as [[Hi Hv] Ho].
  destruct (lookup_lt_is_Some_2 fs (Z.to_nat (or_tx_index o))) as [g Hg]; [unfold len in Hi; lia|].
  unfold index. rewrite Hg. m_unfold.
  destruct (IH (<[Z.to_nat (or_tx_index o):=sat_sub g (or_value_sat o)]> fs)) as (fs' & Hfs' & Hl & Hfee).
  { unfold len. by rewrite length_insert. }
  exists fs'. rewrite length_insert in Hl. split_and!; [done|done|]. intros t f Hf Hf0.
  assert (0 ≤ zsum (λ o, if or_tx_index o =? Z.of_nat t then or_value_sat o else 0) outs).
  { apply zsum_nonneg. intros x Hx. rewrite Forall_forall in Ho. apply Ho in Hx as [_ Hx]. case_match; lia. }
  destruct (or_tx_index o =? Z.of_nat t) eqn:He.
  - replace (Z.to_nat (or_tx_index o)) with t in * by lia. assert (g = f) as -> by congruence.
    rewrite (Hfee t (sat_sub f (or_value_sat o))).
    + f_equal. unfold sat_sub. lia.
    + apply list_lookup_insert_eq. by eapply lookup_lt_Some.
    + unfold sat_sub. lia.
  - rewrite (Hfee t f); [f_equal; lia| |done]. rewrite list_lookup_insert_ne; [done|lia].
Qed.

(** ** Lemmas: the input loop *)

(** The loop state [a] carries the effect [e] on a block of [n] transactions. *)
Definition carries (U : bytes → option UtxoValue) (undo : bool) (height : Z) (n : nat)
    (a : Applying) (e : Effect) : Prop :=
  p_pending a = e_new e ∧ p_batch a = Delete CfDefault <$> (e_spent e).*1 ∧
  p_spends a = (λ r, spend_row height r.1 r.2) <$> e_resolved e ∧
  p_fees a = foldl add_fee (replicate n 0) (e_resolved e) ∧
  p_missing a = e_missing e ∧
  (undo = true → p_undo_spent a = e_spent e ∧ p_same_block a = e_same e ∧ p_recent a = None) ∧
  coherent U (p_recent a) ∧
  (∀ c k, p_recent a = Some c → k ∈ (e_spent e).*1 → c_map c !! k = None) ∧
  p_pending_hits a + p_cache_hits a + p_db_lookups a = e_seen e ∧
  e_missing e + len (e_resolved e) = e_seen e ∧
  0 ≤ p_pending_hits a ∧ 0 ≤ p_cache_hits a ∧ 0 ≤ p_db_lookups a ∧ 0 ≤ e_missing e.

Lemma length_add_fees rs fs : length (foldl add_fee fs rs) = length fs.
Proof. revert fs. induction rs as [|r rs IH]; intros fs; [done|]. simpl. by rewrite IH, length_add_fee. Qed.

Lemma effect_seen U e inps : e_seen e ≤ e_seen (foldl (effect_input U) e inps) ≤ e_seen e + len inps.
Proof.
  revert e. induction inps as [|i inps IH]; intros e; simpl.
  { pose proof (len_nonneg (@nil InputRow)). rewrite len_nil in *. lia. }
  rewrite len_cons. specialize (IH (effect_input U e i)).
  unfold effect_input in *. repeat case_match; simpl in *; lia.
Qed.

(** What the cache answers for a key, and the cache after it. *)
Definition cache_lookup (rc : option RecentUtxoCache) (k : bytes)
    : option UtxoValue * option RecentUtxoCache :=
  match rc with
  | Some c => let '(v, c) := cache_remove k c in (v, Some c)
  | None => (None, None)
  end.

Lemma cache_lookup_spec U rc k :
  coherent U rc →
  let '(hit, rc') := cache_lookup rc k in
  coherent U rc' ∧ (rc = None → rc' = None) ∧ (∀ v, hit = Some v → U k = Some v ∧ rc ≠ None) ∧
  (∀ c', rc' = Some c' → c_map c' !! k = None ∧
     ∃ c, rc = Some c ∧ ∀ x, c_map c !! x = None → c_map c' !! x = None).
Proof.
  destruct rc as [c|]; simpl; [|naive_solver]. intros [Hinv Hco].
  destruct (cache_remove_spec k c Hinv) as (Hinv' & Hhit & Hmap & _).
  destruct (cache_remove k c) as [hit c']. simpl in *. rewrite Hmap.
  split_and!; try done.
  - intros x v [_ Hx]%lookup_delete_Some. by apply Hco.
  - intros v ->. split; [|done]. by apply Hco.
  - intros c2 [= <-]. rewrite Hmap. split; [apply lookup_delete_eq|]. exists c. split; [done|].
    intros x Hx. apply lookup_delete_None. by right.
Qed.

(** The output is one of this block's. *)
Lemma carries_pending U undo height n a e inp k v :
  carries U undo height n a e → e_seen e < 2 ^ 64 - 1 → e_new e !! k = Some v →
  carries U undo height n
    (mkApplying (delete k (e_new e)) (p_recent a) (p_batch a)
       (p_spends a ++ [spend_row height inp v]) (add_fee (p_fees a) (inp, v)) (p_missing a)
       (p_undo_spent a) (if undo then {[k]} ∪ p_same_block a else p_same_block a)
       (p_db_lookups a) (p_db_nanos a) (u64 (p_pending_hits a + 1)) (p_cache_hits a))
    (mkEffect (delete k (e_new e)) (e_spent e) (e_resolved e ++ [(inp, v)]) (e_missing e)
       ({[k]} ∪ e_same e) (e_seen e + 1)).
Proof.
  intros (Hp & Hb & Hs & Hf & Hm & Hu & Hco & Hsp & Hn1 & Hn2 & Hn3 & Hn4 & Hn5 & Hn6) Hseen Hk.
  unfold carries; carries_cbn. rewrite fmap_app, foldl_app, Hs, Hf, len_app, u64_small by lia.
  change (len [_]) with 1. split_and!; try done; try lia.
  intros Hun. destruct (Hu Hun) as (-> & -> & ->). by rewrite Hun.
Qed.

(** The output is one of the set's, found in the cache or in the database. *)
Lemma carries_spent U undo height n a e inp k v rc us lookups nanos chits :
  carries U undo height n a e → coherent U rc →
  (∀ c', rc = Some c' → c_map c' !! k = None ∧
     ∃ c, p_recent a = Some c ∧ ∀ x, c_map c !! x = None → c_map c' !! x = None) →
  (undo = true → us = p_undo_spent a ++ [(k, v)] ∧ rc = None) →
  p_cache_hits a ≤ chits → p_db_lookups a ≤ lookups →
  chits + lookups = p_cache_hits a + p_db_lookups a + 1 →
  carries U undo height n
    (mkApplying (e_new e) rc (p_batch a ++ [Delete CfDefault k])
       (p_spends a ++ [spend_row height inp v]) (add_fee (p_fees a) (inp, v)) (p_missing a)
       us (p_same_block a) lookups nanos (p_pending_hits a) chits)
    (mkEffect (e_new e) (e_spent e ++ [(k, v)]) (e_resolved e ++ [(inp, v)]) (e_missing e)
       (e_same e) (e_seen e + 1)).
Proof.
  intros (Hp & Hb & Hs & Hf & Hm & Hu & Hco & Hsp & Hn1 & Hn2 & Hn3 & Hn4 & Hn5 & Hn6)
    Hrc Hnone Hun Hc1 Hc2 Hc3.
  unfold carries; carries_cbn. rewrite !fmap_app, foldl_app, Hs, Hf, Hb, len_app. change (len [_]) with 1.
  split_and!; try done; try lia.
  - intros Hundo. destruct (Hu Hundo) as (Hus & ? & ?). destruct (Hun Hundo) as [-> ->].
    by rewrite Hus.
  - intros c' x Hc' Hx. destruct (Hnone c' Hc') as (Hk & c & Hc & Hmono).
    apply elem_of_app in Hx as [Hx|Hx%list_elem_of_singleton]; [|by subst].
    apply Hmono. by apply (Hsp c).
Qed.

(** The output is not found. *)
Lemma carries_missing U undo height n a e k rc lookups nanos :
  carries U undo height n a e → coherent U rc → e_seen e < 2 ^ 64 - 1 →
  (∀ c', rc = Some c' → c_map c' !! k = None ∧
     ∃ c, p_recent a = Some c ∧ ∀ x, c_map c !! x = None → c_map c' !! x = None) →
  (p_recent a = None → rc = None) →
  lookups = p_db_lookups a + 1 →
  carries U undo height n
    (mkApplying (e_new e) rc (p_batch a) (p_spends a) (p_fees a) (u64 (p_missing a + 1))
       (p_undo_spent a) (p_same_block a) lookups nanos (p_pending_hits a) (p_cache_hits a))
    (mkEffect (e_new e) (e_spent e) (e_resolved e) (e_missing e + 1) (e_same e) (e_seen e + 1)).
Proof.
  intros (Hp & Hb & Hs & Hf & Hm & Hu & Hco & Hsp & Hn1 & Hn2 & Hn3 & Hn4 & Hn5 & Hn6)
    Hrc Hseen Hnone Hun ->.
  pose proof (len_nonneg (e_resolved e)).
  unfold carries; carries_cbn. rewrite Hm, u64_small by lia.
  split_and!; try done; try lia.
  - intros Hundo. destruct (Hu Hundo) as (? & ? & Hr). split_and!; auto.
  - intros c' x Hc' Hx. destruct (Hnone c' Hc') as (Hk & c & Hc & Hmono).
    apply Hmono. by apply (Hsp c).
Qed.

(** One input. *)
Lemma apply_input_spec d undo height n inp a e U :
  U = utxos (db_view d) → carries U undo height n a e →
  (ir_is_coinbase inp = false → 0 ≤ ir_tx_index inp < Z.of_nat n) → e_seen e < 2 ^ 64 - 1 →
  match apply_input d undo height inp a with
  | (Ok _, a') => carries U undo height n a' (effect_input U e inp)
  | (Err _, _) => True
  | (Panic, _) => False
  end.
Proof.
  intros HU Hc Hidx Hseen. unfold apply_input, effect_input.
  destruct (ir_is_coinbase inp) eqn:Hcb; [done|]. specialize (Hidx eq_refl).
  pose proof Hc as (Hp & _ & _ & Hf & _ & Hu & Hco & _ & Hn1 & Hn2 & Hn3 & Hn4 & Hn5 & Hn6).
  pose proof (len_nonneg (e_resolved e)).
  assert (∀ v, record_spend (p_spends a) (p_fees a) height inp v =
    Ok (p_spends a ++ [spend_row height inp v], add_fee (p_fees a) (inp, v))) as Hrec.
  { intros v. apply record_spend_ok. unfold len. rewrite Hf, length_add_fees, length_replicate. done. }
  fold (input_key inp). set (k := input_key inp). m_unfold.
  fold (cache_lookup (p_recent a) k). pose proof (cache_lookup_spec U (p_recent a) k Hco) as Hcl.
  rewrite Hp. destruct (e_new e !! k) as [v|] eqn:Hnew.
  { rewrite Hrec. by apply carries_pending. }
  destruct (cache_lookup (p_recent a) k) as [[v|] rc]; destruct Hcl as (Hco' & Hnone & Hhit & Hrc).
  - rewrite Hrec. destruct (Hhit v eq_refl) as [HUk Hne]. rewrite HUk.
    apply carries_spent; try done; rewrite ?u64_small by lia; try lia.
    intros Hundo. by destruct (Hu Hundo) as (_ & _ & ?).
  - destruct (db_get d CfDefault k) as [got|err|] eqn:Hget; simpl; [|done|by apply db_get_no_panic in Hget].
    apply db_get_ok in Hget as ->.
    assert (U k = db_view d !! (CfDefault, k) ≫= utxo_decode) as HUk by (by rewrite HU).
    destruct (db_view d !! (CfDefault, k)) as [raw|]; simpl in HUk; rewrite HUk.
    + destruct (utxo_decode raw) as [v|].
      * rewrite Hrec. apply carries_spent; try done; rewrite ?u64_small by lia; try lia.
        intros Hundo. rewrite Hundo. destruct (Hu Hundo) as (_ & _ & Hr). split; [done|]. by apply Hnone.
      * apply (carries_missing U undo height n a e k rc); try done. apply u64_small. lia.
    + apply (carries_missing U undo height n a e k rc); try done. apply u64_small. lia.
Qed.

Lemma apply_inputs_spec d undo height n inputs a e U :
  U = utxos (db_view d) → carries U undo height n a e →
  Forall (λ i, 0 ≤ ir_tx_index i < Z.of_nat n) inputs → e_seen e + len inputs < 2 ^ 64 →
  match apply_inputs d undo height inputs a with
  | (Ok _, a') => carries U undo height n a' (foldl (effect_input U) e inputs)
  | (Err _, _) => True
  | (Panic, _) => False
  end.
Proof.
  intros HU Hc Hi. revert a e Hc. induction Hi as [|inp inputs Hx Hi IH]; intros a e Hc Hseen; [done|].
  rewrite len_cons in Hseen. pose proof (len_nonneg inputs).
  pose proof (apply_input_spec d undo height n inp a e U HU Hc ltac:(done) ltac:(lia)) as Hstep.
  cbn [apply_inputs]. unfold mbind, M_bind. simpl foldl.
  destruct (apply_input d undo height inp a) as [[[]|err|] a']; [|done|done].
  apply IH; [done|]. unfold effect_input. repeat case_match; simpl; lia.
Qed.

(** ** Lemmas: the effect of a block *)

Lemma seed_pending_lookup height outputs k v :
  seed_pending height outputs !! k = Some v →
  ∃ o, o ∈ outputs ∧ k = output_key o ∧ v = output_value height o.
Proof.
  unfold seed_pending. assert (∀ p : gmap bytes UtxoValue,
    foldl (λ p out, <[output_key out:=output_value height out]> p) p outputs !! k = Some v →
    p !! k = Some v ∨ ∃ o, o ∈ outputs ∧ k = output_key o ∧ v = output_value height o) as Hgen.
  { induction outputs as [|o os IH]; intros p Hp; simpl in Hp; [by left|].
    destruct (IH _ Hp) as [Hk|(o' & Ho' & ?)]; [|right; exists o'; split; [by right|done]].
    apply lookup_insert_Some in Hk as [[<- <-]|[_ Hk]]; [|by left].
    right. exists o. split; [left|done]. }
  intros Hp. destruct (Hgen ∅ Hp) as [Hk|]; [by rewrite lookup_empty in Hk|done].
Qed.

Lemma seed_pending_dom height outputs o :
  o ∈ outputs → is_Some (seed_pending height outputs !! output_key o).
Proof.
  unfold seed_pending. assert (∀ (p : gmap bytes UtxoValue) k,
    (is_Some (p !! k) ∨ ∃ o, o ∈ outputs ∧ k = output_key o) →
    is_Some (foldl (λ p out, <[output_key out:=output_value height out]> p) p outputs !! k)) as Hgen.
  { induction outputs as [|x os IH]; intros p k [Hp|(y & Hy & ->)]; simpl; [done|by apply not_elem_of_nil in Hy| |];
      apply IH.
    - left. apply lookup_insert_is_Some'. by right.
    - apply elem_of_cons in Hy as [->|Hy]; [left; by rewrite lookup_insert_eq|right; by exists y]. }
  intros Ho. apply Hgen. right. by exists o.
Qed.

(** What the effect satisfies at every point of the loop, from the seed [p0]. *)
Definition effect_ok (U : bytes → option UtxoValue) (p0 : gmap bytes UtxoValue) (e : Effect) : Prop :=
  e_new e ⊆ p0 ∧ (∀ k, k ∈ e_same e → e_new e !! k = None) ∧
  (∀ k, is_Some (p0 !! k) → k ∉ e_same e → is_Some (e_new e !! k)) ∧
  (∀ k v, (k, v) ∈ e_spent e → U k = Some v) ∧
  (∀ r, r ∈ e_resolved e → ∃ k, U k = Some r.2 ∨ p0 !! k = Some r.2) ∧
  len (e_spent e) ≤ e_seen e.

Lemma effect_input_ok U p0 e inp : effect_ok U p0 e → effect_ok U p0 (effect_input U e inp).
Proof.
  intros (Hsub & Hsame & Hkeep & Hsp & Hres & Hlen). unfold effect_input. case_match; [done|].
  destruct (e_new e !! input_key inp) as [v|] eqn:Hn; [|destruct (U (input_key inp)) as [v|] eqn:HU];
    unfold effect_ok; cbn [e_new e_spent e_resolved e_same e_seen].
  - split_and!; try done; [| | | |lia].
    + etrans; [apply delete_subseteq|done].
    + intros k [->%elem_of_singleton|Hk]%elem_of_union; [apply lookup_delete_eq|].
      apply lookup_delete_None. right. by apply Hsame.
    + intros k Hk Hnot. apply lookup_delete_is_Some. split; [set_solver|]. apply Hkeep; [done|set_solver].
    + intros r [Hr|Hr%list_elem_of_singleton]%elem_of_app; [by apply Hres|]. subst r.
      exists (input_key inp). right. by eapply lookup_weaken.
  - split_and!; try done.
    + intros k x [Hk|Hk%list_elem_of_singleton]%elem_of_app; [by apply Hsp|]. by simplify_eq.
    + intros r [Hr|Hr%list_elem_of_singleton]%elem_of_app; [by apply Hres|]. subst r.
      exists (input_key inp). by left.
    + rewrite len_app. change (len [_]) with 1. lia.
  - split_and!; try done. lia.
Qed.

Lemma effect_ok_fold U p0 e inps : effect_ok U p0 e → effect_ok U p0 (foldl (effect_input U) e inps).
Proof. revert e. induction inps; intros e He; [done|]. by apply IHinps, effect_input_ok. Qed.

Lemma block_effect_ok U height inputs outputs :
  effect_ok U (seed_pending height outputs) (block_effect U height inputs outputs).
Proof.
  apply effect_ok_fold. split_and!; cbn [e_new e_spent e_resolved e_same e_seen]; try done.
  - intros k v Hk. by apply not_elem_of_nil in Hk.
  - intros r Hr. by apply not_elem_of_nil in Hr.
Qed.

Lemma output_value_wf height o : is_u32 height → output_wf o → utxo_wf (output_value height o).
Proof. intros Hh (Hv & _ & Ha & _). by split_and!. Qed.

Lemma seed_wf height outputs k v :
  is_u32 height → Forall output_wf outputs → seed_pending height outputs !! k = Some v → utxo_wf v.
Proof.
  intros Hh Ho Hk. apply seed_pending_lookup in Hk as (o & Hin & -> & ->).
  rewrite Forall_forall in Ho. by apply output_value_wf, Ho.
Qed.

Lemma effect_spent_keys U e inps :
  Forall (λ i, len (ir_prev_txid i) = 32) inps → Forall (λ x : bytes * UtxoValue, len x.1 = 36) (e_spent e) →
  Forall (λ x : bytes * UtxoValue, len x.1 = 36) (e_spent (foldl (effect_input U) e inps)).
Proof.
  intros Hi. revert e. induction Hi as [|i inps Hx Hi IH]; intros e He; [done|]. simpl. apply IH.
  unfold effect_input. repeat case_match; simpl; try done.
  apply Forall_app. split; [done|]. constructor; [|constructor]. by apply len_make_key.
Qed.

(** ** Lemmas: the cache after the block *)

Lemma publish_coherent U p c :
  cache_inv c → (∀ k v, p !! k = None → c_map c !! k = Some v → U k = Some v) →
  (∀ k v, p !! k = Some v → U k = Some v) → coherent U (Some (publish p c)).
Proof.
  intros Hinv Hold Hnew. unfold publish.
  assert (∀ es c, cache_inv c → (∀ k v, k ∉ es.*1 → c_map c !! k = Some v → U k = Some v) →
    (∀ k v, (k, v) ∈ es → U k = Some v) →
    coherent U (Some (foldl (λ c e, cache_insert e.1 e.2 c) c es))) as Hgen.
  { clear. induction es as [|[k v] es IH]; intros c Hinv Hold Hnew; simpl.
    { split; [done|]. intros x w. apply Hold. apply not_elem_of_nil. }
    destruct (cache_insert_spec k v c Hinv) as (Hinv' & Hsub & _). apply IH; [done| |].
    - intros x w Hx Hw. eapply lookup_weaken in Hw; [|done].
      apply lookup_insert_Some in Hw as [[<- <-]|[Hne Hw]]; [apply Hnew; left|].
      apply Hold; [|done]. cbn [fmap list_fmap fst]. apply not_elem_of_cons. done.
    - intros x w Hx. apply Hnew. by right. }
  apply Hgen; [done| |].
  - intros k v Hk. apply Hold. apply eq_None_not_Some. intros [w Hw]. apply Hk.
    apply list_elem_of_fmap. exists (k, w). split; [done|]. rewrite map_iter_perm.
    by apply elem_of_map_to_list.
  - intros k v Hk. apply Hnew. rewrite map_iter_perm in Hk. by apply elem_of_map_to_list in Hk.
Qed.
End store.
