(* ===== verification/UtxoThms.v ===== *)
(** * UtxoThms: the theorems of the UTXO store *)
From S2P Require Import Prelude F64 Text Hash Types Utxo UtxoStore UtxoSpec.

Section store.
Context `{RocksDB} `{Clock} `{HashOrder}.

Abbreviation set_of s := (utxos (db_view (db s))).

(** The undo record of a block. *)
Definition undo_of (e : Effect) (outputs : list OutputRow) : BlockUndo :=
  mkUndo (e_spent e) (filter (λ k, k ∉ e_same e) (output_key <$> outputs)).

(** The content of the database after a block with effect [e]. *)
Definition view_after (m : View) (undo : bool) (height : Z) (e : Effect) (outputs : list OutputRow)
    (cf : Cf) (k : bytes) : option bytes :=
  match cf with
  | CfDefault =>
    match e_new e !! k with
    | Some v => Some (utxo_encode v)
    | None => if decide (k ∈ (e_spent e).*1) then None else m !! (cf, k)
    end
  | CfUndo =>
    if undo && bool_decide (k = undo_key height) then Some (undo_encode (undo_of e outputs))
    else m !! (cf, k)
  | CfMeta => m !! (cf, k)
  end.

(** Everything an applied block leaves. *)
Definition applied (s : UtxoStore) (height : Z) (n : nat) (inputs : list InputRow)
    (outputs : list OutputRow) (r : SpendResult) (s' : UtxoStore) : Prop :=
  let e := block_effect (set_of s) height inputs outputs in
  (∀ cf k, db_view (db s') !! (cf, k) =
     view_after (db_view (db s)) (undo_enabled s) height e outputs cf k) ∧
  undo_enabled s' = undo_enabled s ∧ (undo_enabled s = true → recent s' = None) ∧
  coherent (after (set_of s) e) (recent s') ∧
  spends r = (λ x, spend_row height x.1 x.2) <$> e_resolved e ∧ missing r = e_missing e ∧
  length (fees r) = n ∧ (∀ t, (t < n)%nat → fees r !! t = Some (fee_of e outputs (Z.of_nat t))) ∧
  pending_hits r + cache_hits r + db_lookups r = e_seen e ∧
  e_missing e + len (e_resolved e) = e_seen e.

Lemma filter_no_same (e : Effect) (ks : list bytes) :
  (if negb (bool_decide (e_same e = ∅)) then filter (λ k, k ∉ e_same e) ks else ks)
  = filter (λ k, k ∉ e_same e) ks.
Proof.
  case_bool_decide as He; simpl; [|done]. rewrite He. symmetry.
  induction ks as [|k ks IH]; [done|].
  rewrite filter_cons_True by set_solver. by rewrite IH.
Qed.

Lemma fees_spec (U : bytes → option UtxoValue) height n inputs outputs fs :
  let e := block_effect U height inputs outputs in
  (∀ k v, U k = Some v → utxo_wf v) → is_u32 height → rows_wf n inputs outputs →
  (∀ r, r ∈ e_resolved e → 0 ≤ ir_tx_index r.1) →
  subtract_outputs outputs (foldl add_fee (replicate n 0) (e_resolved e)) = Ok fs →
  length fs = n ∧ ∀ t, (t < n)%nat → fs !! t = Some (fee_of e outputs (Z.of_nat t)).
Proof.
  intros e HU Hh (Hi & Ho & _) Hidx Hsub. pose proof (block_effect_ok U height inputs outputs) as Heff.
  fold e in Heff. destruct Heff as (_ & _ & _ & _ & Hres & _).
  destruct (subtract_outputs_spec outputs (foldl add_fee (replicate n 0) (e_resolved e)))
    as (fs' & Hfs' & Hlen & Hfee).
  { unfold len. rewrite length_add_fees, length_replicate. eapply Forall_impl; [apply Ho|].
    intros o (? & (? & _)). unfold is_u64 in *. lia. }
  assert (fs' = fs) as -> by congruence. rewrite length_add_fees, length_replicate in Hlen.
  split; [done|]. intros t Ht. unfold fee_of. rewrite <-(Z.add_0_l (zsum _ (e_resolved e))).
  apply Hfee; [|unfold u64_max; pose proof (zsum_nonneg (λ r : InputRow * UtxoValue,
    if ir_tx_index r.1 =? Z.of_nat t then uv_value_sat r.2 else 0) (e_resolved e)) as Hz].
  - apply add_fees_lookup; [|by apply lookup_replicate_2|unfold u64_max; lia].
    intros r Hr. split; [by apply Hidx|]. destruct (Hres r Hr) as (k & [Hk|Hk]).
    + apply HU in Hk as [Hv _]. apply Hv.
    + eapply seed_wf in Hk as [Hv _]; [apply Hv|done|]. eapply Forall_impl; [apply Ho|]. by intros o [].
  - assert (0 ≤ zsum (λ r : InputRow * UtxoValue,
      if ir_tx_index r.1 =? Z.of_nat t then uv_value_sat r.2 else 0) (e_resolved e)); [|lia].
    apply Hz. intros r Hr. case_match; [|done]. destruct (Hres r Hr) as (k & [Hk|Hk]).
    + apply HU in Hk as [Hv _]. apply Hv.
    + eapply seed_wf in Hk as [Hv _]; [apply Hv|done|]. eapply Forall_impl; [apply Ho|]. by intros o [].
Qed.

Lemma resolved_index U height inputs outputs r :
  r ∈ e_resolved (block_effect U height inputs outputs) → r.1 ∈ inputs.
Proof.
  unfold block_effect. assert (∀ e, (r ∈ e_resolved (foldl (effect_input U) e inputs)) →
    r ∈ e_resolved e ∨ r.1 ∈ inputs) as Hgen.
  { induction inputs as [|i inps IH]; intros e Hr; [by left|]. simpl in Hr.
    apply IH in Hr as [Hr|Hr]; [|right; by right].
    unfold effect_input in Hr. repeat case_match; simpl in Hr; try by left.
    all: apply elem_of_app in Hr as [Hr|Hr%list_elem_of_singleton]; [by left|subst r; right; left]. }
  intros Hr. destruct (Hgen _ Hr) as [Hn|]; [by apply not_elem_of_nil in Hn|done].
Qed.

Lemma utxos_wf m k v : utxos m k = Some v → utxo_wf v.
Proof. unfold utxos. intros (b & _ & Hb)%bind_Some. by eapply utxo_encode_decode. Qed.

(** The batch of a block, on the effect it carries. *)
Lemma batch_view m undo height e outputs cf k :
  batch_apply m
    (if (undo : bool) then
       ((Delete CfDefault <$> (e_spent e).*1) ++ put_entries (e_new e))
       ++ [Put CfUndo (undo_key height) (undo_encode (undo_of e outputs))]
     else (Delete CfDefault <$> (e_spent e).*1) ++ put_entries (e_new e)) !! (cf, k)
  = view_after m undo height e outputs cf k.
Proof.
  assert (batch_apply m ((Delete CfDefault <$> (e_spent e).*1) ++ put_entries (e_new e)) !! (cf, k)
    = view_after m false height e outputs cf k) as Hb.
  { rewrite batch_apply_app, batch_put_entries, batch_deletes. unfold view_after.
    destruct cf; simpl; destruct (e_new e !! k); repeat case_decide; naive_solver. }
  destruct undo; [|done]. rewrite batch_apply_app. simpl.
  destruct (decide ((CfUndo, undo_key height) = (cf, k))) as [[= <- <-]|Hne].
  - rewrite lookup_insert_eq. unfold view_after. by rewrite bool_decide_true.
  - rewrite lookup_insert_ne, Hb by done. unfold view_after. destruct cf; simpl; try done.
    rewrite bool_decide_false; [done|]. congruence.
Qed.

Lemma apply_block_outcome s height txs inputs outputs :
  store_inv s → rows_wf (length txs) inputs outputs → is_u32 height →
  match apply_block height txs inputs outputs s with
  | (Ok r, s') => applied s height (length txs) inputs outputs r s'
  | (Err _, s') => db_view (db s') = db_view (db s)
  | (Panic, _) => False
  end.
Proof.
  intros [Hmode Hco] Hwf Hh. pose proof Hwf as (Hi & Ho & Hli & Hlo).
  set (U := set_of s). unfold apply_block.
  set (start := mkApplying (seed_pending height outputs) (recent s) [] [] (replicate (length txs) 0) 0 [] ∅ 0 0 0 0).
  pose proof (apply_inputs_spec (db s) (undo_enabled s) height (length txs) inputs start
    (mkEffect (seed_pending height outputs) [] [] 0 ∅ 0) U eq_refl) as Hrun.
  destruct (apply_inputs (db s) (undo_enabled s) height inputs start) as [ra a].
  assert (match ra with Ok _ => carries U (undo_enabled s) height (length txs) a
    (block_effect U height inputs outputs) | Err _ => True | Panic => False end) as Hra.
  { assert (carries U (undo_enabled s) height (length txs) start
      (mkEffect (seed_pending height outputs) [] [] 0 ∅ 0)) as Hstart.
    { unfold start, carries; carries_cbn. split_and!; try done.
      - intros Hundo. split_and!; auto.
      - intros c k _ Hk. by apply not_elem_of_nil in Hk. }
    destruct ra; apply Hrun; try done; try (eapply Forall_impl; [apply Hi|by intros i []]); simpl; lia. }
  clear Hrun. destruct ra as [[]|e|]; [|done|done].
  set (e := block_effect U height inputs outputs) in *.
  destruct Hra as (Hp & Hb & Hs & Hf & Hm & Hu & Hco' & Hsp & Hcnt & Hcnt2 & _).
  destruct (subtract_outputs_spec outputs (p_fees a)) as (fs & Hfs & _).
  { rewrite Hf. unfold len. rewrite length_add_fees, length_replicate. eapply Forall_impl; [apply Ho|].
    intros o (? & (? & _)). unfold is_u64 in *. lia. }
  rewrite Hfs, Hb, Hp.
  assert ((if undo_enabled s then
      ((Delete CfDefault <$> (e_spent e).*1) ++ put_entries (e_new e)) ++
      [Put CfUndo (undo_key height) (undo_encode (mkUndo (p_undo_spent a)
        (if undo_enabled s && negb (bool_decide (p_same_block a = ∅))
         then filter (λ k, k ∉ p_same_block a) (if undo_enabled s then output_key <$> outputs else [])
         else if undo_enabled s then output_key <$> outputs else [])))]
    else (Delete CfDefault <$> (e_spent e).*1) ++ put_entries (e_new e)) =
    (if undo_enabled s then
       ((Delete CfDefault <$> (e_spent e).*1) ++ put_entries (e_new e))
       ++ [Put CfUndo (undo_key height) (undo_encode (undo_of e outputs))]
     else (Delete CfDefault <$> (e_spent e).*1) ++ put_entries (e_new e))) as ->.
  { destruct (undo_enabled s); [|done]. destruct (Hu eq_refl) as (-> & -> & _).
    rewrite andb_true_l, filter_no_same. done. }
  destruct (db_write _ _ _) as [[[]|err|] d'] eqn:Hw; simpl.
  - apply db_write_ok in Hw. unfold applied. cbn [db spends fees missing pending_hits cache_hits
      db_lookups undo_enabled recent]. fold U e.
    pose proof (block_effect_ok U height inputs outputs) as Heff. fold e in Heff.
    destruct (fees_spec U height (length txs) inputs outputs fs) as [Hlen Hfee];
      [intros k v; apply utxos_wf|done|done| |rewrite Hf in Hfs; exact Hfs|].
    { intros r Hr. apply resolved_index in Hr. rewrite Forall_forall in Hi. by apply Hi in Hr as [[] _]. }
    split_and!; try done.
    + intros cf k. rewrite Hw. apply batch_view.
    + intros Hundo. by destruct (Hu Hundo) as (_ & _ & ->).
    + destruct (p_recent a) as [c|] eqn:Hr; simpl; [|done]. destruct Hco' as [Hinv Htrue].
      apply publish_coherent; [done| |].
      * intros k v Hk Hc. unfold after. rewrite Hk. case_decide as Hin; [|by apply Htrue].
        rewrite (Hsp c k eq_refl Hin) in Hc. done.
      * intros k v Hk. unfold after. by rewrite Hk.
  - by apply db_write_err in Hw.
  - pose proof (db_write_no_panic (db s) ((if undo_enabled s then
       ((Delete CfDefault <$> (e_spent e).*1) ++ put_entries (e_new e))
       ++ [Put CfUndo (undo_key height) (undo_encode (undo_of e outputs))]
     else (Delete CfDefault <$> (e_spent e).*1) ++ put_entries (e_new e)))
      (if undo_enabled s then SetSync else DisableWal)) as Hnp. by rewrite Hw in Hnp.
Qed.

(** An applied block fails in the database only. *)
Lemma record_spend_no_err sp fs h inp v (e : UtxoError) : record_spend sp fs h inp v ≠ Err e.
Proof. unfold record_spend, index. m_unfold. by destruct (fs !! _). Qed.

Lemma subtract_outputs_no_err outs fs (e : UtxoError) : subtract_outputs outs fs ≠ Err e.
Proof.
  revert fs. induction outs as [|o outs IH]; intros fs; simpl; [done|]. unfold index. m_unfold.
  destruct (fs !! _); [apply IH|done].
Qed.

Definition only_rocks {S A} (m : M S UtxoError A) : Prop :=
  ∀ s e s', m s = (Err e, s') → ∃ x, e = Rocks x.

Lemma only_rocks_bind {S A B} (m : M S UtxoError A) (k : A → M S UtxoError B) :
  only_rocks m → (∀ a, only_rocks (k a)) → only_rocks (a ← m; k a).
Proof.
  intros Hm Hk s e s'. unfold mbind, M_bind. destruct (m s) as [[a|e1|] s1] eqn:Hms; [apply Hk| |done].
  intros [= -> ->]. by eapply Hm.
Qed.

Lemma only_rocks_lift {S A} (r : Res UtxoError A) : (∀ e, r ≠ Err e) → only_rocks (m_lift (S := S) r).
Proof. intros Hr s e s' [= He _]. by destruct (Hr e). Qed.

Lemma only_rocks_db {S A} (r : Res RocksError A) : only_rocks (m_lift (S := S) (map_err Rocks r)).
Proof. intros s e s'. unfold m_lift. destruct r; simpl; [done| |done]. intros [= <- _]. by eexists. Qed.

Lemma only_rocks_apply_input d undo height inp : only_rocks (apply_input d undo height inp).
Proof.
  unfold apply_input. destruct (ir_is_coinbase inp); [done|].
  apply only_rocks_bind; [done|]. intros s.
  assert (∀ sp fs v, only_rocks (m_lift (S := Applying) (record_spend sp fs height inp v))) as Hrec.
  { intros. apply only_rocks_lift. intros e. apply record_spend_no_err. }
  destruct (p_pending s !! _); [by apply only_rocks_bind|].
  destruct (match p_recent s with Some _ => _ | None => _ end) as [[v|] rc]; [by apply only_rocks_bind|].
  apply only_rocks_bind; [done|]. intros _. apply only_rocks_bind; [apply only_rocks_db|].
  intros [raw|]; [|done]. destruct (utxo_decode raw); [by apply only_rocks_bind|done].
Qed.

Lemma apply_block_error s height (txs : list TxRow) inputs outputs :
  match apply_block height txs inputs outputs s with (Err e, _) => ∃ x, e = Rocks x | _ => True end.
Proof.
  assert (∀ d undo, only_rocks (apply_inputs d undo height inputs)) as Hin.
  { intros d undo. induction inputs as [|inp inps IH]; [done|]. cbn [apply_inputs].
    by apply only_rocks_bind; [apply only_rocks_apply_input|]. }
  unfold apply_block. destruct (apply_inputs _ _ _ _ _) as [[[]|e|] a] eqn:Ha; [|by eapply Hin|done].
  destruct (subtract_outputs outputs (p_fees a)) eqn:Hs; [|by apply subtract_outputs_no_err in Hs|done].
  destruct (db_write _ _ _) as [[u|e|] d]; [done|by eexists|done].
Qed.

(** ** Lemmas: disconnecting *)

Lemma batch_puts_fun m (f : bytes → option bytes) (es : list (bytes * UtxoValue)) cf k :
  (∀ x v, (x, v) ∈ es → f x = Some (utxo_encode v)) →
  batch_apply m ((λ e, Put CfDefault e.1 (utxo_encode e.2)) <$> es) !! (cf, k) =
    if decide (cf = CfDefault ∧ k ∈ es.*1) then f k else m !! (cf, k).
Proof.
  revert m. induction es as [|[x v] es IH]; intros m Hf; simpl.
  { rewrite decide_False; [done|]. intros [_ Hk]. by apply not_elem_of_nil in Hk. }
  unfold batch_apply in *. rewrite IH by (intros; apply Hf; by right).
  destruct (decide (cf = CfDefault ∧ k ∈ es.*1)) as [[-> Hk]|Hk].
  { rewrite decide_True; [done|]. split; [done|by right]. }
  simpl. destruct (decide ((CfDefault, x) = (cf, k))) as [[= <- <-]|Hne].
  - rewrite lookup_insert_eq, decide_True by (split; [done|left]). symmetry. apply Hf. left.
  - rewrite lookup_insert_ne by done. rewrite decide_False; [done|].
    intros [-> Hin]. apply elem_of_cons in Hin as [->|Hin]; naive_solver.
Qed.

Lemma undo_of_wf U height n inputs outputs :
  (∀ k v, U k = Some v → utxo_wf v) → rows_wf n inputs outputs →
  undo_wf (undo_of (block_effect U height inputs outputs) outputs).
Proof.
  intros HU (Hi & Ho & Hli & Hlo). set (e := block_effect U height inputs outputs).
  pose proof (block_effect_ok U height inputs outputs) as (_ & _ & _ & Hsp & _ & Hlen). fold e in Hsp, Hlen.
  pose proof (effect_seen U (mkEffect (seed_pending height outputs) [] [] 0 ∅ 0) inputs) as [_ Hseen].
  change (foldl _ _ _) with e in Hseen. simpl in Hseen. unfold undo_of, undo_wf; cbn [bu_spent bu_created].
  split_and!; [| |lia|].
  - pose proof (effect_spent_keys U (mkEffect (seed_pending height outputs) [] [] 0 ∅ 0) inputs) as Hk.
    change (foldl _ _ _) with e in Hk. specialize (Hk ltac:(eapply Forall_impl; [apply Hi|]; by intros i [])
      ltac:(constructor)).
    rewrite Forall_forall in Hk. apply Forall_forall. intros [k v] Hin.
    split; [by apply (Hk (k, v))|by apply (HU k), Hsp].
  - apply Forall_forall. intros k [_ Hk]%list_elem_of_filter.
    apply list_elem_of_fmap in Hk as (o & -> & Hin). rewrite Forall_forall in Ho.
    apply len_make_key. by apply Ho in Hin as [_ (_ & _ & _ & ?)].
  - assert (length (filter (λ k, k ∉ e_same e) (output_key <$> outputs)) ≤ length outputs)%nat as Hf.
    { etrans; [apply length_filter|]. by rewrite length_fmap. }
    unfold len in *. lia.
Qed.

(** The outputs of the block that survive it are exactly those its undo record deletes. *)
Lemma created_keys U height inputs outputs k :
  let e := block_effect U height inputs outputs in
  k ∈ bu_created (undo_of e outputs) ↔ is_Some (e_new e !! k).
Proof.
  intros e. pose proof (block_effect_ok U height inputs outputs) as (Hsub & Hsame & Hkeep & _).
  fold e in Hsub, Hsame, Hkeep. cbn [undo_of bu_created]. rewrite list_elem_of_filter, list_elem_of_fmap.
  split.
  - intros [Hns (o & -> & Ho)]. apply Hkeep; [|done]. by apply seed_pending_dom.
  - intros [v Hv]. split; [intros Hs; by rewrite (Hsame k Hs) in Hv|].
    eapply lookup_weaken in Hv; [|done]. apply seed_pending_lookup in Hv as (o & Ho & -> & _). by exists o.
Qed.

(** What a disconnect writes over the state the block left. *)
Lemma disconnect_view (m m1 : View) (height : Z) (inputs : list InputRow) (outputs : list OutputRow)
    (cf : Cf) (k : bytes) :
  let e := block_effect (utxos m) height inputs outputs in
  let u := undo_of e outputs in
  (∀ cf k, m1 !! (cf, k) = view_after (m) true height e outputs cf k) →
  batch_apply m1 (((λ e : bytes * UtxoValue, Put CfDefault e.1 (utxo_encode e.2)) <$> bu_spent u)
    ++ (Delete CfDefault <$> bu_created u) ++ [Delete CfUndo (undo_key height)]) !! (cf, k)
  = if decide (cf = CfUndo ∧ k = undo_key height) then None
    else if decide (cf = CfDefault ∧ k ∈ bu_created u) then None else m !! (cf, k).
Proof.
  intros e u Hm. rewrite !batch_apply_app. simpl batch_apply at 1.
  pose proof (block_effect_ok (utxos m) height inputs outputs) as (Hsub & _ & _ & Hsp & _). fold e in Hsub, Hsp.
  destruct (decide (cf = CfUndo ∧ k = undo_key height)) as [[-> ->]|Hne].
  { unfold batch_apply at 1. simpl. by rewrite lookup_delete_eq. }
  unfold batch_apply at 1. simpl. rewrite lookup_delete_ne by (intros [=]; naive_solver).
  rewrite batch_deletes, (batch_puts_fun _ (λ x, m !! (CfDefault, x))).
  2: { intros x v Hx. cbn [bu_spent u undo_of] in Hx. apply Hsp in Hx. unfold utxos in Hx.
       apply bind_Some in Hx as (b & Hb & Hv). apply utxo_encode_decode in Hv as [-> _]. done. }
  rewrite Hm. unfold view_after. destruct cf.
  - destruct (decide (k ∈ bu_created u)) as [Hc|Hc].
    + by rewrite !decide_True by done.
    + rewrite !(decide_False (P := CfDefault = CfDefault ∧ k ∈ bu_created u)) by naive_solver.
      destruct (e_new e !! k) as [v|] eqn:Hv.
      { destruct Hc. apply created_keys. by eexists. }
      repeat case_decide; naive_solver.
  - rewrite !decide_False by naive_solver. rewrite bool_decide_false by naive_solver.
    by rewrite andb_false_r.
  - by rewrite !decide_False by naive_solver.
Qed.
End store.

(** ** Lemmas: effects *)

Section effects.
Context `{RocksDB} `{Clock} `{HashOrder}.

Lemma view_after_utxos m m' undo height inputs outputs e :
  e = block_effect (utxos m) height inputs outputs →
  (∀ cf k, m' !! (cf, k) = view_after m undo height e outputs cf k) →
  Forall (λ o, output_wf o) outputs → is_u32 height → ∀ k, utxos m' k = after (utxos m) e k.
Proof.
  intros -> Hm Ho Hh k. unfold utxos at 1. rewrite Hm. unfold view_after, after.
  destruct (e_new _ !! k) as [v|] eqn:Hv; [|by case_decide].
  simpl. apply utxo_decode_encode.
  pose proof (block_effect_ok (utxos m) height inputs outputs) as (Hsub & _).
  eapply lookup_weaken in Hv; [|done]. by eapply seed_wf.
Qed.

Lemma block_effect_ext U1 U2 height inputs outputs :
  (∀ k, U1 k = U2 k) → block_effect U1 height inputs outputs = block_effect U2 height inputs outputs.
Proof.
  intros HU. unfold block_effect. generalize (mkEffect (seed_pending height outputs) [] [] 0 ∅ 0).
  induction inputs as [|i inps IH]; intros e; [done|]. simpl.
  replace (effect_input U1 e i) with (effect_input U2 e i); [apply IH|].
  unfold effect_input. by rewrite HU.
Qed.

Lemma effect_seen_count U height inputs outputs :
  e_seen (block_effect U height inputs outputs) = len (filter (λ i, ir_is_coinbase i = false) inputs).
Proof.
  unfold block_effect. assert (∀ e, e_seen (foldl (effect_input U) e inputs) =
    e_seen e + len (filter (λ i, ir_is_coinbase i = false) inputs)) as Hgen; [|by rewrite Hgen].
  induction inputs as [|i inps IH]; intros e; [change (len (filter _ [])) with 0; simpl; lia|]. simpl foldl. rewrite IH.
  unfold effect_input. destruct (ir_is_coinbase i) eqn:Hi.
  - by rewrite filter_cons_False by (by rewrite Hi).
  - rewrite filter_cons_True, len_cons by done. repeat case_match; simpl; lia.
Qed.

Lemma rows_outputs_wf n inputs outputs : rows_wf n inputs outputs → Forall (λ o, output_wf o) outputs.
Proof. intros (_ & Ho & _). eapply Forall_impl; [apply Ho|]. by intros o []. Qed.

Lemma db_write_no_panic_eq d b wo d' : db_write d b wo ≠ (Panic, d').
Proof. intros Hw. pose proof (db_write_no_panic d b wo) as Hn. by rewrite Hw in Hn. Qed.
(** Disconnecting from the state a block left over the content [m]. *)
Lemma disconnect_block_run (m : View) (s : UtxoStore) height n inputs outputs :
  rows_wf n inputs outputs →
  (∀ cf k, db_view (db s) !! (cf, k) =
     view_after m true height (block_effect (utxos m) height inputs outputs) outputs cf k) →
  match disconnect_block height s with
  | (Ok _, s2) => (∀ cf k, db_view (db s2) !! (cf, k) =
      if decide (cf = CfUndo ∧ k = undo_key height) then None
      else if decide (cf = CfDefault ∧ k ∈ bu_created (undo_of (block_effect (utxos m) height inputs outputs) outputs))
      then None else m !! (cf, k)) ∧ ∃ d, s2 = set_db d s
  | (Err e, s2) => (∃ x, e = Rocks x) ∧ db_view (db s2) = db_view (db s)
  | (Panic, _) => False
  end.
Proof.
  intros Hrows Hview. unfold disconnect_block. m_unfold.
  destruct (db_get (db s) CfUndo (undo_key height)) as [raw|e|] eqn:Hget; simpl;
    [|by split; [eexists|]|by apply db_get_no_panic in Hget].
  apply db_get_ok in Hget as ->. rewrite Hview. unfold view_after. rewrite bool_decide_true by done. simpl.
  rewrite undo_decode_encode by (eapply undo_of_wf; [intros; by eapply utxos_wf|done]). simpl.
  unfold store_write. destruct (db_write _ _ _) as [[[]|e|] d] eqn:Hw; simpl.
  - apply db_write_ok in Hw. rewrite Hw. split; [|by eexists]. intros cf k.
    exact (disconnect_view m (db_view (db s)) height inputs outputs cf k Hview).
  - apply db_write_err in Hw. split; [by eexists|done].
  - by pose proof (db_write_no_panic_eq _ _ _ _ Hw).
Qed.

(** The content it leaves is [m] without the undo record exactly when no output
    that the block left was in [m]. *)
Lemma disconnect_exact (m m2 : View) height (created : list bytes) :
  (∀ cf k, m2 !! (cf, k) =
     if decide (cf = CfUndo ∧ k = undo_key height) then None
     else if decide (cf = CfDefault ∧ k ∈ created) then None else m !! (cf, k)) →
  m2 = delete (CfUndo, undo_key height) m ↔ ∀ k, k ∈ created → m !! (CfDefault, k) = None.
Proof.
  intros Hm2. split.
  - intros -> k Hk. specialize (Hm2 CfDefault k). rewrite lookup_delete_ne in Hm2 by done.
    by rewrite decide_False, decide_True in Hm2 by naive_solver.
  - intros Hnone. apply map_eq. intros [cf k]. rewrite Hm2. case_decide as Hu.
    + destruct Hu as [-> ->]. by rewrite lookup_delete_eq.
    + rewrite lookup_delete_ne by naive_solver. case_decide as Hc; [|done].
      destruct Hc as [-> Hc]. by rewrite Hnone.
Qed.

(** The outputs a block leaves are among those it creates. *)
Lemma created_fresh (m : View) e outputs k :
  (∀ o, o ∈ outputs → m !! (CfDefault, output_key o) = None) →
  k ∈ bu_created (undo_of e outputs) → m !! (CfDefault, k) = None.
Proof.
  intros Hfresh. cbn [undo_of bu_created]. rewrite list_elem_of_filter, list_elem_of_fmap.
  intros [_ (o & -> & Ho)]. by apply Hfresh.
Qed.

(** The bytes of a tip. *)
Definition tip_bytes (t : TipState) : bytes := le_bytes 4 (tip_h t) ++ tip_hash t.

Definition tip_wf (t : TipState) : Prop := is_u32 (tip_h t) ∧ len (tip_hash t) = 32.

Lemma set_tip_run t s :
  match set_tip t s with
  | (Ok _, s') => db_view (db s') = <[(CfMeta, META_TIP_KEY) := tip_bytes t]> (db_view (db s)) ∧
                  ∃ d, s' = set_db d s
  | (Err e, s') => (∃ x, e = Rocks x) ∧ db_view (db s') = db_view (db s)
  | (Panic, _) => False
  end.
Proof.
  unfold set_tip, store_write. destruct (db_write _ _ _) as [[[]|e|] d] eqn:Hw; simpl.
  - apply db_write_ok in Hw. split; [done|by eexists].
  - apply db_write_err in Hw. split; [by eexists|done].
  - by pose proof (db_write_no_panic_eq _ _ _ _ Hw).
Qed.

Lemma tip_run t s :
  tip_wf t → db_view (db s) !! (CfMeta, META_TIP_KEY) = Some (tip_bytes t) →
  match tip s with Ok t' => t' = Some t | Err e => ∃ x, e = Rocks x | Panic => False end.
Proof.
  intros [Ht Hl] Hm. unfold tip. destruct (db_get (db s) CfMeta META_TIP_KEY) as [b|e|] eqn:Hget; simpl;
    [|by eexists|by apply db_get_no_panic in Hget].
  apply db_get_ok in Hget as ->. rewrite Hm. unfold tip_bytes.
  rewrite len_app, len_le_bytes, Hl. simpl (_ =? _). cbv iota.
  rewrite (slice_prefix 4) by (by rewrite len_le_bytes). rewrite le_val_bytes_small by done.
  rewrite <-(app_nil_r (tip_hash t)) at 1.
  rewrite slice_app_mid' by (by rewrite ?len_le_bytes, ?Hl). by destruct t.
Qed.

Lemma utxos_set_tip m v k : utxos (<[(CfMeta, META_TIP_KEY) := v]> m) k = utxos m k.
Proof. unfold utxos. by rewrite lookup_insert_ne. Qed.

(** An applied block, with everything it leaves, keeps the invariant. *)
Lemma applied_inv s height (txs : list TxRow) inputs outputs r s' :
  store_inv s → rows_wf (length txs) inputs outputs → is_u32 height →
  applied s height (length txs) inputs outputs r s' →
  (∀ k, utxos (db_view (db s')) k =
        after (utxos (db_view (db s))) (block_effect (utxos (db_view (db s))) height inputs outputs) k) ∧
  store_inv s'.
Proof.
  intros Hinv Hrows Hh (Hview & Hun & Hrec & Hco & _).
  assert (∀ k, utxos (db_view (db s')) k = after (utxos (db_view (db s)))
      (block_effect (utxos (db_view (db s))) height inputs outputs) k) as Hset.
  { eapply view_after_utxos; [done|exact Hview|by eapply rows_outputs_wf|done]. }
  split; [done|]. split; [by rewrite Hun|]. destruct (recent s') as [c|]; [|done].
  destruct Hco as [Hc Htrue]. split; [done|]. intros k v Hk. rewrite Hset. by apply Htrue.
Qed.
End effects.

(** ** Theorems *)

Section theorems.
Context `{RocksDB} `{Clock} `{HashOrder}.

(** C2: Refinement of the UTXO set. Applying a block whose rows are in range,
    with or without the cache and the undo log, replaces the set by the block's
    effect on it: outputs created and not spent in the block are added,
    outputs of the set that are spent are removed, nothing else changes, and
    the cache stays coherent with the new set. On a database error the database
    is as before. Indexing the fees never panics. *)
Theorem apply_block_refines (s : UtxoStore) (height : Z) (txs : list TxRow)
    (inputs : list InputRow) (outputs : list OutputRow)
    (Hinv : store_inv s) (Hrows : rows_wf (length txs) inputs outputs) (Hh : is_u32 height) :
  match apply_block height txs inputs outputs s with
  | (Ok _, s') =>
    (∀ k, utxos (db_view (db s')) k =
          after (utxos (db_view (db s)))
            (block_effect (utxos (db_view (db s))) height inputs outputs) k) ∧ store_inv s'
  | (Err _, s') => db_view (db s') = db_view (db s)
  | (Panic, _) => False
  end.
Proof.
  pose proof (apply_block_outcome s height txs inputs outputs Hinv Hrows Hh) as Ho.
  destruct (apply_block height txs inputs outputs s) as [[r|e|] s']; [|done|done].
  by eapply applied_inv.
Qed.

(** C18: Spend rows and fees. The rows an applied block returns are, in input
    order, the inputs whose output was found, with that output's value, type,
    address and height; [missing] counts the others; and the fee of every
    transaction is its resolved input value, capped at [u64::MAX], less its
    output value, floored at zero. Each non-coinbase input is counted once as a
    pending hit, a cache hit or a database lookup. *)
Theorem apply_block_rows (s s' : UtxoStore) (height : Z) (txs : list TxRow)
    (inputs : list InputRow) (outputs : list OutputRow) (r : SpendResult)
    (Hinv : store_inv s) (Hrows : rows_wf (length txs) inputs outputs) (Hh : is_u32 height)
    (Hok : apply_block height txs inputs outputs s = (Ok r, s')) :
  let e := block_effect (utxos (db_view (db s))) height inputs outputs in
  let considered := len (filter (λ i, ir_is_coinbase i = false) inputs) in
  spends r = (λ x, spend_row height x.1 x.2) <$> e_resolved e ∧
  (length (fees r) = length txs ∧
   ∀ t, (t < length txs)%nat → fees r !! t = Some (fee_of e outputs (Z.of_nat t))) ∧
  missing r + len (spends r) = considered ∧
  pending_hits r + cache_hits r + db_lookups r = considered.
Proof.
  pose proof (apply_block_outcome s height txs inputs outputs Hinv Hrows Hh) as Ho.
  rewrite Hok in Ho. destruct Ho as (_ & _ & _ & _ & Hsp & Hm & Hl & Hf & Hc1 & Hc2).
  rewrite (effect_seen_count _ height inputs outputs) in Hc1, Hc2.
  intros e considered. rewrite Hm, Hsp, len_fmap. by split_and!.
Qed.

(** C21: The cache is transparent. Two stores holding the same set, one with the
    cache and one without, return the same spend rows, fees and missing count
    for a block and hold the same set afterwards. *)
Theorem cache_transparent (s1 s2 s1' s2' : UtxoStore) (height : Z) (txs : list TxRow)
    (inputs : list InputRow) (outputs : list OutputRow) (r1 r2 : SpendResult)
    (Hinv : store_inv s1) (Hnone : recent s2 = None)
    (Hsame : ∀ k, utxos (db_view (db s1)) k = utxos (db_view (db s2)) k)
    (Hrows : rows_wf (length txs) inputs outputs) (Hh : is_u32 height)
    (Hok1 : apply_block height txs inputs outputs s1 = (Ok r1, s1'))
    (Hok2 : apply_block height txs inputs outputs s2 = (Ok r2, s2')) :
  spends r1 = spends r2 ∧ fees r1 = fees r2 ∧ missing r1 = missing r2 ∧
  ∀ k, utxos (db_view (db s1')) k = utxos (db_view (db s2')) k.
Proof.
  assert (store_inv s2) as Hinv2 by (by split; [|rewrite Hnone]).
  pose proof (apply_block_outcome s1 height txs inputs outputs Hinv Hrows Hh) as Ho1.
  pose proof (apply_block_outcome s2 height txs inputs outputs Hinv2 Hrows Hh) as Ho2.
  rewrite Hok1 in Ho1. rewrite Hok2 in Ho2.
  destruct Ho1 as (Hv1 & _ & _ & _ & Hs1 & Hm1 & Hl1 & Hf1 & _).
  destruct Ho2 as (Hv2 & _ & _ & _ & Hs2 & Hm2 & Hl2 & Hf2 & _).
  pose proof (block_effect_ext _ _ height inputs outputs Hsame) as He. rewrite He in *.
  split_and!; [congruence| |congruence|].
  - apply list_eq. intros t. destruct (decide (t < length txs)%nat).
    + by rewrite Hf1, Hf2.
    + rewrite !lookup_ge_None_2; lia || done.
  - intros k. apply rows_outputs_wf in Hrows as Ho.
    rewrite (view_after_utxos (db_view (db s1)) _ _ _ inputs outputs _ (eq_sym He) Hv1 Ho Hh).
    rewrite (view_after_utxos (db_view (db s2)) _ _ _ inputs outputs _ eq_refl Hv2 Ho Hh).
    unfold after. by rewrite Hsame.
Qed.

(** C10: Reorganisation. In live mode, disconnecting the block just applied
    removes its undo record and the outputs it created without spending them,
    and puts every other entry of the database back to what it was before the
    block. So the database is exactly as before, apart from the undo record, if
    and only if none of those outputs was there before: one that was (a block
    re-creating a stored outpoint) is lost. It can fail only with a database
    error, and then the database is unchanged. *)
Theorem disconnect_reverses_apply (s s1 : UtxoStore) (height : Z) (txs : list TxRow)
    (inputs : list InputRow) (outputs : list OutputRow) (r : SpendResult)
    (Hlive : undo_enabled s = true) (Hinv : store_inv s)
    (Hrows : rows_wf (length txs) inputs outputs) (Hh : is_u32 height)
    (Hok : apply_block height txs inputs outputs s = (Ok r, s1)) :
  let e := block_effect (utxos (db_view (db s))) height inputs outputs in
  let created := filter (λ k, k ∉ e_same e) (output_key <$> outputs) in
  match disconnect_block height s1 with
  | (Ok _, s2) =>
    (∀ cf k, db_view (db s2) !! (cf, k) =
       if decide (cf = CfUndo ∧ k = undo_key height) then None
       else if decide (cf = CfDefault ∧ k ∈ created) then None else db_view (db s) !! (cf, k)) ∧
    (db_view (db s2) = delete (CfUndo, undo_key height) (db_view (db s)) ↔
       ∀ k, k ∈ created → db_view (db s) !! (CfDefault, k) = None)
  | (Err e, s2) => (∃ x, e = Rocks x) ∧ db_view (db s2) = db_view (db s1)
  | (Panic, _) => False
  end.
Proof.
  intros e created. pose proof (apply_block_outcome s height txs inputs outputs Hinv Hrows Hh) as Ho.
  rewrite Hok in Ho. destruct Ho as (Hview & _). rewrite Hlive in Hview.
  pose proof (disconnect_block_run _ s1 height _ inputs outputs Hrows Hview) as Hd.
  destruct (disconnect_block height s1) as [[u|x|] s2]; [|done|done].
  destruct Hd as [Hd _]. split; [exact Hd|by apply disconnect_exact].
Qed.

(** C38: The tip. A stored tip is the tip read back, storing it leaves the UTXO
    set alone, and applying a block leaves the stored tip alone. *)
Theorem tip_roundtrip (s s' : UtxoStore) (t : TipState) (Ht : is_u32 (tip_h t)) (Hl : len (tip_hash t) = 32)
    (Hok : set_tip t s = (Ok (), s')) :
  match tip s' with Ok t' => t' = Some t | Err e => ∃ x, e = Rocks x | Panic => False end ∧
  (∀ k, utxos (db_view (db s')) k = utxos (db_view (db s)) k) ∧
  (∀ height txs inputs outputs r s'', store_inv s' → rows_wf (length txs) inputs outputs → is_u32 height →
     apply_block height txs inputs outputs s' = (Ok r, s'') →
     db_view (db s'') !! (CfMeta, META_TIP_KEY) = db_view (db s') !! (CfMeta, META_TIP_KEY)).
Proof.
  pose proof (set_tip_run t s) as Hw. rewrite Hok in Hw. destruct Hw as [Hw _]. split_and!.
  - apply tip_run; [done|]. by rewrite Hw, lookup_insert_eq.
  - intros k. rewrite Hw. apply utxos_set_tip.
  - intros height txs inputs outputs r s'' Hinv Hrows Hh Hab.
    pose proof (apply_block_outcome _ height txs inputs outputs Hinv Hrows Hh) as Ho.
    rewrite Hab in Ho. destruct Ho as (Hview & _). by rewrite Hview.
Qed.
End theorems.

(** ** A concrete block over a concrete set *)

Module Ex.
Definition id (n : Z) : bytes := le_bytes 32 n.
Definition tx (k : Z) : TxRow := mkTxRow 9 k (id (100 + k)) 1 0 100 400 0 1 1 false.
Definition inp (k : Z) (prev : bytes) (vout : Z) (cb : bool) : InputRow :=
  mkInputRow 9 k 0 (id (100 + k)) prev vout 0 0 0 0 cb.
Definition out (k value : Z) : OutputRow := mkOutputRow 9 k 0 (id (100 + k)) value 22 4 (zeros 32).

Definition txs : list TxRow := [tx 0; tx 1; tx 2].
(** A coinbase, a spend of the set, a spend of the block's own output, and an unknown outpoint. *)
Definition inputs : list InputRow :=
  [inp 0 (zeros 32) 0xFFFFFFFF true; inp 1 (id 1) 0 false; inp 2 (id 101) 0 false; inp 2 (id 55) 3 false].
Definition outputs : list OutputRow := [out 0 50; out 1 800; out 2 750].

Definition base : View :=
  <[(CfDefault, make_key (id 1) 0) := utxo_encode (mkUtxo 1000 x01 3 (zeros 32))]> ∅.
Definition store (undo : bool) (rc : option RecentUtxoCache) : @UtxoStore rocks_ref :=
  @mkStore rocks_ref base (str "db") ∅ rc undo false.
Definition cache : RecentUtxoCache :=
  cache_insert (make_key (id 1) 0) (mkUtxo 1000 x01 3 (zeros 32)) (cache_new 1000).
Abbreviation run := (@apply_block rocks_ref clock_ref order_ref 9 txs inputs outputs).
End Ex.

Lemma ex_rows_wf : rows_wf (length Ex.txs) Ex.inputs Ex.outputs.
Proof.
  unfold rows_wf, output_wf, is_u64. split_and!; try done.
  - repeat constructor; simpl; done || lia.
  - repeat constructor; simpl; done || lia.
Qed.

Lemma ex_inv_plain undo : @store_inv rocks_ref (Ex.store undo None).
Proof. by split. Qed.

Lemma ex_inv_cache : @store_inv rocks_ref (Ex.store false (Some Ex.cache)).
Proof.
  assert (cache_inv (cache_new 1000)) as Hnew.
  { split_and!; [|done|done]. intros x. cbn [c_map cache_new]. rewrite lookup_empty. by intros []. }
  split; [done|]. split; [by apply cache_insert_inv|]. intros k v Hk.
  eapply lookup_weaken in Hk; [|by apply cache_insert_spec].
  apply lookup_insert_Some in Hk as [[<- <-]|[_ Hk]]; [vm_compute; reflexivity|].
  cbn [c_map cache_new] in Hk. by rewrite lookup_empty in Hk.
Qed.

(** The block applies in every mode. *)
Lemma ex_applies s :
  s ∈ [Ex.store true None; Ex.store false None; Ex.store false (Some Ex.cache)] →
  ∃ r s', Ex.run s = (Ok r, s').
Proof.
  intros Hs.
  assert (match fst (Ex.run s) with Ok _ => true | _ => false end = true) as Hok.
  { repeat (apply elem_of_cons in Hs as [->|Hs]; [vm_compute; reflexivity|]). by apply not_elem_of_nil in Hs. }
  destruct (Ex.run s) as [[r|e|] s']; [by exists r, s'|done..].
Qed.

Lemma ex_height : is_u32 9.
Proof. by split. Qed.

Lemma apply_block_refines_witness :
  ∃ r s', Ex.run (Ex.store true None) = (Ok r, s') ∧
    utxos (db_view (RocksDB := rocks_ref) (db s')) (make_key (Ex.id 1) 0) = None ∧
    utxos (db_view (RocksDB := rocks_ref) (db s')) (make_key (Ex.id 102) 0) = Some (mkUtxo 750 x04 9 (zeros 32)) ∧
    @store_inv rocks_ref s'.
Proof.
  destruct (ex_applies (Ex.store true None)) as (r & s' & Hrun); [left|].
  pose proof (@apply_block_refines rocks_ref clock_ref order_ref (Ex.store true None) 9 Ex.txs
    Ex.inputs Ex.outputs (ex_inv_plain true) ex_rows_wf ex_height) as Hr.
  rewrite Hrun in Hr. exists r, s'. destruct Hr as [Hset Hinv]. rewrite !Hset.
  split_and!; [exact Hrun|vm_compute; reflexivity|vm_compute; reflexivity|exact Hinv].
Defined.

Lemma apply_block_rows_witness :
  ∃ r s', Ex.run (Ex.store false (Some Ex.cache)) = (Ok r, s') ∧
    fees r !! 1%nat = Some 200 ∧ missing r + len (spends r) = 3 ∧
    pending_hits r + cache_hits r + db_lookups r = 3.
Proof.
  destruct (ex_applies (Ex.store false (Some Ex.cache))) as (r & s' & Hrun); [by do 2 right; left|].
  pose proof (@apply_block_rows rocks_ref clock_ref order_ref (Ex.store false (Some Ex.cache)) s' 9 Ex.txs
    Ex.inputs Ex.outputs r ex_inv_cache ex_rows_wf ex_height Hrun) as Hr.
  cbv zeta in Hr. destruct Hr as (_ & [_ Hf] & H1 & H2).
  exists r, s'. rewrite Hf by (simpl; lia). rewrite H1, H2.
  split_and!; [exact Hrun|vm_compute; reflexivity..].
Defined.

Lemma cache_transparent_witness :
  ∃ r1 r2 s1 s2, Ex.run (Ex.store false (Some Ex.cache)) = (Ok r1, s1) ∧
    Ex.run (Ex.store false None) = (Ok r2, s2) ∧ spends r1 = spends r2 ∧ fees r1 = fees r2.
Proof.
  destruct (ex_applies (Ex.store false (Some Ex.cache))) as (r1 & s1 & H1); [by do 2 right; left|].
  destruct (ex_applies (Ex.store false None)) as (r2 & s2 & H2); [by right; left|].
  exists r1, r2, s1, s2.
  pose proof (@cache_transparent rocks_ref clock_ref order_ref (Ex.store false (Some Ex.cache))
    (Ex.store false None) s1 s2 9 Ex.txs Ex.inputs Ex.outputs r1 r2 ex_inv_cache eq_refl
    (λ k, eq_refl) ex_rows_wf ex_height H1 H2) as Hc.
  destruct Hc as (Hs & Hf & _). split_and!; [exact H1|exact H2|exact Hs|exact Hf].
Defined.

Lemma ex_fresh o :
  o ∈ Ex.outputs → db_view (RocksDB := rocks_ref) (db (Ex.store true None)) !! (CfDefault, output_key o) = None.
Proof.
  intros Ho. repeat (apply elem_of_cons in Ho as [->|Ho]; [vm_compute; reflexivity|]).
  by apply not_elem_of_nil in Ho.
Qed.

Lemma disconnect_reverses_apply_witness :
  ∃ r s1, Ex.run (Ex.store true None) = (Ok r, s1) ∧
    match @disconnect_block rocks_ref 9 s1 with
    | (Ok _, s2) => db_view (RocksDB := rocks_ref) (db s2)
                    = delete (CfUndo, undo_key 9) (db_view (RocksDB := rocks_ref) (db (Ex.store true None)))
    | (Err _, s2) => True
    | (Panic, _) => False
    end.
Proof.
  destruct (ex_applies (Ex.store true None)) as (r & s1 & Hrun); [left|].
  exists r, s1. split; [exact Hrun|].
  pose proof (@disconnect_reverses_apply rocks_ref clock_ref order_ref (Ex.store true None) s1 9 Ex.txs
    Ex.inputs Ex.outputs r eq_refl (ex_inv_plain true) ex_rows_wf ex_height Hrun) as Hd.
  destruct (@disconnect_block rocks_ref 9 s1) as [[[]|e|] s2]; [|exact I|exact Hd].
  apply (proj2 Hd). intros k Hk. eapply created_fresh; [exact ex_fresh|exact Hk].
Defined.

Lemma tip_roundtrip_witness :
  match @set_tip rocks_ref (mkTip 7 (Ex.id 3)) (Ex.store true None) with
  | (Ok _, s') => match tip s' with Ok t' => t' = Some (mkTip 7 (Ex.id 3)) | Err e => ∃ x, e = Rocks x
                  | Panic => False end
  | _ => False
  end.
Proof.
  destruct (@set_tip rocks_ref (mkTip 7 (Ex.id 3)) (Ex.store true None)) as [[[]|e|] s'] eqn:Hs; [|done..].
  apply (@tip_roundtrip rocks_ref clock_ref order_ref (Ex.store true None) s' (mkTip 7 (Ex.id 3)));
    [by vm_compute|by vm_compute|exact Hs].
Defined.

(** The reversal can be lossy: a block that creates an
    outpoint the set already holds (a duplicate transaction id) overwrites it, and
    disconnecting that block deletes it. *)
Lemma disconnect_loses_recreated_output :
  let s := @mkStore rocks_ref Ex.base (str "db") ∅ None true false in
  let o := mkOutputRow 9 0 0 (Ex.id 1) 5 22 4 (zeros 32) in
  let s1 := snd (@apply_block rocks_ref clock_ref order_ref 9 [Ex.tx 0] [] [o] s) in
  let d := @disconnect_block rocks_ref 9 s1 in
  utxos Ex.base (make_key (Ex.id 1) 0) = Some (mkUtxo 1000 x01 3 (zeros 32)) ∧
  match fst d with Ok _ => true | _ => false end = true ∧ utxos (db_view (RocksDB := rocks_ref) (db (snd d))) (make_key (Ex.id 1) 0) = None.
Proof. split_and!; vm_compute; reflexivity. Qed.
