(* ===== verification/Chain.v ===== *)
(** * Chain: reconstruction of the main chain, [bidx-parser/src/chain.rs]

    The header map, the two passes that accumulate work, the choice of the tip
    and the walk back from it. Map iteration order is a parameter; loops have
    fuel, and a result of [None] means that it ran out. *)
From S2P Require Import Prelude F64 Hash Types BlkFile.


Record ChainBuildStats : Type := mkStats {
  total_records : Z; unique_blocks : Z; orphans : Z; files_scanned : Z;
  st_tip_height : Z; tip_hash : Hash32 }.

Record HeaderEntry : Type := mkEntry {
  he_prev : Hash32; he_location : BlockLocation; work : f64 }.

Definition work_from_bits `{Libm} (bits : Z) : f64 :=
  let exponent := Z.shiftr bits 24 in
  let mantissa := f64_of_Z (Z.land bits 0x007fffff) in
  if f64_eq mantissa f64_zero || (exponent <? 3) then f64_zero
  else
    let target_log2 :=
      f64_add (f64_log2 mantissa)
        (f64_mul (f64_of_Z 8) (f64_sub (f64_of_Z exponent) (f64_of_Z 3))) in
    f64_exp2 (f64_sub (f64_of_Z 256) target_log2).

Abbreviation Headers := (gmap Hash32 HeaderEntry).
Abbreviation Cum := (gmap Hash32 f64).

Section chain.
Context `{Fs} `{Sha256} `{Libm} `{HashOrder}.

(** [headers.entry(rec.hash).or_insert(..)]: the first record of a hash wins. *)
Definition insert_record (headers : Headers) (rec : BlkRecord) : Headers :=
  match headers !! rec_hash rec with
  | Some _ => headers
  | None => <[rec_hash rec := mkEntry (prev_hash (rec_header rec)) (location rec)
                                (work_from_bits (bits (rec_header rec)))]> headers
  end.

(** The header pass: the map, [total_records] and [files_scanned]. *)
Fixpoint scan_files (files : list (Z * rstr)) (headers : Headers) (total nfiles : Z)
    : option (Res BlkError (Headers * Z * Z)) :=
  match files with
  | [] => Some (Ok (headers, total, nfiles))
  | (file_id, path) :: files =>
    match open path file_id with
    | Ok bf =>
      match all_records bf with
      | Some (Ok recs) =>
        scan_files files (foldl insert_record headers recs) (total + len recs) (nfiles + 1)
      | Some (Err e) => Some (Err e)
      | Some Panic => Some Panic
      | None => None
      end
    | Err e => Some (Err e)
    | Panic => Some Panic
    end
  end.

Definition genesis_candidates (headers : Headers) : list Hash32 :=
  fst <$> filter (λ e, he_prev e.2 = ZERO ∨ headers !! he_prev e.2 = None) (map_iter headers).

(** The explicit stack of the first pass, the top at the head. *)
Fixpoint dfs (fuel : nat) (headers : Headers) (stack : list (Hash32 * bool)) (cum : Cum)
    : option Cum :=
  match stack with
  | [] => Some cum
  | (h, processed) :: stack =>
    match fuel with
    | O => None
    | S fuel =>
      match headers !! h with
      | None => dfs fuel headers stack cum
      | Some entry =>
        match cum !! h with
        | Some _ => dfs fuel headers stack cum
        | None =>
          let parent_cum :=
            if bool_decide (he_prev entry = ZERO) then Some f64_zero else cum !! he_prev entry in
          if (processed : bool) then
            let base := default f64_zero parent_cum in
            dfs fuel headers stack (<[h := f64_add base (work entry)]> cum)
          else
            match parent_cum with
            | Some _ => dfs fuel headers ((h, true) :: stack) cum
            | None => dfs fuel headers stack cum
            end
        end
      end
    end
  end.

Fixpoint first_pass (headers : Headers) (gs : list Hash32) (cum : Cum) : option Cum :=
  match gs with
  | [] => Some cum
  | g :: gs => cum ← dfs 2 headers [(g, false)] cum; first_pass headers gs cum
  end.

(** [for &p in path.iter().rev() { acc += ..; cum.insert(p, acc) }], where
    [path] is kept last-pushed first. *)
Fixpoint unwind (headers : Headers) (path : list Hash32) (acc : f64) (cum : Cum) : option Cum :=
  match path with
  | [] => Some cum
  | p :: path =>
    e ← headers !! p;
    let acc := f64_add acc (work e) in
    unwind headers path acc (<[p := acc]> cum)
  end.

(** The [loop] of [resolve_cum]. [Some cum]: it returned, with that map. *)
Fixpoint resolve_loop (fuel : nat) (headers : Headers) (path : list Hash32) (cur : Hash32)
    (cum : Cum) : option Cum :=
  match fuel with
  | O => None
  | S fuel =>
    match cum !! cur with
    | Some w => unwind headers path w cum
    | None =>
      match headers !! cur with
      | None => Some cum
      | Some e =>
        if bool_decide (he_prev e = ZERO) then
          unwind headers path (work e) (<[cur := work e]> cum)
        else resolve_loop fuel headers (cur :: path) (he_prev e) cum
      end
    end
  end.

Definition resolve_cum (h : Hash32) (headers : Headers) (cum : Cum) : option Cum :=
  match cum !! h with
  | Some _ => Some cum
  | None =>
    match headers !! h with
    | None => Some cum
    | Some entry =>
      if bool_decide (he_prev entry = ZERO) then
        Some (<[h := f64_add f64_zero (work entry)]> cum)
      else resolve_loop (S (size headers)) headers [] h cum
    end
  end.

Fixpoint second_pass (headers : Headers) (hs : list Hash32) (cum : Cum) : option Cum :=
  match hs with
  | [] => Some cum
  | h :: hs => cum ← resolve_cum h headers cum; second_pass headers hs cum
  end.

(** [for (h, &w) in cum_work.iter()]: the running maximum. *)
Definition tip_step (tip : option (Hash32 * f64)) (e : Hash32 * f64) : option (Hash32 * f64) :=
  match tip with
  | Some (_, tw) => if f64_le e.2 tw then tip else Some e
  | None => Some e
  end.

Definition choose_tip (cum : Cum) : option (Hash32 * f64) := foldl tip_step None (map_iter cum).

(** The walk back from the tip; the accumulator is [chain] after [reverse]. *)
Fixpoint walk_back (fuel : nat) (headers : Headers) (cur : Hash32) (chain : list Hash32)
    : option (list Hash32) :=
  match fuel with
  | O => None
  | S fuel =>
    let chain := cur :: chain in
    entry ← headers !! cur;
    if bool_decide (he_prev entry = ZERO) then Some chain
    else
      match headers !! he_prev entry with
      | Some _ => walk_back fuel headers (he_prev entry) chain
      | None => Some chain
      end
  end.

Definition assign_heights (chain : list Hash32) : gmap Hash32 Z :=
  foldl (λ m (e : nat * Hash32), <[e.2 := u32 (Z.of_nat e.1)]> m) ∅ (imap pair chain).

(** What follows the header pass. *)
Definition connect (blocks_dir : rstr) (headers : Headers) (total nfiles : Z)
    : option (Res BlkError (ChainIndex * ChainBuildStats)) :=
  cum ← first_pass headers (genesis_candidates headers) ∅;
  cum ← second_pass headers (fst <$> map_iter headers) cum;
  match choose_tip cum with
  | None => Some (Err (NoRecords blocks_dir))
  | Some (tip_hash, _) =>
    chain ← walk_back (S (size headers)) headers tip_hash [];
    by_height ← mapM (λ h, he_location <$> headers !! h) chain;
    let n := len chain in
    let nheaders := Z.of_nat (size headers) in
    Some (Ok (mkIndex by_height (assign_heights chain),
              mkStats total nheaders (sat_sub nheaders n) nfiles (u32 (u32 n - 1)) tip_hash))
  end.

Definition build_chain_index (blocks_dir : rstr)
    : option (Res BlkError (ChainIndex * ChainBuildStats)) :=
  match discover_blk_files blocks_dir with
  | Ok files =>
    match scan_files files ∅ 0 0 with
    | Some (Ok (headers, total, nfiles)) => connect blocks_dir headers total nfiles
    | Some (Err e) => Some (Err e)
    | Some Panic => Some Panic
    | None => None
    end
  | Err e => Some (Err e)
  | Panic => Some Panic
  end.
End chain.

(** ** Specification: chains of headers *)

Section spec.
Context (headers : Headers).

(** [path_to h l]: [l] lists the blocks from a genesis (zero previous hash) to [h]. *)
Inductive path_to : Hash32 → list Hash32 → Prop :=
  | P_genesis h e : headers !! h = Some e → he_prev e = ZERO → path_to h [h]
  | P_next h e l : headers !! h = Some e → he_prev e ≠ ZERO → path_to (he_prev e) l →
      path_to h (l ++ [h]).

(** Accumulated work along a path, summed from the genesis. *)
Definition hwork (h : Hash32) : f64 := from_option work f64_zero (headers !! h).
Definition path_work (l : list Hash32) : f64 := foldl (λ acc h, f64_add acc (hwork h)) f64_zero l.

(** Following previous hashes inside the map never cycles (a cycle would be a
    cycle of SHA-256). *)
Definition acyclic : Prop :=
  ∃ rank : Hash32 → nat, ∀ h e, headers !! h = Some e → he_prev e ≠ ZERO →
    is_Some (headers !! he_prev e) → (rank (he_prev e) < rank h)%nat.

(** ** Lemmas: paths *)

Lemma path_to_in h l : path_to h l → is_Some (headers !! h).
Proof. by intros []. Qed.

Lemma path_work_snoc l h : path_work (l ++ [h]) = f64_add (path_work l) (hwork h).
Proof. unfold path_work. by rewrite foldl_app. Qed.

Lemma hwork_eq h e : headers !! h = Some e → hwork h = work e.
Proof. unfold hwork. by intros ->. Qed.

Lemma path_to_last h l : path_to h l → ∃ l', l = l' ++ [h].
Proof. intros []; [by exists []|by eexists]. Qed.

Lemma path_to_prev h e l :
  headers !! h = Some e → he_prev e ≠ ZERO → path_to h l → ∃ l', path_to (he_prev e) l' ∧ l = l' ++ [h].
Proof. intros Hh Hz Hp. inversion Hp; simplify_eq. by eexists. Qed.

Lemma path_to_rank rank h l :
  (∀ h e, headers !! h = Some e → he_prev e ≠ ZERO → is_Some (headers !! he_prev e) →
     (rank (he_prev e) < rank h)%nat) →
  path_to h l → NoDup l ∧ ∀ x, x ∈ l → (rank x ≤ rank h)%nat ∧ is_Some (headers !! x).
Proof.
  intros Hr Hp. induction Hp as [h e Hh Hz|h e l Hh Hz Hp [Hnd Hl]].
  - split; [apply NoDup_singleton|]. intros x ->%list_elem_of_singleton. by split.
  - pose proof (Hr h e Hh Hz (path_to_in _ _ Hp)) as Hlt. split.
    + apply NoDup_app. split_and!; [done| |apply NoDup_singleton].
      intros x Hx ->%list_elem_of_singleton. apply Hl in Hx. lia.
    + intros x [Hx| ->%list_elem_of_singleton]%elem_of_app; [|by split].
      apply Hl in Hx. split; [lia|apply Hx].
Qed.

(** Distinct keys of the map are at most its size. *)
Lemma nodup_keys_size (l : list Hash32) :
  NoDup l → (∀ x, x ∈ l → is_Some (headers !! x)) → (length l ≤ size headers)%nat.
Proof.
  intros Hnd Hl. rewrite <-size_dom, <-(size_list_to_set (C := gset Hash32) l Hnd).
  apply subseteq_size. intros x Hx%elem_of_list_to_set. by apply elem_of_dom, Hl.
Qed.

Lemma path_length h l : acyclic → path_to h l → (length l ≤ size headers)%nat.
Proof.
  intros [rank Hr] Hp. destruct (path_to_rank rank h l Hr Hp) as [Hnd Hl].
  apply nodup_keys_size; [done|]. intros x Hx. by apply Hl.
Qed.

Lemma path_to_nodup h l : acyclic → path_to h l → NoDup l.
Proof. intros [rank Hr] Hp. by apply (path_to_rank rank h l Hr Hp). Qed.
End spec.

(** ** Lemmas: accumulating work *)

Section work.
Context `{Fs} `{Sha256} `{Libm} `{HashOrder}.
Context (headers : Headers).

(** Every accumulated value is the work of a path. *)
Definition good (cum : Cum) : Prop :=
  ∀ h w, cum !! h = Some w → ∃ l, path_to headers h l ∧ w = path_work headers l.

Definition has_geneses (cum : Cum) : Prop :=
  ∀ h e, headers !! h = Some e → he_prev e = ZERO → is_Some (cum !! h).

Lemma good_genesis cum h e :
  good cum → headers !! h = Some e → he_prev e = ZERO →
  good (<[h := f64_add f64_zero (work e)]> cum).
Proof.
  intros Hg Hh Hz x w. destruct (decide (x = h)) as [->|]; simplify_map_eq; [|by auto].
  intros [= <-]. exists [h]. split; [by eapply P_genesis|].
  unfold path_work. simpl. by rewrite (hwork_eq _ _ _ Hh).
Qed.

Lemma good_next cum h e l :
  good cum → headers !! h = Some e → he_prev e ≠ ZERO → path_to headers (he_prev e) l →
  good (<[h := f64_add (path_work headers l) (work e)]> cum).
Proof.
  intros Hg Hh Hz Hl x w. destruct (decide (x = h)) as [->|]; simplify_map_eq; [|by auto].
  intros [= <-]. exists (l ++ [h]). split; [by eapply P_next|].
  by rewrite path_work_snoc, (hwork_eq _ _ _ Hh).
Qed.

Lemma is_Some_insert (m : Cum) k w x : is_Some (m !! x) → is_Some (<[k := w]> m !! x).
Proof. intros. rewrite lookup_insert_is_Some'. by right. Qed.

Lemma dfs_spec g cum :
  good cum → ∃ cum', dfs 2 headers [(g, false)] cum = Some cum' ∧ good cum' ∧
    (∀ x, is_Some (cum !! x) → is_Some (cum' !! x)) ∧
    (∀ e, headers !! g = Some e → he_prev e = ZERO → is_Some (cum' !! g)).
Proof.
  intros Hg. cbn [dfs]. destruct (headers !! g) as [e|] eqn:He; [|by exists cum].
  destruct (cum !! g) as [w|] eqn:Hc; [by exists cum|].
  case_bool_decide as Hz.
  - eexists. split; [done|]. split_and!.
    + by apply good_genesis.
    + intros. by apply is_Some_insert.
    + intros. by rewrite lookup_insert_eq.
  - destruct (cum !! he_prev e) as [b|] eqn:Hb.
    + destruct (Hg _ _ Hb) as (l & Hl & ->). simpl.
      eexists. split; [done|]. split_and!.
      * by apply good_next.
      * intros. by apply is_Some_insert.
      * intros. by simplify_eq.
    + exists cum. split_and!; try done. intros. by simplify_eq.
Qed.

Lemma first_pass_spec gs cum :
  good cum → ∃ cum', first_pass headers gs cum = Some cum' ∧ good cum' ∧
    (∀ x, is_Some (cum !! x) → is_Some (cum' !! x)) ∧
    (∀ g e, g ∈ gs → headers !! g = Some e → he_prev e = ZERO → is_Some (cum' !! g)).
Proof.
  revert cum. induction gs as [|g gs IH]; intros cum Hg; cbn [first_pass].
  { exists cum. split_and!; try done. intros g e Hin. by apply not_elem_of_nil in Hin. }
  destruct (dfs_spec g cum Hg) as (c1 & -> & Hg1 & Hm1 & Hgen). simpl.
  destruct (IH c1 Hg1) as (c2 & -> & Hg2 & Hm2 & Hgs). exists c2. split_and!; auto.
  intros x e [->|Hin]%elem_of_cons He Hz; eauto.
Qed.

Lemma genesis_in_candidates h e :
  headers !! h = Some e → he_prev e = ZERO → h ∈ genesis_candidates headers.
Proof.
  intros Hh Hz. unfold genesis_candidates. apply list_elem_of_fmap. exists (h, e).
  split; [done|]. apply list_elem_of_filter. split; [by left|].
  rewrite map_iter_perm. by apply elem_of_map_to_list.
Qed.

(** [chain_down cur path]: [path] continues [cur] upwards, one child after another. *)
Fixpoint chain_down (cur : Hash32) (path : list Hash32) : Prop :=
  match path with
  | [] => True
  | p :: path =>
    (∃ e, headers !! p = Some e ∧ he_prev e = cur ∧ he_prev e ≠ ZERO) ∧ chain_down p path
  end.

Lemma unwind_spec path cur l cum :
  good cum → path_to headers cur l → chain_down cur path →
  ∃ cum', unwind headers path (path_work headers l) cum = Some cum' ∧ good cum' ∧
    (∀ x, is_Some (cum !! x) → is_Some (cum' !! x)) ∧ (∀ p, p ∈ path → is_Some (cum' !! p)).
Proof.
  revert cur l cum. induction path as [|p path IH]; intros cur l cum Hg Hl Hd; cbn [unwind].
  { exists cum. split_and!; try done. intros p Hp. by apply not_elem_of_nil in Hp. }
  destruct Hd as [(e & He & Hprev & Hz) Hd]. subst cur. rewrite He. simpl.
  rewrite <-(hwork_eq headers p e He), <-path_work_snoc.
  destruct (IH p (l ++ [p]) (<[p:=path_work headers (l ++ [p])]> cum)) as (c & Hc & Hgc & Hm & Hp);
    [|by eapply P_next|done|].
  { rewrite path_work_snoc, (hwork_eq _ _ _ He). by apply good_next. }
  exists c. split_and!; try done.
  - intros x Hx. by apply Hm, is_Some_insert.
  - intros q [->|Hq]%elem_of_cons; [|by apply Hp]. apply Hm. by rewrite lookup_insert_eq.
Qed.

Lemma chain_down_rank rank path cur :
  (∀ h e, headers !! h = Some e → he_prev e ≠ ZERO → is_Some (headers !! he_prev e) →
     (rank (he_prev e) < rank h)%nat) →
  chain_down cur path → is_Some (headers !! cur) → ∀ p, p ∈ path → (rank cur < rank p)%nat.
Proof.
  intros Hr. revert cur. induction path as [|q path IH]; intros cur Hd Hc p Hp.
  { by apply not_elem_of_nil in Hp. }
  destruct Hd as [(e & He & <- & Hz) Hd]. pose proof (Hr q e He Hz Hc).
  apply elem_of_cons in Hp as [->|Hp]; [done|].
  pose proof (IH q Hd ltac:(by rewrite He) p Hp). lia.
Qed.

Lemma chain_down_in path cur p : chain_down cur path → p ∈ path → is_Some (headers !! p).
Proof.
  revert cur. induction path as [|q path IH]; intros cur Hd Hp; [by apply not_elem_of_nil in Hp|].
  destruct Hd as [(e & He & _) Hd]. apply elem_of_cons in Hp as [->|Hp]; [by rewrite He|by eapply IH].
Qed.

Lemma resolve_loop_spec fuel path cur cum :
  acyclic headers → good cum → has_geneses cum → chain_down cur path → NoDup path →
  (fuel + length path = S (size headers))%nat →
  ∃ cum', resolve_loop fuel headers path cur cum = Some cum' ∧ good cum' ∧
    (∀ x, is_Some (cum !! x) → is_Some (cum' !! x)) ∧
    (∀ l, path_to headers cur l → is_Some (cum' !! cur) ∧ ∀ p, p ∈ path → is_Some (cum' !! p)).
Proof.
  intros [rank Hr] Hg Hgen. revert path cur.
  induction fuel as [|fuel IH]; intros path cur Hd Hnd Hf.
  { assert (length path ≤ size headers)%nat; [|lia].
    apply nodup_keys_size; [done|]. intros x. by apply (chain_down_in path cur). }
  cbn [resolve_loop]. destruct (cum !! cur) as [w|] eqn:Hc.
  { destruct (Hg _ _ Hc) as (l & Hl & ->).
    destruct (unwind_spec path cur l cum Hg Hl Hd) as (c & -> & ? & Hm & ?).
    exists c. split_and!; try done. intros. split; [|done]. by apply Hm. }
  destruct (headers !! cur) as [e|] eqn:He.
  2: { exists cum. split_and!; try done. intros l Hl%path_to_in. rewrite He in Hl. by destruct Hl. }
  case_bool_decide as Hz.
  { destruct (Hgen cur e He Hz) as [w Hw]. congruence. }
  destruct (IH (cur :: path) (he_prev e)) as (c & -> & ? & ? & Hall).
  - split; [by exists e|done].
  - constructor; [|done]. intros Hin.
    pose proof (chain_down_rank rank path cur Hr Hd ltac:(by rewrite He) cur Hin). lia.
  - simpl. lia.
  - exists c. split_and!; try done. intros l Hl.
    destruct (path_to_prev headers cur e l He Hz Hl) as (l' & Hl' & _).
    destruct (Hall l' Hl') as [_ Hp]. split; [apply Hp; left|].
    intros p Hin. apply Hp. by right.
Qed.

Lemma resolve_cum_spec h cum :
  acyclic headers → good cum → has_geneses cum →
  ∃ cum', resolve_cum h headers cum = Some cum' ∧ good cum' ∧
    (∀ x, is_Some (cum !! x) → is_Some (cum' !! x)) ∧
    (∀ l, path_to headers h l → is_Some (cum' !! h)).
Proof.
  intros Ha Hg Hgen. unfold resolve_cum. destruct (cum !! h) as [w|] eqn:Hc; [by exists cum|].
  destruct (headers !! h) as [e|] eqn:He.
  2: { exists cum. split_and!; try done. intros l Hl%path_to_in. rewrite He in Hl. by destruct Hl. }
  case_bool_decide as Hz; [destruct (Hgen h e He Hz); congruence|].
  destruct (resolve_loop_spec (S (size headers)) [] h cum) as (c & -> & ? & ? & Hall);
    [done..|apply NoDup_nil; done|simpl; lia|].
  exists c. split_and!; try done. intros l Hl. by destruct (Hall l Hl).
Qed.

Lemma second_pass_spec hs cum :
  acyclic headers → good cum → has_geneses cum →
  ∃ cum', second_pass headers hs cum = Some cum' ∧ good cum' ∧
    (∀ x, is_Some (cum !! x) → is_Some (cum' !! x)) ∧
    (∀ h l, h ∈ hs → path_to headers h l → is_Some (cum' !! h)).
Proof.
  intros Ha. revert cum. induction hs as [|h hs IH]; intros cum Hg Hgen; cbn [second_pass].
  { exists cum. split_and!; try done. intros h l Hin. by apply not_elem_of_nil in Hin. }
  destruct (resolve_cum_spec h cum Ha Hg Hgen) as (c1 & -> & Hg1 & Hm1 & Hs1). simpl.
  destruct (IH c1 Hg1) as (c2 & -> & Hg2 & Hm2 & Hs2).
  { intros x e Hx Hz. apply Hm1. by eapply Hgen. }
  exists c2. split_and!; auto. intros x l [->|Hin]%elem_of_cons Hl; eauto.
Qed.

(** After both passes the map holds exactly the connected blocks. *)
Definition cum_exact (cum : Cum) : Prop :=
  ∀ h w, cum !! h = Some w ↔ ∃ l, path_to headers h l ∧ w = path_work headers l.

Lemma path_to_unique h l l' : path_to headers h l → path_to headers h l' → l = l'.
Proof.
  intros Hp. revert l'. induction Hp as [h e Hh Hz|h e l Hh Hz Hp IH]; intros l' Hp';
    inversion Hp'; simplify_eq; [done|]. f_equal. by apply IH.
Qed.

Lemma passes_exact :
  acyclic headers → ∃ c1 c2, first_pass headers (genesis_candidates headers) ∅ = Some c1 ∧
    second_pass headers (fst <$> map_iter headers) c1 = Some c2 ∧ cum_exact c2.
Proof.
  intros Ha. destruct (first_pass_spec (genesis_candidates headers) ∅) as (c1 & Hc1 & Hg1 & _ & Hgen).
  { intros h w. by rewrite lookup_empty. }
  destruct (second_pass_spec (fst <$> map_iter headers) c1 Ha Hg1) as (c2 & Hc2 & Hg2 & _ & Hall).
  { intros h e Hh Hz. eapply Hgen; [|done..]. by eapply genesis_in_candidates. }
  exists c1, c2. split_and!; try done. intros h w. split; [apply Hg2|].
  intros (l & Hl & ->). destruct (Hall h l) as [w Hw]; [|done|].
  - destruct (path_to_in _ _ _ Hl) as [e He]. apply list_elem_of_fmap. exists (h, e).
    split; [done|]. rewrite map_iter_perm. by apply elem_of_map_to_list.
  - destruct (Hg2 h w Hw) as (l' & Hl' & ->). by rewrite (path_to_unique h l l').
Qed.
End work.

(** ** Lemmas: the tip, the walk back, the heights *)

Section tip.
Context `{Fs} `{Sha256} `{Libm} `{HashOrder}.

Lemma choose_tip_spec (es : list (Hash32 * f64)) acc :
  (∀ e, e ∈ es → not_nan e.2) → (∀ e, acc = Some e → not_nan e.2) →
  match foldl tip_step acc es with
  | None => acc = None ∧ es = []
  | Some t => (t ∈ es ∨ acc = Some t) ∧ not_nan t.2 ∧
      (∀ e, e ∈ es ∨ acc = Some e → f64_le e.2 t.2 = true)
  end.
Proof.
  revert acc. induction es as [|[h w] es IH]; intros acc Hes Hacc; simpl.
  { destruct acc as [t|]; [|done]. split_and!; [by right|by apply Hacc|].
    intros e [He|He]; [by apply not_elem_of_nil in He|]. simplify_eq.
    by apply f64_le_refl, Hacc. }
  assert (not_nan w) as Hw by (apply (Hes (h, w)); left).
  assert (∀ e, tip_step acc (h, w) = Some e → not_nan e.2) as Hs.
  { intros e. unfold tip_step. destruct acc as [[th tw]|]; simpl; [|by intros [= <-]].
    case_match; intros He; simplify_eq; [by apply Hacc|done]. }
  specialize (IH (tip_step acc (h, w)) ltac:(intros; apply Hes; by right) Hs).
  destruct (foldl tip_step (tip_step acc (h, w)) es) as [t|].
  - destruct IH as (Hin & Ht & Hle). split_and!; [|done|].
    + destruct Hin as [Hin|Hin]; [by left; right|]. unfold tip_step in Hin.
      destruct acc as [[th tw]|]; simpl in Hin; [|by left; simplify_eq; left].
      case_match; simplify_eq; [by right|left; left].
    + intros e He. assert (e ∈ es ∨ ∃ e', tip_step acc (h, w) = Some e' ∧ f64_le e.2 e'.2 = true)
        as [He'|(e' & He' & Hle')].
      { unfold tip_step. destruct He as [[->|He]%elem_of_cons|He]; [|by left|].
        - right. destruct acc as [[th tw]|]; simpl; [|eexists; split; [done|by apply f64_le_refl]].
          case_match; eexists; (split; [done|]); [done|by apply f64_le_refl].
        - right. subst acc. destruct e as [th tw]. simpl. case_match eqn:Hc; eexists; (split; [done|]).
          + apply f64_le_refl. by apply (Hacc (th, tw)).
          + simpl. destruct (f64_le_total tw w); [by apply (Hacc (th, tw))|done|done|congruence]. }
      * apply Hle. by left.
      * apply (f64_le_trans _ e'.2); [|by apply Hs|done|done|by apply Hle; right].
        destruct He as [He|He]; [by apply Hes|by apply Hacc].
  - destruct IH as [IH _]. unfold tip_step in IH. destruct acc as [[]|]; [|done].
    by case_match.
Qed.

Lemma walk_back_spec headers h l fuel acc :
  path_to headers h l → (length l ≤ fuel)%nat → walk_back fuel headers h acc = Some (l ++ acc).
Proof.
  intros Hp. revert fuel acc. induction Hp as [h e Hh Hz|h e l Hh Hz Hp IH]; intros fuel acc Hf.
  - destruct fuel; simpl in Hf; [lia|]. cbn [walk_back]. rewrite Hh. simpl.
    by rewrite bool_decide_true.
  - rewrite length_app in Hf. destruct fuel; simpl in Hf; [lia|]. cbn [walk_back].
    rewrite Hh. simpl. rewrite bool_decide_false by done.
    destruct (path_to_in _ _ _ Hp) as [e' ->]. rewrite IH by lia. by rewrite <-app_assoc.
Qed.

Lemma assign_heights_gen (l : list Hash32) (k : nat) (m : gmap Hash32 Z) :
  NoDup l →
  let r := foldl (λ m (e : nat * Hash32), <[e.2 := u32 (Z.of_nat e.1)]> m) m
             (imap (λ i h, ((k + i)%nat, h)) l) in
  (∀ i h, l !! i = Some h → r !! h = Some (u32 (Z.of_nat (k + i)))) ∧
  (∀ h, h ∉ l → r !! h = m !! h).
Proof.
  revert k m. induction l as [|x l IH]; intros k m Hnd; simpl; [by split|].
  apply NoDup_cons in Hnd as [Hx Hnd].
  rewrite Nat.add_0_r.
  rewrite (imap_ext ((λ i h, ((k + i)%nat, h)) ∘ S) (λ i h, ((S k + i)%nat, h)))
    by (intros; simpl; by rewrite Nat.add_succ_r).
  destruct (IH (S k) (<[x := u32 (Z.of_nat k)]> m) Hnd) as [Hin Hout]. split.
  - intros [|i] h Hi; simpl in Hi; simplify_eq.
    + rewrite Hout by done. by rewrite lookup_insert_eq, Nat.add_0_r.
    + rewrite (Hin i h Hi). do 2 f_equal. lia.
  - intros h [Hne Hh]%not_elem_of_cons. rewrite Hout by done. by rewrite lookup_insert_ne.
Qed.

Lemma assign_heights_spec (l : list Hash32) h z :
  NoDup l → len l ≤ 2 ^ 32 →
  assign_heights l !! h = Some z ↔ ∃ i, l !! i = Some h ∧ z = Z.of_nat i.
Proof.
  intros Hnd Hl. destruct (assign_heights_gen l 0 ∅ Hnd) as [Hin Hout].
  unfold assign_heights. change (imap pair l) with (imap (λ i h, ((0 + i)%nat, h)) l).
  assert (∀ i x, l !! i = Some x → u32 (Z.of_nat (0 + i)) = Z.of_nat i) as Hu.
  { intros i x Hi%lookup_lt_Some. unfold len, u32 in *. rewrite Z.mod_small; lia. }
  split.
  - intros Hz. destruct (decide (h ∈ l)) as [Hh|Hh].
    + apply list_elem_of_lookup in Hh as [i Hi]. exists i. split; [done|].
      rewrite (Hin i h Hi) in Hz. rewrite (Hu i h Hi) in Hz. congruence.
    + rewrite Hout in Hz by done. by rewrite lookup_empty in Hz.
  - intros (i & Hi & ->). rewrite (Hin i h Hi). by rewrite (Hu i h Hi).
Qed.

Lemma mapM_locations (headers : Headers) (l : list Hash32) :
  (∀ x, x ∈ l → is_Some (headers !! x)) →
  ∃ locs, mapM (λ h, he_location <$> headers !! h) l = Some locs ∧
    Forall2 (λ h loc, he_location <$> headers !! h = Some loc) l locs.
Proof.
  intros Hl. assert (is_Some (mapM (λ h, he_location <$> headers !! h) l)) as [locs Hlocs].
  { apply mapM_is_Some, Forall_forall. intros x Hx. destruct (Hl x Hx) as [e He]. unfold compose. rewrite He. by eexists. }
  exists locs. split; [done|]. by apply mapM_Some.
Qed.

Lemma path_in_headers headers h l x : path_to headers h l → x ∈ l → is_Some (headers !! x).
Proof.
  intros Hp. revert x. induction Hp as [h e Hh Hz|h e l Hh Hz Hp IH]; intros x Hx.
  - apply list_elem_of_singleton in Hx as ->. by rewrite Hh.
  - apply elem_of_app in Hx as [Hx| ->%list_elem_of_singleton]; [by apply IH|by rewrite Hh].
Qed.
End tip.

Lemma u32_pred n : 1 ≤ n < 2 ^ 32 → u32 (u32 n - 1) = n - 1.
Proof. intros Hn. unfold u32. rewrite (Z.mod_small n), Z.mod_small; lia. Qed.

(** ** Lemmas: the index *)

(** The main chain of a header map, as an index and its statistics give it:
    [path] leads from a genesis to the tip, no connected block has more
    accumulated work than the tip, locations are those of the path in height
    order, and the hash-to-height map inverts the path. *)
Record main_chain (headers : Headers) (ci : ChainIndex) (st : ChainBuildStats) (path : list Hash32) : Prop := {
  mc_path : path_to headers (tip_hash st) path;
  mc_heaviest : ∀ h l, path_to headers h l → f64_le (path_work headers l) (path_work headers path) = true;
  mc_by_height : Forall2 (λ h loc, he_location <$> headers !! h = Some loc) path (by_height ci);
  mc_heights : ∀ h z, hash_to_height ci !! h = Some z ↔ ∃ i, path !! i = Some h ∧ z = Z.of_nat i;
  mc_stats_tip : st_tip_height st = len path - 1;
  mc_tip : tip_height ci = Some (st_tip_height st);
  mc_orphans : orphans st = Z.of_nat (size headers) - len path }.

Section connect.
Context `{Fs} `{Sha256} `{Libm} `{HashOrder}.

Lemma connect_run (dir : rstr) (headers : Headers) (total nfiles : Z) :
  acyclic headers → (∀ h l, path_to headers h l → not_nan (path_work headers l)) →
  Z.of_nat (size headers) < 2 ^ 32 →
  match connect dir headers total nfiles with
  | Some (Ok (ci, st)) => ∃ path, main_chain headers ci st path
  | Some (Err e) => e = NoRecords dir ∧ ∀ h e, headers !! h = Some e → he_prev e ≠ ZERO
  | Some Panic | None => False
  end.
Proof.
  intros Hacyclic Hnan Hsize.
  destruct (passes_exact headers Hacyclic) as (c1 & c2 & Hp1 & Hp2 & Hex). unfold connect.
  rewrite Hp1. cbn [mbind option_bind]. rewrite Hp2. cbn [mbind option_bind].
  pose proof (choose_tip_spec (map_iter c2) None) as Htip. unfold choose_tip.
  assert (∀ h w, (h, w) ∈ map_iter c2 ↔ ∃ l, path_to headers h l ∧ w = path_work headers l) as Hit.
  { intros h w. rewrite map_iter_perm, elem_of_map_to_list. apply Hex. }
  destruct (foldl tip_step None (map_iter c2)) as [[th tw]|].
  - destruct Htip as ([Hin|] & _ & Hmax); [|done| |done].
    { intros [h w] (l & Hl & ->)%Hit. by eapply Hnan. }
    apply Hit in Hin as (path & Hpath & Hw). simpl in Hmax.
    pose proof (path_length _ _ _ Hacyclic Hpath) as Hlen.
    rewrite (walk_back_spec headers th path) by (done || lia). rewrite app_nil_r. cbn [mbind option_bind].
    destruct (mapM_locations headers path) as (locs & -> & Hlocs).
    { intros x. by apply (path_in_headers headers th). }
    simpl. exists path. split; try done.
    + intros h l Hl. rewrite <-Hw. apply (Hmax (h, path_work headers l)). left.
      apply Hit. by exists l.
    + intros h z. apply assign_heights_spec; [by eapply path_to_nodup|unfold len; lia].
    + apply path_to_last in Hpath as [p ->]. cbn [st_tip_height]. unfold len in *.
      rewrite length_app in *. simpl in *. apply u32_pred. lia.
    + unfold tip_height. cbn [by_height st_tip_height].
      apply Forall2_length in Hlocs as Hl2. unfold len. rewrite <-Hl2.
      apply path_to_last in Hpath as [p ->]. rewrite length_app in *. simpl in *.
      destruct locs; simpl in Hl2; [lia|]. f_equal. rewrite u32_pred by lia.
      apply Z.mod_small. lia.
    + unfold sat_sub, len. cbn [orphans]. lia.
  - destruct Htip as [_ Hnil]; [|done|].
    { intros [h w] (l & Hl & ->)%Hit. by eapply Hnan. }
    split; [done|]. intros h e Hh Hz.
    assert ((h, path_work headers [h]) ∈ map_iter c2) as Hin.
    { apply Hit. exists [h]. split; [by eapply P_genesis|done]. }
    rewrite Hnil in Hin. by apply not_elem_of_nil in Hin.
Qed.

End connect.

(** ** Theorems *)

Section theorems.
Context `{Fs} `{Sha256} `{Libm} `{HashOrder}.

(** C12: The main chain. Given the header map of the blk files, in whatever
    order the maps iterate: both work passes, the choice of the tip and the
    walk back terminate without indexing outside the map. If no block has the
    zero previous hash the error is [NoRecords]; otherwise the index is the
    path from a genesis to the tip, no other connected block has more
    accumulated work than the tip, locations are those of the path in height
    order, and the hash-to-height map inverts the path. *)
Theorem connect_main_chain (dir : rstr) (headers : Headers) (total nfiles : Z)
    (Hacyclic : acyclic headers)
    (Hnan : ∀ h l, path_to headers h l → not_nan (path_work headers l))
    (Hsize : Z.of_nat (size headers) < 2 ^ 32) :
  match connect dir headers total nfiles with
  | Some (Ok (ci, st)) => ∃ path,
      path_to headers (tip_hash st) path ∧
      (∀ h l, path_to headers h l →
         f64_le (path_work headers l) (path_work headers path) = true) ∧
      Forall2 (λ h loc, he_location <$> headers !! h = Some loc) path (by_height ci) ∧
      (∀ h z, hash_to_height ci !! h = Some z ↔ ∃ i, path !! i = Some h ∧ z = Z.of_nat i) ∧
      st_tip_height st = len path - 1 ∧ tip_height ci = Some (st_tip_height st) ∧
      orphans st = Z.of_nat (size headers) - len path
  | Some (Err e) => e = NoRecords dir ∧ ∀ h e, headers !! h = Some e → he_prev e ≠ ZERO
  | Some Panic | None => False
  end.
Proof.
  pose proof (connect_run dir headers total nfiles Hacyclic Hnan Hsize) as Hc.
  destruct (connect dir headers total nfiles) as [[[ci st]|e|]|]; [|done..].
  destruct Hc as [path []]. exists path. by split_and!.
Qed.

(** The header map. Scanning records in file order keeps, for every block
    hash, the first record seen with that hash and ignores later copies. *)
Theorem header_map_first_wins (recs : list BlkRecord) (h : Hash32) :
  foldl insert_record ∅ recs !! h =
    (λ e : nat * BlkRecord, mkEntry (prev_hash (rec_header e.2)) (location e.2)
                              (work_from_bits (bits (rec_header e.2))))
    <$> list_find (λ r, rec_hash r = h) recs.
Proof.
  assert (∀ m : Headers, foldl insert_record m recs !! h =
    match m !! h with Some e => Some e | None =>
      (λ e : nat * BlkRecord, mkEntry (prev_hash (rec_header e.2)) (location e.2)
                              (work_from_bits (bits (rec_header e.2))))
      <$> list_find (λ r, rec_hash r = h) recs end) as Hgen.
  { induction recs as [|r recs IH]; intros m; simpl; [by destruct (m !! h)|].
    rewrite IH. unfold insert_record. destruct (decide (rec_hash r = h)) as [<-|Hne].
    - destruct (m !! rec_hash r) eqn:Hm; simpl; [by rewrite Hm|by rewrite lookup_insert_eq].
    - destruct (m !! rec_hash r) eqn:Hm; simpl; rewrite ?lookup_insert_ne by done;
        destruct (m !! h); try done; by destruct (list_find _ _) as [[]|]. }
  by rewrite Hgen, lookup_empty.
Qed.
End theorems.

(** ** A concrete header map: a genesis, two children and an unconnected block *)

Module Ex.
Definition hash (n : Z) : Hash32 := le_bytes 32 n.
Definition entry (prev : Hash32) (off w : Z) : HeaderEntry :=
  mkEntry prev (mkLoc 0 off 88) (f64_of_Z w).
Definition headers : Headers :=
  <[hash 4 := entry (hash 9) 264 100]> (<[hash 3 := entry (hash 1) 176 7]>
    (<[hash 2 := entry (hash 1) 0 5]> (<[hash 1 := entry ZERO 88 5]> ∅))).

Lemma headers_inv h e : headers !! h = Some e →
  (h = hash 1 ∧ e = entry ZERO 88 5) ∨ (h = hash 2 ∧ e = entry (hash 1) 0 5) ∨
  (h = hash 3 ∧ e = entry (hash 1) 176 7) ∨ (h = hash 4 ∧ e = entry (hash 9) 264 100).
Proof.
  unfold headers. rewrite !lookup_insert_Some, lookup_empty.
  intros [[<- <-]|[_ [[<- <-]|[_ [[<- <-]|[_ [[<- <-]|[_ ?]]]]]]]]; [..|done].
  all: [> do 3 right|do 2 right; left|right; left|left]; done.
Qed.

Lemma paths h l : path_to headers h l →
  l = [hash 1] ∨ l = [hash 1; hash 2] ∨ l = [hash 1; hash 3].
Proof.
  assert (∀ l, path_to headers (hash 1) l → l = [hash 1]) as Hg.
  { intros l' Hl. eapply path_to_unique; [apply Hl|].
    eapply (P_genesis _ _ (entry ZERO 88 5)); by vm_compute. }
  intros Hp. inversion Hp as [? e He Hz|? e l' He Hz Hl]; subst;
    destruct (headers_inv h e He) as [[-> ->]|[[-> ->]|[[-> ->]|[-> ->]]]]; try done.
  - by left.
  - right; left. by rewrite (Hg l' Hl).
  - right; right. by rewrite (Hg l' Hl).
  - apply path_to_in in Hl as [x Hx]. by vm_compute in Hx.
Qed.
End Ex.

Lemma connect_main_chain_witness :
  match @connect BlkFile.Ex.fs order_ref (str "b") Ex.headers 4 1 with
  | Some (Ok (ci, st)) => tip_hash st = Ex.hash 3 ∧ tip_height ci = Some (st_tip_height st) ∧
      by_height ci = [mkLoc 0 88 88; mkLoc 0 176 88]
  | _ => False
  end.
Proof.
  pose proof (@connect_main_chain BlkFile.Ex.fs order_ref (str "b") Ex.headers 4 1) as Hc.
  assert (match @connect BlkFile.Ex.fs order_ref (str "b") Ex.headers 4 1 with
          | Some (Ok (ci, st)) => Some (tip_hash st, by_height ci) | _ => None end
          = Some (Ex.hash 3, [mkLoc 0 88 88; mkLoc 0 176 88])) as Hr by (vm_compute; reflexivity).
  destruct (@connect BlkFile.Ex.fs order_ref (str "b") Ex.headers 4 1) as [[[ci st]|e|]|]; try done.
  injection Hr as Ht Hb.
  destruct Hc as (path & _ & _ & _ & _ & _ & Hth & _); [| |vm_compute; reflexivity|by split_and!].
  - exists (λ h, if decide (h = Ex.hash 1) then 0 else 1)%nat. intros h e He Hz Hs.
    destruct (Ex.headers_inv h e He) as [[-> ->]|[[-> ->]|[[-> ->]|[-> ->]]]].
    + by destruct Hz.
    + vm_compute. lia.
    + vm_compute. lia.
    + destruct Hs as [x Hx]. by vm_compute in Hx.
  - intros h l Hl. by destruct (Ex.paths h l Hl) as [->|[->| ->]]; vm_compute.
Defined.
