(* ===== verification/Disk.v ===== *)
(** * Disk: disk-space accounting, [bidx-core/src/disk.rs]

    The networks, the size of a directory tree, the checkpoint file (reading
    and appending) and the projection of the final size. *)
From S2P Require Import Prelude F64 Text Hash Types BlkFile.

Definition CHECKPOINT_HEIGHT_STEP : Z := 100000.

(** [checkpoint_step], given the value of the environment variable. *)
Definition checkpoint_step (env : option rstr) : Z :=
  default CHECKPOINT_HEIGHT_STEP (s ← env; parse_uint u32_max s).

Definition MIN_FREE_BYTES : Z := 10 * 1024 * 1024 * 1024.

Inductive Network : Type := Mainnet | Testnet3 | Testnet4 | Signet | Regtest.

#[global] Instance Network_eq_dec : EqDecision Network.
Proof. solve_decision. Defined.

Definition net_name (n : Network) : rstr :=
  match n with
  | Mainnet => str "mainnet"
  | Testnet3 => str "testnet3"
  | Testnet4 => str "testnet4"
  | Signet => str "signet"
  | Regtest => str "regtest"
  end.

Definition from_magic (magic : Z) : option Network :=
  if magic =? BLOCK_MAGIC then Some Mainnet
  else if magic =? BLOCK_MAGIC_TESTNET3 then Some Testnet3
  else if magic =? BLOCK_MAGIC_SIGNET then Some Signet
  else if magic =? BLOCK_MAGIC_TESTNET4 then Some Testnet4
  else if magic =? BLOCK_MAGIC_REGTEST then Some Regtest
  else None.

(** The order of [entries.sort()]. *)
Definition path_le (a b : rstr) : Prop := str_le a b = true.

#[global] Instance path_le_dec a b : Decision (path_le a b) := bool_eq_dec (str_le a b) true.

(** The [filter_map] over the entries: one that cannot be read is skipped. *)
Definition blk_entry `{Fs} (e : Res IoError (rstr * rstr)) : option rstr :=
  match e with
  | Ok (name, p) =>
    if bool_decide (is_Some (strip_prefix (str "blk") name))
       && bool_decide (is_Some (strip_suffix (str ".dat") name)) then Some p else None
  | _ => None
  end.

Definition detect_from_blocks_dir `{Fs} (blocks_dir : rstr) : option Network :=
  rd ← res_ok (fs_read_dir blocks_dir);
  let entries := omap blk_entry rd in
  first ← head (merge_sort path_le entries);
  data ← res_ok (fs_read first);
  if len data <? 4 then None else from_magic (le_val (slice 0 4 data)).

(** What [fs::read_dir] yields for a directory tree: an entry that cannot be
    read, an entry without a file type, a symbolic link, a directory (with its
    own listing, if it can be read), another file (with its length, if its
    metadata can be read). *)
Inductive Entry : Type :=
  | EntryErr
  | NoFileType
  | Symlink
  | Dir (rd : option (list Entry))
  | File (metadata_len : option Z).

(** [inner] of [dir_size_bytes]. *)
Fixpoint dir_entry_size (e : Entry) : Z :=
  match e with
  | EntryErr | NoFileType | Symlink | File None => 0
  | File (Some n) => n
  | Dir None => 0
  | Dir (Some rd) => foldl (λ total e, sat_add total e) 0 (map dir_entry_size rd)
  end.

(** [dir_size_bytes]: [None] when the path does not exist. *)
Definition dir_size_bytes (path : option Entry) : Z :=
  match path with None => 0 | Some e => dir_entry_size (match e with Dir _ => e | _ => Dir None end) end.

(** [free_space_bytes] over the path and its ancestors: per path the result of
    [statfs], [None] when the path holds a NUL byte, [Some None] when the call
    fails, else [(f_bavail, f_bsize)]. *)
Fixpoint free_space_bytes (ancestors : list (option (option (Z * Z)))) : option Z :=
  match ancestors with
  | [] => None
  | None :: _ => None
  | Some (Some (avail, size)) :: _ => Some (Z.min u64_max (avail * size))
  | Some None :: parents => free_space_bytes parents
  end.

Record DiskCheckpoint : Type := mkCp { cp_height : Z; cp_total : Z }.

(** [BufReader::lines().map_while(Result::ok)]. *)
Fixpoint valid_lines (ls : list bytes) : list rstr :=
  match ls with
  | [] => []
  | l :: ls => match utf8_decode l with Some s => s :: valid_lines ls | None => [] end
  end.

Definition buf_lines (b : bytes) : list rstr := valid_lines (split_lines x0a x0d [] b).

(** One round of the loop of [read_checkpoints]: the section and the list. *)
Definition scan_line (net : Network) (st : option rstr * list DiskCheckpoint) (line : rstr)
    : option rstr * list DiskCheckpoint :=
  let line := trim line in
  if bool_decide (line = []) || bool_decide (head line = Some 35) then st
  else
    match split_whitespace line with
    | [a; b] =>
      if bool_decide (a = str "network") then (Some b, st.2)
      else if bool_decide (st.1 = Some (net_name net)) then
        match parse_uint u32_max a, parse_uint u64_max b with
        | Some h, Some n => (st.1, st.2 ++ [mkCp h n])
        | _, _ => st
        end
      else st
    | _ => st
    end.

Definition scan (net : Network) (ls : list rstr) : option rstr * list DiskCheckpoint :=
  foldl (scan_line net) (None, []) ls.

(** [sort_by_key(|c| c.height)], a stable sort. *)
Fixpoint insert_by_height (c : DiskCheckpoint) (l : list DiskCheckpoint) : list DiskCheckpoint :=
  match l with
  | [] => [c]
  | d :: l => if cp_height c <? cp_height d then c :: d :: l else d :: insert_by_height c l
  end.

Definition sort_by_height (l : list DiskCheckpoint) : list DiskCheckpoint :=
  foldl (λ acc c, insert_by_height c acc) [] l.

(** The checkpoint file is its content, [None] when it does not exist. *)
Definition read_checkpoints (file : option bytes) (net : Network) : list DiskCheckpoint :=
  match file with
  | None => []
  | Some b => sort_by_height (scan net (buf_lines b)).2
  end.

(** What the operating system answers to [append_checkpoint]: creating the
    parent directory, opening, and a write of some bytes after the content,
    which may stop after a prefix. *)
Class AppendIo `{Fs} := {
  create_parent : option IoError;
  open_append : option IoError;
  write_fault : bytes → bytes → option (nat * IoError)
}.

Section append.
Context `{AppendIo}.

Definition io_check (e : option IoError) : M (option bytes) IoError () :=
  match e with Some e => m_fail e | None => mret () end.

Definition writeln (line : rstr) : M (option bytes) IoError () := λ f,
  let old := default [] f in
  let new := utf8_encode (line ++ [10]) in
  match write_fault old new with
  | Some (k, e) => (Err e, Some (old ++ take k new))
  | None => (Ok (), Some (old ++ new))
  end.

Definition network_line (net : Network) : rstr := str "network " ++ net_name net.

Definition checkpoint_line (cp : DiskCheckpoint) : rstr :=
  fmt_dec (cp_height cp) ++ [32] ++ fmt_dec (cp_total cp).

Definition header_line_1 : rstr := str "# bidx disk checkpoints v1".
Definition header_line_2 : rstr :=
  str "# one 'network <name>' section per chain; lines are '<height> <total_bytes>'".

Definition has_section (file : option bytes) (net : Network) : bool :=
  negb (bool_decide (read_checkpoints file net = []))
  || match file ≫= utf8_decode with
     | Some s => existsb (λ l, bool_decide (trim l = network_line net)) (str_lines s)
     | None => false
     end.

(** The [writeln!]s of [append_checkpoint]. *)
Definition append_lines (need_header sec : bool) (net : Network) (cp : DiskCheckpoint)
    : M (option bytes) IoError () :=
  _ ← (if need_header then _ ← writeln header_line_1; writeln header_line_2 else mret ());
  _ ← (if sec then mret () else writeln (network_line net));
  writeln (checkpoint_line cp).

Definition append_checkpoint (net : Network) (cp : DiskCheckpoint) : M (option bytes) IoError () :=
  _ ← io_check create_parent;
  file ← m_get;
  if existsb (λ c, cp_height c =? cp_height cp) (read_checkpoints file net) then mret ()
  else
    let sec := has_section file net in
    let need_header := bool_decide (file = None) in
    _ ← io_check open_append;
    _ ← m_modify (λ f, Some (default [] f));
    append_lines need_header sec net cp.
End append.

(** One round of the loop of [linreg]. *)
Definition linreg_step (s : f64 * f64 * f64 * f64) (p : DiskCheckpoint) : f64 * f64 * f64 * f64 :=
  let '(sx, sy, sxy, sxx) := s in
  let x := f64_of_Z (cp_height p) in
  let y := f64_of_Z (cp_total p) in
  (f64_add sx x, f64_add sy y, f64_add sxy (f64_mul x y), f64_add sxx (f64_mul x x)).

(** Intercept and slope. *)
Definition linreg (pts : list DiskCheckpoint) : f64 * f64 :=
  match pts with
  | [] => (f64_zero, f64_zero)
  | [p] => (f64_zero, f64_of_Z (cp_total p))
  | _ =>
    let n := f64_of_Z (len pts) in
    let '(sx, sy, sxy, sxx) := foldl linreg_step (f64_zero, f64_zero, f64_zero, f64_zero) pts in
    let denom := f64_sub (f64_mul n sxx) (f64_mul sx sx) in
    if f64_lt (f64_abs denom) f64_epsilon then (f64_zero, f64_div sy n)
    else
      let b := f64_div (f64_sub (f64_mul n sxy) (f64_mul sx sy)) denom in
      let a := f64_div (f64_sub sy (f64_mul b sx)) n in
      (a, f64_max b f64_zero)
  end.

Definition projected_total_bytes (pts : list DiskCheckpoint) (target_height : Z) : Z :=
  let '(a, b) := linreg pts in
  f64_to_u64 (f64_max (f64_add a (f64_mul b (f64_of_Z target_height))) f64_zero).

Example linreg_line :
  projected_total_bytes [mkCp 100000 318705664; mkCp 200000 673185792] 900000 = 3154546688.
Proof. vm_compute. reflexivity. Qed.

(** ** Specification *)

(** The bytes of the files of a tree, links not followed. *)
Fixpoint tree_bytes (e : Entry) : Z :=
  match e with
  | File (Some n) => n
  | Dir (Some rd) => zsum id (map tree_bytes rd)
  | _ => 0
  end.

Fixpoint tree_wf (e : Entry) : bool :=
  match e with
  | File (Some n) => (0 <=? n) && (n <=? u64_max)
  | Dir (Some rd) => forallb id (map tree_wf rd)
  | _ => true
  end.

(** A text file of the given lines. *)
Definition line_ok (l : rstr) : Prop := is_ascii l ∧ 10 ∉ l ∧ last l ≠ Some 13.

Definition text_bytes (ls : list rstr) : bytes := utf8_encode (mjoin ((λ l, l ++ [10]) <$> ls)).

Definition file_holds (file : option bytes) (ls : list rstr) : Prop :=
  (file = None ∧ ls = []) ∨ file = Some (text_bytes ls).

(** The section that a line added at the end would belong to. *)
Definition open_section (ls : list rstr) : option rstr := (scan Mainnet ls).1.

Definition increasing (l : list DiskCheckpoint) : Prop :=
  StronglySorted (λ a b, cp_height a < cp_height b) l.

(** ** Lemmas: the directory tree *)

Section entry_ind.
Variable P : Entry → Prop.
Hypothesis Herr : P EntryErr.
Hypothesis Hno : P NoFileType.
Hypothesis Hsym : P Symlink.
Hypothesis Hfile : ∀ n, P (File n).
Hypothesis Hdir0 : P (Dir None).
Hypothesis Hdir : ∀ rd, Forall P rd → P (Dir (Some rd)).

Fixpoint entry_ind' (e : Entry) : P e :=
  match e with
  | EntryErr => Herr
  | NoFileType => Hno
  | Symlink => Hsym
  | File n => Hfile n
  | Dir None => Hdir0
  | Dir (Some rd) =>
    Hdir rd ((fix go (l : list Entry) : Forall P l :=
      match l with
      | [] => List.Forall_nil P
      | e :: l => List.Forall_cons P e l (entry_ind' e) (go l)
      end) rd)
  end.
End entry_ind.

Lemma sat_add_total a b :
  0 ≤ a → 0 ≤ b → sat_add (Z.min u64_max a) (Z.min u64_max b) = Z.min u64_max (a + b).
Proof. unfold sat_add, u64_max. lia. Qed.

Lemma tree_nonneg e : tree_wf e = true → 0 ≤ tree_bytes e.
Proof.
  induction e as [| | |[n|]| |rd IH] using entry_ind'; simpl; intros Hwf; try lia.
  induction IH as [|e rd He _ IH]; [done|]. cbn [map forallb] in *. rewrite zsum_cons.
  apply andb_prop in Hwf as [Hw1 Hw2]. specialize (He Hw1). specialize (IH Hw2). unfold id at 1. lia.
Qed.

Lemma dir_fold_total rd acc :
  Forall (λ e, 0 ≤ tree_bytes e ∧ dir_entry_size e = Z.min u64_max (tree_bytes e)) rd → 0 ≤ acc →
  foldl (λ total e, sat_add total e) (Z.min u64_max acc) (map dir_entry_size rd) =
    Z.min u64_max (acc + zsum id (map tree_bytes rd)).
Proof.
  intros Hrd. revert acc. induction Hrd as [|e rd [H0 He] _ IH]; intros acc Hacc; cbn [map foldl]; [f_equal; simpl; lia|].
  rewrite He, sat_add_total, IH, zsum_cons by lia. f_equal. unfold id at 2. lia.
Qed.

Lemma dir_entry_size_total e : tree_wf e = true → dir_entry_size e = Z.min u64_max (tree_bytes e).
Proof.
  induction e as [| | |[n|]| |rd IH] using entry_ind'; simpl; intros Hwf; try (unfold u64_max in *; lia).
  change 0 with (Z.min u64_max 0). rewrite dir_fold_total; [done| |lia].
  induction IH as [|e rd He _ IH]; constructor; simpl in *; apply andb_prop in Hwf as [Hw1 Hw2].
  - split; [by apply tree_nonneg|by apply He].
  - by apply IH.
Qed.

(** ** Lemmas: text files *)

Lemma text_bytes_app ls ls' : text_bytes (ls ++ ls') = text_bytes ls ++ text_bytes ls'.
Proof. unfold text_bytes. by rewrite fmap_app, join_app, utf8_encode_app. Qed.

Lemma text_bytes_cons l ls : text_bytes (l :: ls) = utf8_encode (l ++ [10]) ++ text_bytes ls.
Proof. unfold text_bytes. by rewrite fmap_cons, <-utf8_encode_app. Qed.

Lemma utf8_encode_ascii l : is_ascii l → utf8_encode l = Zbyte <$> l.
Proof.
  induction 1 as [|c l Hc Hl IH]; [done|]. change (c :: l) with ([c] ++ l).
  rewrite utf8_encode_app, IH. unfold utf8_encode, utf8_encode_char. simpl.
  by rewrite (proj2 (Z.ltb_lt c _)) by lia.
Qed.

Lemma Zbyte_inj a b : 0 ≤ a < 256 → 0 ≤ b < 256 → Zbyte a = Zbyte b → a = b.
Proof. intros Ha Hb H%(f_equal byteZ). rewrite !byteZ_Zbyte, !Z.mod_small in H by lia. done. Qed.

Lemma split_text ls :
  Forall line_ok ls → split_lines x0a x0d [] (text_bytes ls) = utf8_encode <$> ls.
Proof.
  induction 1 as [|l ls (Ha & Hn & Hcr) Hls IH]; [done|].
  rewrite text_bytes_cons, utf8_encode_app. change (utf8_encode [10]) with [x0a].
  rewrite <-app_assoc. simpl ([x0a] ++ _). rewrite split_lines_app, IH, split_lines_one.
  - rewrite strip_cr_id; [done|]. simpl. rewrite utf8_encode_ascii by done. rewrite fmap_last.
    intros x (c & Hc & ->)%fmap_Some Hx. apply Hcr. rewrite Hc. f_equal.
    apply Zbyte_inj; [|lia|done]. apply last_Some_elem_of in Hc. unfold is_ascii in Ha. rewrite Forall_forall in Ha.
    apply Ha in Hc. lia.
  - rewrite utf8_encode_ascii by done. intros (c & Hc & Hin)%list_elem_of_fmap.
    assert (c = 10) as ->; [|done]. unfold is_ascii in Ha. rewrite Forall_forall in Ha.
    pose proof (Ha c Hin). symmetry. apply Zbyte_inj; [lia|lia|done].
Qed.

Lemma valid_lines_encode ls : Forall line_ok ls → valid_lines (utf8_encode <$> ls) = ls.
Proof.
  induction 1 as [|l ls (Ha & _) Hls IH]; [done|]. rewrite fmap_cons. cbn [valid_lines]. by rewrite utf8_decode_encode_ascii, IH.
Qed.

Lemma buf_lines_text ls : Forall line_ok ls → buf_lines (text_bytes ls) = ls.
Proof. intros. unfold buf_lines. by rewrite split_text, valid_lines_encode. Qed.

Lemma read_file_holds file ls net :
  file_holds file ls → Forall line_ok ls → read_checkpoints file net = sort_by_height (scan net ls).2.
Proof. intros [[-> ->]| ->] Hls; [done|]. simpl. by rewrite buf_lines_text. Qed.

(** ** Lemmas: scanning *)

Lemma scan_app net ls ls' : scan net (ls ++ ls') = foldl (scan_line net) (scan net ls) ls'.
Proof. apply foldl_app. Qed.

Lemma scan_section net net' ls : (scan net ls).1 = (scan net' ls).1.
Proof.
  unfold scan. assert (∀ st st' : option rstr * list DiskCheckpoint, st.1 = st'.1 →
    (foldl (scan_line net) st ls).1 = (foldl (scan_line net') st' ls).1) as Hs; [|by apply Hs].
  induction ls as [|l ls IH]; intros st st' Hst; simpl; [done|]. apply IH.
  unfold scan_line. repeat case_match; simpl; try done; by rewrite Hst.
Qed.

Lemma net_name_inj a b : net_name a = net_name b → a = b.
Proof. by destruct a, b. Qed.

Lemma sort_by_height_snoc l c : sort_by_height (l ++ [c]) = insert_by_height c (sort_by_height l).
Proof. unfold sort_by_height. by rewrite foldl_app. Qed.

(** ** Lemmas: the lines the program writes *)

Definition plain_char (c : Z) : Prop := 0 ≤ c < 0x80 ∧ c ≠ 10 ∧ c ≠ 13.

#[global] Instance plain_char_dec c : Decision (plain_char c).
Proof. unfold plain_char. apply _. Defined.

Lemma line_ok_plain l : Forall plain_char l → line_ok l.
Proof.
  intros Hl. unfold line_ok. rewrite Forall_forall in Hl. split_and!.
  - apply Forall_forall. intros c Hc. by apply Hl in Hc as [? _].
  - intros Hin. by apply Hl in Hin as (_ & ? & _).
  - intros Hin%last_Some_elem_of. by apply Hl in Hin as (_ & _ & ?).
Qed.

Lemma network_line_ok net : line_ok (network_line net).
Proof. apply line_ok_plain, (bool_decide_unpack _). by destruct net; vm_compute. Qed.

Lemma header_lines_ok : Forall line_ok [header_line_1; header_line_2].
Proof. do 2 (constructor; [apply line_ok_plain, (bool_decide_unpack _); by vm_compute|]). constructor. Qed.

Lemma scan_network_line net net' st :
  scan_line net st (network_line net') = (Some (net_name net'), st.2).
Proof. by destruct net'. Qed.

Lemma scan_header_lines net st : foldl (scan_line net) st [header_line_1; header_line_2] = st.
Proof. done. Qed.

Definition cp_wf (cp : DiskCheckpoint) : Prop := is_u32 (cp_height cp) ∧ is_u64 (cp_total cp).

Section checkpoint_line.
Variable cp : DiskCheckpoint.
Hypothesis Hcp : cp_wf cp.

Lemma checkpoint_line_chars :
  Forall (λ c, c = 32 ∨ is_ascii_digit c = true) (checkpoint_line cp).
Proof.
  destruct Hcp as [[Hh _] [Ht _]]. unfold checkpoint_line.
  apply Forall_app. split; [|apply Forall_app; split; [by repeat constructor; left|]];
    (eapply Forall_impl; [by apply fmt_dec_digits|by right]).
Qed.

Lemma checkpoint_line_ok : line_ok (checkpoint_line cp).
Proof.
  apply line_ok_plain. eapply Forall_impl; [apply checkpoint_line_chars|].
  intros c Hc. unfold is_ascii_digit, plain_char in *. lia.
Qed.

Lemma checkpoint_line_head c : head (checkpoint_line cp) = Some c → is_ascii_digit c = true.
Proof.
  destruct Hcp as [[Hh _] _]. pose proof (fmt_dec_digits _ Hh) as Hd. unfold checkpoint_line.
  pose proof (fmt_dec_ne (cp_height cp)). destruct (fmt_dec (cp_height cp)); [done|].
  apply Forall_cons in Hd as [Hd _]. simpl. congruence.
Qed.

Lemma checkpoint_line_last c : last (checkpoint_line cp) = Some c → is_ascii_digit c = true.
Proof.
  destruct Hcp as [_ [Ht _]]. pose proof (fmt_dec_digits _ Ht) as Hd. unfold checkpoint_line.
  rewrite app_assoc, last_app. pose proof (fmt_dec_ne (cp_total cp)) as Hne.
  destruct (last (fmt_dec (cp_total cp))) as [d|] eqn:Hl.
  - intros [= ->]. apply last_Some_elem_of in Hl. rewrite Forall_forall in Hd. by apply Hd.
  - by apply last_None in Hl.
Qed.

Lemma digit_not_space c : is_ascii_digit c = true → is_whitespace c = false.
Proof. unfold is_ascii_digit, is_whitespace. lia. Qed.

Lemma checkpoint_line_trim : trim (checkpoint_line cp) = checkpoint_line cp.
Proof.
  apply trim_id; intros c Hc; apply digit_not_space;
    [by apply checkpoint_line_head|by apply checkpoint_line_last].
Qed.

Lemma checkpoint_line_words :
  split_whitespace (checkpoint_line cp) = [fmt_dec (cp_height cp); fmt_dec (cp_total cp)].
Proof.
  destruct Hcp as [[Hh _] [Ht _]]. unfold split_whitespace, checkpoint_line. simpl ([32] ++ _).
  rewrite words_app by done. rewrite !words_word; [done|..]; try apply fmt_dec_ne;
    (eapply Forall_impl; [by apply fmt_dec_digits|apply digit_not_space]).
Qed.

Lemma scan_checkpoint_line net st :
  scan_line net st (checkpoint_line cp) =
    if bool_decide (st.1 = Some (net_name net)) then (st.1, st.2 ++ [cp]) else st.
Proof.
  destruct Hcp as [[Hh Hh'] [Ht Ht']]. unfold scan_line.
  rewrite checkpoint_line_trim, checkpoint_line_words.
  rewrite (bool_decide_false (checkpoint_line cp = []));
    [|unfold checkpoint_line; by intros [?%fmt_dec_ne ?]%app_eq_nil].
  rewrite (bool_decide_false (head _ = Some 35)); [|by intros ?%checkpoint_line_head]. simpl.
  rewrite (bool_decide_false (fmt_dec _ = _)).
  - rewrite !parse_uint_fmt_dec by (unfold u32_max, u64_max; lia). by destruct cp.
  - intros Heq. pose proof (fmt_dec_digits _ Hh) as Hd. rewrite Heq in Hd.
    by apply Forall_cons in Hd as [? _].
Qed.
End checkpoint_line.

(** ** Lemmas: writing *)

Section append.
Context `{AppendIo}.

(** On an existing file [m] adds these lines, or fails after a prefix of them. *)
Definition appends {A} (m : M (option bytes) IoError A) (ls : list rstr) : Prop := ∀ b,
  match m (Some b) with
  | (Ok _, f') => f' = Some (b ++ text_bytes ls)
  | (Err _, f') => ∃ n, f' = Some (b ++ take n (text_bytes ls))
  | (Panic, _) => False
  end.

Lemma appends_ret {A} (a : A) : appends (mret a) [].
Proof. intros b. m_unfold. by rewrite app_nil_r. Qed.

Lemma appends_bind {A B} (m : M (option bytes) IoError A) (k : A → M (option bytes) IoError B) ls ls' :
  appends m ls → (∀ a, appends (k a) ls') → appends (a ← m; k a) (ls ++ ls').
Proof.
  intros Hm Hk b. specialize (Hm b). m_unfold. rewrite text_bytes_app.
  destruct (m (Some b)) as [[a|e|] f']; [| |done].
  - subst f'. specialize (Hk a (b ++ text_bytes ls)).
    destruct (k a _) as [[x|e|] f']; [|destruct Hk as [n ->]|done]; [by rewrite Hk, app_assoc|].
    exists (length (text_bytes ls) + n)%nat. by rewrite take_app_add, app_assoc.
  - destruct Hm as [n ->]. exists (n `min` length (text_bytes ls))%nat.
    rewrite take_app_le by lia. by rewrite <-take_take, firstn_all.
Qed.

Lemma appends_writeln l : appends (writeln l) [l].
Proof.
  intros b. unfold writeln, text_bytes. simpl. rewrite app_nil_r.
  destruct (write_fault _ _) as [[k e]|]; [by eexists|done].
Qed.
End append.

Lemma elem_of_insert_by_height x c l : x ∈ insert_by_height c l ↔ x = c ∨ x ∈ l.
Proof.
  induction l as [|d l IH]; simpl; [set_solver|]. case_match; [set_solver|].
  rewrite !elem_of_cons, IH. naive_solver.
Qed.

Lemma increasing_insert c l :
  increasing l → (∀ d, d ∈ l → cp_height d ≠ cp_height c) → increasing (insert_by_height c l).
Proof.
  unfold increasing. induction 1 as [|d l Hl IH Hd]; intros Hne; simpl; [repeat constructor|].
  pose proof (Hne d ltac:(left)) as Hdc. destruct (cp_height c <? cp_height d) eqn:Hlt.
  - apply Z.ltb_lt in Hlt. constructor; [by constructor|]. constructor; [done|].
    eapply Forall_impl; [exact Hd|]. simpl. lia.
  - constructor; [apply IH; intros ??; apply Hne; by right|].
    apply Forall_forall. intros x [->|Hx]%elem_of_insert_by_height; [lia|].
    rewrite Forall_forall in Hd. by apply Hd.
Qed.

Lemma existsb_height_false l c :
  existsb (λ d, cp_height d =? cp_height c) l = false → ∀ d, d ∈ l → cp_height d ≠ cp_height c.
Proof.
  intros Hl d Hd Heq. assert (existsb (λ d, cp_height d =? cp_height c) l = true) as Ht; [|congruence].
  apply existsb_exists. exists d. split; [by apply list_elem_of_In|lia].
Qed.

(** The lines a new checkpoint adds. *)
Definition added_lines (need_header sec : bool) (net : Network) (cp : DiskCheckpoint) : list rstr :=
  (if need_header then [header_line_1; header_line_2] else []) ++
  (if sec then [] else [network_line net]) ++ [checkpoint_line cp].

Lemma added_lines_ok need_header sec net cp : cp_wf cp → Forall line_ok (added_lines need_header sec net cp).
Proof.
  intros Hcp. unfold added_lines. rewrite !Forall_app. split_and!.
  - destruct need_header; [apply header_lines_ok|constructor].
  - destruct sec; [constructor|]. constructor; [apply network_line_ok|constructor].
  - constructor; [by apply checkpoint_line_ok|constructor].
Qed.

(** The section they come to stand in. *)
Definition owner (file : option bytes) (ls : list rstr) (net : Network) : option rstr :=
  if has_section file net then open_section ls else Some (net_name net).

Lemma scan_added (need_header sec : bool) net net' cp ls :
  cp_wf cp →
  let own := if sec then open_section ls else Some (net_name net) in
  scan net' (ls ++ added_lines need_header sec net cp) =
    (own, (scan net' ls).2 ++ if bool_decide (own = Some (net_name net')) then [cp] else []).
Proof.
  intros Hcp own. pose proof (scan_section Mainnet net' ls : open_section ls = _) as Hopen.
  rewrite scan_app. unfold added_lines. rewrite !foldl_app.
  replace (foldl (scan_line net') (scan net' ls) (if need_header then _ else []))
    with (scan net' ls) by (destruct need_header; [by rewrite scan_header_lines|done]).
  assert ((foldl (scan_line net') (scan net' ls) (if sec then [] else [network_line net])) =
    (own, (scan net' ls).2)) as ->.
  { unfold own. rewrite Hopen. destruct sec; simpl; [by destruct (scan net' ls)|by rewrite scan_network_line]. }
  cbn [foldl]. rewrite scan_checkpoint_line by done. cbn [fst snd].
  case_bool_decide; by rewrite ?app_nil_r.
Qed.

Lemma owner_last file ls net :
  (has_section file net = true → open_section ls = Some (net_name net)) →
  owner file ls net = Some (net_name net).
Proof. unfold owner. by destruct (has_section file net); [intros ->|]. Qed.

(** What is read back of each network. *)
Lemma checkpoint_read_back file f' net net' cp ls need_header :
  file_holds file ls → Forall line_ok ls → cp_wf cp →
  let added := added_lines need_header (has_section file net) net cp in
  file_holds f' (ls ++ added) →
  read_checkpoints f' net' =
    if bool_decide (owner file ls net = Some (net_name net'))
    then insert_by_height cp (read_checkpoints file net') else read_checkpoints file net'.
Proof.
  intros Hfile Hls Hcp added Hf'.
  rewrite (read_file_holds f' (ls ++ added)), (read_file_holds file ls);
    [|done|done|done|apply Forall_app; split; [done|by apply added_lines_ok]].
  unfold added. rewrite scan_added by done. fold (owner file ls net). cbn [snd].
  case_bool_decide; [by rewrite sort_by_height_snoc|by rewrite app_nil_r].
Qed.

Section append.
Context `{AppendIo}.

Lemma appends_lines need_header sec net cp :
  appends (append_lines need_header sec net cp) (added_lines need_header sec net cp).
Proof.
  unfold append_lines, added_lines. apply appends_bind; [|intros _; apply appends_bind; [|intros _]].
  - destruct need_header; [|apply appends_ret].
    apply (appends_bind _ _ [_] [_]); [apply appends_writeln|intros _; apply appends_writeln].
  - destruct sec; [apply appends_ret|apply appends_writeln].
  - apply appends_writeln.
Qed.

Lemma append_checkpoint_new net cp file :
  existsb (λ c, cp_height c =? cp_height cp) (read_checkpoints file net) = false →
  match append_checkpoint net cp file with
  | (Ok _, f') =>
    f' = Some (default [] file ++ text_bytes (added_lines (bool_decide (file = None)) (has_section file net) net cp))
  | (Err _, f') => ∃ n, default [] f' = default [] file ++
      take n (text_bytes (added_lines (bool_decide (file = None)) (has_section file net) net cp))
  | (Panic, _) => False
  end.
Proof.
  intros Hnew. unfold append_checkpoint, io_check. m_unfold.
  destruct create_parent; [exists 0%nat; by rewrite app_nil_r|]. rewrite Hnew.
  destruct open_append; [exists 0%nat; by rewrite app_nil_r|].
  pose proof (appends_lines (bool_decide (file = None)) (has_section file net) net cp (default [] file)) as Ha.
  destruct (append_lines _ _ _ _ _) as [[a|e|] f']; [done| |done].
  destruct Ha as [t ->]. by exists t.
Qed.

Lemma append_checkpoint_outcome (net : Network) (cp : DiskCheckpoint) (file : option bytes) (ls : list rstr)
    (Hfile : file_holds file ls) (Hls : Forall line_ok ls) (Hcp : cp_wf cp) :
  let added := added_lines (bool_decide (file = None)) (has_section file net) net cp in
  match append_checkpoint net cp file with
  | (Ok _, f') =>
    if existsb (λ c, cp_height c =? cp_height cp) (read_checkpoints file net) then f' = file
    else
      file_holds f' (ls ++ added) ∧ Forall line_ok (ls ++ added) ∧
      open_section (ls ++ added) = owner file ls net ∧
      (increasing (read_checkpoints file net) → increasing (read_checkpoints f' net)) ∧
      ∀ net', read_checkpoints f' net' =
        if bool_decide (owner file ls net = Some (net_name net'))
        then insert_by_height cp (read_checkpoints file net') else read_checkpoints file net'
  | (Err _, f') => ∃ n, default [] f' = default [] file ++ take n (text_bytes added)
  | (Panic, _) => False
  end.
Proof.
  intros added. destruct (existsb _ (read_checkpoints file net)) eqn:Hdup.
  - unfold append_checkpoint, io_check. m_unfold.
    destruct create_parent; [exists 0%nat; by rewrite app_nil_r|]. by rewrite Hdup.
  - pose proof (append_checkpoint_new net cp file Hdup) as Hnew.
    destruct (append_checkpoint net cp file) as [[a|e|] f']; [|done|done].
    assert (Forall line_ok (ls ++ added)) as Hok by (apply Forall_app; split; [done|by apply added_lines_ok]).
    assert (file_holds f' (ls ++ added)) as Hf'.
    { right. rewrite Hnew, text_bytes_app. by destruct Hfile as [[-> ->]| ->]. }
    assert (∀ net', read_checkpoints f' net' =
      if bool_decide (owner file ls net = Some (net_name net'))
      then insert_by_height cp (read_checkpoints file net') else read_checkpoints file net') as Hread
      by (intros net'; by eapply checkpoint_read_back).
    split_and!; [done|done| | |exact Hread].
    + unfold open_section at 1, added. by rewrite scan_added.
    + intros Hinc. rewrite Hread. destruct (bool_decide (owner _ _ _ = _)); [|done].
      apply increasing_insert; [done|]. by apply existsb_height_false.
Qed.

End append.

(** The size of a directory is the total length of the regular files below
    it, symbolic links and unreadable entries left out, capped at [u64::MAX];
    a missing path counts for nothing. *)
Theorem dir_size_total (rd : list Entry) (Hwf : tree_wf (Dir (Some rd)) = true) :
  dir_size_bytes (Some (Dir (Some rd))) = Z.min u64_max (tree_bytes (Dir (Some rd))) ∧
  dir_size_bytes None = 0.
Proof. split; [|done]. by apply dir_entry_size_total. Qed.

(** ** Concrete checkpoint files *)

Module Ex.
#[export, program] Instance io : AppendIo (H := BlkFile.Ex.fs) := {|
  create_parent := None; open_append := None; write_fault _ _ := None |}.

Definition two_networks : list rstr :=
  [header_line_1; str "network mainnet"; str "100000 7"; str "network testnet4"; str "100000 9"].

Definition reads {R} (r : R * option bytes) (net : Network) : list (Z * Z) :=
  (λ c, (cp_height c, cp_total c)) <$> read_checkpoints r.2 net.

Definition tree : list Entry :=
  [File (Some 100); Symlink; Dir (Some [File (Some 20); File None; Dir None]); EntryErr].

(** A directory with one file, obfuscated with the key of [BlkFile.Ex]. *)
#[program] Definition xor_fs : Fs := {|
  IoError := (); fs_open p := Ok p; fs_mmap _ := Ok BlkFile.Ex.raw;
  fs_read p := if bool_decide (p = str "b/xor.dat") then Ok BlkFile.Ex.key else Ok BlkFile.Ex.raw;
  fs_read_dir _ := Ok [Ok (str "blk00007.dat", str "b/blk00007.dat"); Ok (str "xor.dat", str "b/xor.dat")];
  fs_parent _ := Some (str "b"); fs_join d n := d ++ str "/" ++ n |}.
End Ex.


Lemma dir_size_total_witness : dir_size_bytes (Some (Dir (Some Ex.tree))) = 120.
Proof. rewrite (proj1 (dir_size_total Ex.tree eq_refl)). vm_compute. reflexivity. Defined.

(** A checkpoint whose section is there but is not the last one is written
    under the last one: it is lost to its network and read as another's. *)
Lemma append_under_other_section :
  let r := @append_checkpoint BlkFile.Ex.fs Ex.io Mainnet (mkCp 200000 8) (Some (text_bytes Ex.two_networks)) in
  Ex.reads r Mainnet = [(100000, 7)] ∧ Ex.reads r Testnet4 = [(100000, 9); (200000, 8)].
Proof. split; vm_compute; reflexivity. Qed.

(** With a single checkpoint, and with several at one height, [linreg] returns
    the total size where [projected_total_bytes] takes the slope: 1 GiB at height
    100000 is projected to 900000 GiB at height 900000. *)
Lemma single_checkpoint_projection :
  projected_total_bytes [mkCp 100000 (2 ^ 30)] 900000 = 900000 * 2 ^ 30 ∧
  projected_total_bytes [mkCp 100000 (2 ^ 30); mkCp 200000 (2 ^ 31)] 900000 = 9 * 2 ^ 30.
Proof. split; vm_compute; reflexivity. Qed.

(** The network of a blocks directory obfuscated with [xor.dat] is not
    detected: the key is not applied to the magic. *)
Lemma detect_ignores_xor_key :
  @detect_from_blocks_dir Ex.xor_fs (str "b") = None ∧
  @read_xor_key Ex.xor_fs (str "b/blk00007.dat") = Some BlkFile.Ex.key ∧
  from_magic (le_val (slice 0 4 (xor_decode BlkFile.Ex.raw BlkFile.Ex.key))) = Some Mainnet.
Proof. split_and!; vm_compute; reflexivity. Qed.
