(* ===== verification/DiskGuard.v ===== *)
(** * DiskGuard: the startup guard and the checkpoint recorder, [bidx-cli/src/diskguard.rs]

    Projecting the final size before indexing ([run_pre_flight]), and recording
    the size at every boundary while blocks are applied ([on_block_applied]).
    Log messages are left out. *)
From S2P Require Import Prelude F64 Text Hash Types BlkFile Disk.

Definition DEFAULT_CHECKPOINT_FILE_NAME : rstr := str "bidx-disk-checkpoints.txt".

Record DiskGuardConfig : Type := mkGuard {
  checkpoint_file : rstr; dg_network : Network; index_root : rstr; tracked_dirs : list rstr }.

(** What the file system answers at a call: the content of a file, the tree
    below a path, and [statfs] for a path and then its ancestors. *)
Record DiskView : Type := mkDisk {
  d_file : rstr → option bytes; d_tree : rstr → option Entry;
  d_statfs : rstr → list (option (option (Z * Z))) }.

Definition projected_total_at (cfg : DiskGuardConfig) (d : DiskView) (target_height : Z)
    : Z * list DiskCheckpoint :=
  let cps := read_checkpoints (d_file d (checkpoint_file cfg)) (dg_network cfg) in
  let est := projected_total_bytes cps target_height in
  (est, cps).

(** [sum::<u64>()], which wraps in release builds. *)
Definition current_total_bytes (cfg : DiskGuardConfig) (tree : rstr → option Entry) : Z :=
  foldl (λ s d, u64 (s + dir_size_bytes (tree d))) 0 (tracked_dirs cfg).

Record PreflightReport : Type := mkReport {
  rp_network : Network; rp_indexed_tip : Z; rp_node_tip : Z; rp_checkpoints_used : Z;
  rp_current_total_bytes : Z; rp_projected_total_bytes : Z; rp_additional_needed_bytes : Z;
  rp_free_bytes_now : Z; rp_free_bytes_at_completion : Z; rp_min_free_bytes : Z }.

(** The errors, with the numbers their messages hold. *)
Inductive GuardError `{Fs} : Type :=
  | GeStatfs
  | GeInsufficient (network : rstr) (node_tip additional_needed free_at_end min_free need_gib : Z)
  | GeWriteCheckpoint (path : rstr) (source : IoError).

Section guard.
Context `{AppendIo}.

Definition run_pre_flight (cfg : DiskGuardConfig) (d : DiskView)
    (node_tip_height local_tip_height min_free_bytes : Z) : Res GuardError PreflightReport :=
  let current := current_total_bytes cfg (d_tree d) in
  let '(projected_total, checkpoints) := projected_total_at cfg d node_tip_height in
  let projection_available := negb (bool_decide (checkpoints = [])) in
  let additional_needed := if projection_available then sat_sub projected_total current else 0 in
  free_now ← ok_or GeStatfs (free_space_bytes (d_statfs d (index_root cfg)));
  let free_at_end := sat_sub free_now additional_needed in
  let report := mkReport (dg_network cfg) local_tip_height node_tip_height (len checkpoints) current
    projected_total additional_needed free_now free_at_end min_free_bytes in
  if projection_available && (free_at_end <? min_free_bytes) then
    let deficit_bytes := sat_sub min_free_bytes free_at_end in
    let need_gib := u64 (u64 (deficit_bytes + 2 ^ 30) - 1) `div` 2 ^ 30 in
    Err (GeInsufficient (net_name (dg_network cfg)) node_tip_height additional_needed free_at_end
           min_free_bytes need_gib)
  else Ok report.

(** The recorder; its mutex is taken for the whole of [on_block_applied]. *)
Record DiskRecorder : Type := mkRecorder { r_cfg : DiskGuardConfig; r_last : option Z }.

Definition recorder_new (cfg : DiskGuardConfig) (file : option bytes) : DiskRecorder :=
  mkRecorder cfg (cp_height <$> last (read_checkpoints file (dg_network cfg))).

(** The state is the recorder and the content of its checkpoint file; [env] is
    the environment variable with the step, and [height % 0] panics. *)
Definition on_block_applied (env : option rstr) (tree : rstr → option Entry) (height : Z)
    : M (DiskRecorder * option bytes) GuardError bool := λ '(r, file),
  let step := checkpoint_step env in
  if height =? 0 then (Ok false, (r, file))
  else if step =? 0 then (Panic, (r, file))
  else if negb (height `mod` step =? 0) then (Ok false, (r, file))
  else if match r_last r with Some lh => height <=? lh | None => false end then (Ok false, (r, file))
  else
    let total := current_total_bytes (r_cfg r) tree in
    let cp := mkCp height total in
    match append_checkpoint (dg_network (r_cfg r)) cp file with
    | (Ok _, file) => (Ok true, (mkRecorder (r_cfg r) (Some height), file))
    | (Err e, file) => (Err (GeWriteCheckpoint (checkpoint_file (r_cfg r)) e), (r, file))
    | (Panic, file) => (Panic, (r, file))
    end.

Definition default_layout (root : rstr) (network : Network) (utxo_dir : rstr) (out_dirs : list rstr)
    : DiskGuardConfig :=
  let tracked := [utxo_dir] ++ out_dirs in
  mkGuard (fs_join root DEFAULT_CHECKPOINT_FILE_NAME) network root tracked.
End guard.

(** ** Specification *)

(** The calls of a run: the trees at the time, and the height. *)
Abbreviation Call := ((rstr → option Entry) * Z)%type.

Section spec.
Context `{AppendIo}.

Fixpoint calls_run (env : option rstr) (calls : list Call)
    : M (DiskRecorder * option bytes) GuardError (list bool) :=
  match calls with
  | [] => mret []
  | (tree, height) :: calls =>
    b ← on_block_applied env tree height; bs ← calls_run env calls; mret (b :: bs)
  end.
End spec.

(** Whether a height is a boundary above the last one recorded. *)
Definition fresh_boundary (step : Z) (last : option Z) (h : Z) : Prop :=
  h ≠ 0 ∧ h `mod` step = 0 ∧ match last with Some l => l < h | None => True end.

#[global] Instance fresh_boundary_dec step last h : Decision (fresh_boundary step last h).
Proof. unfold fresh_boundary. destruct last; apply _. Defined.

(** What a run of calls records. *)
Fixpoint recorded (step : Z) (cfg : DiskGuardConfig) (last : option Z) (calls : list Call)
    : list DiskCheckpoint :=
  match calls with
  | [] => []
  | (tree, h) :: calls =>
    if decide (fresh_boundary step last h)
    then mkCp h (current_total_bytes cfg tree) :: recorded step cfg (Some h) calls
    else recorded step cfg last calls
  end.

(** ** Lemmas *)

Lemma current_total_u64 cfg tree : is_u64 (current_total_bytes cfg tree).
Proof.
  unfold current_total_bytes. rewrite <-(rev_involutive (tracked_dirs cfg)).
  destruct (rev (tracked_dirs cfg)) as [|d ds]; simpl; [unfold is_u64; lia|].
  rewrite foldl_app. simpl. apply Z.mod_pos_bound. lia.
Qed.

Lemma recorded_increasing step cfg last calls :
  increasing (recorded step cfg last calls) ∧
  Forall (λ c, match last with Some l => l < cp_height c | None => True end) (recorded step cfg last calls).
Proof.
  revert last. induction calls as [|[tree h] calls IH]; intros last; [split; constructor|].
  cbn [recorded]. case_decide as Hd; [|apply IH]. destruct (IH (Some h)) as [Hi Hf].
  destruct Hd as (_ & _ & Hl). split.
  - constructor; [done|]. exact Hf.
  - constructor; [done|]. eapply Forall_impl; [exact Hf|]. intros c Hc. simpl in Hc. destruct last; [lia|done].
Qed.

Lemma recorded_above step cfg last last' calls :
  Forall (λ c : Call, match last with Some l => l < c.2 | None => True end ↔
                      match last' with Some l => l < c.2 | None => True end) calls →
  recorded step cfg last calls = recorded step cfg last' calls.
Proof.
  revert last last'. induction calls as [|[tree h] calls IH]; intros last last' Hf; [done|].
  apply Forall_cons in Hf as [Hh Hf]. cbn [recorded]. simpl in Hh.
  assert (fresh_boundary step last h ↔ fresh_boundary step last' h) as Hiff
    by (unfold fresh_boundary; by rewrite Hh).
  do 2 case_decide; [done|tauto..|by apply IH].
Qed.

Lemma recorded_boundaries step cfg last calls :
  StronglySorted (λ a b : Call, a.2 < b.2) calls →
  cp_height <$> recorded step cfg last calls = filter (fresh_boundary step last) (snd <$> calls).
Proof.
  induction 1 as [|[tree h] calls Hs IH Hf]; [done|].
  cbn [recorded]. rewrite fmap_cons. cbn [snd]. case_decide as Hd.
  - rewrite filter_cons_True by done. rewrite fmap_cons. f_equal. rewrite <-IH. f_equal.
    apply recorded_above. eapply Forall_impl; [exact Hf|]. intros [t x] Hx. simpl in *.
    destruct Hd as (_ & _ & Hl). destruct last; [|done]. split; [lia|done].
  - by rewrite filter_cons_False by done.
Qed.

Lemma insert_by_height_last c l :
  Forall (λ d, cp_height d < cp_height c) l → insert_by_height c l = l ++ [c].
Proof.
  induction 1 as [|d l Hd Hl IH]; [done|]. simpl. rewrite (proj2 (Z.ltb_ge _ _)) by lia. by rewrite IH.
Qed.

(** Below a height are the checkpoints of an increasing list whose last one is. *)
Lemma increasing_last_lt l h :
  increasing l → match cp_height <$> last l with Some x => x < h | None => True end →
  Forall (λ d, cp_height d < h) l.
Proof.
  intros Hs Hl. induction l as [|c l IH]; [done|]. apply StronglySorted_inv in Hs as [Hs Hc].
  destruct l as [|d l]; [by constructor|]. specialize (IH Hs Hl).
  constructor; [|done]. apply Forall_cons in Hc as [Hc _], IH as [IH _]. lia.
Qed.

Section recorder.
Context `{AppendIo}.

(** The recorder agrees with its file, where its section is the last one. *)
Definition recorder_ok (cfg : DiskGuardConfig) (r : DiskRecorder) (file : option bytes) (ls : list rstr) : Prop :=
  let net := dg_network cfg in
  r_cfg r = cfg ∧ file_holds file ls ∧ Forall line_ok ls ∧ increasing (read_checkpoints file net) ∧
  r_last r = cp_height <$> last (read_checkpoints file net) ∧
  (has_section file net = true → open_section ls = Some (net_name net)).

(** What a failed attempt to record [cp] leaves: a prefix of the bytes that
    recording it adds. *)
Definition attempted (net : Network) (cp : DiskCheckpoint) (file file' : option bytes) : Prop :=
  ∃ n, default [] file' = default [] file ++
    take n (text_bytes (added_lines (bool_decide (file = None)) (has_section file net) net cp)).

Lemma on_block_applied_run env tree height cfg r file ls :
  0 < checkpoint_step env → is_u32 height → recorder_ok cfg r file ls →
  let net := dg_network cfg in
  match on_block_applied env tree height (r, file) with
  | (Ok b, (r', file')) =>
    b = bool_decide (fresh_boundary (checkpoint_step env) (r_last r) height) ∧
    (if b then read_checkpoints file' net = read_checkpoints file net ++ [mkCp height (current_total_bytes cfg tree)]
          ∧ r_last r' = Some height
     else file' = file ∧ r_last r' = r_last r) ∧
    (∃ ls', recorder_ok cfg r' file' (ls ++ ls')) ∧
    (∀ net', net' ≠ net → read_checkpoints file' net' = read_checkpoints file net')
  | (Err _, (_, file')) => attempted net (mkCp height (current_total_bytes cfg tree)) file file'
  | (Panic, _) => False
  end.
Proof.
  intros Hstep Hh (Hcfg & Hfile & Hls & Hinc & Hlast & Hsec) net.
  assert (∃ ls', recorder_ok cfg r file (ls ++ ls')) as Hsame.
  { exists []. rewrite app_nil_r. by split_and!. }
  unfold on_block_applied, fresh_boundary.
  destruct (height =? 0) eqn:Hz.
  { rewrite bool_decide_false by lia. by split_and!. }
  rewrite (proj2 (Z.eqb_neq (checkpoint_step env) 0)) by lia.
  destruct (height `mod` checkpoint_step env =? 0) eqn:Hmod; cbn [negb].
  2: { rewrite bool_decide_false by lia. by split_and!. }
  destruct (match r_last r with Some lh => height <=? lh | None => false end) eqn:Hle.
  { rewrite bool_decide_false; [by split_and!|]. intros (_ & _ & Hl). destruct (r_last r); [lia|done]. }
  assert (match cp_height <$> last (read_checkpoints file net) with Some x => x < height | None => True end) as Hnew.
  { unfold net. rewrite <-Hlast. destruct (r_last r); [lia|done]. }
  pose proof (increasing_last_lt _ _ Hinc Hnew) as Hbelow.
  pose proof (append_checkpoint_outcome net (mkCp height (current_total_bytes (r_cfg r) tree)) file ls Hfile Hls) as Ho.
  specialize (Ho (conj Hh (current_total_u64 _ _))). rewrite Hcfg in *.
  destruct (append_checkpoint _ _ _) as [[u|e|] file']; [|done|done].
  assert (existsb (λ c, cp_height c =? height) (read_checkpoints file net) = false) as Hno.
  { apply not_true_iff_false. intros (c & Hc & He)%existsb_exists. apply list_elem_of_In in Hc.
    rewrite Forall_forall in Hbelow. apply Hbelow in Hc. lia. }
  cbn [cp_height] in Ho. rewrite Hno, owner_last in Ho by done.
  destruct Ho as (Hf' & Hl' & Hopen & Hincr & Hread).
  pose proof (Hread net) as Hnet. rewrite bool_decide_true, insert_by_height_last in Hnet by done.
  rewrite bool_decide_true by (destruct (r_last r); lia). split_and!; [done..| |].
  - eexists. split_and!; [done..|by apply Hincr| |done].
    cbn [r_last]. unfold net in Hnet. by rewrite Hnet, last_snoc.
  - intros net' Hne. rewrite Hread, bool_decide_false; [done|]. by intros [= ?%net_name_inj].
Qed.

Lemma calls_run_recorded env cfg calls r file ls :
  0 < checkpoint_step env → Forall (λ c : Call, is_u32 c.2) calls → recorder_ok cfg r file ls →
  let net := dg_network cfg in
  match calls_run env calls (r, file) with
  | (Ok _, (_, file')) =>
    read_checkpoints file' net =
      read_checkpoints file net ++ recorded (checkpoint_step env) cfg (r_last r) calls ∧
    increasing (read_checkpoints file' net) ∧
    ∀ net', net' ≠ net → read_checkpoints file' net' = read_checkpoints file net'
  | (Err _, (_, file')) => ∃ pre c post before,
    calls = pre ++ c :: post ∧
    read_checkpoints before net =
      read_checkpoints file net ++ recorded (checkpoint_step env) cfg (r_last r) pre ∧
    (∀ net', net' ≠ net → read_checkpoints before net' = read_checkpoints file net') ∧
    attempted net (mkCp c.2 (current_total_bytes cfg c.1)) before file'
  | (Panic, _) => False
  end.
Proof.
  intros Hstep Hcalls. revert r file ls. induction Hcalls as [|[tree h] calls Hh _ IH]; intros r file ls Hok net.
  { cbn. rewrite app_nil_r. by destruct Hok as (_ & _ & _ & Hinc & _). }
  cbn [calls_run]. unfold mbind at 1, M_bind at 1.
  pose proof (on_block_applied_run env tree h cfg r file ls Hstep Hh Hok) as Hrun.
  destruct (on_block_applied env tree h (r, file)) as [[b|e|] [r' file']]; [| |done].
  2: { exists [], (tree, h), calls, file. rewrite app_nil_r. by split_and!. }
  destruct Hrun as (-> & Hb & [ls' Hok'] & Hother). specialize (IH _ _ _ Hok').
  assert (∀ calls', read_checkpoints file' net ++ recorded (checkpoint_step env) cfg (r_last r') calls' =
    read_checkpoints file net ++ recorded (checkpoint_step env) cfg (r_last r) ((tree, h) :: calls')) as Hrec.
  { intros calls'. fold net in Hb. cbn [recorded].
    case_bool_decide; [rewrite decide_True by done|rewrite decide_False by done]; destruct Hb as [-> ->]; [|done].
    by rewrite <-app_assoc. }
  unfold mbind, M_bind. destruct (calls_run env calls (r', file')) as [[bs|e|] [r'' file'']]; [| |done].
  - destruct IH as (Hread & Hinc & Hother'). cbn -[recorded]. split_and!; [by rewrite <-Hrec|done|].
    intros net' Hne. rewrite Hother' by done. by apply Hother.
  - destruct IH as (pre & c & post & before & -> & Hread & Hother' & Hatt).
    exists ((tree, h) :: pre), c, post, before. split_and!; [done|by rewrite <-Hrec| |done].
    intros net' Hne. rewrite Hother' by done. by apply Hother.
Qed.
End recorder.

(** ** Theorems *)

Section theorems.
Context `{AppendIo}.

(** C28: The startup guard. The run is refused exactly when the network has
    checkpoints and the free space, less the growth they project, is under the
    reserve; without [statfs] it is refused as such, and a report carries these
    numbers. When the growth fits in the free space, the advice is exact: it is
    the least number of GiB to free for the check to pass. *)
Theorem run_pre_flight_verdict (cfg : DiskGuardConfig) (d : DiskView) (node_tip local_tip min_free : Z)
    (Hmin : 0 ≤ min_free ≤ 2 ^ 63)
    (Hfree : ∀ f, free_space_bytes (d_statfs d (index_root cfg)) = Some f → is_u64 f) :
  let cps := read_checkpoints (d_file d (checkpoint_file cfg)) (dg_network cfg) in
  let needed := if bool_decide (cps = []) then 0
                else Z.max 0 (projected_total_bytes cps node_tip - current_total_bytes cfg (d_tree d)) in
  let passes f := cps = [] ∨ min_free ≤ Z.max 0 (f - needed) in
  match run_pre_flight cfg d node_tip local_tip min_free with
  | Ok r => ∃ f, free_space_bytes (d_statfs d (index_root cfg)) = Some f ∧ passes f ∧
      rp_checkpoints_used r = len cps ∧ rp_additional_needed_bytes r = needed ∧
      rp_free_bytes_now r = f ∧ rp_free_bytes_at_completion r = Z.max 0 (f - needed)
  | Err GeStatfs => free_space_bytes (d_statfs d (index_root cfg)) = None
  | Err (GeInsufficient net tip more rest _ gib) => ∃ f,
      free_space_bytes (d_statfs d (index_root cfg)) = Some f ∧ ¬ passes f ∧
      net = net_name (dg_network cfg) ∧ tip = node_tip ∧ more = needed ∧ rest = Z.max 0 (f - needed) ∧
      (needed ≤ f → ∀ k, 0 ≤ k → passes (f + k * 2 ^ 30) ↔ gib ≤ k)
  | _ => False
  end.
Proof.
  intros cps needed passes. unfold run_pre_flight, projected_total_at.
  change (read_checkpoints _ _) with cps. fold (projected_total_bytes cps node_tip).
  assert ((if negb (bool_decide (cps = [])) then
    sat_sub (projected_total_bytes cps node_tip) (current_total_bytes cfg (d_tree d)) else 0) = needed) as ->
    by (unfold needed, sat_sub; by destruct (bool_decide (cps = []))).
  assert (0 ≤ needed) by (unfold needed; case_bool_decide; lia).
  destruct (free_space_bytes _) as [f|] eqn:Hf; [|done]. specialize (Hfree f eq_refl). m_unfold. cbn [ok_or].
  unfold sat_sub, is_u64 in *. destruct (negb (bool_decide (cps = [])) && _) eqn:Hrefuse.
  - apply andb_prop in Hrefuse as [Hcps Hlt]. apply Z.ltb_lt in Hlt.
    assert (cps ≠ []) as Hne by (by case_bool_decide). exists f. split_and!; try done.
    + intros [?|?]; [done|lia].
    + intros Hfit k Hk. set (x := Z.max 0 (min_free - Z.max 0 (f - needed))).
      assert (0 < x ≤ 2 ^ 63) as Hx by lia. rewrite (u64_small (x + 2 ^ 30)), u64_small by lia. unfold passes.
      split; [intros [?|Hp]; [done|]|intros Hg; right].
      * apply Z.lt_succ_r, Z.div_lt_upper_bound; [done|]. lia.
      * pose proof (Z.div_mod (x + 2 ^ 30 - 1) (2 ^ 30)).
        pose proof (Z.mod_pos_bound (x + 2 ^ 30 - 1) (2 ^ 30)). lia.
  - exists f. split_and!; try done. unfold passes. apply andb_false_iff in Hrefuse as [Hcps|Hlt]; [left|right; lia].
    by case_bool_decide.
Qed.

(** C20: The recorder. Over any sequence of applied heights with a positive
    step, starting from a checkpoint file whose last section is the network's (or
    that has no section of it), the file gains exactly the fresh boundaries: one
    checkpoint for every height applied that is a positive multiple of the step
    above the last recorded one, with the size of the tracked directories at that
    moment, in strictly increasing order; for heights applied in order these are
    all the multiples of the step above the last one. Other networks are left
    alone, and no sequence of heights panics. When a write fails, the calls
    before it have recorded their boundaries so, and the file has in addition
    only a prefix of the lines of the checkpoint being written. *)
Theorem recorder_history (env : option rstr) (cfg : DiskGuardConfig) (file : option bytes) (ls : list rstr)
    (calls : list Call)
    (Hstep : 0 < checkpoint_step env) (Hcalls : Forall (λ c : Call, is_u32 c.2) calls)
    (Hfile : file_holds file ls) (Hls : Forall line_ok ls)
    (Hinc : increasing (read_checkpoints file (dg_network cfg)))
    (Hsec : has_section file (dg_network cfg) = true → open_section ls = Some (net_name (dg_network cfg))) :
  let net := dg_network cfg in
  let last_h := cp_height <$> last (read_checkpoints file net) in
  match calls_run env calls (recorder_new cfg file, file) with
  | (Ok _, (_, file')) =>
    read_checkpoints file' net = read_checkpoints file net ++ recorded (checkpoint_step env) cfg last_h calls ∧
    increasing (read_checkpoints file' net) ∧
    (StronglySorted (λ a b : Call, a.2 < b.2) calls →
      cp_height <$> recorded (checkpoint_step env) cfg last_h calls =
        filter (fresh_boundary (checkpoint_step env) last_h) (snd <$> calls)) ∧
    ∀ net', net' ≠ net → read_checkpoints file' net' = read_checkpoints file net'
  | (Err _, (_, file')) => ∃ pre c post before,
    calls = pre ++ c :: post ∧
    read_checkpoints before net = read_checkpoints file net ++ recorded (checkpoint_step env) cfg last_h pre ∧
    (∀ net', net' ≠ net → read_checkpoints before net' = read_checkpoints file net') ∧
    attempted net (mkCp c.2 (current_total_bytes cfg c.1)) before file'
  | (Panic, _) => False
  end.
Proof.
  intros net last_h.
  pose proof (calls_run_recorded env cfg calls (recorder_new cfg file) file ls Hstep Hcalls) as Hrun.
  destruct (calls_run _ _ _) as [[bs|e|] [r' file']]; [|by apply Hrun..].
  destruct Hrun as (Hread & Hi & Hother); [by split_and!|]. split_and!; [done..| |done].
  apply recorded_boundaries.
Qed.
End theorems.

(** ** Concrete runs *)

Module Ex.
Definition GIB : Z := 2 ^ 30.
Definition cfg : DiskGuardConfig := mkGuard (str "cp") Testnet4 (str "/") [str "utxo"; str "out"].
Definition file : option bytes := Some (text_bytes Disk.Ex.two_networks).
Definition growing : option bytes :=
  Some (text_bytes [header_line_1; str "network testnet4"; str "100000 1073741824"; str "200000 2147483648"]).
Definition tree (n : Z) : rstr → option Entry := λ d,
  if bool_decide (d = str "utxo") then Some (Dir (Some [Disk.File (Some n)])) else None.
Definition disk (f : option bytes) (free : Z) : DiskView :=
  mkDisk (λ _, f) (tree (2 * GIB)) (λ _, [Some None; Some (Some (free, 1))]).
Definition calls : list Call := (λ h, (tree h, h)) <$> [0; 99999; 100000; 100001; 200000; 150000; 300000].
End Ex.

Lemma run_pre_flight_verdict_witness :
  match @run_pre_flight BlkFile.Ex.fs Ex.cfg (Ex.disk Ex.growing (10 * Ex.GIB)) 500000 200000 MIN_FREE_BYTES with
  | Err (GeInsufficient _ _ more rest _ gib) =>
    (more, rest, gib) = (3 * Ex.GIB, 7 * Ex.GIB, 3) ∧ ∀ k, 0 ≤ k → MIN_FREE_BYTES ≤ Z.max 0 (10 * Ex.GIB + k * 2 ^ 30 - 3 * Ex.GIB) ↔ 3 ≤ k
  | _ => False
  end.
Proof.
  pose proof (@run_pre_flight_verdict BlkFile.Ex.fs Ex.cfg (Ex.disk Ex.growing (10 * Ex.GIB)) 500000 200000 MIN_FREE_BYTES) as Hv.
  assert (match @run_pre_flight BlkFile.Ex.fs Ex.cfg (Ex.disk Ex.growing (10 * Ex.GIB)) 500000 200000 MIN_FREE_BYTES with
    | Err (GeInsufficient _ _ more rest _ gib) => bool_decide ((more, rest, gib) = (3 * Ex.GIB, 7 * Ex.GIB, 3))
    | _ => false end = true) as Hr by (vm_compute; reflexivity).
  destruct (run_pre_flight _ _ _ _ _) as [r|[|net tip more left mf gib|]|]; try discriminate Hr.
  apply bool_decide_eq_true in Hr. simplify_eq. split; [done|].
  destruct Hv as (f & Hf & _ & _ & _ & Hm & _ & Hk).
  - vm_compute. split; discriminate.
  - intros f Hf. vm_compute in Hf. injection Hf as <-. split; [discriminate|reflexivity].
  - vm_compute in Hf. injection Hf as <-. rewrite <-Hm in Hk. intros k H0.
    rewrite <-(Hk ltac:(vm_compute; discriminate) k H0). split; [by right|]. intros [Hc|?]; [|done].
    vm_compute in Hc. discriminate Hc.
Defined.

Lemma recorder_history_witness :
  match @calls_run BlkFile.Ex.fs Disk.Ex.io None Ex.calls (recorder_new Ex.cfg Ex.file, Ex.file) with
  | (Ok _, (_, file')) =>
    (λ c, (cp_height c, cp_total c)) <$> read_checkpoints file' Testnet4 = [(100000, 9); (200000, 200000); (300000, 300000)]
    ∧ read_checkpoints file' Mainnet = [mkCp 100000 7]
  | _ => False
  end.
Proof.
  pose proof (@recorder_history BlkFile.Ex.fs Disk.Ex.io None Ex.cfg Ex.file Disk.Ex.two_networks Ex.calls) as Hh.
  assert (match @calls_run BlkFile.Ex.fs Disk.Ex.io None Ex.calls (recorder_new Ex.cfg Ex.file, Ex.file) with
    | (Ok _, _) => true | _ => false end = true) as Hr by (vm_compute; reflexivity).
  destruct (calls_run _ _ _) as [[bs|e|] [r' file']]; try discriminate Hr.
  destruct Hh as (Hread & _ & _ & Hother).
  - vm_compute. reflexivity.
  - repeat (apply Forall_cons; split; [split; vm_compute; (reflexivity || discriminate)|]). by apply Forall_nil.
  - by right.
  - unfold Disk.Ex.two_networks. repeat (apply Forall_cons; split; [apply line_ok_plain, (bool_decide_unpack _); vm_compute; exact I|]).
    by apply Forall_nil.
  - vm_compute. constructor; constructor.
  - intros _. vm_compute. reflexivity.
  - split.
    + change Testnet4 with (dg_network Ex.cfg). rewrite Hread. vm_compute. reflexivity.
    + rewrite Hother by discriminate. vm_compute. reflexivity.
Defined.

(** When the projected growth does not fit in the free space, the saturating
    subtraction hides the shortfall: the advice is to free 10 GiB, and once
    they are free the run is refused again. *)
Lemma advice_too_small :
  match @run_pre_flight BlkFile.Ex.fs Ex.cfg (Ex.disk Ex.growing (5 * Ex.GIB)) 1200000 200000 MIN_FREE_BYTES with
  | Err (GeInsufficient _ _ more rest _ gib) => (more, rest, gib) = (10 * Ex.GIB, 0, 10)
  | _ => False
  end ∧
  match @run_pre_flight BlkFile.Ex.fs Ex.cfg (Ex.disk Ex.growing (15 * Ex.GIB)) 1200000 200000 MIN_FREE_BYTES with
  | Err (GeInsufficient _ _ _ rest _ gib) => (rest, gib) = (5 * Ex.GIB, 5)
  | _ => False
  end.
Proof. split; vm_compute; reflexivity. Qed.

(** A step of 0 in the environment makes the first block panic. *)
Lemma zero_step_panics :
  fst (@on_block_applied BlkFile.Ex.fs Disk.Ex.io (Some (str "0")) (Ex.tree 1) 1 (recorder_new Ex.cfg None, None)) = Panic.
Proof. vm_compute. reflexivity. Qed.
