(* ===== verification/Node.v ===== *)
(** * Node: the RPC client and the notifications, [bidx-live/src/node.rs] and
    [bidx-live/src/zmqsub.rs]

    [serde_json], [reqwest], [base64] and [zmq] are not part of the repository:
    they are the fields of the classes [RpcEnv] and [ZmqLib]. *)
From S2P Require Import Prelude Text Hash.

(** ** Data *)

Record RpcConfig : Type := mkRpcConfig {
  url : rstr; cookie_path : option rstr; user : option rstr; password : option rstr }.

Record BlockHeaderInfo : Type := mkHeaderInfo {
  hi_hash : rstr; hi_height : Z; hi_confirmations : Z; hi_previous : option rstr; hi_next : option rstr }.

Record ChainTip : Type := mkChainTip {
  ct_height : Z; ct_hash : rstr; ct_branch_len : Z; ct_status : rstr }.

Record RpcErr : Type := mkRpcErr { re_code : Z; re_message : rstr }.

Record RpcResp (T : Type) : Type := mkResp { resp_result : option T; resp_error : option RpcErr }.
Arguments mkResp {T} _ _.
Arguments resp_result {T} _.
Arguments resp_error {T} _.

(** The types the client deserializes results into. *)
Inductive De : Type → Type :=
  | DeU32 : De Z
  | DeString : De rstr
  | DeHeader : De BlockHeaderInfo
  | DeTips : De (list ChainTip).

(** What the client uses of its libraries. [from_value] is the derived
    [Deserialize] of [RpcResp<T>]; [Net] is the state of everything outside. *)
Class RpcEnv `{Hex} := {
  Net : Type;
  Json : Type;
  SerdeError : Type;
  HttpError : Type;
  FileError : Type;
  HttpClient : Type;
  j_str : rstr → Json;
  j_num : Z → Json;
  j_arr : list Json → Json;
  j_obj : list (rstr * Json) → Json;
  from_value : ∀ {T}, De T → Json → Res SerdeError (RpcResp T);
  read_to_string : rstr → Res FileError rstr;
  base64_encode : rstr → rstr;
  http_build : Res HttpError HttpClient;
  http_post : HttpClient → rstr → rstr → Json → M Net HttpError Json;
  hex_error_string : FromHexError → rstr
}.

Inductive RpcError `{RpcEnv} : Type :=
  | RpcHttp (e : HttpError)
  | RpcRpc (code : Z) (message : rstr)
  | RpcIo (e : FileError)
  | RpcBadResponse (s : rstr)
  | RpcJson (e : SerdeError).

Section node.
Context `{RpcEnv}.

(** [RpcTransport::roundtrip]; a [NodeClient] is its transport. *)
Definition Transport : Type := Json → M Net RpcError Json.

Definition http_roundtrip (http : HttpClient) (u auth_header : rstr) : Transport := λ body,
  m_map_err RpcHttp (http_post http u auth_header body).

Definition node_new (cfg : RpcConfig) : Res RpcError Transport :=
  auth ← match user cfg, password cfg with
         | Some u, Some p => Ok (u ++ str ":" ++ p)
         | _, _ =>
           match cookie_path cfg with
           | Some cp => s ← map_err RpcIo (read_to_string cp); Ok (trim s)
           | None => Err (RpcBadResponse
                            (str "no rpc credentials: provide user/password or cookie_path"))
           end
         end;
  let auth_header := str "Basic " ++ base64_encode auth in
  http ← map_err RpcHttp http_build;
  Ok (http_roundtrip http (url cfg) auth_header).

Definition with_transport (t : Transport) : Transport := t.

Section client.
Variable node : Transport.

Definition call {T} (d : De T) (method : rstr) (params : Json) : M Net RpcError T :=
  let body := j_obj [(str "jsonrpc", j_str (str "1.0")); (str "id", j_str (str "bidx"));
                     (str "method", j_str method); (str "params", params)] in
  resp ← node body;
  parsed ← m_lift (map_err RpcJson (from_value d resp));
  match resp_error parsed with
  | Some e => m_fail (RpcRpc (re_code e) (re_message e))
  | None => m_lift (ok_or (RpcBadResponse (method ++ str ": null result")) (resp_result parsed))
  end.

(** [Hash32::from_hex(..).map_err(|e| RpcError::BadResponse(..))]. *)
Definition hash_of_hex (prefix hex : rstr) : M Net RpcError Hash32 :=
  m_lift (map_err (λ e, RpcBadResponse (prefix ++ hex_error_string e)) (from_hex hex)).

Definition get_block_count : M Net RpcError Z := call DeU32 (str "getblockcount") (j_arr []).

Definition get_block_hash (height : Z) : M Net RpcError Hash32 :=
  hex ← call DeString (str "getblockhash") (j_arr [j_num height]);
  hash_of_hex [] hex.

Definition get_block_header (hash : Hash32) : M Net RpcError BlockHeaderInfo :=
  call DeHeader (str "getblockheader") (j_arr [j_str (to_hex hash)]).

Definition get_block_raw (hash : Hash32) : M Net RpcError bytes :=
  hex ← call DeString (str "getblock") (j_arr [j_str (to_hex hash); j_num 0]);
  m_lift (map_err (λ e, RpcBadResponse (hex_error_string e)) (hex_decode hex)).

Definition chain_tips : M Net RpcError (list ChainTip) := call DeTips (str "getchaintips") (j_arr []).

(** [for _ in 0..tip.branch_len]. *)
Fixpoint walk_branch (n : nat) (cur_hash : Hash32) (out : gset Hash32) : M Net RpcError (gset Hash32) :=
  match n with
  | O => mret out
  | S n =>
    let out := {[cur_hash]} ∪ out in
    hdr ← get_block_header cur_hash;
    match hi_previous hdr with
    | Some prev => cur_hash ← hash_of_hex [] prev; walk_branch n cur_hash out
    | None => mret out
    end
  end.

Definition skipped_tip (tip : ChainTip) : bool :=
  bool_decide (ct_status tip = str "active") || bool_decide (ct_status tip = str "headers-only").

(** One round of the loop over the tips. *)
Definition orphan_tip (out : gset Hash32) (tip : ChainTip) : M Net RpcError (gset Hash32) :=
  if skipped_tip tip then mret out
  else
    cur_hash ← hash_of_hex (str "getchaintips bad hash: ") (ct_hash tip);
    walk_branch (Z.to_nat (ct_branch_len tip)) cur_hash out.

Definition orphan_block_hashes : M Net RpcError (gset Hash32) :=
  tips ← chain_tips; for_fold tips ∅ orphan_tip.
End client.
End node.

(** ** Notifications *)

Class ZmqLib `{RpcEnv} := {
  ZmqLibError : Type;
  Socket : Type;
  sub_socket : Res ZmqLibError Socket;
  set_subscribe : Socket → bytes → Res ZmqLibError ();
  set_rcvhwm : Socket → Z → Res ZmqLibError ();
  zmq_connect : Socket → rstr → Res ZmqLibError ();
  recv_multipart : Socket → M Net ZmqLibError (list bytes)
}.

Inductive ZmqError `{ZmqLib} : Type :=
  | ZmqZmq (e : ZmqLibError)
  | ZmqMalformed (s : rstr).

Section zmq.
Context `{ZmqLib}.

(** The topic is only compared for a warning in the log. *)
Definition parse_hashblock_multipart (msg : list bytes) : Res ZmqError Hash32 :=
  match msg with
  | _ :: payload :: _ =>
    if negb (len payload =? 32) then
      Err (ZmqMalformed (str "hashblock payload " ++ fmt_dec (len payload) ++ str " bytes, expected 32"))
    else Ok (from_bytes payload)
  | _ => Err (ZmqMalformed (str "expected >=2 frames, got " ++ fmt_dec (len msg)))
  end.

(** [ZmqSubscriber::connect]: [b"hashblock"] is the subscription. *)
Definition subscriber_connect (endpoint : rstr) : Res ZmqError Socket :=
  sock ← map_err ZmqZmq sub_socket;
  _ ← map_err ZmqZmq (set_subscribe sock (utf8_encode (str "hashblock")));
  _ ← map_err ZmqZmq (set_rcvhwm sock 1000);
  _ ← map_err ZmqZmq (zmq_connect sock endpoint);
  Ok sock.

Definition next_block_hash (sock : Socket) : M Net ZmqError Hash32 :=
  msg ← m_map_err ZmqZmq (recv_multipart sock);
  m_lift (parse_hashblock_multipart msg).
End zmq.

(** ** What a node promises *)

Section promise.
Context `{RpcEnv}.
Variable node : Transport.

(** While the state of the network satisfies [up], the node serves the
    active chain [chain], of hashes and raw blocks by height. *)
Record serves (up : Net → Prop) (chain : list (Hash32 * bytes)) : Prop := {
  sv_count : ∀ s, up s → ∃ s', get_block_count node s = (Ok (len chain - 1), s') ∧ up s';
  sv_hash : ∀ s (h : nat) b, up s → chain !! h = Some b →
    ∃ s', get_block_hash node (Z.of_nat h) s = (Ok b.1, s') ∧ up s';
  sv_none : ∀ s h, up s → len chain ≤ h →
    ∃ e s', get_block_hash node h s = (Err e, s') ∧ up s';
  sv_raw : ∀ s b, up s → b ∈ chain → ∃ s', get_block_raw node b.1 s = (Ok b.2, s') ∧ up s'
}.

(** ... and it knows the blocks of [parent], a map from a block to the one
    before it, and reports the tips [tips]. *)
Record knows (up : Net → Prop) (parent : Hash32 → option Hash32) (known : Hash32 → Prop)
    (tips : list ChainTip) : Prop := {
  kn_tips : ∀ s, up s → ∃ s', chain_tips node s = (Ok tips, s') ∧ up s';
  kn_header : ∀ s h, up s → known h → ∃ hdr s',
    get_block_header node h s = (Ok hdr, s') ∧ hi_previous hdr = to_hex <$> parent h ∧ up s';
  kn_parent : ∀ h p, known h → parent h = Some p → known p ∧ is_hash32 p;
  kn_tip : ∀ t, t ∈ tips → skipped_tip t = false →
    ∃ h, ct_hash t = to_hex h ∧ is_hash32 h ∧ known h
}.

(** The block [k] steps before [h]. *)
Definition ancestor (parent : Hash32 → option Hash32) (k : nat) (h : Hash32) : option Hash32 :=
  Nat.iter k (λ o, o ≫= parent) (Some h).
End promise.

(** ** Lemmas *)

Lemma ancestor_succ parent k h : ancestor parent (S k) h = parent h ≫= ancestor parent k.
Proof.
  unfold ancestor. induction k as [|k IH]; simpl; [by destruct (parent h)|].
  simpl in IH. rewrite IH. by destruct (parent h).
Qed.

Section orphans.
Context `{RpcEnv}.
Variable node : Transport.
Variable up : Net → Prop.
Variable parent : Hash32 → option Hash32.
Variable known : Hash32 → Prop.
Variable tips : list ChainTip.
Hypothesis Hkn : knows node up parent known tips.

Lemma hash_of_hex_to_hex pre h s : is_hash32 h → hash_of_hex pre (to_hex h) s = (Ok h, s).
Proof. intros Hh. unfold hash_of_hex, m_lift. by rewrite from_hex_to_hex. Qed.

Lemma walk_branch_spec n cur out s :
  up s → known cur →
  ∃ out' s', walk_branch node n cur out s = (Ok out', s') ∧ up s' ∧
    ∀ x, x ∈ out' ↔ x ∈ out ∨ ∃ k, (k < n)%nat ∧ ancestor parent k cur = Some x.
Proof.
  revert cur out s. induction n as [|n IH]; intros cur out s Hs Hc.
  { exists out, s. split_and!; [done|done|]. intros x. split; [auto|]. intros [?|(k & ? & _)]; [done|lia]. }
  destruct (kn_header _ _ _ _ _ Hkn s cur Hs Hc) as (hdr & s1 & Hhdr & Hprev & Hs1).
  cbn [walk_branch]. unfold mbind at 1, M_bind at 1. rewrite Hhdr, Hprev.
  destruct (parent cur) as [p|] eqn:Hp; simpl.
  - destruct (kn_parent _ _ _ _ _ Hkn cur p Hc Hp) as [Hkp Hlp].
    unfold mbind, M_bind. rewrite hash_of_hex_to_hex by done.
    destruct (IH p ({[cur]} ∪ out) s1 Hs1 Hkp) as (out' & s2 & Hw & Hs2 & Hin).
    exists out', s2. split_and!; [done|done|]. intros x. rewrite Hin, elem_of_union, elem_of_singleton.
    split.
    + intros [[->|?]|(k & Hk & Hx)]; [right; exists 0%nat; split; [lia|done]|auto|].
      right. exists (S k). rewrite ancestor_succ, Hp. split; [lia|done].
    + intros [?|([|k] & Hk & Hx)]; [auto|left; left; unfold ancestor in Hx; simpl in Hx; congruence|].
      rewrite ancestor_succ, Hp in Hx. right. exists k. split; [lia|done].
  - exists ({[cur]} ∪ out), s1. split_and!; [done|done|]. intros x.
    rewrite elem_of_union, elem_of_singleton. split.
    + intros [->|?]; [right; exists 0%nat; split; [lia|done]|auto].
    + intros [?|([|k] & Hk & Hx)]; [auto|left; unfold ancestor in Hx; simpl in Hx; congruence|].
      by rewrite ancestor_succ, Hp in Hx.
Qed.

(** What a tip contributes. *)
Definition on_stale_branch (ts : list ChainTip) (x : Hash32) : Prop :=
  ∃ t h k, t ∈ ts ∧ skipped_tip t = false ∧ ct_hash t = to_hex h ∧ is_hash32 h ∧
    (k < Z.to_nat (ct_branch_len t))%nat ∧ ancestor parent k h = Some x.

Lemma on_stale_cons t ts x : on_stale_branch (t :: ts) x ↔ on_stale_branch [t] x ∨ on_stale_branch ts x.
Proof.
  split.
  - intros (t' & h & k & [->|Ht]%elem_of_cons & Hr); [left|right]; eexists _, h, k; (split; [|exact Hr]);
      [left|done].
  - intros [(t' & h & k & ->%list_elem_of_singleton & Hr)|(t' & h & k & Ht & Hr)];
      eexists _, h, k; (split; [|exact Hr]); [left|by right].
Qed.

Lemma to_hex_inj h h' : is_hash32 h → is_hash32 h' → to_hex h = to_hex h' → h = h'.
Proof.
  intros Hh Hh' Heq. apply from_hex_to_hex in Hh, Hh'. rewrite Heq, Hh' in Hh. by injection Hh.
Qed.

Lemma orphan_tips_spec ts out s :
  up s → (∀ t, t ∈ ts → t ∈ tips) →
  ∃ out' s', for_fold ts out (orphan_tip node) s = (Ok out', s') ∧ up s' ∧
    ∀ x, x ∈ out' ↔ x ∈ out ∨ on_stale_branch ts x.
Proof.
  revert out s. induction ts as [|t ts IH]; intros out s Hs Hsub.
  { exists out, s. split_and!; [done|done|]. intros x. split; [auto|].
    intros [?|(t & h & k & Ht & _)]; [done|by apply not_elem_of_nil in Ht]. }
  assert (∃ out1 s1, orphan_tip node out t s = (Ok out1, s1) ∧ up s1 ∧
    ∀ x, x ∈ out1 ↔ x ∈ out ∨ on_stale_branch [t] x) as (out1 & s1 & H1 & Hs1 & Hin1).
  { unfold orphan_tip. destruct (skipped_tip t) eqn:Hsk.
    - exists out, s. split_and!; [done|done|]. intros x. split; [auto|].
      intros [?|(t' & h & k & ->%list_elem_of_singleton & Hsk' & _)]; [done|congruence].
    - destruct (kn_tip _ _ _ _ _ Hkn t) as (h & Hth & Hh & Hkh); [apply Hsub; left|done|].
      rewrite Hth. unfold mbind, M_bind. rewrite hash_of_hex_to_hex by done.
      destruct (walk_branch_spec (Z.to_nat (ct_branch_len t)) h out s Hs Hkh) as (o & s1 & -> & ? & Hin).
      exists o, s1. split_and!; [done|done|]. intros x. rewrite Hin. split; (intros [?|Hx]; [auto|right]).
      + destruct Hx as (k & Hk & Hx). exists t, h, k. split_and!; [left|done..].
      + destruct Hx as (t' & h' & k & ->%list_elem_of_singleton & _ & Hth' & Hh' & Hk & Hx).
        exists k. split; [done|]. rewrite Hth in Hth'. by rewrite (to_hex_inj h h'). }
  cbn [for_fold]. unfold mbind at 1, M_bind at 1. rewrite H1.
  destruct (IH out1 s1 Hs1) as (out' & s2 & H2 & Hs2 & Hin2); [intros t' Ht'; apply Hsub; by right|].
  exists out', s2. split_and!; [done|done|]. intros x. rewrite Hin2, Hin1.
  rewrite (on_stale_cons t ts). tauto.
Qed.

End orphans.

Section orphan_theorem.
Context `{RpcEnv}.

(** C37: The orphan set. From a node that knows the blocks of its stale branches,
    [orphan_block_hashes] collects exactly the last [branch_len] blocks of
    every tip that is neither active nor headers-only (as far as they have
    parents), whatever the tips share. *)
Theorem orphan_block_hashes_spec (node : Transport) (up : Net → Prop) (parent : Hash32 → option Hash32)
    (known : Hash32 → Prop) (tips : list ChainTip) (s : Net)
    (Hkn : knows node up parent known tips) (Hs : up s) :
  ∃ out s', orphan_block_hashes node s = (Ok out, s') ∧ up s' ∧
    ∀ x, x ∈ out ↔ on_stale_branch parent tips x.
Proof.
  destruct (kn_tips _ _ _ _ _ Hkn s Hs) as (s1 & Htips & Hs1).
  unfold orphan_block_hashes. unfold mbind, M_bind. rewrite Htips.
  destruct (orphan_tips_spec node up parent known tips Hkn tips ∅ s1 Hs1) as (out & s2 & Ho & Hs2 & Hin); [done|].
  exists out, s2. split_and!; [done|done|]. intros x. rewrite Hin. set_solver.
Qed.

(** Notifications. A message is accepted exactly when it has a second frame
    of 32 bytes, and that frame is the hash; anything else is reported as
    malformed, never a panic. *)
Theorem parse_hashblock_iff `{!ZmqLib} (msg : list bytes) :
  (∀ h, parse_hashblock_multipart msg = Ok h ↔ len h = 32 ∧ msg !! 1%nat = Some h) ∧
  ((∃ s, parse_hashblock_multipart msg = Err (ZmqMalformed s)) ↔
   ∀ h, msg !! 1%nat = Some h → len h ≠ 32).
Proof.
  assert (∀ b e, msg !! 1%nat = None → (∀ h, Err (ZmqMalformed e) = Ok h ↔ len h = b ∧ msg !! 1%nat = Some h) ∧
    ((∃ s, @Err _ Hash32 (ZmqMalformed e) = Err (ZmqMalformed s)) ↔ ∀ h, msg !! 1%nat = Some h → len h ≠ b))
    as Hshort.
  { intros b e ->. split; [split; [done|by intros [? ?]]|]. split; [done|by eexists]. }
  destruct msg as [|topic [|h rest]]; [by apply Hshort|by apply Hshort|]. cbn [parse_hashblock_multipart]. unfold from_bytes.
  destruct (len h =? 32) eqn:Hl; cbn [negb]; (split; [intros h'|]); simpl.
  - split; [intros [= <-]; split; [lia|done]|by intros [_ [= ->]]].
  - split; [by intros [? ?]|]. intros Hh. destruct (Hh h eq_refl). lia.
  - split; [done|]. intros [Hh [= ->]]. lia.
  - split; [intros _ h' [= <-]; lia|by eexists].
Qed.
End orphan_theorem.

(** ** A concrete node *)

Module Ref.
Import Hash.Ref.

(** Requests, and the answers a node gives. *)
Inductive RJ : Type :=
  | JS (s : rstr) | JN (z : Z) | JA (l : list RJ) | JO (l : list (rstr * RJ))
  | RHeader (h : BlockHeaderInfo) | RTips (l : list ChainTip) | RNotFound.

Definition answer {T} (o : option T) (j : RJ) : Res () (RpcResp T) :=
  match o, j with
  | Some t, _ => Ok (mkResp (Some t) None)
  | None, RNotFound => Ok (mkResp None (Some (mkRpcErr (-5) (str "not found"))))
  | None, _ => Err ()
  end.

Definition from_value_ref {T} (d : De T) (j : RJ) : Res () (RpcResp T) :=
  match d in De T return Res () (RpcResp T) with
  | DeU32 => answer (match j with JN z => Some z | _ => None end) j
  | DeString => answer (match j with JS s => Some s | _ => None end) j
  | DeHeader => answer (match j with RHeader h => Some h | _ => None end) j
  | DeTips => answer (match j with RTips l => Some l | _ => None end) j
  end.

(** The node's active chain, the parents of its blocks, its tips; and for the
    calls to come, whether they fail. *)
Record State : Type := mkState {
  st_chain : list (Hash32 * bytes); st_parents : list (Hash32 * Hash32); st_tips : list ChainTip;
  st_faults : list bool }.

Definition next_call (s : State) : State := mkState (st_chain s) (st_parents s) (st_tips s) (tail (st_faults s)).

Definition method_id (m : rstr) : nat :=
  if bool_decide (m = str "getblockcount") then 1
  else if bool_decide (m = str "getblockhash") then 2
  else if bool_decide (m = str "getblock") then 3
  else if bool_decide (m = str "getblockheader") then 4 else 5.

Definition find_key {A} (l : list (Hash32 * A)) (hex : rstr) : option (Hash32 * A) :=
  find (λ b, bool_decide (@to_hex hex_ref b.1 = hex)) l.

Definition reply (s : State) (id : nat) (ps : list RJ) : RJ :=
  match id, ps with
  | 1%nat, _ => JN (len (st_chain s) - 1)
  | 2%nat, [JN h] =>
    match st_chain s !! Z.to_nat h with Some b => JS (@to_hex hex_ref b.1) | None => RNotFound end
  | 3%nat, [JS hex; _] =>
    match find_key (st_chain s) hex with Some b => JS (encode_ref b.2) | None => RNotFound end
  | 4%nat, [JS hex] =>
    RHeader (mkHeaderInfo hex 0 1 (@to_hex hex_ref <$> (snd <$> find_key (st_parents s) hex)) None)
  | 5%nat, _ => RTips (st_tips s)
  | _, _ => RNotFound
  end.

Definition serve (body : RJ) (s : State) : Res () RJ * State :=
  (if default false (head (st_faults s)) then Err ()
   else match body with
        | JO [_; _; (_, JS m); (_, JA ps)] => Ok (reply s (method_id m) ps)
        | _ => Ok RNotFound
        end, next_call s).

(** There is no cookie file; the client reaches the node. *)
Definition rpc_ref : @RpcEnv hex_ref := @Build_RpcEnv hex_ref State RJ () () () () JS JN JA JO
  (@from_value_ref) (λ _, Err ()) (λ s, s) (Ok ()) (λ _ _ _ body s, serve body s) (λ _, str "bad hex").

Definition node : @Transport hex_ref rpc_ref := @http_roundtrip hex_ref rpc_ref () [] [].

Lemma find_key_elem {A} (l : list (Hash32 * A)) b :
  NoDup l.*1 → Forall (λ b, is_hash32 b.1) l → b ∈ l → find_key l (@to_hex hex_ref b.1) = Some b.
Proof.
  unfold find_key. induction l as [|c l IH]; intros Hnd Hl Hb; [by apply not_elem_of_nil in Hb|].
  cbn [find]. rewrite fmap_cons in Hnd. apply NoDup_cons in Hnd as [Hc Hnd]. apply Forall_cons in Hl as [Hlc Hl].
  apply elem_of_cons in Hb as [->|Hb]; [by rewrite bool_decide_true|].
  rewrite bool_decide_false; [by apply IH|]. intros Heq. apply to_hex_inj in Heq; [|done|].
  - apply Hc. rewrite Heq. by apply list_elem_of_fmap_2.
  - rewrite Forall_forall in Hl. by apply Hl.
Qed.

Lemma node_replies body s :
  st_faults s = [] → node body s = (map_err (@RpcHttp hex_ref rpc_ref) (fst (serve body s)), s).
Proof. intros Hf. destruct s as [c p t f]. simpl in Hf. by subst f. Qed.

Lemma call_node {T} (d : De T) (m : rstr) (ps : list RJ) (s : State) (t : T) :
  st_faults s = [] → from_value_ref d (reply s (method_id m) ps) = Ok (mkResp (Some t) None) →
  @call hex_ref rpc_ref node T d m (JA ps) s = (Ok t, s).
Proof.
  intros Hf Hd. unfold call. m_unfold. rewrite node_replies by done.
  cbn [j_obj rpc_ref j_str j_arr from_value serve fst map_err]. rewrite Hf. cbn [head default map_err]. by rewrite Hd.
Qed.

Lemma node_serves (s : State) :
  st_faults s = [] →
  NoDup (st_chain s).*1 → Forall (λ b, is_hash32 b.1) (st_chain s) →
  @serves hex_ref rpc_ref node (λ s', s' = s) (st_chain s).
Proof.
  intros Hf Hnd Hl. split.
  - intros s' ->. exists s. split; [|done]. by apply call_node.
  - intros s' h b -> Hb. exists s. split; [|done]. unfold get_block_hash, mbind, M_bind.
    rewrite (call_node _ _ _ _ (@to_hex hex_ref b.1)); [|done|].
    + apply hash_of_hex_to_hex. rewrite Forall_lookup in Hl. by eapply Hl.
    + change (method_id (str "getblockhash")) with 2%nat. simpl. by rewrite Nat2Z.id, Hb.
  - intros s' h -> Hh. eexists _, s. split; [|done]. unfold get_block_hash, call. m_unfold. rewrite node_replies by done.
    cbn [j_obj rpc_ref j_str j_arr j_num from_value serve fst map_err]. rewrite Hf. cbn [head default map_err]. change (method_id (str "getblockhash")) with 2%nat.
    cbn [reply]. rewrite lookup_ge_None_2 by (unfold len in *; lia). reflexivity.
  - intros s' b -> Hb. exists s. split; [|done]. unfold get_block_raw, mbind, M_bind.
    rewrite (call_node _ _ _ _ (encode_ref b.2)); [|done|].
    + cbn [hex_decode hex_ref]. rewrite decode_encode_ref. done.
    + change (method_id (str "getblock")) with 3%nat. cbn [reply j_str j_num rpc_ref].
      by rewrite find_key_elem.
Qed.

Lemma node_knows (s : State) (parent : Hash32 → option Hash32) :
  st_faults s = [] →
  (∀ h, is_hash32 h → parent h = snd <$> find_key (st_parents s) (@to_hex hex_ref h)) →
  (∀ h p, parent h = Some p → is_hash32 p) →
  (∀ t, t ∈ st_tips s → ∃ h, ct_hash t = @to_hex hex_ref h ∧ is_hash32 h) →
  @knows hex_ref rpc_ref node (λ s', s' = s) parent is_hash32 (st_tips s).
Proof.
  intros Hf Hp Hl Ht. split.
  - intros s' ->. exists s. split; [|done]. by apply call_node.
  - intros s' h -> Hh. eexists _, s. split; [|split; [|done]].
    + unfold get_block_header. apply call_node; [done|]. change (method_id (str "getblockheader")) with 4%nat. reflexivity.
    + simpl. by rewrite Hp.
  - intros h p _ Hhp. split; by eapply Hl.
  - intros t Hin _. destruct (Ht t Hin) as (h & ? & ?). by exists h.
Qed.
End Ref.

Module Ex.
Definition id (n : Z) : bytes := le_bytes 32 n.
Definition ctip (n branch : Z) (status : rstr) : ChainTip :=
  mkChainTip 9 (@to_hex Hash.Ref.hex_ref (id n)) branch status.

(** An active chain 1, 2, 3; a stale branch 12, 13 from 1; a headers-only tip. *)
Definition state : Ref.State :=
  Ref.mkState [(id 1, []); (id 2, []); (id 3, [])] [(id 2, id 1); (id 3, id 2); (id 12, id 1); (id 13, id 12)]
    [ctip 3 0 (str "active"); ctip 13 2 (str "valid-fork"); ctip 77 1 (str "headers-only")] [].

Definition parent (h : Hash32) : option Hash32 :=
  snd <$> Ref.find_key (Ref.st_parents state) (@to_hex Hash.Ref.hex_ref h).
End Ex.

Lemma ex_parent h p : Ex.parent h = Some p → is_hash32 p.
Proof.
  unfold Ex.parent. intros (b & Hb & ->)%fmap_Some. unfold Ref.find_key in Hb.
  apply find_some in Hb as [Hb%list_elem_of_In _].
  repeat (apply elem_of_cons in Hb as [->|Hb]; [vm_compute; reflexivity|]). by apply not_elem_of_nil in Hb.
Qed.

Lemma orphan_block_hashes_spec_witness :
  ∃ out s', @orphan_block_hashes Hash.Ref.hex_ref Ref.rpc_ref Ref.node Ex.state = (Ok out, s') ∧
    Ex.id 12 ∈ out ∧ Ex.id 13 ∈ out ∧ Ex.id 1 ∉ out.
Proof.
  destruct (@orphan_block_hashes_spec Hash.Ref.hex_ref Ref.rpc_ref Ref.node (λ s', s' = Ex.state) Ex.parent is_hash32
    (Ref.st_tips Ex.state) Ex.state) as (out & s' & Ho & _ & Hin).
  - apply Ref.node_knows; [done|done|apply ex_parent|]. intros t Ht.
    repeat (apply elem_of_cons in Ht as [->|Ht]; [eexists; split; [reflexivity|vm_compute; reflexivity]|]).
    by apply not_elem_of_nil in Ht.
  - done.
  - exists out, s'. split; [exact Ho|]. split; [|split].
    + apply Hin. exists (Ex.ctip 13 2 (str "valid-fork")), (Ex.id 13), 1%nat.
      split_and!; [right; left|reflexivity|reflexivity|reflexivity|simpl; lia|vm_compute; reflexivity].
    + apply Hin. exists (Ex.ctip 13 2 (str "valid-fork")), (Ex.id 13), 0%nat.
      split_and!; [right; left|reflexivity|reflexivity|reflexivity|simpl; lia|vm_compute; reflexivity].
    + assert (match @orphan_block_hashes Hash.Ref.hex_ref Ref.rpc_ref Ref.node Ex.state with
              | (Ok o, _) => bool_decide (Ex.id 1 ∉ o) | _ => false end = true) as Hn by (vm_compute; reflexivity).
      rewrite Ho in Hn. by apply bool_decide_eq_true in Hn.
Defined.
