(* ===== verification/Tracker.v ===== *)
(** * Tracker: following the node's best chain, [bidx-live/src/tracker.rs]

    Reconciling the store with the node ([catch_up]): the reorganisation loop,
    the forward loop, and the live loop over notifications or ticks. The state
    is the outside world, the store, and the events given to [on_event]. *)
From S2P Require Import Prelude F64 Text Hash Types Tx Block Utxo UtxoStore UtxoSpec UtxoThms Node.

Inductive TrackerError `{RpcEnv} `{!ZmqLib} `{RocksDB} : Type :=
  | TeRpc (e : RpcError)
  | TeUtxo (e : UtxoError)
  | TeZmq (e : ZmqError)
  | TeParse (e : TxParseError)
  | ReorgTooDeep (disconnects : Z).

Record TrackerConfig : Type := mkTrackerConfig { max_reorg_depth : Z }.

Definition tracker_config_default : TrackerConfig := mkTrackerConfig 100.

Inductive TrackerEvent : Type :=
  | Applied (height : Z) (hash : Hash32) (spends : list SpendRow)
  | Disconnected (height : Z) (hash : Hash32)
  | ReorgStart (depth : Z)
  | CaughtUp (height : Z).

Abbreviation Event := (TrackerEvent * option FullBlock)%type.

Section tracker.
Context `{SHA : Sha256} `{RIP : Ripemd160} `{ENV : RpcEnv} `{ZMQ : !ZmqLib}.
Context `{ROCKS : RocksDB} `{CLOCK : Clock} `{ORDER : HashOrder}.

Record World : Type := mkWorld { w_net : Net; w_store : UtxoStore; w_events : list Event }.

Definition TM (A : Type) : Type := M World TrackerError A.

(** A call to the node, to the store, and to the callback; [?] converts errors. *)
Definition rpc {A} (m : M Net RpcError A) : TM A := λ w,
  let '(r, s) := m (w_net w) in (map_err TeRpc r, mkWorld s (w_store w) (w_events w)).

Definition utxo {A} (m : M UtxoStore UtxoError A) : TM A := λ w,
  let '(r, s) := m (w_store w) in (map_err TeUtxo r, mkWorld (w_net w) s (w_events w)).

Definition on_event (e : TrackerEvent) (b : option FullBlock) : TM () :=
  m_modify (λ w, mkWorld (w_net w) (w_store w) (w_events w ++ [(e, b)])).

Definition utxo_tip : M UtxoStore UtxoError (option TipState) := λ s, (tip s, s).

(** [parse_header]: the header and its 80 bytes. *)
Definition parse_header (raw : bytes) : Res TrackerError (BlockHeader * bytes) :=
  if len raw <? 80 then
    Err (TeRpc (RpcBadResponse (str "block payload too short: " ++ fmt_dec (len raw))))
  else
    hdr ← slice_at 0 80 raw;
    mret (header_parse hdr, hdr).

(** The loop that fills the fees, and [total_fee]. *)
Fixpoint fill_fees (i : nat) (txs : list TxRow) (fees : list Z) (total_fee : Z)
    : Res TrackerError (list TxRow * Z) :=
  match txs with
  | [] => mret ([], total_fee)
  | tx :: txs =>
    f ← index fees (Z.of_nat i);
    r ← fill_fees (S i) txs fees (if bool_decide (i = 0)%nat then total_fee else sat_add total_fee f);
    mret (set_tr_fee f tx :: r.1, r.2)
  end.

(** [block.txs] and [block.block_row.total_fee] after that loop. *)
Definition with_fees (b : FullBlock) (r : list TxRow * Z) : FullBlock :=
  mkFullBlock (set_br_total_fee r.2 (block_row b)) r.1 (inputs b) (outputs b).

Section client.
Variable node : Transport.
Variable cfg : TrackerConfig.

(** [match self.node.get_block_hash(..) { Ok(h) => h, Err(_) => Hash32::ZERO }]. *)
Definition hash_or_zero (height : Z) : TM Hash32 := λ w,
  match get_block_hash node height (w_net w) with
  | (Ok h, s) => (Ok h, mkWorld s (w_store w) (w_events w))
  | (Err _, s) => (Ok ZERO, mkWorld s (w_store w) (w_events w))
  | (Panic, s) => (Panic, mkWorld s (w_store w) (w_events w))
  end.

(** Step 1 of [catch_up]: disconnect until the node has our tip. The height
    falls in every round; running out of [fuel] counts as a panic. *)
Fixpoint reorg_loop (fuel : nat) (disconnects : Z) (local : TipState) : TM TipState :=
  match fuel with
  | O => m_panic
  | S fuel =>
    node_hash_at_local ← hash_or_zero (tip_h local);
    if bool_decide (node_hash_at_local = tip_hash local)
       && negb (bool_decide (node_hash_at_local = ZERO)) then mret local
    else if tip_h local =? 0 then mret local
    else if max_reorg_depth cfg <=? disconnects then m_fail (ReorgTooDeep disconnects)
    else
      _ ← (if disconnects =? 0 then on_event (ReorgStart 0) None else mret ());
      _ ← utxo (disconnect_block (tip_h local));
      _ ← on_event (Disconnected (tip_h local) (tip_hash local)) None;
      let disconnects := u32 (disconnects + 1) in
      let prev_height := tip_h local - 1 in
      prev_hash ← rpc (get_block_hash node prev_height);
      let local := mkTip prev_height prev_hash in
      _ ← utxo (set_tip local);
      reorg_loop fuel disconnects local
  end.

(** One round of step 2: fetch, parse, apply and publish the next block. (The
    debug assertion on the hash is not compiled in release builds.) *)
Definition apply_next (local : TipState) : TM TipState :=
  let next_height := u32 (tip_h local + 1) in
  hash ← rpc (get_block_hash node next_height);
  raw ← rpc (get_block_raw node hash);
  hdr ← m_lift (parse_header raw);
  block ← m_lift (map_err TeParse (parse_block_full raw next_height hash hdr.1));
  res ← utxo (apply_block next_height (txs block) (inputs block) (outputs block));
  filled ← m_lift (fill_fees 0 (txs block) (fees res) 0);
  let block := with_fees block filled in
  let new_tip := mkTip next_height hash in
  _ ← utxo (set_tip new_tip);
  _ ← on_event (Applied next_height hash (spends res)) (Some block);
  mret new_tip.

(** [while local.height < node_tip_height]. *)
Fixpoint forward_loop (fuel : nat) (node_tip_height : Z) (local : TipState) : TM TipState :=
  match fuel with
  | O => m_panic
  | S fuel =>
    if tip_h local <? node_tip_height then
      local ← apply_next local; forward_loop fuel node_tip_height local
    else mret local
  end.

Definition catch_up : TM () :=
  node_tip_height ← rpc (get_block_count node);
  stored ← utxo utxo_tip;
  match stored with
  | None =>
    h ← rpc (get_block_hash node node_tip_height);
    _ ← utxo (set_tip (mkTip node_tip_height h));
    on_event (CaughtUp node_tip_height) None
  | Some local =>
    local ← reorg_loop (S (Z.to_nat (tip_h local))) 0 local;
    local ← forward_loop (S (Z.to_nat (node_tip_height - tip_h local))) node_tip_height local;
    on_event (CaughtUp (tip_h local)) None
  end.

(** A round of the ZMQ loop: wait for a message, then catch up; every error but
    [ReorgTooDeep] is logged and the loop goes on. *)
Definition zmq_round (sock : Socket) : TM () := λ w,
  let '(note, s) := next_block_hash sock (w_net w) in
  let w := mkWorld s (w_store w) (w_events w) in
  match note with
  | Ok _ =>
    match catch_up w with
    | (Err (ReorgTooDeep n), w') => (Err (ReorgTooDeep n), w')
    | (Panic, w') => (Panic, w')
    | (_, w') => (Ok (), w')
    end
  | Err _ => (Ok (), w)
  | Panic => (Panic, w)
  end.

(** [live_loop] never returns but with an error: these are its first [rounds]
    rounds; without a subscriber it polls. *)
Fixpoint live_loop (zmq : option Socket) (rounds : nat) : TM () :=
  match rounds with
  | O => mret ()
  | S rounds =>
    _ ← match zmq with Some sock => zmq_round sock | None => catch_up end;
    live_loop zmq rounds
  end.

(** [LiveTracker::run]. *)
Definition run (zmq : option Socket) (rounds : nat) : TM () := _ ← catch_up; live_loop zmq rounds.
End client.
End tracker.

(** ** Specification *)

Section spec.
Context `{SHA : Sha256} `{RIP : Ripemd160}.

(** What the tracker parses of the block [b] at height [h]. *)
Definition parsed (h : nat) (b : Hash32 * bytes) : Res TxParseError FullBlock :=
  parse_block_full b.2 (Z.of_nat h) b.1 (header_parse (slice 0 80 b.2)).

(** Hashes and raw blocks that the parser accepts, at heights of 32 bits. *)
Definition good_chain (chain : list (Hash32 * bytes)) : Prop :=
  len chain ≤ 2 ^ 32 ∧ ∀ h b, chain !! h = Some b →
    is_hash32 b.1 ∧ b.1 ≠ ZERO ∧ 80 ≤ len b.2 ∧ ∃ fb, parsed h b = Ok fb.

Abbreviation USet := (bytes → option UtxoValue).

Definition effect_of (U : USet) (h : nat) (fb : FullBlock) : Effect :=
  block_effect U (Z.of_nat h) (inputs fb) (outputs fb).

(** The set after the blocks [bs] from height [h]. *)
Fixpoint chain_utxos (U : USet) (h : nat) (bs : list (Hash32 * bytes)) : USet :=
  match bs with
  | [] => U
  | b :: bs =>
    match parsed h b with
    | Ok fb => chain_utxos (after U (effect_of U h fb)) (S h) bs
    | _ => U
    end
  end.

(** The block handed to [on_event]: every fee is what the effect says. *)
Definition final_block (e : Effect) (fb : FullBlock) : FullBlock :=
  let fees := (λ t, fee_of e (outputs fb) (Z.of_nat t)) <$> seq 0 (length (txs fb)) in
  mkFullBlock (set_br_total_fee (foldl sat_add 0 (tail fees)) (block_row fb))
    (zip_with (λ f, set_tr_fee f) fees (txs fb)) (inputs fb) (outputs fb).

Definition applied_event (U : USet) (h : nat) (b : Hash32 * bytes) (fb : FullBlock) : Event :=
  let e := effect_of U h fb in
  (Applied (Z.of_nat h) b.1 ((λ x, spend_row (Z.of_nat h) x.1 x.2) <$> e_resolved e),
   Some (final_block e fb)).

(** The events of applying [bs] from height [h] to the set [U]. *)
Fixpoint chain_events (U : USet) (h : nat) (bs : list (Hash32 * bytes)) : list Event :=
  match bs with
  | [] => []
  | b :: bs =>
    match parsed h b with
    | Ok fb => applied_event U h b fb :: chain_events (after U (effect_of U h fb)) (S h) bs
    | _ => []
    end
  end.
End spec.

(** ** Lemmas: the rows of a parsed block *)

Section rows.
Context `{SHA : Sha256} `{RIP : Ripemd160}.

Lemma elem_of_rows {A B} (f : A → list B) (rows : list A) x :
  x ∈ mjoin (f <$> rows) → ∃ k r j, rows !! k = Some r ∧ f r !! j = Some x.
Proof.
  intros (l & Hx & Hl)%list_elem_of_join. apply list_elem_of_fmap in Hl as (r & -> & Hr).
  apply list_elem_of_lookup in Hr as [k Hk]. apply list_elem_of_lookup in Hx as [j Hj]. by exists k, r, j.
Qed.

Lemma len_rows {A B} (f : A → list B) (rows : list A) :
  (∀ r, r ∈ rows → len (f r) < 2 ^ 32) → len rows ≤ 2 ^ 30 → len (mjoin (f <$> rows)) < 2 ^ 63.
Proof.
  intros Hf Hr. rewrite <-zsum_len_mjoin.
  assert (zsum (λ r, len (f r)) rows ≤ zsum (λ _, 2 ^ 32 * 1) rows) as Hs.
  { apply zsum_le. intros r Hin. apply Hf in Hin. lia. }
  rewrite zsum_scale in Hs. assert (zsum (λ _, 1) rows = len rows) as Hl; [|lia].
  clear. induction rows as [|r rows IH]; [done|]. rewrite zsum_cons, len_cons. lia.
Qed.

Lemma parsed_rows_wf h b fb :
  parsed h b = Ok fb → rows_wf (length (txs fb)) (inputs fb) (outputs fb).
Proof.
  intros Hp. pose proof (parse_block_outcome b.2 (Z.of_nat h) b.1 (header_parse (slice 0 80 b.2))) as Ho.
  unfold parsed in Hp. rewrite Hp in Ho. destruct Ho as (_ & _ & Hmax & rows & Ht & Hi & Hout & Hsane).
  assert (length (txs fb) = length rows) as Hlen by (rewrite Ht; apply length_fmap).
  assert (len rows ≤ 2 ^ 30) as Hr30 by (unfold len, Cursor.MAX_ITEMS in *; lia).
  unfold rows_wf. rewrite Hi, Hout, Hlen. split_and!.
  - apply Forall_forall. intros i (k & [[tx ins] outs] & j & Hk & Hj)%elem_of_rows.
    pose proof (lookup_lt_Some _ _ _ Hk). apply Hsane in Hk as (_ & _ & _ & _ & _ & _ & _ & Hins & _).
    apply Hins in Hj as (_ & -> & _ & _ & Hl & _). split; [lia|done].
  - apply Forall_forall. intros o (k & [[tx ins] outs] & j & Hk & Hj)%elem_of_rows.
    pose proof (lookup_lt_Some _ _ _ Hk).
    apply Hsane in Hk as (_ & _ & Hid & _ & _ & _ & _ & _ & Houts).
    apply Houts in Hj as (_ & -> & _ & Hto & Hv & Hty & Ha). split; [lia|].
    unfold output_wf, is_u64, MAX_MONEY in *. rewrite Hto. repeat split; try done; lia.
  - apply len_rows; [|done]. intros [[tx ins] outs] [k Hk]%list_elem_of_lookup.
    apply Hsane in Hk as (_ & _ & _ & Hl & _ & Hc & _). cbn [fst snd]. rewrite Hl. apply Hc.
  - apply len_rows; [|done]. intros [[tx ins] outs] [k Hk]%list_elem_of_lookup.
    apply Hsane in Hk as (_ & _ & _ & _ & Hl & _ & Hc & _). cbn [fst snd]. rewrite Hl. apply Hc.
Qed.
End rows.

Section fees.
Context `{SHA : Sha256} `{RIP : Ripemd160} `{ENV : RpcEnv} `{ZMQ : !ZmqLib} `{ROCKS : RocksDB}.

Lemma fill_fees_tail i ts fs total :
  (0 < i)%nat → length fs = (i + length ts)%nat →
  fill_fees i ts fs total =
    Ok (zip_with (λ f, set_tr_fee f) (drop i fs) ts, foldl sat_add total (drop i fs)).
Proof.
  revert i total. induction ts as [|t ts IH]; intros i total Hi Hl; simpl in *.
  { rewrite drop_ge by lia. done. }
  destruct (lookup_lt_is_Some_2 fs i) as [f Hf]; [lia|].
  unfold index. rewrite Nat2Z.id, Hf. m_unfold. rewrite bool_decide_false by lia.
  rewrite IH by lia. by rewrite (drop_S _ _ _ Hf).
Qed.

Lemma fill_fees_all ts fs :
  length fs = length ts →
  fill_fees 0 ts fs 0 = Ok (zip_with (λ f, set_tr_fee f) fs ts, foldl sat_add 0 (tail fs)).
Proof.
  intros Hl. destruct ts as [|t ts], fs as [|f fs]; simplify_eq/=; [done|].
  unfold index. simpl. m_unfold. by rewrite fill_fees_tail by (simpl; lia).
Qed.
End fees.

(** ** Lemmas: one block forward *)

Section steps.
Context `{SHA : Sha256} `{RIP : Ripemd160} `{ENV : RpcEnv} `{ZMQ : !ZmqLib}.
Context `{ROCKS : RocksDB} `{CLOCK : Clock} `{ORDER : HashOrder}.

Abbreviation set_of w := (utxos (db_view (db (w_store w)))).

Definition stored_tip (s : UtxoStore) (t : TipState) : Prop :=
  tip_wf t ∧ db_view (db s) !! (CfMeta, META_TIP_KEY) = Some (tip_bytes t).

(** The only way a step fails while the node serves good blocks. *)
Definition rocks_error (e : TrackerError) : Prop := ∃ x, e = TeUtxo (Rocks x).

(** Outcome of a computation that can only fail in the database. *)
Definition wp {A} (m : TM A) (w : World) (Q : A → World → Prop) : Prop :=
  match m w with
  | (Ok a, w') => Q a w'
  | (Err e, _) => rocks_error e
  | (Panic, _) => False
  end.

Lemma wp_bind {A B} (m : TM A) (k : A → TM B) w Q :
  wp m w (λ a w', wp (k a) w' Q) → wp (a ← m; k a) w Q.
Proof. unfold wp, mbind, M_bind. destruct (m w) as [[a|e|] w']; auto. Qed.

Lemma wp_bind_inv {A B} (m : TM A) (k : A → TM B) w Q :
  wp (a ← m; k a) w Q → wp m w (λ a w', wp (k a) w' Q).
Proof. unfold wp, mbind, M_bind. destruct (m w) as [[a|e|] w']; auto. Qed.

Lemma wp_ret {A} (a : A) w (Q : A → World → Prop) : Q a w → wp (mret a) w Q.
Proof. done. Qed.

Lemma wp_mono {A} (m : TM A) w (Q Q' : A → World → Prop) :
  wp m w Q → (∀ a w', Q a w' → Q' a w') → wp m w Q'.
Proof. unfold wp. destruct (m w) as [[a|e|] w']; auto. Qed.

Lemma wp_lift {A} (r : Res TrackerError A) a w (Q : A → World → Prop) :
  r = Ok a → Q a w → wp (m_lift r) w Q.
Proof. intros ->. done. Qed.

Lemma wp_rpc {A} (m : M Net RpcError A) a s' w (Q : A → World → Prop) :
  m (w_net w) = (Ok a, s') → Q a (mkWorld s' (w_store w) (w_events w)) → wp (rpc m) w Q.
Proof. unfold wp, rpc. by intros ->. Qed.

Lemma wp_event e b w (Q : () → World → Prop) :
  Q () (mkWorld (w_net w) (w_store w) (w_events w ++ [(e, b)])) → wp (on_event e b) w Q.
Proof. done. Qed.

Lemma store_inv_ext (s : UtxoStore) d :
  store_inv s → (∀ k, utxos (db_view d) k = utxos (db_view (db s)) k) → store_inv (set_db d s).
Proof.
  intros [Hmode Hco] HU. split; [done|]. simpl. unfold coherent in *.
  destruct (recent s); [|done]. destruct Hco as [Hc Ht]. split; [done|].
  intros k v Hk. rewrite HU. by apply Ht.
Qed.

(** Publishing a tip. *)
Lemma wp_set_tip t w (Q : () → World → Prop) :
  tip_wf t →
  (∀ w', w_net w' = w_net w → w_events w' = w_events w → stored_tip (w_store w') t →
     (store_inv (w_store w) → store_inv (w_store w')) → (∀ k, set_of w' k = set_of w k) →
     undo_enabled (w_store w') = undo_enabled (w_store w) → Q () w') →
  wp (utxo (set_tip t)) w Q.
Proof.
  intros Ht HQ. unfold wp, utxo. pose proof (set_tip_run t (w_store w)) as Hrun.
  destruct (set_tip t (w_store w)) as [[[]|e|] s']; simpl; [|by destruct Hrun as [[x ->] _]; eexists|done].
  destruct Hrun as [Hv [d ->]]. simpl in Hv. apply HQ; simpl; try done.
  - split; [done|]. simpl. by rewrite Hv, lookup_insert_eq.
  - intros Hinv. apply store_inv_ext; [done|]. intros k. rewrite Hv. apply utxos_set_tip.
  - intros k. rewrite Hv. apply utxos_set_tip.
Qed.

(** Applying a parsed block to the store. *)
Lemma wp_apply_block h b fb w (Q : SpendResult → World → Prop) :
  parsed h b = Ok fb → is_u32 (Z.of_nat h) → store_inv (w_store w) →
  (∀ r w', w_net w' = w_net w → w_events w' = w_events w →
     applied (w_store w) (Z.of_nat h) (length (txs fb)) (inputs fb) (outputs fb) r (w_store w') →
     store_inv (w_store w') → (∀ k, set_of w' k = after (set_of w) (effect_of (set_of w) h fb) k) →
     Q r w') →
  wp (utxo (apply_block (Z.of_nat h) (txs fb) (inputs fb) (outputs fb))) w Q.
Proof.
  intros Hp Hh Hinv HQ. unfold wp, utxo. apply parsed_rows_wf in Hp.
  pose proof (apply_block_outcome (w_store w) (Z.of_nat h) (txs fb) (inputs fb) (outputs fb) Hinv Hp Hh) as Ho.
  pose proof (apply_block_error (w_store w) (Z.of_nat h) (txs fb) (inputs fb) (outputs fb)) as He.
  destruct (apply_block _ _ _ _ _) as [[r|e|] s']; simpl; [|by destruct He as [x ->]; eexists|done].
  apply applied_inv in Ho as Hai; [|done..]. destruct Hai as [Hset Hinv']. by apply HQ.
Qed.
End steps.

(** ** Lemmas: the loops, against a node that serves a good chain *)

Section loops.
Context `{SHA : Sha256} `{RIP : Ripemd160} `{ENV : RpcEnv} `{ZMQ : !ZmqLib}.
Context `{ROCKS : RocksDB} `{CLOCK : Clock} `{ORDER : HashOrder}.
Variable node : Transport.
Variable cfg : TrackerConfig.
Variable up : Net → Prop.
Variable chain : list (Hash32 * bytes).
Hypothesis Hserves : serves node up chain.
Hypothesis Hgood : good_chain chain.

Abbreviation set_of w := (utxos (db_view (db (w_store w)))).

Lemma chain_height h b : chain !! h = Some b → is_u32 (Z.of_nat h).
Proof. intros Hh%lookup_lt_Some. destruct Hgood as [Hl _]. unfold is_u32, len in *. lia. Qed.

Lemma chain_tip_wf h b : chain !! h = Some b → tip_wf (mkTip (Z.of_nat h) b.1).
Proof. intros Hh. split; [by eapply chain_height|]. by apply Hgood in Hh as [? _]. Qed.

Lemma parse_header_ok raw : 80 ≤ len raw → parse_header raw = Ok (header_parse (slice 0 80 raw), slice 0 80 raw).
Proof.
  intros Hr. unfold parse_header. rewrite (proj2 (Z.ltb_ge _ _)) by done.
  by rewrite slice_at_ok by lia.
Qed.

Lemma fees_list r e outs (n : nat) :
  length r = n → (∀ t, (t < n)%nat → r !! t = Some (fee_of e outs (Z.of_nat t))) →
  r = (λ t, fee_of e outs (Z.of_nat t)) <$> seq 0 n.
Proof.
  intros Hl Hf. apply list_eq. intros t. rewrite list_lookup_fmap.
  destruct (decide (t < n)%nat) as [Ht|Ht].
  - rewrite Hf by done. by rewrite lookup_seq_lt.
  - rewrite !lookup_ge_None_2; [done|rewrite length_seq; lia|lia].
Qed.

(** What [apply_next] does with a block it has fetched. *)
Definition apply_fetched (next_height : Z) (hash : Hash32) (raw : bytes) : TM TipState :=
  hdr ← m_lift (parse_header raw);
  block ← m_lift (map_err TeParse (parse_block_full raw next_height hash hdr.1));
  res ← utxo (apply_block next_height (txs block) (inputs block) (outputs block));
  filled ← m_lift (fill_fees 0 (txs block) (fees res) 0);
  let block := with_fees block filled in
  let new_tip := mkTip next_height hash in
  _ ← utxo (set_tip new_tip);
  _ ← on_event (Applied next_height hash (spends res)) (Some block);
  mret new_tip.

Lemma apply_next_fetches local :
  apply_next node local =
    (hash ← rpc (get_block_hash node (u32 (tip_h local + 1)));
     raw ← rpc (get_block_raw node hash);
     apply_fetched (u32 (tip_h local + 1)) hash raw).
Proof. reflexivity. Qed.

Lemma wp_apply_fetched h b fb w (Q : TipState → World → Prop) :
  chain !! h = Some b → parsed h b = Ok fb → store_inv (w_store w) →
  (∀ w', w_net w' = w_net w → store_inv (w_store w') → stored_tip (w_store w') (mkTip (Z.of_nat h) b.1) →
     (∀ k, set_of w' k = after (set_of w) (effect_of (set_of w) h fb) k) →
     w_events w' = w_events w ++ [applied_event (set_of w) h b fb] →
     Q (mkTip (Z.of_nat h) b.1) w') →
  wp (apply_fetched (Z.of_nat h) b.1 b.2) w Q.
Proof.
  intros Hb Hp Hinv HQ. unfold apply_fetched. pose proof (proj2 Hgood h b Hb) as (_ & _ & H80 & _).
  apply wp_bind. eapply wp_lift; [by apply parse_header_ok|]. apply wp_bind.
  eapply wp_lift; [by cbn [fst]; unfold parsed in Hp; rewrite Hp|]. apply wp_bind.
  eapply wp_apply_block; [exact Hp|by eapply chain_height|done|].
  intros r w' Hn Hev Happ Hinv' Hset. destruct Happ as (_ & Hun & _ & _ & Hsp & _ & Hl & Hf & _).
  pose proof (fees_list _ _ _ _ Hl Hf) as Hfees.
  apply wp_bind. eapply wp_lift; [by apply fill_fees_all|]. apply wp_bind.
  apply wp_set_tip; [by apply chain_tip_wf|]. intros w2 Hn2 Hev2 Htip Hinv2 Hset2 Hun2.
  apply wp_bind. apply wp_event, wp_ret. apply HQ; simpl.
  - by rewrite Hn2, Hn.
  - by apply Hinv2.
  - done.
  - intros k. by rewrite Hset2, Hset.
  - rewrite Hev2, Hev. f_equal. unfold applied_event, final_block, with_fees, effect_of.
    cbn [fst snd]. by rewrite Hsp, Hfees.
Qed.

(** One block forward. *)
Lemma wp_apply_next h b fb local w (Q : TipState → World → Prop) :
  chain !! h = Some b → parsed h b = Ok fb → up (w_net w) → store_inv (w_store w) →
  u32 (tip_h local + 1) = Z.of_nat h →
  (∀ w', up (w_net w') → store_inv (w_store w') → stored_tip (w_store w') (mkTip (Z.of_nat h) b.1) →
     (∀ k, set_of w' k = after (set_of w) (effect_of (set_of w) h fb) k) →
     w_events w' = w_events w ++ [applied_event (set_of w) h b fb] →
     Q (mkTip (Z.of_nat h) b.1) w') →
  wp (apply_next node local) w Q.
Proof.
  intros Hb Hp Hup Hinv Hh HQ. rewrite apply_next_fetches, Hh. apply wp_bind.
  destruct (sv_hash _ _ _ Hserves _ _ _ Hup Hb) as (s1 & H1 & Hup1). eapply wp_rpc; [exact H1|].
  apply wp_bind. destruct (sv_raw _ _ _ Hserves s1 b Hup1 ltac:(by eapply list_elem_of_lookup_2)) as (s2 & H2 & Hup2).
  eapply wp_rpc; [exact H2|]. eapply wp_apply_fetched; [done..|].
  intros w' Hn. apply HQ. by rewrite Hn.
Qed.

Lemma chain_ext U1 U2 h bs :
  (∀ k, U1 k = U2 k) →
  chain_events U1 h bs = chain_events U2 h bs ∧ ∀ k, chain_utxos U1 h bs k = chain_utxos U2 h bs k.
Proof.
  revert U1 U2 h. induction bs as [|b bs IH]; intros U1 U2 h HU; [done|]. cbn [chain_events chain_utxos].
  destruct (parsed h b) as [fb|e|]; [|done|done]. unfold applied_event, effect_of.
  rewrite (block_effect_ext U1 U2) by done.
  destruct (IH (after U1 (block_effect U2 (Z.of_nat h) (inputs fb) (outputs fb)))
    (after U2 (block_effect U2 (Z.of_nat h) (inputs fb) (outputs fb))) (S h)) as [-> Hk]; [|done].
  intros k. unfold after. by rewrite HU.
Qed.

(** The events and the set of a run of blocks in two pieces. *)
Lemma chain_split U h bs bs' :
  (∀ j b, bs !! j = Some b → ∃ fb, parsed (h + j) b = Ok fb) →
  chain_events U h (bs ++ bs') = chain_events U h bs ++ chain_events (chain_utxos U h bs) (h + length bs) bs' ∧
  ∀ k, chain_utxos U h (bs ++ bs') k = chain_utxos (chain_utxos U h bs) (h + length bs) bs' k.
Proof.
  revert U h. induction bs as [|b bs IH]; intros U h Hg; [by rewrite Nat.add_0_r|].
  destruct (Hg 0%nat b eq_refl) as [fb Hfb]. rewrite Nat.add_0_r in Hfb. cbn [app chain_events chain_utxos length]. rewrite Hfb.
  destruct (IH (after U (effect_of U h fb)) (S h)) as [He Hu].
  { intros j b' Hj. destruct (Hg (S j) b' Hj) as [fb' Hf']. exists fb'. by replace (S h + j)%nat with (h + S j)%nat by lia. }
  replace (h + S (length bs))%nat with (S h + length bs)%nat by lia. rewrite He. done.
Qed.

(** What [catch_up] leaves when it applies the blocks from [h] on to the set [U]. *)
Definition caught_up (U : bytes → option UtxoValue) (h : nat) (evs : list Event) (w' : World) : Prop :=
  up (w_net w') ∧ store_inv (w_store w') ∧
  (∃ b, last chain = Some b ∧ stored_tip (w_store w') (mkTip (len chain - 1) b.1)) ∧
  (∀ k, set_of w' k = chain_utxos U h (drop h chain) k) ∧
  w_events w' = evs ++ chain_events U h (drop h chain) ++ [(CaughtUp (len chain - 1), None)].

(** The forward loop and the last event, from the block before [h]. *)
Lemma wp_forward h b w :
  chain !! h = Some b → up (w_net w) → store_inv (w_store w) →
  stored_tip (w_store w) (mkTip (Z.of_nat h) b.1) →
  wp (local ← forward_loop node (S (Z.to_nat (len chain - 1 - Z.of_nat h))) (len chain - 1)
                (mkTip (Z.of_nat h) b.1);
      on_event (CaughtUp (tip_h local)) None)
    w (λ _ w', caught_up (set_of w) (S h) (w_events w) w').
Proof.
  remember (Z.to_nat (len chain - 1 - Z.of_nat h)) as n eqn:Hn. revert h b w Hn.
  induction n as [|n IH]; intros h b w Hn Hb Hup Hinv Htip; pose proof (lookup_lt_Some _ _ _ Hb) as Hlt;
    apply wp_bind; cbn [forward_loop tip_h].
  - rewrite (proj2 (Z.ltb_ge _ _)) by (unfold len in *; lia). apply wp_ret, wp_event.
    assert (len chain - 1 = Z.of_nat h) as Hh by (unfold len in *; lia).
    unfold caught_up; simpl. rewrite Hh, drop_ge by (unfold len in *; lia).
    split_and!; try done. exists b. split; [|done]. rewrite last_lookup.
    replace (pred (length chain)) with h by (unfold len in *; lia). done.
  - rewrite (proj2 (Z.ltb_lt _ _)) by (unfold len in *; lia).
    destruct (lookup_lt_is_Some_2 chain (S h)) as [b' Hb']; [unfold len in *; lia|].
    destruct (proj2 Hgood _ _ Hb') as (_ & _ & _ & fb & Hfb). apply wp_bind.
    eapply (wp_apply_next (S h) b' fb); [done..| |].
    { simpl. apply chain_height in Hb'. rewrite u32_small; unfold is_u32 in *; lia. }
    intros w1 Hup1 Hinv1 Htip1 Hset1 Hev1.
    eapply wp_mono; [exact (wp_bind_inv _ _ _ _ (IH (S h) b' w1 ltac:(lia) Hb' Hup1 Hinv1 Htip1))|].
    intros l w2 Hl. eapply wp_mono; [exact Hl|]. intros _ w3 (H1 & H2 & H3 & H4 & H5).
    destruct (chain_ext _ _ (S (S h)) (drop (S (S h)) chain) Hset1) as [Hevs Hsets].
    unfold caught_up. rewrite (drop_S _ _ _ Hb'). cbn [chain_utxos chain_events]. rewrite Hfb.
    split_and!; [done..| |].
    + intros k. by rewrite H4, Hsets.
    + rewrite H5, Hev1, Hevs. by rewrite <-!app_assoc.
Qed.
(** The tip is on the node's chain: nothing is disconnected. *)
Lemma wp_reorg_on_chain fuel d h b w (Q : TipState → World → Prop) :
  chain !! h = Some b → up (w_net w) →
  (∀ s', up s' → Q (mkTip (Z.of_nat h) b.1) (mkWorld s' (w_store w) (w_events w))) →
  wp (reorg_loop node cfg (S fuel) d (mkTip (Z.of_nat h) b.1)) w Q.
Proof.
  intros Hb Hup HQ. cbn [reorg_loop tip_h tip_hash]. apply wp_bind.
  destruct (sv_hash _ _ _ Hserves _ _ _ Hup Hb) as (s1 & H1 & Hup1).
  unfold wp at 1, hash_or_zero. rewrite H1. pose proof (proj2 Hgood h b Hb) as (_ & Hnz & _).
  rewrite bool_decide_true, bool_decide_false by done. by apply wp_ret, HQ.
Qed.

(** The tip is not on it: the node has another hash there, or none. *)
Lemma wp_hash_off_chain h t w (Q : Hash32 → World → Prop) :
  (h ≤ length chain)%nat → (∀ b, chain !! h = Some b → b.1 ≠ t) → up (w_net w) →
  (∀ x s', up s' → x ≠ t ∨ x = ZERO → Q x (mkWorld s' (w_store w) (w_events w))) →
  wp (hash_or_zero node (Z.of_nat h)) w Q.
Proof.
  intros Hh Ht Hup HQ. unfold wp, hash_or_zero. destruct (chain !! h) as [b|] eqn:Hb.
  - destruct (sv_hash _ _ _ Hserves _ _ _ Hup Hb) as (s1 & -> & Hup1). apply HQ; [done|]. left. by apply Ht.
  - apply lookup_ge_None_1 in Hb.
    destruct (sv_none _ _ _ Hserves _ (Z.of_nat h) Hup) as (e & s1 & -> & Hup1); [unfold len; lia|].
    apply HQ; auto.
Qed.

(** A stored tip is read back, or the database fails. *)
Lemma wp_stored_tip t w (Q : option TipState → World → Prop) :
  stored_tip (w_store w) t → Q (Some t) w → wp (utxo utxo_tip) w Q.
Proof.
  intros [Hwf Hm] HQ. unfold wp, utxo, utxo_tip. pose proof (tip_run t (w_store w) Hwf Hm) as Ht.
  destruct (tip (w_store w)) as [t'|e|]; simpl; [|by destruct Ht as [x ->]; eexists|done].
  rewrite Ht. by destruct w.
Qed.

(** [catch_up] up to the reorganisation loop. *)
Lemma wp_catch_up t w (Q : () → World → Prop) :
  stored_tip (w_store w) t → up (w_net w) →
  (∀ s', up s' →
     wp (local ← reorg_loop node cfg (S (Z.to_nat (tip_h t))) 0 t;
         local ← forward_loop node (S (Z.to_nat (len chain - 1 - tip_h local))) (len chain - 1) local;
         on_event (CaughtUp (tip_h local)) None) (mkWorld s' (w_store w) (w_events w)) Q) →
  wp (catch_up node cfg) w Q.
Proof.
  intros Ht Hup HQ. unfold catch_up. apply wp_bind.
  destruct (sv_count _ _ _ Hserves _ Hup) as (s1 & H1 & Hup1). eapply wp_rpc; [exact H1|].
  apply wp_bind. by eapply wp_stored_tip; [exact Ht|apply HQ].
Qed.
(** At the node's tip [catch_up] only reads. *)
Lemma catch_up_idle h b w :
  chain !! h = Some b → Z.of_nat h = len chain - 1 → up (w_net w) →
  stored_tip (w_store w) (mkTip (Z.of_nat h) b.1) →
  ∃ r s' evs, catch_up node cfg w = (r, mkWorld s' (w_store w) (w_events w ++ evs)) ∧ up s' ∧
    ((r = Ok () ∧ evs = [(CaughtUp (Z.of_nat h), None)]) ∨ (∃ x, r = Err (TeUtxo (Rocks x))) ∧ evs = []).
Proof.
  intros Hb Hh Hup [Hwf Hm]. unfold catch_up, mbind, M_bind, rpc, utxo, utxo_tip.
  destruct (sv_count _ _ _ Hserves _ Hup) as (s1 & -> & Hup1). simpl.
  pose proof (tip_run (mkTip (Z.of_nat h) b.1) (w_store w) Hwf Hm) as Ht.
  destruct (tip (w_store w)) as [t|e|]; simpl; [|destruct Ht as [x ->]|done].
  2: { eexists _, s1, []. rewrite app_nil_r. split_and!; [done|done|right; split; [by eexists|done]]. }
  rewrite Ht. cbn [reorg_loop tip_h tip_hash]. unfold mbind, M_bind, hash_or_zero. cbn [w_net].
  destruct (sv_hash _ _ _ Hserves _ _ _ Hup1 Hb) as (s2 & -> & Hup2).
  pose proof (proj2 Hgood h b Hb) as (_ & Hnz & _). rewrite bool_decide_true, bool_decide_false by done.
  simpl. rewrite (proj2 (Z.ltb_ge _ _)) by lia. simpl.
  eexists _, s2, _. split_and!; [reflexivity|done|by left].
Qed.
End loops.

(** ** Lemmas: disconnecting the tip *)

Section reorg.
Context `{SHA : Sha256} `{RIP : Ripemd160} `{ENV : RpcEnv} `{ZMQ : !ZmqLib}.
Context `{ROCKS : RocksDB} `{CLOCK : Clock} `{ORDER : HashOrder}.

(** [s] is a live store that has just applied a block at height [h], with hash
    [t], to a store that held the content [m]. *)
Definition tip_block (m : View) (h : Z) (t : Hash32) (s : UtxoStore) : Prop :=
  ∃ n inputs outputs, rows_wf n inputs outputs ∧ undo_enabled s = true ∧ recent s = None ∧
    (∀ o, o ∈ outputs → m !! (CfDefault, output_key o) = None) ∧
    (∀ cf k, db_view (db s) !! (cf, k) =
       view_after (<[(CfMeta, META_TIP_KEY) := tip_bytes (mkTip h t)]> m) true h
         (block_effect (utxos m) h inputs outputs) outputs cf k) ∧ tip_wf (mkTip h t).

Lemma tip_block_stored m h t s : tip_block m h t s → stored_tip s (mkTip h t).
Proof.
  intros (n & ins & outs & _ & _ & _ & _ & Hv & Hwf). split; [done|]. rewrite Hv. simpl.
  apply lookup_insert_eq.
Qed.

(** Applying a block and storing its tip. *)
Lemma tip_block_applied s0 s1 s2 h t (txs : list TxRow) ins outs r :
  store_inv s0 → undo_enabled s0 = true → rows_wf (length txs) ins outs → is_u32 h →
  (∀ o, o ∈ outs → db_view (db s0) !! (CfDefault, output_key o) = None) → len t = 32 →
  apply_block h txs ins outs s0 = (Ok r, s1) → set_tip (mkTip h t) s1 = (Ok (), s2) →
  tip_block (db_view (db s0)) h t s2.
Proof.
  intros Hinv Hlive Hrows Hh Hfresh Ht Hap Hst.
  pose proof (apply_block_outcome s0 h txs ins outs Hinv Hrows Hh) as Ho. rewrite Hap in Ho.
  destruct Ho as (Hview & Hun & Hrec & _). rewrite Hlive in Hview.
  pose proof (set_tip_run (mkTip h t) s1) as Hs. rewrite Hst in Hs. destruct Hs as [Hv [d ->]]. simpl in Hv.
  exists (length txs), ins, outs. simpl. split_and!; [done|by rewrite Hun|by apply Hrec|done| |done].
  intros cf k. rewrite Hv. destruct (decide ((cf, k) = (CfMeta, META_TIP_KEY))) as [[= -> ->]|Hne].
  - rewrite lookup_insert_eq. simpl. by rewrite lookup_insert_eq.
  - rewrite lookup_insert_ne by done. rewrite Hview. unfold view_after. destruct cf; simpl.
    + repeat case_match; rewrite ?lookup_insert_ne by done; done.
    + case_match; rewrite ?lookup_insert_ne by done; done.
    + by rewrite lookup_insert_ne by (intros [=]; naive_solver).
Qed.

Lemma wp_disconnect_tip m h t w (Q : () → World → Prop) :
  tip_block m h t (w_store w) →
  (∀ w', w_net w' = w_net w → w_events w' = w_events w → store_inv (w_store w') →
     (∀ k, utxos (db_view (db (w_store w'))) k = utxos m k) → Q () w') →
  wp (utxo (disconnect_block h)) w Q.
Proof.
  intros (n & ins & outs & Hrows & Hlive & Hrec & Hfresh & Hview & _) HQ.
  set (m' := <[(CfMeta, META_TIP_KEY) := tip_bytes (mkTip h t)]> m) in *.
  assert (∀ k, utxos m' k = utxos m k) as Hm' by (intros; apply utxos_set_tip).
  rewrite <-(block_effect_ext (utxos m') (utxos m)) in Hview by done.
  pose proof (disconnect_block_run m' (w_store w) h n ins outs Hrows Hview) as Hd.
  unfold wp, utxo. destruct (disconnect_block h (w_store w)) as [[[]|e|] s2]; simpl; [| |done].
  - destruct Hd as [Hd [d ->]]. apply HQ; simpl; [done|done| |].
    + split; simpl; [done|]. by rewrite Hrec.
    + intros k. simpl in Hd. apply disconnect_exact in Hd. rewrite (proj2 Hd), <-Hm'.
      * unfold utxos. by rewrite lookup_delete_ne.
      * intros k' Hk'. eapply created_fresh; [|exact Hk'].
        intros o Ho. unfold m'. rewrite lookup_insert_ne by done. by apply Hfresh.
  - destruct Hd as [[x ->] _]. by eexists.
Qed.
End reorg.

(** ** Theorems *)

Section theorems.
Context `{SHA : Sha256} `{RIP : Ripemd160} `{ENV : RpcEnv} `{ZMQ : !ZmqLib}.
Context `{ROCKS : RocksDB} `{CLOCK : Clock} `{ORDER : HashOrder}.

Lemma catch_up_extends_run (node : Transport) (cfg : TrackerConfig) (up : Net → Prop)
    (chain : list (Hash32 * bytes)) (w : World) (h : nat) (b : Hash32 * bytes)
    (Hserves : serves node up chain) (Hgood : good_chain chain) (Hup : up (w_net w))
    (Hinv : store_inv (w_store w)) (Hb : chain !! h = Some b)
    (Htip : stored_tip (w_store w) (mkTip (Z.of_nat h) b.1)) :
  match catch_up node cfg w with
  | (Ok _, w') => caught_up up chain (utxos (db_view (db (w_store w)))) (S h) (w_events w) w'
  | (Err e, _) => ∃ x, e = TeUtxo (Rocks x)
  | (Panic, _) => False
  end.
Proof.
  change (wp (catch_up node cfg) w
    (λ _ w', caught_up up chain (utxos (db_view (db (w_store w)))) (S h) (w_events w) w')).
  eapply wp_catch_up; [done..|]. intros s1 Hs1. apply wp_bind.
  eapply wp_reorg_on_chain; [done..|]. intros s2 Hs2.
  apply (wp_forward node up chain Hserves Hgood h b (mkWorld s2 (w_store w) (w_events w)) Hb Hs2 Hinv Htip).
Qed.

(** C11: Catching up. When the stored tip is a block of the chain the node
    serves, [catch_up] terminates and either fails in the database or leaves
    the node's tip stored and the UTXO set that the chain's further blocks make
    of the stored one, having reported each of them once, in order, with its
    spend rows and final fees, and then [CaughtUp]. At the node's tip that is
    only [CaughtUp]. *)
Theorem catch_up_extends (node : Transport) (cfg : TrackerConfig) (up : Net → Prop)
    (chain : list (Hash32 * bytes)) (w : World) (h : nat) (b : Hash32 * bytes)
    (Hserves : serves node up chain) (Hgood : good_chain chain) (Hup : up (w_net w))
    (Hinv : store_inv (w_store w)) (Hb : chain !! h = Some b)
    (Htip : stored_tip (w_store w) (mkTip (Z.of_nat h) b.1)) :
  match catch_up node cfg w with
  | (Ok _, w') => caught_up up chain (utxos (db_view (db (w_store w)))) (S h) (w_events w) w'
  | (Err e, _) => ∃ x, e = TeUtxo (Rocks x)
  | (Panic, _) => False
  end.
Proof. by eapply catch_up_extends_run. Qed.

(** The content [m] is that of a store on the node's chain, at height [h]: its tip
    is the node's block there, and its set is what the node's blocks from [h0] on
    make of [U]. *)
Definition on_chain (chain : list (Hash32 * bytes)) (U : bytes → option UtxoValue)
    (h0 h : nat) (m : View) : Prop :=
  (h0 ≤ S h)%nat ∧
  (∃ b, chain !! h = Some b ∧ m !! (CfMeta, META_TIP_KEY) = Some (tip_bytes (mkTip (Z.of_nat h) b.1))) ∧
  ∀ k, utxos m k = chain_utxos U h0 (take (S h - h0) (drop h0 chain)) k.

(** Going on from there gives the set of the whole chain. *)
Lemma on_chain_utxos chain U h0 h m : good_chain chain → on_chain chain U h0 h m →
  ∀ k, chain_utxos (utxos m) (S h) (drop (S h) chain) k = chain_utxos U h0 (drop h0 chain) k.
Proof.
  intros [_ Hgood] (Hh0 & (b & Hb & _) & Hset) k. apply lookup_lt_Some in Hb.
  rewrite (proj2 (chain_ext _ _ (S h) _ Hset)).
  assert (∀ j x, take (S h - h0) (drop h0 chain) !! j = Some x → ∃ fb, parsed (h0 + j) x = Ok fb) as Hp.
  { intros j x [Hj _]%lookup_take_Some. rewrite lookup_drop in Hj. by apply Hgood in Hj as (_ & _ & _ & ?). }
  pose proof (proj2 (chain_split U h0 _ (drop (S h - h0) (drop h0 chain)) Hp) k) as Hk.
  rewrite take_drop in Hk. rewrite Hk, drop_drop, length_take, length_drop.
  replace (h0 + (S h - h0))%nat with (S h) by lia.
  by replace (h0 + _)%nat with (S h) by lia.
Qed.


(** First start. Without a stored tip, [catch_up] stores the node's tip,
    touches nothing else of the database and reports [CaughtUp] at it. *)
Theorem catch_up_first (node : Transport) (cfg : TrackerConfig) (up : Net → Prop)
    (chain : list (Hash32 * bytes)) (w : World) (b : Hash32 * bytes)
    (Hserves : serves node up chain) (Hgood : good_chain chain) (Hup : up (w_net w))
    (Hlast : last chain = Some b)
    (Hnone : db_view (db (w_store w)) !! (CfMeta, META_TIP_KEY) = None) :
  match catch_up node cfg w with
  | (Ok _, w') =>
    stored_tip (w_store w') (mkTip (len chain - 1) b.1) ∧
    (∀ cf k, (cf, k) ≠ (CfMeta, META_TIP_KEY) →
       db_view (db (w_store w')) !! (cf, k) = db_view (db (w_store w)) !! (cf, k)) ∧
    w_events w' = w_events w ++ [(CaughtUp (len chain - 1), None)]
  | (Err e, _) => ∃ x, e = TeUtxo (Rocks x)
  | (Panic, _) => False
  end.
Proof.
  rewrite last_lookup in Hlast. pose proof (lookup_lt_Some _ _ _ Hlast) as Hlt.
  assert (Z.of_nat (pred (length chain)) = len chain - 1) as Hh by (unfold len; lia).
  unfold catch_up, mbind, M_bind, rpc.
  destruct (sv_count _ _ _ Hserves _ Hup) as (s1 & -> & Hup1). simpl. unfold tip.
  destruct (db_get (db (w_store w)) CfMeta META_TIP_KEY) as [r|e|] eqn:Hget; simpl;
    [|by eexists|by apply db_get_no_panic in Hget].
  apply db_get_ok in Hget as ->. rewrite Hnone. simpl.
  destruct (sv_hash _ _ _ Hserves s1 _ b Hup1 Hlast) as (s2 & H2 & Hup2). rewrite Hh in H2. rewrite H2. simpl.
  pose proof (set_tip_run (mkTip (len chain - 1) b.1) (w_store w)) as Hs. unfold utxo. cbn [w_store].
  destruct (set_tip _ (w_store w)) as [[[]|e|] s']; simpl; [|by destruct Hs as [[x ->] _]; eexists|done].
  destruct Hs as [Hv _]. split_and!; [|intros cf k Hne; by rewrite Hv, lookup_insert_ne|done].
  split; [rewrite <-Hh; by eapply chain_tip_wf|]. by rewrite Hv, lookup_insert_eq.
Qed.

(** The live loop is idempotent. While the node's tip is the stored one, any
    number of rounds of the notification loop, whatever messages arrive, goes
    on running and leaves the store as it is; the only events are [CaughtUp]
    at that tip. *)
Theorem live_loop_idle (node : Transport) (cfg : TrackerConfig) (up : Net → Prop)
    (chain : list (Hash32 * bytes)) (sock : Socket) (w : World) (b : Hash32 * bytes) (rounds : nat)
    (Hserves : serves node up chain) (Hgood : good_chain chain) (Hup : up (w_net w))
    (Hrecv : ∀ s, up s → ∃ r s', recv_multipart sock s = (r, s') ∧ r ≠ Panic ∧ up s')
    (Hlast : last chain = Some b) (Htip : stored_tip (w_store w) (mkTip (len chain - 1) b.1)) :
  ∃ w' k, live_loop node cfg (Some sock) rounds w = (Ok (), w') ∧ (k ≤ rounds)%nat ∧
    w_store w' = w_store w ∧
    w_events w' = w_events w ++ replicate k (CaughtUp (len chain - 1), None).
Proof.
  rewrite last_lookup in Hlast. pose proof (lookup_lt_Some _ _ _ Hlast) as Hlt.
  assert (Z.of_nat (pred (length chain)) = len chain - 1) as Hh by (unfold len; lia).
  revert w Hup Htip. induction rounds as [|n IH]; intros w Hup Htip.
  { exists w, 0%nat. split_and!; [done|lia|done|by rewrite app_nil_r]. }
  destruct (Hrecv (w_net w) Hup) as (msg & s1 & Hmsg & Hnp & Hup1).
  cbn [live_loop]. unfold mbind, M_bind, zmq_round, next_block_hash, m_map_err, mbind, M_bind. rewrite Hmsg.
  assert (∀ s' evs i, up s' → evs = replicate i (CaughtUp (len chain - 1), None) → (i ≤ 1)%nat → ∃ w' k,
    live_loop node cfg (Some sock) n (mkWorld s' (w_store w) (w_events w ++ evs)) = (Ok (), w') ∧ (k ≤ S n)%nat ∧
    w_store w' = w_store w ∧ w_events w' = w_events w ++ replicate k (CaughtUp (len chain - 1), None)) as Hgo.
  { intros s' evs i Hs' -> Hi.
    destruct (IH (mkWorld s' (w_store w) (w_events w ++ replicate i (CaughtUp (len chain - 1), None))))
      as (w' & k & H1 & H2 & H3 & H4); [done..|].
    exists w', (i + k)%nat. split_and!; [done|lia|done|]. rewrite H4, replicate_add. simpl. by rewrite <-app_assoc. }
  destruct msg as [m|e|]; simpl; [|destruct (Hgo s1 [] 0%nat) as (w' & k & ?); [done|done|lia|];
    rewrite app_nil_r in *; by exists w', k|done].
  destruct (parse_hashblock_multipart m) as [x|e|] eqn:Hparse; simpl.
  - destruct (catch_up_idle node cfg up chain Hserves Hgood _ b (mkWorld s1 (w_store w) (w_events w)) Hlast Hh Hup1)
      as (r & s2 & evs & Hc & Hup2 & Hr); [by rewrite Hh|]. rewrite Hc. simpl. rewrite Hh in Hr.
    destruct Hr as [[-> ->]|[[y ->] ->]]; [apply (Hgo s2 _ 1%nat)|apply (Hgo s2 _ 0%nat)]; done || lia.
  - destruct (Hgo s1 [] 0%nat) as (w' & k & ?); [done|done|lia|]. rewrite app_nil_r in *. by exists w', k.
  - exfalso. unfold parse_hashblock_multipart in Hparse. by repeat case_match.
Qed.
End theorems.

(** ** A concrete chain and a concrete store *)

Module Ex.
Import Hash.Ref.

(** A coinbase transaction, and a block of hash [id n] at height [h] with it. *)
Definition id (n : Z) : bytes := le_bytes 32 n.
Definition coinbase (n : Z) : Tx :=
  mkTx 1 None [mkTxIn (zeros 32) 0xFFFFFFFF [x51; Zbyte n] 0 []] [mkTxOut (5000 + n) ([x00; x14] ++ le_bytes 20 n)] 0.
Definition header (n : Z) : BlockHeader := mkHeader 1 (zeros 32) (id (n * 7)) 1231006505 0x1d00ffff n.
Definition block (n : Z) : Hash32 * bytes := (id n, block_wire (header n) [coinbase n]).
(** The outpoint its coinbase creates. *)
Definition outpoint (n : Z) : bytes := make_key (@txid_of sha_ref (coinbase n)) 0.

Definition chain_a : list (Hash32 * bytes) := [block 1; block 2; block 3].
(** Chain [b] replaces the last block of [a], chain [c] the last two. *)
Definition chain_b : list (Hash32 * bytes) := [block 1; block 2; block 13; block 14].
Definition chain_c : list (Hash32 * bytes) := [block 1; block 12; block 13].

Definition net (chain : list (Hash32 * bytes)) : Node.Ref.State := Node.Ref.mkState chain [] [] [].

#[program] Definition zmq_ref : @ZmqLib hex_ref Node.Ref.rpc_ref :=
  @Build_ZmqLib hex_ref Node.Ref.rpc_ref () () (Ok ()) (λ _ _, Ok ()) (λ _ _, Ok ()) (λ _ _, Ok ())
    (λ _ s, (Ok [[x68]; id 1], s)).

Abbreviation world := (@World hex_ref Node.Ref.rpc_ref rocks_ref).
Abbreviation up_at s := (λ s', s' = s).

(** A live store whose tip is block 1. *)
Definition store : @UtxoStore rocks_ref :=
  @mkStore rocks_ref (<[(CfMeta, META_TIP_KEY) := tip_bytes (mkTip 0 (id 1))]> ∅) (str "db") ∅ None true false.

Definition at_genesis (chain : list (Hash32 * bytes)) : world :=
  @mkWorld hex_ref Node.Ref.rpc_ref rocks_ref (net chain) store [].

Abbreviation catch_up' := (@catch_up sha_ref ripemd_ref hex_ref Node.Ref.rpc_ref zmq_ref rocks_ref clock_ref
  order_ref Node.Ref.node tracker_config_default).

(** Kinds and heights of the events, the stored tip, and which of the given
    coinbases are unspent. *)
Definition outline (w : world) : list (Z * Z) :=
  (λ e : Event, match e.1 with
                | Applied h _ _ => (1, h) | Disconnected h _ => (2, h) | ReorgStart d => (3, d)
                | CaughtUp h => (4, h)
                end) <$> @w_events hex_ref Node.Ref.rpc_ref rocks_ref w.

Definition unspent (ns : list Z) (w : world) : list Z :=
  filter (λ n, is_Some (utxos (@db rocks_ref (@w_store hex_ref Node.Ref.rpc_ref rocks_ref w)) (outpoint n))) ns.

(** The world after following [a] from block 1, once the node serves [chain]. *)
Definition after_a (chain : list (Hash32 * bytes)) : world :=
  @mkWorld hex_ref Node.Ref.rpc_ref rocks_ref (net chain)
    (@w_store hex_ref Node.Ref.rpc_ref rocks_ref (snd (catch_up' (at_genesis chain_a)))) [].

Definition is_ok {E A S} (r : Res E A * S) : bool := match r with (Ok _, _) => true | _ => false end.
End Ex.

(** A reorganisation by two blocks is handled as one by a single block: the
    output of the replaced block 2 stays, that of its replacement 12 is never added. *)
Lemma deep_reorg_keeps_orphans :
  Ex.is_ok (Ex.catch_up' (Ex.after_a Ex.chain_c)) = true ∧
  Ex.outline (snd (Ex.catch_up' (Ex.after_a Ex.chain_c))) = [(3, 0); (2, 2); (1, 2); (4, 2)] ∧
  Ex.unspent [2; 3; 12; 13] (snd (Ex.catch_up' (Ex.after_a Ex.chain_c))) = [2; 13].
Proof. split_and!; vm_compute; reflexivity. Qed.

(** When the node's tip is two blocks below the stored one, the block is
    disconnected but its parent's hash cannot be fetched: the stored tip keeps
    naming the disconnected block, and every later attempt lacks its undo record. *)
Lemma short_node_breaks_tip :
  let w := Ex.after_a [Ex.block 1] in
  let r1 := Ex.catch_up' w in
  let r2 := Ex.catch_up' (snd r1) in
  Ex.outline (snd r1) = [(3, 0); (2, 2)] ∧ Ex.unspent [2; 3] (snd r1) = [2] ∧
  match tip (@w_store Hash.Ref.hex_ref Node.Ref.rpc_ref rocks_ref (snd r1)) with
  | Ok (Some t) => tip_h t | _ => -1 end = 2 ∧
  match fst r2 with Err (TeUtxo (NoUndo h)) => h | _ => -1 end = 2.
Proof. split_and!; vm_compute; reflexivity. Qed.

Section ex.
Import Hash.Ref.

Abbreviation good := (@good_chain sha_ref ripemd_ref).

(** The check of [good_chain] on a short concrete chain. *)
Lemma good_chain_check (chain : list (Hash32 * bytes)) :
  bool_decide (len chain ≤ 2 ^ 32) &&
  forallb (λ x : nat * (Hash32 * bytes),
    bool_decide (is_hash32 x.2.1) && bool_decide (x.2.1 ≠ ZERO) && bool_decide (80 ≤ len x.2.2) &&
    match @parsed sha_ref ripemd_ref x.1 x.2 with Ok _ => true | _ => false end)
    (imap (λ h b, (h, b)) chain) = true → good chain.
Proof.
  intros [Hl Hc]%andb_prop. split; [by apply bool_decide_eq_true in Hl|]. intros h b Hb.
  rewrite forallb_forall in Hc. specialize (Hc (h, b)).
  assert (In (h, b) (imap (λ h b, (h, b)) chain)) as Hin.
  { apply list_elem_of_In, list_elem_of_lookup. exists h. by rewrite list_lookup_imap, Hb. }
  apply Hc in Hin. simpl in Hin. apply andb_prop in Hin as [Hin Hp].
  apply andb_prop in Hin as [Hin H80]. apply andb_prop in Hin as [Hh Hz].
  apply bool_decide_eq_true in Hh, Hz, H80. split_and!; try done.
  destruct (parsed h b) as [fb|e|]; [by exists fb|done..].
Qed.

Lemma ex_serves chain :
  bool_decide (NoDup chain.*1) && bool_decide (Forall (λ b : Hash32 * bytes, is_hash32 b.1) chain) = true →
  @serves hex_ref Node.Ref.rpc_ref Node.Ref.node (λ s, s = Ex.net chain) chain.
Proof.
  intros [Hnd Hl]%andb_prop. apply bool_decide_eq_true in Hnd, Hl.
  exact (Node.Ref.node_serves (Ex.net chain) eq_refl Hnd Hl).
Qed.

Lemma ex_store_inv : @store_inv rocks_ref Ex.store.
Proof. by split. Qed.

Lemma ex_store_tip : @stored_tip rocks_ref Ex.store (mkTip 0 (Ex.id 1)).
Proof. split; [split; [by split|vm_compute; reflexivity]|]. vm_compute. reflexivity. Qed.
End ex.

Lemma catch_up_extends_witness :
  ∃ w', Ex.catch_up' (Ex.at_genesis Ex.chain_b) = (Ok tt, w') ∧
    Ex.outline w' = [(1, 1); (1, 2); (1, 3); (4, 3)] ∧
    @store_inv rocks_ref (@w_store Hash.Ref.hex_ref Node.Ref.rpc_ref rocks_ref w').
Proof.
  pose proof (@catch_up_extends Hash.Ref.sha_ref Hash.Ref.ripemd_ref Hash.Ref.hex_ref Node.Ref.rpc_ref Ex.zmq_ref
    rocks_ref clock_ref order_ref Node.Ref.node tracker_config_default (λ s, s = Ex.net Ex.chain_b) Ex.chain_b
    (Ex.at_genesis Ex.chain_b) 0 (Ex.block 1)
    (ex_serves Ex.chain_b ltac:(vm_compute; reflexivity)) (good_chain_check Ex.chain_b ltac:(vm_compute; reflexivity))
    eq_refl ex_store_inv eq_refl ex_store_tip) as Hc.
  assert (Ex.is_ok (Ex.catch_up' (Ex.at_genesis Ex.chain_b)) = true) as Hok by (vm_compute; reflexivity).
  assert (Ex.outline (snd (Ex.catch_up' (Ex.at_genesis Ex.chain_b))) = [(1, 1); (1, 2); (1, 3); (4, 3)]) as Ho
    by (vm_compute; reflexivity).
  destruct (Ex.catch_up' _) as [[[]|e|] w']; try discriminate Hok.
  exists w'. split; [reflexivity|]. split; [exact Ho|]. apply Hc.
Defined.

(** The rows of block 2, applied to the store, and its tip stored. *)
Lemma ex_tip_block :
  ∃ s2, @tip_block rocks_ref (@db rocks_ref Ex.store) 1 (Ex.id 2) s2.
Proof.
  destruct (@parsed Hash.Ref.sha_ref Hash.Ref.ripemd_ref 1 (Ex.block 2)) as [fb|e|] eqn:Hp;
    [|exfalso; assert (match @parsed Hash.Ref.sha_ref Hash.Ref.ripemd_ref 1 (Ex.block 2) with
       | Ok _ => true | _ => false end = true) as Hok by (vm_compute; reflexivity); by rewrite Hp in Hok..].
  pose proof (@parsed_rows_wf _ _ _ _ _ Hp) as Hrows.
  pose proof (@apply_block_outcome rocks_ref clock_ref order_ref Ex.store 1 (txs fb) (inputs fb) (outputs fb)
    ex_store_inv Hrows ltac:(by split)) as Ho.
  destruct (@apply_block rocks_ref clock_ref order_ref 1 (txs fb) (inputs fb) (outputs fb) Ex.store)
    as [[r|e|] s1] eqn:Ha.
  - eexists. apply (@tip_block_applied rocks_ref clock_ref order_ref Ex.store s1 _ 1 (Ex.id 2) (txs fb)
      (inputs fb) (outputs fb) r ex_store_inv eq_refl Hrows ltac:(by split)); [|by vm_compute|exact Ha|reflexivity].
    intros o _.
    change ((<[(CfMeta, META_TIP_KEY) := tip_bytes (mkTip 0 (Ex.id 1))]> (∅ : View)) !! (CfDefault, output_key o) = None).
    by rewrite lookup_insert_ne.
  - exfalso. assert (match @parsed Hash.Ref.sha_ref Hash.Ref.ripemd_ref 1 (Ex.block 2) with
      | Ok fb => Ex.is_ok (@apply_block rocks_ref clock_ref order_ref 1 (txs fb) (inputs fb) (outputs fb) Ex.store)
      | _ => false end = true) as Hok by (vm_compute; reflexivity).
    rewrite Hp, Ha in Hok. done.
  - done.
Qed.

Lemma ex_on_chain :
  @on_chain Hash.Ref.sha_ref Hash.Ref.ripemd_ref Ex.chain_c (utxos (@db rocks_ref Ex.store)) 1 0 (@db rocks_ref Ex.store).
Proof. split; [done|]. split; [by eexists|done]. Qed.


Lemma catch_up_first_witness :
  let s := @mkStore rocks_ref ∅ (str "db") ∅ None true false in
  let w := @mkWorld Hash.Ref.hex_ref Node.Ref.rpc_ref rocks_ref (Ex.net Ex.chain_b) s [] in
  match Ex.catch_up' w with
  | (Ok _, w') => @stored_tip rocks_ref (@w_store Hash.Ref.hex_ref Node.Ref.rpc_ref rocks_ref w') (mkTip 3 (Ex.id 14))
  | (Err e, _) => ∃ x, e = TeUtxo (Rocks x)
  | (Panic, _) => False
  end.
Proof.
  intros s w.
  pose proof (@catch_up_first Hash.Ref.sha_ref Hash.Ref.ripemd_ref Hash.Ref.hex_ref Node.Ref.rpc_ref Ex.zmq_ref
    rocks_ref clock_ref order_ref Node.Ref.node tracker_config_default (λ s, s = Ex.net Ex.chain_b) Ex.chain_b
    w (Ex.block 14) (ex_serves Ex.chain_b ltac:(vm_compute; reflexivity))
    (good_chain_check Ex.chain_b ltac:(vm_compute; reflexivity)) eq_refl eq_refl eq_refl) as Hc.
  destruct (Ex.catch_up' w) as [[[]|e|] w']; [apply Hc|exact Hc|exact Hc].
Defined.

Lemma live_loop_idle_witness :
  let w := @mkWorld Hash.Ref.hex_ref Node.Ref.rpc_ref rocks_ref (Ex.net [Ex.block 1]) Ex.store [] in
  ∃ w' k, @live_loop Hash.Ref.sha_ref Hash.Ref.ripemd_ref Hash.Ref.hex_ref Node.Ref.rpc_ref Ex.zmq_ref rocks_ref
      clock_ref order_ref Node.Ref.node tracker_config_default (Some tt) 5 w = (Ok tt, w') ∧ (k ≤ 5)%nat ∧
    @w_store Hash.Ref.hex_ref Node.Ref.rpc_ref rocks_ref w' = Ex.store.
Proof.
  intros w.
  pose proof (@live_loop_idle Hash.Ref.sha_ref Hash.Ref.ripemd_ref Hash.Ref.hex_ref Node.Ref.rpc_ref Ex.zmq_ref
    rocks_ref clock_ref order_ref Node.Ref.node tracker_config_default (λ s, s = Ex.net [Ex.block 1]) [Ex.block 1]
    tt w (Ex.block 1) 5 (ex_serves [Ex.block 1] ltac:(vm_compute; reflexivity))
    (good_chain_check [Ex.block 1] ltac:(vm_compute; reflexivity)) eq_refl) as Hc.
  destruct Hc as (w' & k & H1 & H2 & H3 & _).
  - intros s ->. eexists _, _. split; [reflexivity|]. split; [discriminate|reflexivity].
  - reflexivity.
  - exact ex_store_tip.
  - exists w', k. split; [exact H1|]. split; [exact H2|exact H3].
Defined.
