(* ===== verification/Parquet.v ===== *)
(** * Parquet: the buffered column writers, [bidx-store/src/parquet_writers.rs]

    The [arrow] and [parquet] crates are the class [ParquetLib]: building a
    record batch from a schema and columns, and a writer that appends batches
    to a file. *)
From S2P Require Import Prelude Text Hash Types BlkFile.

(** The column types the schemas use, and the cells of a row. *)
Inductive DataType : Type := DUInt32 | DUInt64 | DInt32 | DUInt8 | DBoolean | DFixedSizeBinary (w : Z).

#[global] Instance DataType_eq_dec : EqDecision DataType.
Proof. solve_decision. Defined.

Record Field : Type := mkField { f_name : rstr; f_type : DataType; f_nullable : bool }.

Inductive Cell : Type :=
  | CU32 (z : Z) | CU64 (z : Z) | CI32 (z : Z) | CU8 (z : Z) | CBool (b : bool) | CBin (v : bytes).

Record WriterProps : Type := mkProps {
  compression : rstr; max_row_group_size : Z; write_batch_size : Z }.

(** What the code relies on: a batch holds the columns it is built from, which
    succeeds when there is one column of the right type per field and all
    have the same length; a successful write adds the batch to the file. *)
Definition cell_type (c : Cell) : DataType :=
  match c with
  | CU32 _ => DUInt32 | CU64 _ => DUInt64 | CI32 _ => DInt32 | CU8 _ => DUInt8
  | CBool _ => DBoolean | CBin v => DFixedSizeBinary (len v)
  end.

Definition columns_fit (schema : list Field) (n : nat) (cols : list (list Cell)) : Prop :=
  Forall2 (λ f col, length col = n ∧ Forall (λ c, cell_type c = f_type f) col) schema cols.

Class ParquetLib := {
  ArrowError : Type;
  ParquetError : Type;
  SinkIoError : Type;
  RecordBatch : Type;
  FileHandle : Type;
  ArrowWriter : Type;
  create_dir_all : rstr → Res SinkIoError ();
  file_create : rstr → Res SinkIoError FileHandle;
  wrong_width : ArrowError;
  batch_try_new : list Field → list (list Cell) → Res ArrowError RecordBatch;
  batch_columns : RecordBatch → list (list Cell);
  writer_try_new : FileHandle → list Field → WriterProps → Res ParquetError ArrowWriter;
  writer_write : ArrowWriter → RecordBatch → Res ParquetError () * ArrowWriter;
  writer_close : ArrowWriter → Res ParquetError ();
  written : ArrowWriter → list RecordBatch;
  batch_try_new_fits : ∀ schema n cols, columns_fit schema n cols →
    ∃ b, batch_try_new schema cols = Ok b;
  batch_try_new_ok : ∀ schema cols b, batch_try_new schema cols = Ok b → batch_columns b = cols;
  create_dir_no_panic : ∀ p, create_dir_all p ≠ Panic;
  file_create_no_panic : ∀ p, file_create p ≠ Panic;
  writer_new_no_panic : ∀ f s p, writer_try_new f s p ≠ Panic;
  writer_new_empty : ∀ f s p w, writer_try_new f s p = Ok w → written w = [];
  writer_write_ok : ∀ w b w', writer_write w b = (Ok (), w') → written w' = written w ++ [b];
  writer_write_no_panic : ∀ w b, fst (writer_write w b) ≠ Panic;
  writer_close_no_panic : ∀ w, writer_close w ≠ Panic
}.

Inductive SinkError `{ParquetLib} : Type :=
  | SeArrow (e : ArrowError)
  | SeParquet (e : ParquetError)
  | SeIo (e : SinkIoError).

Record SinkConfig : Type := mkSinkConfig { batch_size : Z }.

Definition sink_config_default : SinkConfig := mkSinkConfig 250000.

Definition writer_props : WriterProps := mkProps (str "ZSTD") 1000000 8192.

Definition fbin32 (name : rstr) : Field := mkField name (DFixedSizeBinary 32) false.
Definition field (name : string) (t : DataType) : Field := mkField (str name) t false.

Definition blocks_schema : list Field :=
  [field "height" DUInt32; fbin32 (str "hash"); fbin32 (str "prev_hash"); fbin32 (str "merkle_root");
   field "time" DUInt32; field "bits" DUInt32; field "nonce" DUInt32; field "version" DInt32;
   field "tx_count" DUInt32; field "size" DUInt32; field "weight" DUInt32; field "total_fee" DUInt64;
   field "coinbase_value" DUInt64].

Definition transactions_schema : list Field :=
  [field "height" DUInt32; field "tx_index" DUInt32; fbin32 (str "txid"); field "version" DInt32;
   field "locktime" DUInt32; field "size" DUInt32; field "weight" DUInt32; field "fee" DUInt64;
   field "input_count" DUInt32; field "output_count" DUInt32; field "has_witness" DBoolean].

Definition inputs_schema : list Field :=
  [field "height" DUInt32; field "tx_index" DUInt32; field "input_index" DUInt32; fbin32 (str "txid");
   fbin32 (str "prev_txid"); field "prev_vout" DUInt32; field "script_sig_len" DUInt32;
   field "sequence" DUInt32; field "witness_items" DUInt32; field "witness_bytes" DUInt32;
   field "is_coinbase" DBoolean].

Definition outputs_schema : list Field :=
  [field "height" DUInt32; field "tx_index" DUInt32; field "output_index" DUInt32; fbin32 (str "txid");
   field "value_sat" DUInt64; field "script_pubkey_len" DUInt32; field "script_type" DUInt8;
   fbin32 (str "address_hash")].

Definition spends_schema : list Field :=
  [field "height" DUInt32; field "spending_tx_index" DUInt32; field "spending_input_index" DUInt32;
   fbin32 (str "spending_txid"); fbin32 (str "spent_txid"); field "spent_vout" DUInt32;
   field "spent_value_sat" DUInt64; field "spent_script_type" DUInt8; fbin32 (str "spent_address_hash");
   field "spent_height" DUInt32].

(** A column builder: its type and the values appended since [finish]. *)
Record Col : Type := mkCol { c_type : DataType; c_vals : list Cell }.

Definition col_finish (c : Col) : list Cell * Col := (c_vals c, mkCol (c_type c) []).

Record EntityTable : Type := mkTable { et_schema : list Field; et_cols : list Col; et_buffered : Z }.

Definition entity_new (schema : list Field) : EntityTable :=
  mkTable schema ((λ f, mkCol (f_type f) []) <$> schema) 0.

Section sink.
Context `{ParquetLib}.

(** The [push!] and [push_bin!] macros: a column of another type is
    [unreachable!], a binary value of another width an error. *)
Definition push (i : nat) (v : Cell) : M (list Col) SinkError () := λ cols,
  match cols !! i with
  | None => (Panic, cols)
  | Some c =>
    let appended := <[i := mkCol (c_type c) (c_vals c ++ [v])]> cols in
    match c_type c, v with
    | DUInt32, CU32 _ | DUInt64, CU64 _ | DInt32, CI32 _ | DUInt8, CU8 _ | DBoolean, CBool _ =>
      (Ok (), appended)
    | DFixedSizeBinary w, CBin b =>
      if len b =? w then (Ok (), appended) else (Err (SeArrow wrong_width), cols)
    | _, _ => (Panic, cols)
    end
  end.

Definition take_batch (t : EntityTable) : Res SinkError RecordBatch * EntityTable :=
  let arrays := (λ c, (col_finish c).1) <$> et_cols t in
  let t' := mkTable (et_schema t) ((λ c, (col_finish c).2) <$> et_cols t) 0 in
  (map_err SeArrow (batch_try_new (et_schema t) arrays), t').

Record ParquetSink : Type := mkSink {
  s_cfg : SinkConfig; s_part : Z;
  blocks_w : ArrowWriter; txs_w : ArrowWriter; inputs_w : ArrowWriter; outputs_w : ArrowWriter;
  spends_w : ArrowWriter;
  t_blocks : EntityTable; t_txs : EntityTable; t_inputs : EntityTable; t_outputs : EntityTable;
  t_spends : EntityTable }.

Definition create_writer `{Fs} (dir entity : rstr) (part : Z) (schema : list Field)
    : Res SinkError ArrowWriter :=
  let pdir := fs_join dir entity in
  _ ← map_err SeIo (create_dir_all pdir);
  file ← map_err SeIo (file_create (fs_join pdir (str "part-" ++ fmt_dec0 5 part ++ str ".parquet")));
  map_err SeParquet (writer_try_new file schema writer_props).

Definition sink_create `{Fs} (dir : rstr) (part : Z) (cfg : SinkConfig) : Res SinkError ParquetSink :=
  bw ← create_writer dir (str "blocks") part blocks_schema;
  tw ← create_writer dir (str "transactions") part transactions_schema;
  iw ← create_writer dir (str "inputs") part inputs_schema;
  ow ← create_writer dir (str "outputs") part outputs_schema;
  sw ← create_writer dir (str "spends") part spends_schema;
  Ok (mkSink cfg part bw tw iw ow sw (entity_new blocks_schema) (entity_new transactions_schema)
        (entity_new inputs_schema) (entity_new outputs_schema) (entity_new spends_schema)).

(** A row pushed to a table and its writer: the columns, then the count, and the
    batch written when it is full. *)
Definition push_row (cfg : SinkConfig) (pushes : M (list Col) SinkError ()) (t : EntityTable)
    (w : ArrowWriter) : Res SinkError () * (EntityTable * ArrowWriter) :=
  let '(r, cols) := pushes (et_cols t) in
  match r with
  | Ok _ =>
    let t := mkTable (et_schema t) cols (et_buffered t + 1) in
    if batch_size cfg <=? et_buffered t then
      match take_batch t with
      | (Ok b, t) => let '(r, w) := writer_write w b in (map_err SeParquet r, (t, w))
      | (Err e, t) => (Err e, (t, w))
      | (Panic, t) => (Panic, (t, w))
      end
    else (Ok (), (t, w))
  | _ => (r, (mkTable (et_schema t) cols (et_buffered t), w))
  end.

Definition block_pushes (r : BlockRow) : M (list Col) SinkError () :=
  _ ← push 0 (CU32 (br_height r));
  _ ← push 1 (CBin (br_hash r));
  _ ← push 2 (CBin (br_prev_hash r));
  _ ← push 3 (CBin (br_merkle_root r));
  _ ← push 4 (CU32 (br_time r));
  _ ← push 5 (CU32 (br_bits r));
  _ ← push 6 (CU32 (br_nonce r));
  _ ← push 7 (CI32 (br_version r));
  _ ← push 8 (CU32 (br_tx_count r));
  _ ← push 9 (CU32 (br_size r));
  _ ← push 10 (CU32 (br_weight r));
  _ ← push 11 (CU64 (br_total_fee r));
  push 12 (CU64 (br_coinbase_value r)).

Definition push_block (r : BlockRow) : M ParquetSink SinkError () := λ s,
  let '(res, (t, w)) := push_row (s_cfg s) (block_pushes r) (t_blocks s) (blocks_w s) in
  (res, mkSink (s_cfg s) (s_part s) w (txs_w s) (inputs_w s) (outputs_w s) (spends_w s)
          t (t_txs s) (t_inputs s) (t_outputs s) (t_spends s)).

Definition tx_pushes (r : TxRow) : M (list Col) SinkError () :=
  _ ← push 0 (CU32 (tr_height r));
  _ ← push 1 (CU32 (tr_tx_index r));
  _ ← push 2 (CBin (tr_txid r));
  _ ← push 3 (CI32 (tr_version r));
  _ ← push 4 (CU32 (tr_locktime r));
  _ ← push 5 (CU32 (tr_size r));
  _ ← push 6 (CU32 (tr_weight r));
  _ ← push 7 (CU64 (tr_fee r));
  _ ← push 8 (CU32 (tr_input_count r));
  _ ← push 9 (CU32 (tr_output_count r));
  push 10 (CBool (tr_has_witness r)).

Definition push_tx (r : TxRow) : M ParquetSink SinkError () := λ s,
  let '(res, (t, w)) := push_row (s_cfg s) (tx_pushes r) (t_txs s) (txs_w s) in
  (res, mkSink (s_cfg s) (s_part s) (blocks_w s) w (inputs_w s) (outputs_w s) (spends_w s)
          (t_blocks s) t (t_inputs s) (t_outputs s) (t_spends s)).

Definition input_pushes (r : InputRow) : M (list Col) SinkError () :=
  _ ← push 0 (CU32 (ir_height r));
  _ ← push 1 (CU32 (ir_tx_index r));
  _ ← push 2 (CU32 (ir_input_index r));
  _ ← push 3 (CBin (ir_txid r));
  _ ← push 4 (CBin (ir_prev_txid r));
  _ ← push 5 (CU32 (ir_prev_vout r));
  _ ← push 6 (CU32 (ir_script_sig_len r));
  _ ← push 7 (CU32 (ir_sequence r));
  _ ← push 8 (CU32 (ir_witness_items r));
  _ ← push 9 (CU32 (ir_witness_bytes r));
  push 10 (CBool (ir_is_coinbase r)).

Definition push_input (r : InputRow) : M ParquetSink SinkError () := λ s,
  let '(res, (t, w)) := push_row (s_cfg s) (input_pushes r) (t_inputs s) (inputs_w s) in
  (res, mkSink (s_cfg s) (s_part s) (blocks_w s) (txs_w s) w (outputs_w s) (spends_w s)
          (t_blocks s) (t_txs s) t (t_outputs s) (t_spends s)).

Definition output_pushes (r : OutputRow) : M (list Col) SinkError () :=
  _ ← push 0 (CU32 (or_height r));
  _ ← push 1 (CU32 (or_tx_index r));
  _ ← push 2 (CU32 (or_output_index r));
  _ ← push 3 (CBin (or_txid r));
  _ ← push 4 (CU64 (or_value_sat r));
  _ ← push 5 (CU32 (or_script_pubkey_len r));
  _ ← push 6 (CU8 (or_script_type r));
  push 7 (CBin (or_address_hash r)).

Definition push_output (r : OutputRow) : M ParquetSink SinkError () := λ s,
  let '(res, (t, w)) := push_row (s_cfg s) (output_pushes r) (t_outputs s) (outputs_w s) in
  (res, mkSink (s_cfg s) (s_part s) (blocks_w s) (txs_w s) (inputs_w s) w (spends_w s)
          (t_blocks s) (t_txs s) (t_inputs s) t (t_spends s)).

Definition spend_pushes (r : SpendRow) : M (list Col) SinkError () :=
  _ ← push 0 (CU32 (sr_height r));
  _ ← push 1 (CU32 (sr_spending_tx_index r));
  _ ← push 2 (CU32 (sr_spending_input_index r));
  _ ← push 3 (CBin (sr_spending_txid r));
  _ ← push 4 (CBin (sr_spent_txid r));
  _ ← push 5 (CU32 (sr_spent_vout r));
  _ ← push 6 (CU64 (sr_spent_value_sat r));
  _ ← push 7 (CU8 (sr_spent_script_type r));
  _ ← push 8 (CBin (sr_spent_address_hash r));
  push 9 (CU32 (sr_spent_height r)).

Definition push_spend (r : SpendRow) : M ParquetSink SinkError () := λ s,
  let '(res, (t, w)) := push_row (s_cfg s) (spend_pushes r) (t_spends s) (spends_w s) in
  (res, mkSink (s_cfg s) (s_part s) (blocks_w s) (txs_w s) (inputs_w s) (outputs_w s) w
          (t_blocks s) (t_txs s) (t_inputs s) (t_outputs s) t).

(** [if self.x.buffered > 0 { .. }]. *)
Definition flush_table (t : EntityTable) (w : ArrowWriter) : Res SinkError ArrowWriter :=
  if 0 <? et_buffered t then
    b ← fst (take_batch t);
    let '(r, w) := writer_write w b in
    _ ← map_err SeParquet r;
    Ok w
  else Ok w.

(** [finish], returning the five closed files. *)
Definition sink_finish (s : ParquetSink) : Res SinkError (list ArrowWriter) :=
  bw ← flush_table (t_blocks s) (blocks_w s);
  tw ← flush_table (t_txs s) (txs_w s);
  iw ← flush_table (t_inputs s) (inputs_w s);
  ow ← flush_table (t_outputs s) (outputs_w s);
  sw ← flush_table (t_spends s) (spends_w s);
  _ ← map_err SeParquet (writer_close bw);
  _ ← map_err SeParquet (writer_close tw);
  _ ← map_err SeParquet (writer_close iw);
  _ ← map_err SeParquet (writer_close ow);
  _ ← map_err SeParquet (writer_close sw);
  Ok [bw; tw; iw; ow; sw].
End sink.

(** ** Specification *)

(** The cells of a row, by column. *)
Definition block_cells (r : BlockRow) : list Cell :=
  [CU32 (br_height r); CBin (br_hash r); CBin (br_prev_hash r); CBin (br_merkle_root r); CU32 (br_time r);
   CU32 (br_bits r); CU32 (br_nonce r); CI32 (br_version r); CU32 (br_tx_count r); CU32 (br_size r);
   CU32 (br_weight r); CU64 (br_total_fee r); CU64 (br_coinbase_value r)].

Definition tx_cells (r : TxRow) : list Cell :=
  [CU32 (tr_height r); CU32 (tr_tx_index r); CBin (tr_txid r); CI32 (tr_version r); CU32 (tr_locktime r);
   CU32 (tr_size r); CU32 (tr_weight r); CU64 (tr_fee r); CU32 (tr_input_count r);
   CU32 (tr_output_count r); CBool (tr_has_witness r)].

Definition input_cells (r : InputRow) : list Cell :=
  [CU32 (ir_height r); CU32 (ir_tx_index r); CU32 (ir_input_index r); CBin (ir_txid r);
   CBin (ir_prev_txid r); CU32 (ir_prev_vout r); CU32 (ir_script_sig_len r); CU32 (ir_sequence r);
   CU32 (ir_witness_items r); CU32 (ir_witness_bytes r); CBool (ir_is_coinbase r)].

Definition output_cells (r : OutputRow) : list Cell :=
  [CU32 (or_height r); CU32 (or_tx_index r); CU32 (or_output_index r); CBin (or_txid r);
   CU64 (or_value_sat r); CU32 (or_script_pubkey_len r); CU8 (or_script_type r); CBin (or_address_hash r)].

Definition spend_cells (r : SpendRow) : list Cell :=
  [CU32 (sr_height r); CU32 (sr_spending_tx_index r); CU32 (sr_spending_input_index r);
   CBin (sr_spending_txid r); CBin (sr_spent_txid r); CU32 (sr_spent_vout r); CU64 (sr_spent_value_sat r);
   CU8 (sr_spent_script_type r); CBin (sr_spent_address_hash r); CU32 (sr_spent_height r)].

(** The five tables, and a push to one of them. *)
Inductive Entity : Type := Blocks | Transactions | Inputs | Outputs | Spends.

#[global] Instance Entity_eq_dec : EqDecision Entity.
Proof. solve_decision. Defined.

Definition schema_of (e : Entity) : list Field :=
  match e with
  | Blocks => blocks_schema | Transactions => transactions_schema | Inputs => inputs_schema
  | Outputs => outputs_schema | Spends => spends_schema
  end.

Inductive SinkOp : Type :=
  | OpBlock (r : BlockRow) | OpTx (r : TxRow) | OpInput (r : InputRow) | OpOutput (r : OutputRow)
  | OpSpend (r : SpendRow).

Definition op_entity (o : SinkOp) : Entity :=
  match o with
  | OpBlock _ => Blocks | OpTx _ => Transactions | OpInput _ => Inputs | OpOutput _ => Outputs
  | OpSpend _ => Spends
  end.

Definition op_cells (o : SinkOp) : list Cell :=
  match o with
  | OpBlock r => block_cells r | OpTx r => tx_cells r | OpInput r => input_cells r
  | OpOutput r => output_cells r | OpSpend r => spend_cells r
  end.

(** A row fits a schema when its cells have the columns' types. *)
Definition row_fits (schema : list Field) (row : list Cell) : Prop :=
  Forall2 (λ f c, cell_type c = f_type f) schema row.

(** The hashes of a row have 32 bytes (they are [[u8; 32]]). *)
Definition op_wf (o : SinkOp) : Prop := row_fits (schema_of (op_entity o)) (op_cells o).

(** The columns of a table of rows. *)
Definition columns (schema : list Field) (rows : list (list Cell)) : list (list Cell) :=
  imap (λ j _, omap (λ r, r !! j) rows) schema.

Definition col_builders (schema : list Field) (rows : list (list Cell)) : list Col :=
  imap (λ j f, mkCol (f_type f) (omap (λ r, r !! j) rows)) schema.

Section spec.
Context `{ParquetLib}.

Definition op_run (o : SinkOp) : M ParquetSink SinkError () :=
  match o with
  | OpBlock r => push_block r | OpTx r => push_tx r | OpInput r => push_input r
  | OpOutput r => push_output r | OpSpend r => push_spend r
  end.

Definition op_pushes (o : SinkOp) : M (list Col) SinkError () :=
  match o with
  | OpBlock r => block_pushes r | OpTx r => tx_pushes r | OpInput r => input_pushes r
  | OpOutput r => output_pushes r | OpSpend r => spend_pushes r
  end.

Fixpoint ops_run (ops : list SinkOp) : M ParquetSink SinkError () :=
  match ops with [] => mret () | o :: ops => _ ← op_run o; ops_run ops end.

Definition table_of (e : Entity) (s : ParquetSink) : EntityTable :=
  match e with
  | Blocks => t_blocks s | Transactions => t_txs s | Inputs => t_inputs s | Outputs => t_outputs s
  | Spends => t_spends s
  end.

Definition writer_of (e : Entity) (s : ParquetSink) : ArrowWriter :=
  match e with
  | Blocks => blocks_w s | Transactions => txs_w s | Inputs => inputs_w s | Outputs => outputs_w s
  | Spends => spends_w s
  end.

(** A file holds [rows] in batches: in order, all but the last of exactly
    [n] rows, none empty or larger. *)
Definition file_rows (n : Z) (schema : list Field) (rows : list (list Cell)) (w : ArrowWriter) : Prop :=
  ∃ chunks last, rows = mjoin chunks ++ last ∧ Forall (λ c, len c = n) chunks ∧ len last < n ∧
    batch_columns <$> written w =
      columns schema <$> (chunks ++ if bool_decide (last = []) then [] else [last]).

(** A table and its writer after [rows]: full batches written, the rest buffered. *)
Definition table_inv (n : Z) (schema : list Field) (rows : list (list Cell)) (t : EntityTable)
    (w : ArrowWriter) : Prop :=
  Forall (row_fits schema) rows ∧
  ∃ chunks buf, rows = mjoin chunks ++ buf ∧ Forall (λ c, len c = n) chunks ∧ len buf < n ∧
    t = mkTable schema (col_builders schema buf) (len buf) ∧
    batch_columns <$> written w = columns schema <$> chunks.

(** A push of [cells] appends them to the columns. *)
Definition pushes_cells (schema : list Field) (cells : list Cell) (m : M (list Col) SinkError ()) : Prop :=
  ∀ rows, m (col_builders schema rows) = (Ok (), col_builders schema (rows ++ [cells])).
End spec.

(** ** Lemmas: columns *)

Lemma omap_snoc {A B} (f : A → option B) (l : list A) x y :
  f x = Some y → omap f (l ++ [x]) = omap f l ++ [y].
Proof. intros Hf. rewrite omap_app. simpl. by rewrite Hf. Qed.

Lemma row_column schema rows j f :
  Forall (row_fits schema) rows → schema !! j = Some f →
  length (omap (λ r : list Cell, r !! j) rows) = length rows ∧
  Forall (λ c, cell_type c = f_type f) (omap (λ r : list Cell, r !! j) rows).
Proof.
  intros Hrows Hf. induction Hrows as [|r rows Hr Hrows [IH1 IH2]]; [by split|].
  destruct (Forall2_lookup_l _ _ _ _ _ Hr Hf) as (c & Hc & Hty).
  assert (omap (λ r : list Cell, r !! j) (r :: rows) = c :: omap (λ r : list Cell, r !! j) rows) as ->
    by (simpl; by rewrite Hc).
  split; [cbn [length]; by rewrite IH1|by constructor].
Qed.

Lemma columns_fits schema rows :
  Forall (row_fits schema) rows → columns_fit schema (length rows) (columns schema rows).
Proof.
  intros Hrows. apply Forall2_same_length_lookup. unfold columns. split; [by rewrite length_imap|].
  intros j f col Hf Hc. rewrite list_lookup_imap, Hf in Hc. injection Hc as <-.
  by apply (row_column schema).
Qed.

Lemma col_builders_vals schema rows : (λ c, (col_finish c).1) <$> col_builders schema rows = columns schema rows.
Proof. unfold col_builders, columns. by rewrite fmap_imap. Qed.

Lemma col_builders_reset schema rows :
  (λ c, (col_finish c).2) <$> col_builders schema rows = col_builders schema [].
Proof. unfold col_builders. by rewrite fmap_imap. Qed.

Section tables.
Context `{ParquetLib}.

Lemma take_batch_run n schema rows :
  Forall (row_fits schema) rows →
  ∃ b, take_batch (mkTable schema (col_builders schema rows) n) = (Ok b, mkTable schema (col_builders schema []) 0) ∧
    batch_columns b = columns schema rows.
Proof.
  intros Hrows. unfold take_batch. cbn [et_cols et_schema].
  rewrite col_builders_vals, col_builders_reset.
  destruct (batch_try_new_fits schema (length rows) (columns schema rows)) as [b Hb]; [by apply columns_fits|].
  exists b. rewrite Hb. split; [done|]. by eapply batch_try_new_ok.
Qed.

Lemma push_row_inv cfg n schema rows row m t w :
  n = batch_size cfg → 0 < n → row_fits schema row → pushes_cells schema row m → table_inv n schema rows t w →
  match push_row cfg m t w with
  | (Ok _, (t', w')) => table_inv n schema (rows ++ [row]) t' w'
  | (Err e, _) => ∃ x, e = SeParquet x
  | (Panic, _) => False
  end.
Proof.
  intros -> Hn Hrow Hm (Hfit & chunks & buf & -> & Hch & Hbuf & -> & Hw). unfold push_row.
  cbn [et_cols et_schema et_buffered]. rewrite Hm.
  assert (Forall (row_fits schema) (buf ++ [row])) as Hfit'.
  { apply Forall_app in Hfit as [_ Hfit]. apply Forall_app. by split; [|constructor]. }
  assert (Forall (row_fits schema) ((mjoin chunks ++ buf) ++ [row])) as Hall
    by (apply Forall_app; split; [done|by constructor]).
  assert (len (buf ++ [row]) = len buf + 1) as Hlen by (rewrite len_app, len_cons, len_nil; lia).
  destruct (batch_size cfg <=? len buf + 1) eqn:Hfull.
  - destruct (take_batch_run (len buf + 1) schema (buf ++ [row]) Hfit') as (b & -> & Hb).
    pose proof (writer_write_no_panic w b). destruct (writer_write w b) as [[u|e|] w'] eqn:Hwr;
      simpl; [|by eexists|done]. destruct u. apply writer_write_ok in Hwr.
    split; [done|]. exists (chunks ++ [buf ++ [row]]), []. split_and!.
    + rewrite join_app. simpl. by rewrite !app_nil_r, app_assoc.
    + apply Forall_app. split; [done|]. constructor; [lia|done].
    + done.
    + done.
    + rewrite Hwr, !fmap_app, Hw. simpl. by rewrite Hb.
  - split; [done|]. exists chunks, (buf ++ [row]). rewrite Hlen. split_and!; try done; [by rewrite app_assoc|lia].
Qed.

Lemma flush_table_inv n schema rows t w :
  table_inv n schema rows t w →
  match flush_table t w with
  | Ok w' => file_rows n schema rows w'
  | Err e => ∃ x, e = SeParquet x
  | Panic => False
  end.
Proof.
  intros (Hfit & chunks & buf & -> & Hch & Hbuf & -> & Hw). unfold flush_table. cbn [et_buffered].
  destruct (0 <? len buf) eqn:Hpos.
  - apply Forall_app in Hfit as [_ Hfit].
    destruct (take_batch_run (len buf) schema buf Hfit) as (b & -> & Hb). m_unfold. cbn [fst].
    pose proof (writer_write_no_panic w b). destruct (writer_write w b) as [[u|e|] w'] eqn:Hwr;
      simpl; [|by eexists|done]. destruct u. apply writer_write_ok in Hwr.
    exists chunks, buf. split_and!; [done..|]. rewrite bool_decide_false by (intros ->; done).
    rewrite Hwr, !fmap_app, Hw. simpl. by rewrite Hb.
  - exists chunks, buf. assert (buf = []) as -> by (apply len_zero_nil; pose proof (len_nonneg buf); lia).
    split_and!; [done..|]. simpl. by rewrite app_nil_r.
Qed.

(** ** Lemmas: the pushes *)

Ltac pushes :=
  intros rows; cbn [op_pushes op_cells op_entity schema_of];
  unfold block_pushes, tx_pushes, input_pushes, output_pushes, spend_pushes, mbind, M_bind, push; cbn;
  repeat match goal with |- context [len ?l =? 32] => rewrite (proj2 (Z.eqb_eq (len l) 32)) by done; cbn end;
  unfold col_builders; cbn; by rewrite !omap_app.

Lemma op_wf_bins o : op_wf o → Forall (λ c, match c with CBin v => len v = 32 | _ => True end) (op_cells o).
Proof.
  unfold op_wf, row_fits. intros Hf. apply Forall_lookup. intros j c Hc.
  destruct (Forall2_lookup_r _ _ _ _ _ Hf Hc) as (f & Hj & Hty). destruct c; try done. simpl in Hty.
  destruct o; cbn [op_entity schema_of] in Hj;
    repeat (destruct j as [|j]; [by injection Hj as <-; simpl in Hty; congruence|]); by destruct j.
Qed.

Lemma op_pushes_cells o : op_wf o → pushes_cells (schema_of (op_entity o)) (op_cells o) (op_pushes o).
Proof.
  intros Hb%op_wf_bins. destruct o; unfold op_cells, block_cells, tx_cells, input_cells, output_cells, spend_cells in Hb;
    repeat match goal with H : Forall _ (_ :: _) |- _ => apply Forall_cons in H as [? H] end; pushes.
Qed.
End tables.

(** ** Lemmas: the sink *)

Section sinks.
Context `{ParquetLib}.

Lemma op_run_entity o s res t w :
  push_row (s_cfg s) (op_pushes o) (table_of (op_entity o) s) (writer_of (op_entity o) s) = (res, (t, w)) →
  ∃ s', op_run o s = (res, s') ∧ s_cfg s' = s_cfg s ∧
    ∀ e, table_of e s' = (if decide (e = op_entity o) then t else table_of e s) ∧
         writer_of e s' = (if decide (e = op_entity o) then w else writer_of e s).
Proof.
  intros Hp. destruct o; cbn [op_entity table_of writer_of op_pushes op_run] in *;
    unfold push_block, push_tx, push_input, push_output, push_spend; rewrite Hp;
    eexists; (split; [reflexivity|]); (split; [done|]); intros []; by case_decide.
Qed.

(** The rows of one table among the operations. *)
Definition rows_for (e : Entity) (ops : list SinkOp) : list (list Cell) :=
  op_cells <$> filter (λ o, op_entity o = e) ops.

Definition sink_inv (n : Z) (ops : list SinkOp) (s : ParquetSink) : Prop :=
  batch_size (s_cfg s) = n ∧
  ∀ e, table_inv n (schema_of e) (rows_for e ops) (table_of e s) (writer_of e s).

Lemma rows_for_snoc e ops o :
  rows_for e (ops ++ [o]) = if decide (e = op_entity o) then rows_for e ops ++ [op_cells o] else rows_for e ops.
Proof.
  unfold rows_for. rewrite filter_app, fmap_app. case_decide as He.
  - by rewrite filter_cons_True, filter_nil by done.
  - rewrite filter_cons_False, filter_nil, app_nil_r by done. done.
Qed.

Lemma op_run_inv n ops o s :
  0 < n → op_wf o → sink_inv n ops s →
  match op_run o s with
  | (Ok _, s') => sink_inv n (ops ++ [o]) s'
  | (Err e, _) => ∃ x, e = SeParquet x
  | (Panic, _) => False
  end.
Proof.
  intros Hn Hwf [Hcfg Htab].
  pose proof (push_row_inv (s_cfg s) n _ _ (op_cells o) (op_pushes o) _ _ (eq_sym Hcfg) Hn Hwf
    (op_pushes_cells o Hwf) (Htab (op_entity o))) as Hrow.
  destruct (push_row _ _ _ _) as [res [t w]] eqn:Hp.
  destruct (op_run_entity o s res t w Hp) as (s' & -> & Hcfg' & Hs').
  destruct res as [u|e|]; [|done|done]. split; [congruence|]. intros e. destruct (Hs' e) as [-> ->].
  rewrite rows_for_snoc. case_decide as He; [by rewrite He|apply Htab].
Qed.

Lemma ops_run_inv n ops0 ops s :
  0 < n → Forall op_wf ops → sink_inv n ops0 s →
  match ops_run ops s with
  | (Ok _, s') => sink_inv n (ops0 ++ ops) s'
  | (Err e, _) => ∃ x, e = SeParquet x
  | (Panic, _) => False
  end.
Proof.
  intros Hn Hops. revert ops0 s. induction Hops as [|o ops Ho Hops IH]; intros ops0 s Hinv.
  { by rewrite app_nil_r. }
  cbn [ops_run]. unfold mbind, M_bind. pose proof (op_run_inv n ops0 o s Hn Ho Hinv) as Hstep.
  destruct (op_run o s) as [[u|e|] s']; [|done|done]. specialize (IH _ _ Hstep). by rewrite <-app_assoc in IH.
Qed.

(** After a failed write too, the rows waiting in the tables fit them: no push
    and no flush panics. *)
Definition table_safe (schema : list Field) (t : EntityTable) : Prop :=
  ∃ buf, Forall (row_fits schema) buf ∧ t = mkTable schema (col_builders schema buf) (len buf).

Definition sink_safe (s : ParquetSink) : Prop := ∀ e, table_safe (schema_of e) (table_of e s).

Lemma sink_inv_safe n ops s : sink_inv n ops s → sink_safe s.
Proof.
  intros [_ Ht] e. destruct (Ht e) as (Hfit & chunks & buf & Heq & _ & _ & -> & _). exists buf. split; [|done].
  rewrite Heq in Hfit. by apply Forall_app in Hfit as [_ ?].
Qed.

Lemma push_row_safe cfg schema row m t w :
  row_fits schema row → pushes_cells schema row m → table_safe schema t →
  (push_row cfg m t w).1 ≠ Panic ∧ table_safe schema (push_row cfg m t w).2.1.
Proof.
  intros Hrow Hm (buf & Hfit & ->). unfold push_row. cbn [et_cols et_schema et_buffered]. rewrite Hm.
  assert (Forall (row_fits schema) (buf ++ [row])) as Hfit' by (apply Forall_app; by split; [|constructor]).
  destruct (batch_size cfg <=? len buf + 1).
  - destruct (take_batch_run (len buf + 1) schema (buf ++ [row]) Hfit') as (b & -> & _).
    pose proof (writer_write_no_panic w b). destruct (writer_write w b) as [[u|e|] w']; [| |done];
      (split; [done|by exists []]).
  - split; [done|]. exists (buf ++ [row]). by rewrite len_app.
Qed.

Lemma ops_run_safe ops s :
  Forall op_wf ops → sink_safe s → (ops_run ops s).1 ≠ Panic ∧ sink_safe (ops_run ops s).2.
Proof.
  intros Hops. revert s. induction Hops as [|o ops Ho Hops IH]; intros s Hs; [done|].
  cbn [ops_run]. unfold mbind, M_bind.
  destruct (push_row_safe (s_cfg s) _ (op_cells o) (op_pushes o) _ (writer_of (op_entity o) s) Ho
    (op_pushes_cells o Ho) (Hs (op_entity o))) as [Hnp Ht].
  destruct (push_row _ _ _ _) as [res [t w]] eqn:Hp. cbn [fst snd] in Hnp, Ht.
  destruct (op_run_entity o s res t w Hp) as (s' & -> & _ & Hs').
  assert (sink_safe s') as Hsafe.
  { intros e. destruct (Hs' e) as [-> _]. case_decide as He; [by rewrite He|apply Hs]. }
  destruct res; [by apply IH|done|done].
Qed.

Lemma flush_table_safe schema t w : table_safe schema t → flush_table t w ≠ Panic.
Proof.
  intros (buf & Hfit & ->). unfold flush_table. cbn [et_buffered]. destruct (0 <? len buf); [|done].
  destruct (take_batch_run (len buf) schema buf Hfit) as (b & -> & _). m_unfold. cbn [fst].
  pose proof (writer_write_no_panic w b). by destruct (writer_write w b) as [[u|e|] w'].
Qed.

Lemma sink_finish_safe s : sink_safe s → sink_finish s ≠ Panic.
Proof.
  intros Hs. unfold sink_finish, mbind, Res_bind. pose proof writer_close_no_panic as Hc.
  pose proof (flush_table_safe _ _ (writer_of Blocks s) (Hs Blocks)) as H1.
  pose proof (flush_table_safe _ _ (writer_of Transactions s) (Hs Transactions)) as H2.
  pose proof (flush_table_safe _ _ (writer_of Inputs s) (Hs Inputs)) as H3.
  pose proof (flush_table_safe _ _ (writer_of Outputs s) (Hs Outputs)) as H4.
  pose proof (flush_table_safe _ _ (writer_of Spends s) (Hs Spends)) as H5. cbn [table_of writer_of] in *.
  repeat match goal with
  | |- context [flush_table ?t ?w] => destruct (flush_table t w); [|done|done]
  | |- context [writer_close ?w] => pose proof (Hc w); destruct (writer_close w); [|done|done]
  end. done.
Qed.

Lemma entity_new_inv n schema w :
  0 < n → written w = [] → table_inv n schema [] (entity_new schema) w.
Proof.
  intros Hn Hw. split; [done|]. exists [], []. rewrite Hw. split_and!; try done. unfold entity_new. f_equal.
  unfold col_builders. simpl. generalize 0%nat. induction schema as [|f schema IH]; intros k; [done|].
  rewrite fmap_cons, imap_cons. f_equal. rewrite (IH 0%nat). apply imap_ext. done.
Qed.

Lemma create_writer_new `{FS : Fs} dir entity part schema w :
  create_writer dir entity part schema = Ok w → written w = [].
Proof.
  unfold create_writer. intros Hc. destruct (create_dir_all _) as [u|e|]; [|done|done]. simpl in Hc.
  destruct (file_create _) as [f|e|]; [|done|done]. simpl in Hc.
  destruct (writer_try_new _ _ _) as [w'|e|] eqn:Hw; [|done|done]. simpl in Hc. injection Hc as ->.
  by eapply writer_new_empty.
Qed.

Lemma sink_create_inv `{FS : Fs} dir part cfg s :
  0 < batch_size cfg → sink_create dir part cfg = Ok s → sink_inv (batch_size cfg) [] s.
Proof.
  intros Hn Hc. unfold sink_create, mbind, Res_bind in Hc.
  repeat (match type of Hc with context [create_writer ?d ?e ?p ?sc] =>
            destruct (create_writer d e p sc) eqn:?; [|done|done] end).
  injection Hc as <-. split; [done|]. intros []; apply entity_new_inv; try done; by eapply create_writer_new.
Qed.

(** The files a finished sink leaves. *)
Definition finished (n : Z) (ops : list SinkOp) (ws : list ArrowWriter) : Prop :=
  ∃ bw tw iw ow sw, ws = [bw; tw; iw; ow; sw] ∧
    file_rows n blocks_schema (rows_for Blocks ops) bw ∧
    file_rows n transactions_schema (rows_for Transactions ops) tw ∧
    file_rows n inputs_schema (rows_for Inputs ops) iw ∧
    file_rows n outputs_schema (rows_for Outputs ops) ow ∧
    file_rows n spends_schema (rows_for Spends ops) sw.

Lemma sink_finish_inv n ops s :
  sink_inv n ops s →
  match sink_finish s with
  | Ok ws => finished n ops ws
  | Err e => ∃ x, e = SeParquet x
  | Panic => False
  end.
Proof.
  intros [_ Htab]. unfold sink_finish, finished.
  pose proof (flush_table_inv _ _ _ _ _ (Htab Blocks)) as H1.
  pose proof (flush_table_inv _ _ _ _ _ (Htab Transactions)) as H2.
  pose proof (flush_table_inv _ _ _ _ _ (Htab Inputs)) as H3.
  pose proof (flush_table_inv _ _ _ _ _ (Htab Outputs)) as H4.
  pose proof (flush_table_inv _ _ _ _ _ (Htab Spends)) as H5. cbn [table_of writer_of schema_of] in *.
  destruct (flush_table (t_blocks s) _) as [bw|e|]; [|done|done]. simpl.
  destruct (flush_table (t_txs s) _) as [tw|e|]; [|done|done]. simpl.
  destruct (flush_table (t_inputs s) _) as [iw|e|]; [|done|done]. simpl.
  destruct (flush_table (t_outputs s) _) as [ow|e|]; [|done|done]. simpl.
  destruct (flush_table (t_spends s) _) as [sw|e|]; [|done|done]. simpl.
  pose proof writer_close_no_panic as Hnp.
  destruct (writer_close bw) eqn:C1; [|by eexists|by apply Hnp in C1]. simpl.
  destruct (writer_close tw) eqn:C2; [|by eexists|by apply Hnp in C2]. simpl.
  destruct (writer_close iw) eqn:C3; [|by eexists|by apply Hnp in C3]. simpl.
  destruct (writer_close ow) eqn:C4; [|by eexists|by apply Hnp in C4]. simpl.
  destruct (writer_close sw) eqn:C5; [|by eexists|by apply Hnp in C5]. simpl.
  by exists bw, tw, iw, ow, sw.
Qed.
End sinks.

(** ** Theorems *)

Section theorems.
Context `{ParquetLib} `{Fs}.

(** C16: The sink writes exactly the rows pushed. For any sequence of pushes of
    rows with 32-byte hashes to a new sink, followed by [finish], each of the
    five files holds the rows pushed to its table, in order, with the columns of
    its schema, in batches of exactly [batch_size] rows and at most one smaller
    last one. The only failures are those of the Parquet writer, and no push is
    of the wrong column type. *)
Theorem sink_writes_rows (dir : rstr) (part : Z) (cfg : SinkConfig) (s : ParquetSink) (ops : list SinkOp)
    (Hcfg : 0 < batch_size cfg) (Hops : Forall op_wf ops) (Hcreate : sink_create dir part cfg = Ok s) :
  match ops_run ops s with
  | (Ok _, s') =>
    match sink_finish s' with
    | Ok ws => finished (batch_size cfg) ops ws
    | Err e => ∃ x, e = SeParquet x
    | Panic => False
    end
  | (Err e, _) => ∃ x, e = SeParquet x
  | (Panic, _) => False
  end.
Proof.
  pose proof (sink_create_inv dir part cfg s Hcfg Hcreate) as Hinv.
  pose proof (ops_run_inv _ [] ops s Hcfg Hops Hinv) as Hrun.
  destruct (ops_run ops s) as [[u|e|] s']; [|done|done]. by apply sink_finish_inv.
Qed.
End theorems.

(** ** Concrete libraries: a file is the list of its batches *)

Module Ex.
Definition fits_dec (schema : list Field) (cols : list (list Cell)) : bool :=
  bool_decide (Forall2 (λ f col, Forall (λ c, cell_type c = f_type f) col ∧
    length col = default 0%nat (length <$> head cols)) schema cols).

#[export, program] Instance lib : ParquetLib := {|
  ArrowError := (); ParquetError := (); SinkIoError := (); RecordBatch := list (list Cell);
  FileHandle := rstr; ArrowWriter := list (list (list Cell));
  create_dir_all _ := Ok (); file_create p := Ok p; wrong_width := ();
  batch_try_new schema cols := if fits_dec schema cols then Ok cols else Err ();
  batch_columns b := b; writer_try_new _ _ _ := Ok [];
  writer_write w b := (Ok (), w ++ [b]); writer_close _ := Ok (); written w := w |}.
Next Obligation.
  intros schema n cols Hf. exists cols. unfold fits_dec. rewrite bool_decide_true; [done|].
  unfold columns_fit in Hf. destruct Hf as [|f col schema cols [Hl Hc] Hf]; [constructor|].
  constructor; [by split|]. eapply Forall2_impl; [exact Hf|]. intros f' col' [Hl' Hc']. simpl.
  split; [done|]. congruence.
Qed.
Next Obligation. intros schema cols b Hb. cbn in Hb. destruct (fits_dec schema cols); by simplify_eq. Qed.
Solve All Obligations with naive_solver.

Definition spend (n : Z) : SpendRow := mkSpendRow n 0 0 (zeros 32) (zeros 32) 0 (n * 10) 4 (zeros 32) 1.
Definition out (n : Z) : OutputRow := mkOutputRow n 0 0 (zeros 32) n 22 4 (zeros 32).
Definition ops : list SinkOp :=
  [OpSpend (spend 1); OpOutput (out 5); OpSpend (spend 2); OpSpend (spend 3)].
End Ex.

Lemma sink_writes_rows_witness :
  match @sink_create Ex.lib BlkFile.Ex.fs (str "out") 3 (mkSinkConfig 2) with
  | Ok s =>
    match @ops_run Ex.lib Ex.ops s with
    | (Ok _, s') =>
      match @sink_finish Ex.lib s' with
      | Ok ws => @finished Ex.lib 2 Ex.ops ws ∧ (length <$> (ws : list (list (list (list Cell))))) = [0; 0; 0; 1; 2]%nat
      | _ => False
      end
    | _ => False
    end
  | _ => False
  end.
Proof.
  assert (match @sink_create Ex.lib BlkFile.Ex.fs (str "out") 3 (mkSinkConfig 2) with
    | Ok s => match @ops_run Ex.lib Ex.ops s with
              | (Ok _, s') => match @sink_finish Ex.lib s' with
                              | Ok ws => bool_decide ((length <$> (ws : list (list (list (list Cell))))) = [0; 0; 0; 1; 2]%nat)
                              | _ => false end
              | _ => false end
    | _ => false end = true) as Hb by (vm_compute; reflexivity).
  destruct (@sink_create Ex.lib BlkFile.Ex.fs (str "out") 3 (mkSinkConfig 2)) as [s|e|] eqn:Hc; [|discriminate Hb..].
  pose proof (@sink_writes_rows Ex.lib BlkFile.Ex.fs (str "out") 3 (mkSinkConfig 2) s Ex.ops eq_refl) as Hs.
  destruct (@ops_run Ex.lib Ex.ops s) as [[u|e|] s']; [|discriminate Hb..].
  destruct (@sink_finish Ex.lib s') as [ws|e|]; [|discriminate Hb..].
  apply bool_decide_eq_true in Hb. split; [|exact Hb]. apply Hs; [|exact Hc].
  repeat (apply Forall_cons; split; [repeat constructor|]). by apply Forall_nil.
Defined.
