(* ===== verification/Reorder.v ===== *)
(** * Reorder: the reorder buffer of the ordered consumers

    The consumers of [bidx-cli/src/pipeline.rs] and [bidx-cli/src/bench/mod.rs]
    receive blocks in any order and handle them in height order. Here is that
    protocol over any handler of a block, and what it comes to; [Pipeline] and
    [Bench] have the loops as the code writes them, and show that they are
    instances. *)
From S2P Require Import Prelude Tx.

Inductive WorkItem : Type :=
  | WiBlock (height : Z) (block : FullBlock)
  | WiSkipped (height : Z).

Definition wi_height (i : WorkItem) : Z := match i with WiBlock h _ | WiSkipped h => h end.

(** The reorder buffer, the skipped heights, the height waited for, and the
    depth shown to the workers. *)
Record Reorder : Type := mkReorder {
  q_buffer : gmap Z FullBlock; q_skipped : gset Z; q_next : Z; q_depth : Z }.

Definition receive (i : WorkItem) (q : Reorder) : Reorder :=
  match i with
  | WiBlock h b => mkReorder (<[h := b]> (q_buffer q)) (q_skipped q) (q_next q) (u64 (q_depth q + 1))
  | WiSkipped h => mkReorder (q_buffer q) ({[h]} ∪ q_skipped q) (q_next q) (q_depth q)
  end.

(** What a consumer does with a block, with a skipped height and at the end of
    the last part; the range, and the error of a channel closed too early. *)
Record Handlers (St Er : Type) : Type := mkHandlers {
  h_block : Z → FullBlock → M St Er (); h_skip : Z → M St Er (); h_finish : M St Er ();
  h_start : Z; h_end : Z; h_closed_early : Z → Er }.
Arguments mkHandlers {St Er} _ _ _ _ _ _.
Arguments h_block {St Er} _ _ _.
Arguments h_skip {St Er} _ _.
Arguments h_finish {St Er} _.
Arguments h_start {St Er} _.
Arguments h_end {St Er} _.
Arguments h_closed_early {St Er} _ _.

Section loops.
Context {St Er : Type}.
Variable hd : Handlers St Er.

(** The result of the loops: [true] when the last height is done, and the
    consumer returns. [next] grows in every round; running out of fuel counts as
    a panic. *)
Fixpoint g_skip_loop (fuel : nat) (q : Reorder) : M St Er (Reorder * bool) :=
  match fuel with
  | O => m_panic
  | S fuel =>
    if bool_decide (q_next q ∈ q_skipped q) then
      _ ← h_skip hd (q_next q);
      let q := mkReorder (q_buffer q) (q_skipped q ∖ {[q_next q]}) (u32 (q_next q + 1)) (q_depth q) in
      if h_end hd <=? q_next q then _ ← h_finish hd; mret (q, true) else g_skip_loop fuel q
    else mret (q, false)
  end.

Fixpoint g_drain_loop (fuel : nat) (q : Reorder) : M St Er (Reorder * bool) :=
  match fuel with
  | O => m_panic
  | S fuel =>
    match q_buffer q !! q_next q with
    | Some b =>
      _ ← h_block hd (q_next q) b;
      let q := mkReorder (delete (q_next q) (q_buffer q)) (q_skipped q) (u32 (q_next q + 1)) (u64 (q_depth q - 1)) in
      if h_end hd <=? q_next q then _ ← h_finish hd; mret (q, true) else g_drain_loop fuel q
    | None => mret (q, false)
    end
  end.

Definition g_recv_round (i : WorkItem) (q : Reorder) : M St Er (Reorder * bool) :=
  let q := receive i q in
  r ← g_skip_loop (S (size (q_skipped q))) q;
  let '(q, done) := (r : Reorder * bool) in
  if done then mret (q, true) else g_drain_loop (S (size (q_buffer q))) q.

Fixpoint g_recv_loop (items : list WorkItem) (q : Reorder) : M St Er (Reorder * bool) :=
  match items with
  | [] => mret (q, false)
  | i :: items =>
    r ← g_recv_round i q;
    let '(q, done) := (r : Reorder * bool) in
    if done then mret (q, true) else g_recv_loop items q
  end.

Definition g_consume_items (items : list WorkItem) : M St Er () :=
  r ← g_recv_loop items (mkReorder ∅ ∅ (h_start hd) 0);
  let '(q, done) := (r : Reorder * bool) in
  if done then mret ()
  else
    _ ← h_finish hd;
    if q_next q <? h_end hd then m_fail (h_closed_early hd (q_next q)) else mret ().

(** The items in height order. *)
Definition g_do_item (i : WorkItem) : M St Er () :=
  match i with WiBlock n b => h_block hd n b | WiSkipped n => h_skip hd n end.

Fixpoint g_sequential (items : list WorkItem) : M St Er () :=
  match items with [] => mret () | i :: items => _ ← g_do_item i; g_sequential items end.
End loops.

(** One item per height from [start]. *)
Definition consecutive (start : Z) (items : list WorkItem) : Prop :=
  ∀ n i, items !! n = Some i → wi_height i = start + Z.of_nat n.

Definition is_block (i : WorkItem) : Prop := match i with WiBlock _ _ => True | WiSkipped _ => False end.

#[global] Instance is_block_dec i : Decision (is_block i).
Proof. destruct i; apply _. Defined.

(** How far the consumer gets. In a round it passes the skipped heights that
    have arrived, then the blocks that have; [seen] are the heights that have
    arrived, [n] the items done before. *)
Fixpoint run_of (f : WorkItem → bool) (l : list WorkItem) : nat :=
  match l with x :: l => if f x then S (run_of f l) else 0%nat | [] => 0%nat end.

Definition arrived (block : bool) (seen : list Z) (x : WorkItem) : bool :=
  Bool.eqb (bool_decide (is_block x)) block && bool_decide (wi_height x ∈ seen).

Definition round_to (items : list WorkItem) (seen : list Z) (n : nat) : nat :=
  let n := (n + run_of (arrived false seen) (drop n items))%nat in
  (n + run_of (arrived true seen) (drop n items))%nat.

Fixpoint reached_from (items : list WorkItem) (seen rest : list Z) (n : nat) : nat :=
  match rest with
  | [] => n
  | h :: rest => reached_from items (seen ++ [h]) rest (round_to items (seen ++ [h]) n)
  end.

(** The number of items done when [arrivals] have been received. *)
Definition reached (items arrivals : list WorkItem) : nat :=
  reached_from items [] (wi_height <$> arrivals) 0.

(** ** Lemmas *)

(** [run_of] is the one length that ends at an item without [f], or at the end. *)
Lemma run_of_unique f l m :
  (m ≤ length l)%nat → (∀ j x, (j < m)%nat → l !! j = Some x → f x = true) →
  (∀ x, l !! m = Some x → f x = false) → run_of f l = m.
Proof.
  revert m. induction l as [|x l IH]; intros m Hm Hf Hn; cbn [run_of length] in *; [lia|].
  destruct m as [|m]; [by rewrite (Hn x)|]. rewrite (Hf 0%nat x) by (done || lia). f_equal.
  apply IH; [lia| |done]. intros j y Hj Hy. apply (Hf (S j)); [lia|done].
Qed.

Lemma run_of_drop f l n m :
  (n ≤ m ≤ length l)%nat → (∀ j x, (n ≤ j < m)%nat → l !! j = Some x → f x = true) →
  (∀ x, l !! m = Some x → f x = false) → (n + run_of f (drop n l))%nat = m.
Proof.
  intros Hm Hf Hn. rewrite (run_of_unique f (drop n l) (m - n)); [lia|rewrite length_drop; lia| |].
  - intros j x Hj Hx. rewrite lookup_drop in Hx. eapply Hf; [|exact Hx]. lia.
  - intros x Hx. rewrite lookup_drop in Hx. apply Hn. by replace m with (n + (m - n))%nat by lia.
Qed.

Lemma reached_from_end items seen rest : reached_from items seen rest (length items) = length items.
Proof.
  revert seen. induction rest as [|h rest IH]; intros seen; [done|]. cbn [reached_from].
  unfold round_to. rewrite drop_all. cbn [run_of]. rewrite !Nat.add_0_r, drop_all, Nat.add_0_r. apply IH.
Qed.

Lemma reached_from_app items seen l l' n :
  reached_from items seen (l ++ l') n = reached_from items (seen ++ l) l' (reached_from items seen l n).
Proof.
  revert seen n. induction l as [|h l IH]; intros seen n; [by rewrite app_nil_r|]. cbn [app reached_from].
  by rewrite IH, <-app_assoc.
Qed.

Lemma consecutive_NoDup start items l : consecutive start items → l ≡ₚ items → NoDup (wi_height <$> l).
Proof.
  intros Hitems ->. apply NoDup_alt. intros a b x Ha Hb.
  apply list_lookup_fmap_Some in Ha as (i & -> & Hi). apply list_lookup_fmap_Some in Hb as (j & Hh & Hj).
  pose proof (Hitems _ _ Hi). pose proof (Hitems _ _ Hj). lia.
Qed.

Section order.
Context {St Er : Type}.
Variable hd : Handlers St Er.
Variable items : list WorkItem.
Hypothesis Hitems : consecutive (h_start hd) items.
Hypothesis Hend : h_end hd = h_start hd + len items.
Hypothesis Hrange : 0 ≤ h_start hd ∧ h_end hd < 2 ^ 32.

Lemma g_sequential_app l l' : g_sequential hd (l ++ l') ≡ₘ (_ ← g_sequential hd l; g_sequential hd l').
Proof.
  induction l as [|i l IH]; [done|]. cbn [app g_sequential]. rewrite m_bind_assoc.
  f_equiv. intros u. exact IH.
Qed.

(** The items from the [n]-th to before the [m]-th. *)
Definition seg (n m : nat) : list WorkItem := take (m - n) (drop n items).

Lemma seg_nil n : seg n n = [].
Proof. unfold seg. by rewrite Nat.sub_diag. Qed.

Lemma seg_step n m i : items !! n = Some i → (n < m)%nat → seg n m = i :: seg (S n) m.
Proof.
  intros Hi Hlt. unfold seg. rewrite (drop_S _ _ _ Hi). destruct (m - n)%nat as [|d] eqn:Hd; [lia|].
  replace (m - S n)%nat with d by lia. done.
Qed.

Lemma seg_app n m l : (n ≤ m)%nat → (m ≤ l)%nat → seg n m ++ seg m l = seg n l.
Proof.
  intros Hnm Hml. unfold seg. replace (drop m items) with (drop (m - n) (drop n items)).
  2: { rewrite drop_drop. f_equal. lia. }
  rewrite take_drop_commute. replace (l - n)%nat with ((m - n) + (l - m))%nat by lia.
  rewrite <-(take_take_drop (drop n items)). f_equal. by rewrite <-take_drop_commute.
Qed.

(** The first [n] items are among [seen]. *)
Definition covered (seen : list WorkItem) (n : nat) : Prop :=
  ∀ j i, (j < n)%nat → items !! j = Some i → i ∈ seen.

(** The consumer has handled [n] items, and holds those of [seen] that follow. *)
Definition holding (seen : list WorkItem) (q : Reorder) (n : nat) : Prop :=
  (n < length items)%nat ∧ q_next q = h_start hd + Z.of_nat n ∧
  (∀ h b, q_buffer q !! h = Some b ↔ q_next q ≤ h ∧ WiBlock h b ∈ seen) ∧
  (∀ h, h ∈ q_skipped q ↔ q_next q ≤ h ∧ WiSkipped h ∈ seen) ∧
  covered seen n.

Definition drained (q : Reorder) : Prop := q_buffer q !! q_next q = None.

(** What follows the [m]-th item: the end, or waiting for more. *)
Definition after_item (m : nat) (q : Reorder) : M St Er (Reorder * bool) :=
  if bool_decide (m = length items) then _ ← h_finish hd; mret (q, true) else mret (q, false).

Lemma covered_step seen n i : covered seen n → items !! n = Some i → i ∈ seen → covered seen (S n).
Proof.
  intros Hdone Hi Hseen j i' Hj Hi'. destruct (decide (j = n)) as [->|]; [by simplify_eq|].
  eapply Hdone; [|exact Hi']; lia.
Qed.

Lemma item_unique n i seen :
  seen ⊆ items → i ∈ seen → wi_height i = h_start hd + Z.of_nat n → items !! n = Some i.
Proof.
  intros Hsub Hi Hh. apply Hsub in Hi. apply list_elem_of_lookup in Hi as [j Hj].
  pose proof (Hitems _ _ Hj). replace n with j by lia. done.
Qed.

Lemma next_in_range n : (n < length items)%nat → u32 (h_start hd + Z.of_nat n + 1) = h_start hd + Z.of_nat (S n).
Proof. intros Hn. unfold len in Hend. rewrite u32_small by lia. lia. Qed.

Lemma end_reached n :
  (n < length items)%nat → (h_end hd <=? h_start hd + Z.of_nat (S n)) = bool_decide (S n = length items).
Proof.
  intros Hn. unfold len in Hend. rewrite Hend.
  case_bool_decide as Hl; [apply Z.leb_le; rewrite Hl|apply Z.leb_gt]; lia.
Qed.

(** One item handled, then the rest: the shape of both loops. *)
Lemma loop_step n m i (f g : M St Er (Reorder * bool)) q :
  items !! n = Some i → (n < m)%nat →
  f ≡ₘ (_ ← g_do_item hd i; g) → g ≡ₘ (_ ← g_sequential hd (seg (S n) m); after_item m q) →
  f ≡ₘ (_ ← g_sequential hd (seg n m); after_item m q).
Proof.
  intros Hi Hlt Hf Hg. rewrite Hf, (seg_step n m i) by done. cbn [g_sequential].
  rewrite m_bind_assoc. f_equiv. intros u. exact Hg.
Qed.

(** The kind of the items a loop takes. *)
Lemma kind_step n m i (P : WorkItem → Prop) :
  items !! n = Some i → P i → (∀ j x, (S n ≤ j < m)%nat → items !! j = Some x → P x) →
  ∀ j x, (n ≤ j < m)%nat → items !! j = Some x → P x.
Proof.
  intros Hi Hp Hrest j x Hj Hx. destruct (decide (j = n)) as [->|]; [by simplify_eq|].
  eapply Hrest; [|exact Hx]. lia.
Qed.

Lemma kind_last n i (P : WorkItem → Prop) :
  items !! n = Some i → P i → ∀ j x, (n ≤ j < S n)%nat → items !! j = Some x → P x.
Proof. intros Hi Hp. apply (kind_step n (S n) i P Hi Hp). lia. Qed.

Lemma skip_loop_run seen fuel q n :
  seen ⊆ items → holding seen q n → (size (q_skipped q) < fuel)%nat →
  ∃ m q', (n ≤ m ≤ length items)%nat ∧ covered seen m ∧
    ((m < length items)%nat → holding seen q' m ∧ q_next q' ∉ q_skipped q') ∧
    (∀ j i, (n ≤ j < m)%nat → items !! j = Some i → ¬ is_block i) ∧
    g_skip_loop hd fuel q ≡ₘ (_ ← g_sequential hd (seg n m); after_item m q').
Proof.
  intros Hsub. revert q n. induction fuel as [|fuel IH]; intros q n Hq Hfuel; [lia|].
  destruct Hq as (Hn & Hnext & Hbuf & Hskip & Hdone). cbn [g_skip_loop].
  case_bool_decide as Hin.
  - set (q1 := mkReorder _ _ _ _). pose proof Hin as Hin'. apply Hskip in Hin' as [_ Hseen].
    pose proof (item_unique n _ seen Hsub Hseen Hnext) as Hi.
    assert (q_next q1 = h_start hd + Z.of_nat (S n)) as Hnext1.
    { unfold q1. cbn [q_next]. rewrite Hnext. by apply next_in_range. }
    rewrite Hnext1, end_reached by done. case_bool_decide as Hlast.
    + exists (S n), q1. split; [lia|]. split; [by eapply covered_step|]. split; [lia|].
      split; [by apply (kind_last n _ (λ i, ¬ is_block i) Hi); intros []|].
      apply (loop_step n (S n) (WiSkipped (q_next q)) _ (_ ← h_finish hd; mret (q1, true)) q1 Hi ltac:(lia)); [done|].
      rewrite seg_nil. unfold after_item. by rewrite bool_decide_true by done.
    + destruct (IH q1 (S n)) as (m & q' & Hm & Hcov & Hq' & Hkind & Hrun).
      { split; [lia|]. split; [done|]. split_and!.
        - intros h b. unfold q1. cbn [q_buffer q_next]. rewrite Hbuf. fold q1.
          change (u32 (q_next q + 1)) with (q_next q1). rewrite Hnext1, Hnext. split; [|intros [??]; split; [lia|done]].
          intros [Hle Hb]. split; [|done]. destruct (decide (h = h_start hd + Z.of_nat n)) as [->|]; [|lia].
          pose proof (item_unique n _ seen Hsub Hb eq_refl). rewrite Hi in *. simplify_eq.
        - intros h. unfold q1. cbn [q_skipped q_next]. change (u32 (q_next q + 1)) with (q_next q1).
          rewrite elem_of_difference, Hskip, elem_of_singleton, Hnext1, Hnext. split; [intros [[??]?]|intros [??]]; split_and!; done || lia.
        - by eapply covered_step. }
      { unfold q1. cbn [q_skipped]. rewrite size_difference, size_singleton by set_solver.
        assert (size (q_skipped q) ≠ 0)%nat; [|lia]. intros Hz. apply size_empty_iff in Hz. set_solver. }
      exists m, q'. split; [lia|]. split; [done|]. split; [done|].
      split; [apply (kind_step n m _ (λ i, ¬ is_block i) Hi); [intros []|exact Hkind]|].
      eapply (loop_step n m (WiSkipped (q_next q)) _ (g_skip_loop hd fuel q1) q' Hi); [lia|done|done].
  - exists n, q. split; [lia|]. split; [done|]. split; [by intros _|]. split; [intros; lia|].
    rewrite seg_nil. unfold after_item. rewrite bool_decide_false by lia. done.
Qed.

Lemma drain_loop_run seen fuel q n :
  seen ⊆ items → holding seen q n → (size (q_buffer q) < fuel)%nat →
  ∃ m q', (n ≤ m ≤ length items)%nat ∧ covered seen m ∧
    ((m < length items)%nat → holding seen q' m ∧ drained q') ∧
    (∀ j i, (n ≤ j < m)%nat → items !! j = Some i → is_block i) ∧
    g_drain_loop hd fuel q ≡ₘ (_ ← g_sequential hd (seg n m); after_item m q').
Proof.
  intros Hsub. revert q n. induction fuel as [|fuel IH]; intros q n Hq Hfuel; [lia|].
  destruct Hq as (Hn & Hnext & Hbuf & Hskip & Hdone). cbn [g_drain_loop].
  destruct (q_buffer q !! q_next q) as [b|] eqn:Hin.
  - set (q1 := mkReorder _ _ _ _). pose proof Hin as Hin'. apply Hbuf in Hin' as [_ Hseen].
    pose proof (item_unique n _ seen Hsub Hseen Hnext) as Hi.
    assert (q_next q1 = h_start hd + Z.of_nat (S n)) as Hnext1.
    { unfold q1. cbn [q_next]. rewrite Hnext. by apply next_in_range. }
    rewrite Hnext1, end_reached by done. case_bool_decide as Hlast.
    + exists (S n), q1. split; [lia|]. split; [by eapply covered_step|]. split; [lia|].
      split; [by apply (kind_last n _ is_block Hi)|].
      apply (loop_step n (S n) (WiBlock (q_next q) b) _ (_ ← h_finish hd; mret (q1, true)) q1 Hi ltac:(lia)); [done|].
      rewrite seg_nil. unfold after_item. by rewrite bool_decide_true by done.
    + destruct (IH q1 (S n)) as (m & q' & Hm & Hcov & Hq' & Hkind & Hrun).
      { split; [lia|]. split; [done|]. split_and!.
        - intros h b'. unfold q1. cbn [q_buffer q_next]. change (u32 (q_next q + 1)) with (q_next q1).
          rewrite lookup_delete_Some, Hbuf, Hnext1, Hnext. split; [intros [?[??]]|intros [??]]; split_and!; done || lia.
        - intros h. unfold q1. cbn [q_skipped q_next]. change (u32 (q_next q + 1)) with (q_next q1).
          rewrite Hskip, Hnext1, Hnext. split; [|intros [??]; split; [lia|done]].
          intros [Hle Hb]. split; [|done]. destruct (decide (h = h_start hd + Z.of_nat n)) as [->|]; [|lia].
          pose proof (item_unique n _ seen Hsub Hb eq_refl). rewrite Hi in *. simplify_eq.
        - by eapply covered_step. }
      { unfold q1. cbn [q_buffer]. rewrite map_size_delete_Some by (by eexists).
        assert (size (q_buffer q) ≠ 0)%nat; [|lia]. intros Hz. apply map_size_empty_inv in Hz.
        by rewrite Hz, lookup_empty in Hin. }
      exists m, q'. split; [lia|]. split; [done|]. split; [done|].
      split; [by apply (kind_step n m _ is_block Hi)|].
      eapply (loop_step n m (WiBlock (q_next q) b) _ (g_drain_loop hd fuel q1) q' Hi); [lia|done|done].
  - exists n, q. split; [lia|]. split; [done|]. split; [by intros _|]. split; [intros; lia|].
    rewrite seg_nil. unfold after_item. rewrite bool_decide_false by lia. done.
Qed.

Lemma holding_receive seen i q n :
  NoDup (wi_height <$> seen ++ [i]) → seen ++ [i] ⊆ items →
  holding seen q n → holding (seen ++ [i]) (receive i q) n.
Proof.
  intros Hnd Hsub (Hn & Hnext & Hbuf & Hskip & Hdone).
  rewrite fmap_app in Hnd. apply NoDup_app in Hnd as (_ & Hnd & _).
  assert (∀ j, j ∈ seen → wi_height j ≠ wi_height i) as Hne.
  { intros j Hj He. apply (Hnd (wi_height j)); [by apply list_elem_of_fmap_2|]. rewrite He. by left. }
  assert (q_next q ≤ wi_height i) as Hle.
  { assert (i ∈ items) as [j Hj]%list_elem_of_lookup by (apply Hsub; set_solver).
    pose proof (Hitems _ _ Hj). destruct (decide (j < n)%nat) as [Hlt|]; [|lia].
    by destruct (Hne i (Hdone j i Hlt Hj)). }
  split; [done|]. split; [by destruct i|]. split_and!.
  - intros h b. destruct i as [h' b'|h']; cbn [receive q_buffer q_next]; rewrite ?lookup_insert_Some, Hbuf, elem_of_app, list_elem_of_singleton.
    + split.
      * intros [[<- <-]|(Hh & ? & ?)]; split; auto.
      * intros [Hh [Hs|[= -> ->]]]; [right|by left]. split_and!; try done. intros ->. by apply (Hne _ Hs).
    + split; [intros [??]; split; [done|by left]|]. intros [? [?|?]]; [done|discriminate].
  - intros h. destruct i as [h' b'|h']; cbn [receive q_skipped q_next]; rewrite ?elem_of_union, ?elem_of_singleton, Hskip, elem_of_app, list_elem_of_singleton.
    + split; [intros [??]; split; [done|by left]|]. intros [? [?|?]]; [done|discriminate].
    + split.
      * intros [->|[??]]; split; auto.
      * intros [Hh [Hs|[= ->]]]; [by right|by left].
  - intros j i' Hj Hi'. apply elem_of_app. left. by eapply Hdone.
Qed.

(** Where the loops stop is where the reference stops. *)
Lemma arrived_true blk seen n i :
  seen ⊆ items → items !! n = Some i →
  arrived blk (wi_height <$> seen) i = true ↔ (is_block i ↔ blk = true) ∧ i ∈ seen.
Proof.
  intros Hsub Hi. unfold arrived. rewrite andb_true_iff, bool_decide_eq_true. f_equiv.
  - case_bool_decide; destruct blk; simpl; naive_solver.
  - rewrite list_elem_of_fmap. split; [|by intros; exists i].
    intros (j & Hh & Hj). apply (item_unique n j seen Hsub) in Hj as Hj'; [by simplify_eq|].
    rewrite <-Hh. by apply Hitems.
Qed.

Lemma skips_to seen q n m :
  seen ⊆ items → (n ≤ m ≤ length items)%nat → covered seen m →
  ((m < length items)%nat → holding seen q m ∧ q_next q ∉ q_skipped q) →
  (∀ j i, (n ≤ j < m)%nat → items !! j = Some i → ¬ is_block i) →
  (n + run_of (arrived false (wi_height <$> seen)) (drop n items))%nat = m.
Proof.
  intros Hsub Hm Hcov Hstop Hkind. apply run_of_drop; [done|..].
  - intros j x Hj Hx. apply (arrived_true false seen j x Hsub Hx). split; [|eapply Hcov; [|done]; lia].
    split; [|done]. intros Hb. by destruct (Hkind j x Hj Hx).
  - intros x Hx. apply not_true_iff_false. intros [Hk Hin]%(arrived_true false seen m x Hsub Hx).
    destruct Hstop as [(_ & Hnext & _ & Hskip & _) Hs]; [by eapply lookup_lt_Some|].
    apply Hs, Hskip. split; [done|]. pose proof (Hitems _ _ Hx) as Hh.
    destruct x as [h b|h]; [by discriminate (proj1 Hk I)|]. cbn [wi_height] in Hh. by rewrite Hnext, <-Hh.
Qed.

Lemma drains_to seen q n m :
  seen ⊆ items → (n ≤ m ≤ length items)%nat → covered seen m →
  ((m < length items)%nat → holding seen q m ∧ drained q) →
  (∀ j i, (n ≤ j < m)%nat → items !! j = Some i → is_block i) →
  (n + run_of (arrived true (wi_height <$> seen)) (drop n items))%nat = m.
Proof.
  intros Hsub Hm Hcov Hstop Hkind. apply run_of_drop; [done|..].
  - intros j x Hj Hx. apply (arrived_true true seen j x Hsub Hx). split; [|eapply Hcov; [|done]; lia].
    split; [done|]. intros _. by eapply Hkind.
  - intros x Hx. apply not_true_iff_false. intros [Hk Hin]%(arrived_true true seen m x Hsub Hx).
    destruct Hstop as [(_ & Hnext & Hbuf & _) Hs]; [by eapply lookup_lt_Some|]. pose proof (Hitems _ _ Hx) as Hh.
    destruct x as [h b|h]; [|by apply Hk]. cbn [wi_height] in Hh. unfold drained in Hs.
    assert (q_buffer q !! h = Some b) as Hb by (apply Hbuf; split; [lia|done]).
    rewrite Hnext, <-Hh in Hs. congruence.
Qed.

Lemma recv_round_run seen i q n :
  NoDup (wi_height <$> seen ++ [i]) → seen ++ [i] ⊆ items → holding seen q n →
  ∃ m q', (n ≤ m ≤ length items)%nat ∧ covered (seen ++ [i]) m ∧
    ((m < length items)%nat → holding (seen ++ [i]) q' m ∧ drained q') ∧
    round_to items (wi_height <$> seen ++ [i]) n = m ∧
    g_recv_round hd i q ≡ₘ (_ ← g_sequential hd (seg n m); after_item m q').
Proof.
  intros Hnd Hsub Hq. apply (holding_receive _ i) in Hq; [|done..]. unfold g_recv_round. cbv zeta.
  destruct (skip_loop_run (seen ++ [i]) (S (size (q_skipped (receive i q)))) (receive i q) n)
    as (m & q1 & Hm & Hcov & Hq1 & Hkind & Hs); [done..|lia|].
  pose proof (skips_to _ _ _ _ Hsub Hm Hcov Hq1 Hkind) as Hto. unfold round_to. rewrite Hto.
  destruct (decide (m = length items)) as [->|Hlt].
  - exists (length items), q1. split; [lia|]. split; [done|]. split; [lia|].
    split; [by rewrite drop_all, Nat.add_0_r|]. rewrite Hs, m_bind_assoc. f_equiv. intros u.
    unfold after_item. rewrite bool_decide_true by done. by rewrite m_bind_assoc.
  - destruct (drain_loop_run (seen ++ [i]) (S (size (q_buffer q1))) q1 m)
      as (l & q' & Hl & Hcov' & Hq' & Hkind' & Hrun); [done|apply Hq1; lia|lia|].
    exists l, q'. split; [lia|]. split; [done|]. split; [done|].
    split; [by apply (drains_to _ q' m l Hsub Hl Hcov' Hq' Hkind')|].
    rewrite Hs, <-(seg_app n m l) by lia. rewrite g_sequential_app, !m_bind_assoc. f_equiv. intros u.
    unfold after_item at 1. rewrite bool_decide_false by done. rewrite m_ret_bind. cbn beta iota. exact Hrun.
Qed.

Lemma recv_loop_run rest seen q n :
  NoDup (wi_height <$> seen ++ rest) → seen ++ rest ⊆ items → holding seen q n → drained q →
  ∃ m q', (n ≤ m ≤ length items)%nat ∧ covered (seen ++ rest) m ∧
    ((m < length items)%nat → holding (seen ++ rest) q' m ∧ drained q') ∧
    reached_from items (wi_height <$> seen) (wi_height <$> rest) n = m ∧
    g_recv_loop hd rest q ≡ₘ (_ ← g_sequential hd (seg n m); after_item m q').
Proof.
  revert seen q n. induction rest as [|i rest IH]; intros seen q n Hnd Hsub Hq Hd.
  { exists n, q. rewrite app_nil_r, seg_nil. destruct Hq as (Hn & Hq). split; [lia|].
    split; [by apply Hq|]. split; [done|]. split; [done|]. unfold after_item. by rewrite bool_decide_false by lia. }
  rewrite (cons_middle i seen rest), app_assoc in Hnd, Hsub |- *. cbn [g_recv_loop].
  rewrite fmap_cons. cbn [reached_from].
  replace ((wi_height <$> seen) ++ [wi_height i]) with (wi_height <$> seen ++ [i]) by by rewrite fmap_app.
  destruct (recv_round_run seen i q n) as (m & q1 & Hm & Hcov & Hq1 & Hto & Hs); [|set_solver|done|].
  { rewrite fmap_app in Hnd. by apply NoDup_app in Hnd as [? _]. }
  destruct (decide (m = length items)) as [->|Hlt].
  - exists (length items), q1. split; [lia|]. split; [|split; [lia|split]].
    + intros j i' Hj Hi'. apply elem_of_app. left. by apply (Hcov j).
    + by rewrite Hto, reached_from_end.
    + rewrite Hs, m_bind_assoc. f_equiv. intros u. unfold after_item. rewrite bool_decide_true by done.
      by rewrite m_bind_assoc.
  - destruct Hq1 as [Hq1 Hd1]; [lia|].
    destruct (IH (seen ++ [i]) q1 m) as (l & q' & Hl & Hcov' & Hq' & Hto' & Hrun); [done..|].
    exists l, q'. split; [lia|]. split; [done|]. split; [done|]. split; [by rewrite Hto|].
    rewrite Hs, <-(seg_app n m l) by lia. rewrite g_sequential_app, !m_bind_assoc. f_equiv. intros u.
    unfold after_item at 1. rewrite bool_decide_false by done. rewrite m_ret_bind. exact Hrun.
Qed.

(** Where a run stops: at an item that has not arrived, or at a skipped one to
    which the blocks drained in the last round have led. *)
Lemma reached_stops arrivals i :
  NoDup (wi_height <$> arrivals) → arrivals ⊆ items → items !! reached items arrivals = Some i → i ∈ arrivals →
  ¬ is_block i ∧ ∃ l x, arrivals = l ++ [x] ∧ (reached items l < reached items arrivals)%nat.
Proof.
  intros Hnd Hsub Hi Hin. destruct arrivals as [|x l _] using rev_ind; [by apply not_elem_of_nil in Hin|].
  unfold reached in *. rewrite fmap_app in *. rewrite reached_from_app in *. cbn [fmap list_fmap reached_from app] in *.
  set (n := reached_from items [] (wi_height <$> l) 0) in *. set (hs := (wi_height <$> l) ++ _) in *.
  assert (hs = wi_height <$> l ++ [x]) as Hhs by (unfold hs; by rewrite fmap_app).
  unfold round_to in *. set (a := (n + run_of _ _)%nat) in *.
  assert (∀ f k j, items !! (k + run_of f (drop k items))%nat = Some j → f j = false) as Hstop.
  { clear. intros f k j Hj. rewrite <-lookup_drop in Hj. revert Hj. generalize (drop k items). intros l.
    induction l as [|y l IH]; cbn [run_of]; [done|]. destruct (f y) eqn:Hy; [exact IH|]. by intros [= ->]. }
  assert (¬ is_block i) as Hk.
  { intros Hb. apply Hstop in Hi as Hf. rewrite Hhs in Hf. apply not_true_iff_false in Hf. destruct Hf.
    by apply (arrived_true true _ _ i Hsub Hi). }
  split; [done|]. exists l, x. split; [done|]. fold n.
  destruct (run_of (arrived true hs) (drop a items)) as [|d] eqn:Hd; [|lia].
  rewrite Nat.add_0_r in Hi. pose proof (Hstop _ _ _ Hi) as Hf. rewrite Hhs in Hf. apply not_true_iff_false in Hf.
  destruct Hf. apply (arrived_true false _ _ i Hsub Hi). split; [|done]. by split.
Qed.

(** The whole consumer: a run over a prefix of the items, in order. *)
Lemma g_consume_items_run arrivals :
  NoDup (wi_height <$> arrivals) → arrivals ⊆ items → items ≠ [] →
  let m := reached items arrivals in
  (m ≤ length items)%nat ∧ covered arrivals m ∧
    g_consume_items hd arrivals ≡ₘ
      (_ ← g_sequential hd (take m items); _ ← h_finish hd;
       if (m <? length items)%nat then m_fail (h_closed_early hd (h_start hd + Z.of_nat m)) else mret ()).
Proof.
  intros Hnd Hsub Hne. set (q0 := mkReorder ∅ ∅ (h_start hd) 0).
  destruct (recv_loop_run arrivals [] q0 0) as (m & q & Hm & Hcov & Hq & Hto & Hrun); [done|done| |done|].
  { split; [by destruct items; simpl; [|lia]|]. split; [simpl; lia|]. split_and!.
    - intros h b. cbn [q0 q_buffer]. rewrite lookup_empty. split; [done|]. by intros [_ ?%not_elem_of_nil].
    - intros h. cbn [q0 q_skipped]. split; [by intros ?%not_elem_of_empty|]. by intros [_ ?%not_elem_of_nil].
    - intros j i Hj. lia. }
  change (reached items arrivals = m) in Hto. cbv zeta. rewrite Hto. split; [lia|]. split; [done|].
  unfold g_consume_items. fold q0. rewrite Hrun, m_bind_assoc. unfold seg. rewrite drop_0, Nat.sub_0_r.
  f_equiv. intros u. unfold after_item. case_bool_decide as Hl.
  - rewrite m_bind_assoc, (proj2 (Nat.ltb_ge m (length items))) by lia. done.
  - rewrite m_ret_bind, (proj2 (Nat.ltb_lt m (length items))) by lia. f_equiv. intros [].
    destruct Hq as [(_ & -> & _) _]; [lia|]. unfold len in Hend.
    by rewrite (proj2 (Z.ltb_lt _ _)) by lia.
Qed.

Lemma elem_of_take_items j n y : items !! j = Some y → y ∈ take n items ↔ (j < n)%nat.
Proof.
  intros Hj. split.
  - intros [k Hk]%list_elem_of_lookup. apply lookup_take_Some in Hk as [Hk Hlt].
    pose proof (Hitems _ _ Hj). pose proof (Hitems _ _ Hk). lia.
  - intros Hlt. apply list_elem_of_lookup. exists j. by apply lookup_take_Some.
Qed.

(** In height order every item is done as it arrives. *)
Lemma reached_in_order n : (n ≤ length items)%nat → reached items (take n items) = n.
Proof.
  induction n as [|n IH]; intros Hn; [done|]. destruct (lookup_lt_is_Some_2 items n) as [x Hx]; [lia|].
  unfold reached in *. rewrite (take_S_r _ _ _ Hx), fmap_app, reached_from_app, IH by lia.
  cbn [fmap list_fmap reached_from app]. unfold round_to.
  replace ((wi_height <$> take n items) ++ [wi_height x]) with (wi_height <$> take (S n) items)
    by (by rewrite (take_S_r _ _ _ Hx), fmap_app).
  set (hs := wi_height <$> take (S n) items).
  assert (take (S n) items ⊆ items) as Hsub by apply subseteq_take.
  assert (∀ blk j y, items !! j = Some y →
    arrived blk hs y = true ↔ (is_block y ↔ blk = true) ∧ (j < S n)%nat) as Harr.
  { intros blk j y Hy. unfold hs. rewrite (arrived_true blk _ j y Hsub Hy).
    by rewrite (elem_of_take_items j (S n) y Hy). }
  assert (∀ blk y, items !! S n = Some y → arrived blk hs y = false) as Hend'.
  { intros blk y Hy. apply not_true_iff_false. intros [_ ?]%(Harr blk (S n) y Hy). lia. }
  destruct (decide (is_block x)) as [Hb|Hb].
  - rewrite (run_of_drop _ items n n); [|lia|intros; lia|].
    + apply run_of_drop; [lia| |apply Hend']. intros j y Hj Hy. replace j with n in Hy by lia.
      assert (y = x) as -> by congruence. apply (Harr true n x Hx). split; [done|lia].
    + intros y Hy. assert (y = x) as -> by congruence.
      apply not_true_iff_false. intros [Hk _]%(Harr false n x Hx).
      by discriminate (proj1 Hk Hb).
  - rewrite (run_of_drop _ items n (S n)); [|lia| |apply Hend'].
    + apply run_of_drop; [lia|intros; lia|apply Hend'].
    + intros j y Hj Hy. replace j with n in Hy by lia.
      assert (y = x) as -> by congruence. apply (Harr false n x Hx).
      split; [by split|lia].
Qed.

(** Without skipped heights it stops only at a height that has not arrived. *)
Lemma reached_missing arrivals i :
  NoDup (wi_height <$> arrivals) → arrivals ⊆ items → Forall is_block items →
  items !! reached items arrivals = Some i → i ∉ arrivals.
Proof.
  intros Hnd Hsub Hb Hi Hin. destruct (reached_stops arrivals i Hnd Hsub Hi Hin) as [Hk _].
  rewrite Forall_lookup in Hb. by eapply Hk, Hb.
Qed.

(** When every item is a block and has arrived, all are handled, in order. *)
Lemma g_consume_items_all arrivals :
  arrivals ≡ₚ items → Forall is_block items → items ≠ [] →
  g_consume_items hd arrivals ≡ₘ (_ ← g_sequential hd items; h_finish hd).
Proof.
  intros Hperm Hblocks Hne.
  pose proof (consecutive_NoDup _ _ _ Hitems Hperm) as Hnd.
  assert (arrivals ⊆ items) as Hsub by (by intros i; rewrite Hperm).
  destruct (g_consume_items_run arrivals Hnd Hsub Hne) as (Hm & _ & Hrun).
  assert (reached items arrivals = length items) as Hall.
  { destruct (decide (reached items arrivals = length items)) as [|Hlt]; [done|].
    destruct (lookup_lt_is_Some_2 items (reached items arrivals)) as [i Hi]; [lia|].
    destruct (reached_missing arrivals i Hnd Hsub Hblocks Hi).
    rewrite Hperm. by eapply list_elem_of_lookup_2. }
  rewrite Hrun, Hall, Nat.ltb_irrefl, take_ge by lia. apply m_bind_proper; [intros u; apply m_bind_unit|done].
Qed.
End order.
