(* ===== verification/Pipeline.v ===== *)
(** * Pipeline: the ordered consumer, [bidx-cli/src/pipeline.rs]

    [consume_ordered]: the reorder buffer over the blocks as they arrive from
    the parse workers, and for each block in height order the rotation of the
    part file, the store, the fees, the rows and the disk recorder. The channel
    is the list of the items received until it is closed. *)
From S2P Require Import Prelude F64 Text Hash Types Tx Block BlkFile Utxo UtxoStore Disk DiskGuard Tracker Parquet.
From S2P Require Export Reorder.

Definition REORDER_HIGH : Z := 32.
Definition CHANNEL_DEPTH : Z := 512.

Inductive PipeError `{RocksDB} `{ParquetLib} `{Fs} : Type :=
  | PeUtxo (e : UtxoError)
  | PeSink (e : SinkError)
  | PeGuard (e : GuardError)
  | PeWatchdog (limit_mib : Z)
  | PeClosedEarly (next end_ : Z).

(** [coinbase_tx]: one flag per transaction; [get_mut] ignores other indices. *)
Definition coinbase_flags (n : nat) (inputs : list InputRow) : list bool :=
  foldl (λ flags inp, alter (λ f, f || ir_is_coinbase inp) (Z.to_nat (ir_tx_index inp)) flags)
    (replicate n false) inputs.

(** The loop over [block.txs]: the fees, and the total of those not coinbase. *)
Fixpoint enrich_txs {E} (i : nat) (txs : list TxRow) (fees : list Z) (coinbase_tx : list bool) (total_fee : Z)
    : Res E (list TxRow * Z) :=
  match txs with
  | [] => mret ([], total_fee)
  | tx :: txs =>
    f ← index fees (Z.of_nat i);
    let total_fee := if default false (coinbase_tx !! i) then total_fee else sat_add total_fee f in
    r ← enrich_txs (S i) txs fees coinbase_tx total_fee;
    mret (set_tr_fee f tx :: r.1, r.2)
  end.

Definition enrich {E} (b : FullBlock) (fees : list Z) : Res E FullBlock :=
  r ← enrich_txs 0 (txs b) fees (coinbase_flags (length (txs b)) (inputs b)) 0;
  mret (with_fees b r).

Section rows.
Context `{ParquetLib}.

Fixpoint push_each {A} (push : A → M ParquetSink SinkError ()) (l : list A) : M ParquetSink SinkError () :=
  match l with
  | [] => mret ()
  | a :: l => _ ← push a; push_each push l
  end.

(** The rows of a block, as every consumer pushes them. *)
Definition push_rows (b : FullBlock) (spends : list SpendRow) : M ParquetSink SinkError () :=
  _ ← push_block (block_row b);
  _ ← push_each push_tx (txs b);
  _ ← push_each push_input (inputs b);
  _ ← push_each push_output (outputs b);
  push_each push_spend spends.
End rows.

Section consumer.
Context `{ROCKS : RocksDB} `{CLOCK : Clock} `{ORDER : HashOrder} `{PARQ : ParquetLib} `{FS : Fs} `{IO : !AppendIo}.

(** What the consumer owns or mutates: the sink and the part it writes, the
    store, the recorder with its file, the count of missing outputs; and the
    files of the sinks already finished. *)
Record Pipe : Type := mkPipe {
  p_sink : ParquetSink; p_part : Z; p_store : UtxoStore; p_rec : DiskRecorder * option bytes;
  p_missing : Z; p_closed : list (Z * list ArrowWriter) }.

Definition on_sink {A} (m : M ParquetSink SinkError A) : M Pipe PipeError A := λ p,
  let '(r, s) := m (p_sink p) in
  (map_err PeSink r, mkPipe s (p_part p) (p_store p) (p_rec p) (p_missing p) (p_closed p)).

Definition on_store {A} (m : M UtxoStore UtxoError A) : M Pipe PipeError A := λ p,
  let '(r, s) := m (p_store p) in
  (map_err PeUtxo r, mkPipe (p_sink p) (p_part p) s (p_rec p) (p_missing p) (p_closed p)).

Definition on_recorder {A} (m : M (DiskRecorder * option bytes) GuardError A) : M Pipe PipeError A := λ p,
  let '(r, s) := m (p_rec p) in
  (map_err PeGuard r, mkPipe (p_sink p) (p_part p) (p_store p) s (p_missing p) (p_closed p)).

(** [sink.finish()?]: the files of the part are closed. *)
Definition finish_part : M Pipe PipeError () := λ p,
  match sink_finish (p_sink p) with
  | Ok ws => (Ok (), mkPipe (p_sink p) (p_part p) (p_store p) (p_rec p) (p_missing p) (p_closed p ++ [(p_part p, ws)]))
  | Err e => (Err (PeSink e), p)
  | Panic => (Panic, p)
  end.

Definition set_part (part : Z) : M Pipe PipeError () :=
  m_modify (λ p, mkPipe (p_sink p) part (p_store p) (p_rec p) (p_missing p) (p_closed p)).

Definition add_missing (n : Z) : M Pipe PipeError () :=
  m_modify (λ p, mkPipe (p_sink p) (p_part p) (p_store p) (p_rec p) (u64 (p_missing p + n)) (p_closed p)).

(** What does not change during a run. [trees] is the content of the tracked
    directories when a height is recorded, [tripped] the watchdog's flag when
    the block at a height is taken, [limit_kb] its limit. *)
Record Conf : Type := mkConf {
  k_start : Z; k_end : Z; k_blocks_per_part : Z; k_out_dir : rstr;
  k_env : option rstr; k_trees : Z → rstr → option Entry; k_tripped : Z → bool; k_limit_kb : Z }.

Section conf.
Variable k : Conf.

(** [x / blocks_per_part], which panics on 0. *)
Definition part_of (h : Z) : M Pipe PipeError Z :=
  if k_blocks_per_part k =? 0 then m_panic else mret (h `div` k_blocks_per_part k).

Definition open_part (part : Z) : M Pipe PipeError () := λ p,
  match sink_create (k_out_dir k) part sink_config_default with
  | Ok s => (Ok (), mkPipe s (p_part p) (p_store p) (p_rec p) (p_missing p) (p_closed p))
  | Err e => (Err (PeSink e), p)
  | Panic => (Panic, p)
  end.

(** "Rotate part file at boundaries". *)
Definition rotate (next : Z) : M Pipe PipeError () :=
  wanted_part ← part_of next;
  p ← m_get;
  if bool_decide (wanted_part = p_part p) then mret ()
  else _ ← finish_part; _ ← set_part wanted_part; open_part wanted_part.

Definition record_height (h : Z) : M Pipe PipeError () :=
  _ ← on_recorder (on_block_applied (k_env k) (k_trees k h) h); mret ().

(** A block taken out of the buffer: the body of the drain loop up to [next += 1]. *)
Definition consume_block (next : Z) (b : FullBlock) : M Pipe PipeError () :=
  _ ← (if k_tripped k next then m_fail (PeWatchdog (k_limit_kb k `div` 1024)) else mret ());
  _ ← rotate next;
  res ← on_store (apply_block next (txs b) (inputs b) (outputs b));
  _ ← add_missing (missing res);
  b ← m_lift (enrich b (fees res));
  _ ← on_sink (push_rows b (spends res));
  record_height next.

(** The result of the two loops: [true] when the last height is done, and the
    consumer returns. [next] grows in every round; running out of fuel counts as
    a panic. *)
Fixpoint skip_loop (fuel : nat) (q : Reorder) : M Pipe PipeError (Reorder * bool) :=
  match fuel with
  | O => m_panic
  | S fuel =>
    if bool_decide (q_next q ∈ q_skipped q) then
      _ ← record_height (q_next q);
      let q := mkReorder (q_buffer q) (q_skipped q ∖ {[q_next q]}) (u32 (q_next q + 1)) (q_depth q) in
      if k_end k <=? q_next q then _ ← finish_part; mret (q, true) else skip_loop fuel q
    else mret (q, false)
  end.

Fixpoint drain_loop (fuel : nat) (q : Reorder) : M Pipe PipeError (Reorder * bool) :=
  match fuel with
  | O => m_panic
  | S fuel =>
    match q_buffer q !! q_next q with
    | Some b =>
      _ ← consume_block (q_next q) b;
      let q := mkReorder (delete (q_next q) (q_buffer q)) (q_skipped q) (u32 (q_next q + 1)) (u64 (q_depth q - 1)) in
      if k_end k <=? q_next q then _ ← finish_part; mret (q, true) else drain_loop fuel q
    | None => mret (q, false)
    end
  end.

(** One round of [while let Ok(item) = rx.recv()]. *)
Definition recv_round (i : WorkItem) (q : Reorder) : M Pipe PipeError (Reorder * bool) :=
  let q := receive i q in
  r ← skip_loop (S (size (q_skipped q))) q;
  let '(q, done) := (r : Reorder * bool) in
  if done then mret (q, true) else drain_loop (S (size (q_buffer q))) q.

Fixpoint recv_loop (items : list WorkItem) (q : Reorder) : M Pipe PipeError (Reorder * bool) :=
  match items with
  | [] => mret (q, false)
  | i :: items =>
    r ← recv_round i q;
    let '(q, done) := (r : Reorder * bool) in
    if done then mret (q, true) else recv_loop items q
  end.

(** The loop of [consume_ordered] and what follows it. *)
Definition consume_items (items : list WorkItem) : M Pipe PipeError () :=
  r ← recv_loop items (mkReorder ∅ ∅ (k_start k) 0);
  let '(q, done) := (r : Reorder * bool) in
  if done then mret ()
  else
    _ ← finish_part;
    if q_next q <? k_end k then m_fail (PeClosedEarly (q_next q) (k_end k)) else mret ().

(** The state is there once the sink of the first part is. *)
Definition consume_ordered (items : list WorkItem) (store : UtxoStore) (rec : DiskRecorder * option bytes)
    : Res PipeError () * option Pipe :=
  if k_blocks_per_part k =? 0 then (Panic, None)
  else
    let part_id := k_start k `div` k_blocks_per_part k in
    match sink_create (k_out_dir k) part_id sink_config_default with
    | Ok sink => let '(r, p) := consume_items items (mkPipe sink part_id store rec 0 []) in (r, Some p)
    | Err e => (Err (PeSink e), None)
    | Panic => (Panic, None)
    end.
End conf.
End consumer.

(** ** Specification: the items in height order *)

Section spec.
Context `{ROCKS : RocksDB} `{CLOCK : Clock} `{ORDER : HashOrder} `{PARQ : ParquetLib} `{FS : Fs} `{IO : !AppendIo}.
Variable k : Conf.

Definition do_item (i : WorkItem) : M Pipe PipeError () :=
  match i with WiBlock h b => consume_block k h b | WiSkipped h => record_height k h end.

Fixpoint sequential (items : list WorkItem) : M Pipe PipeError () :=
  match items with [] => mret () | i :: items => _ ← do_item i; sequential items end.

End spec.

(** ** Lemmas *)

Section order.
Context `{ROCKS : RocksDB} `{CLOCK : Clock} `{ORDER : HashOrder} `{PARQ : ParquetLib} `{FS : Fs} `{IO : !AppendIo}.
Variable k : Conf.

(** The consumer is the protocol of [Reorder], with these handlers. *)
Definition consumer_handlers : Handlers Pipe PipeError :=
  mkHandlers (consume_block k) (record_height k) finish_part (k_start k) (k_end k) (λ next, PeClosedEarly next (k_end k)).

Lemma consume_items_generic items : consume_items k items = g_consume_items consumer_handlers items.
Proof. reflexivity. Qed.

Lemma sequential_generic items : sequential k items = g_sequential consumer_handlers items.
Proof. reflexivity. Qed.

Lemma sequential_app l l' : sequential k (l ++ l') ≡ₘ (_ ← sequential k l; sequential k l').
Proof. rewrite !sequential_generic. apply g_sequential_app. Qed.

(** The whole consumer: a run over a prefix of the items, in order. *)
Lemma consume_items_run items
    (Hitems : consecutive (k_start k) items) (Hend : k_end k = k_start k + len items)
    (Hrange : 0 ≤ k_start k ∧ k_end k < 2 ^ 32) arrivals :
  NoDup (wi_height <$> arrivals) → arrivals ⊆ items → items ≠ [] →
  let m := reached items arrivals in
  (m ≤ length items)%nat ∧ covered items arrivals m ∧
    consume_items k arrivals ≡ₘ
      (_ ← sequential k (take m items); _ ← finish_part;
       if (m <? length items)%nat then m_fail (PeClosedEarly (k_start k + Z.of_nat m) (k_end k)) else mret ()).
Proof. exact (g_consume_items_run consumer_handlers items Hitems Hend Hrange arrivals). Qed.

(** When every height is a block and has arrived, all are handled, in order. *)
Lemma consume_items_all items
    (Hitems : consecutive (k_start k) items) (Hend : k_end k = k_start k + len items)
    (Hrange : 0 ≤ k_start k ∧ k_end k < 2 ^ 32) arrivals :
  arrivals ≡ₚ items → Forall is_block items → items ≠ [] →
  consume_items k arrivals ≡ₘ (_ ← sequential k items; finish_part).
Proof. exact (g_consume_items_all consumer_handlers items Hitems Hend Hrange arrivals). Qed.
End order.

(** ** Theorems *)

Section theorems.
Context `{ROCKS : RocksDB} `{CLOCK : Clock} `{ORDER : HashOrder} `{PARQ : ParquetLib} `{FS : Fs} `{IO : !AppendIo}.

(** C14: The consumer does not depend on the arrival order. When every height
    from [start] to [end] is parsed and none is skipped, [consume_ordered]
    over the blocks in whatever order they come out of the channel does exactly
    what handling them one by one in height order does: the same part files,
    store, recorder and counters, and the same first error. *)
Theorem consume_any_order (k : Conf) (items arrivals : list WorkItem) (p : Pipe)
    (Hperm : arrivals ≡ₚ items) (Hitems : consecutive (k_start k) items) (Hblocks : Forall is_block items)
    (Hne : items ≠ []) (Hend : k_end k = k_start k + len items) (Hrange : 0 ≤ k_start k ∧ k_end k < 2 ^ 32) :
  consume_items k arrivals p = (_ ← sequential k items; finish_part) p.
Proof.
  exact (m_eq_at (consume_items_all k items Hitems Hend Hrange arrivals Hperm Hblocks Hne) p).
Qed.

(** C35: What the consumer does when heights are skipped or missing. Over any
    arrivals without repetition it handles the heights in order up to the one
    that [reached] computes, all of them received, closes the part, and ends
    well exactly when these are all the heights of the range. [reached] goes over
    the arrivals one by one, passing after each the skipped heights received
    that are next, and then the blocks. Hence the height it stops at either
    never arrives, or is a skipped one that the blocks passed after the last
    arrival led to: that one is left though it was received, and the run fails.
    Of arrivals in height order none is left. *)
Theorem consume_prefix (k : Conf) (items arrivals : list WorkItem) (p : Pipe)
    (Hnd : NoDup (wi_height <$> arrivals)) (Hsub : arrivals ⊆ items)
    (Hitems : consecutive (k_start k) items) (Hne : items ≠ [])
    (Hend : k_end k = k_start k + len items) (Hrange : 0 ≤ k_start k ∧ k_end k < 2 ^ 32) :
  let m := reached items arrivals in
  consume_items k arrivals p =
    (_ ← sequential k (take m items); _ ← finish_part;
     if (m <? length items)%nat then m_fail (PeClosedEarly (k_start k + Z.of_nat m) (k_end k)) else mret ()) p ∧
  (m ≤ length items)%nat ∧ (∀ j i, (j < m)%nat → items !! j = Some i → i ∈ arrivals) ∧
  (∀ i, items !! m = Some i → i ∈ arrivals →
     ¬ is_block i ∧ ∃ l x, arrivals = l ++ [x] ∧ (reached items l < m)%nat) ∧
  (arrivals = items → m = length items).
Proof.
  destruct (consume_items_run k items Hitems Hend Hrange arrivals Hnd Hsub Hne) as (Hm & Hcov & [Hrun]).
  split_and!; [apply Hrun|exact Hm|exact Hcov| |].
  - intros i. by apply (reached_stops (consumer_handlers k) items Hitems).
  - intros ->. rewrite <-(take_ge items (length items)) at 2 by done.
    by apply (reached_in_order (consumer_handlers k) items Hitems).
Qed.
End theorems.

(** ** Concrete runs *)

Module Ex.
(** A block with one coinbase transaction, and its consumer. *)
Definition block (h : Z) : FullBlock :=
  mkFullBlock (mkBlockRow h (zeros 32) (zeros 32) (zeros 32) 0 0 0 1 1 285 1140 0 50)
    [mkTxRow h 0 (le_bytes 32 h) 1 0 100 400 0 1 1 false]
    [mkInputRow h 0 0 (le_bytes 32 h) (zeros 32) 0xFFFFFFFF 0 0 0 0 true]
    [mkOutputRow h 0 0 (le_bytes 32 h) 50 22 4 (zeros 32)].

Definition conf (start end_ : Z) : Conf :=
  mkConf start end_ 2 (str "out") None (λ _, DiskGuard.Ex.tree 5) (λ _, false) 1048576.

Definition store : @UtxoStore rocks_ref := @mkStore rocks_ref (∅ : View) (str "db") ∅ None false false.
Definition recorder : DiskRecorder * option bytes := (recorder_new DiskGuard.Ex.cfg None, None).
Definition sink : @ParquetSink Parquet.Ex.lib :=
  @mkSink Parquet.Ex.lib sink_config_default 1 [] [] [] [] [] (entity_new blocks_schema)
    (entity_new transactions_schema) (entity_new inputs_schema) (entity_new outputs_schema) (entity_new spends_schema).
Definition pipe : @Pipe rocks_ref Parquet.Ex.lib := @mkPipe rocks_ref Parquet.Ex.lib sink 1 store recorder 0 [].

Definition consume (k : Conf) (arrivals : list WorkItem) :=
  @consume_items rocks_ref clock_ref order_ref Parquet.Ex.lib BlkFile.Ex.fs Disk.Ex.io k arrivals pipe.
Definition in_order (k : Conf) (items : list WorkItem) :=
  (_ ← @sequential rocks_ref clock_ref order_ref Parquet.Ex.lib BlkFile.Ex.fs Disk.Ex.io k items; finish_part) pipe.

Definition blocks : list WorkItem := (λ h, WiBlock h (block h)) <$> [3; 4; 5; 6].
Definition shuffled : list WorkItem := (λ h, WiBlock h (block h)) <$> [5; 3; 6; 4].

(** [Ok], or the height where the channel was closed. *)
Definition outcome (r : Res (@PipeError rocks_ref Parquet.Ex.lib BlkFile.Ex.fs) () * @Pipe rocks_ref Parquet.Ex.lib)
    : bool * option (Z * Z) :=
  match r.1 with Ok _ => (true, None) | Err (PeClosedEarly a b) => (false, Some (a, b)) | _ => (false, None) end.

(** The parts closed, with the number of rows of their files. *)
Definition parts {R} (r : R * @Pipe rocks_ref Parquet.Ex.lib) : list (Z * list nat) :=
  (λ c : Z * list (list (list (list Cell))),
    (c.1, (λ w : list (list (list Cell)), sum_list ((λ b, length (default [] (head b))) <$> w)) <$> c.2)) <$>
    (@p_closed rocks_ref Parquet.Ex.lib r.2 : list (Z * list (list (list (list Cell))))).
End Ex.

Lemma consume_any_order_witness :
  Ex.consume (Ex.conf 3 7) Ex.shuffled = Ex.in_order (Ex.conf 3 7) Ex.blocks ∧
  Ex.parts (Ex.in_order (Ex.conf 3 7) Ex.blocks) =
    [(1, [1; 1; 1; 1; 0]%nat); (2, [2; 2; 2; 2; 0]%nat); (3, [1; 1; 1; 1; 0]%nat)].
Proof.
  split; [|vm_compute; reflexivity].
  pose proof (@consume_any_order rocks_ref clock_ref order_ref Parquet.Ex.lib BlkFile.Ex.fs Disk.Ex.io
    (Ex.conf 3 7) Ex.blocks Ex.shuffled Ex.pipe) as Hc.
  apply Hc.
  - assert ([5; 3; 6; 4] ≡ₚ [3; 4; 5; 6]) as Hp by (apply (bool_decide_unpack _); vm_compute; exact I).
    unfold Ex.shuffled, Ex.blocks. rewrite Hp. reflexivity.
  - intros n i Hi. do 4 (destruct n as [|n]; [by injection Hi as <-|]). discriminate Hi.
  - repeat constructor.
  - discriminate.
  - reflexivity.
  - by split.
Defined.

(** Height 5 is skipped, and 6 arrives first: after 4 the blocks 3 and 4 are
    passed, after the arrival of 5 that one and 6. Without the block 3 nothing is. *)
Lemma consume_prefix_witness :
  let items := [WiBlock 3 (Ex.block 3); WiBlock 4 (Ex.block 4); WiSkipped 5; WiBlock 6 (Ex.block 6)] in
  let arrivals := [WiBlock 6 (Ex.block 6); WiBlock 3 (Ex.block 3); WiBlock 4 (Ex.block 4); WiSkipped 5] in
  Ex.consume (Ex.conf 3 7) arrivals = Ex.in_order (Ex.conf 3 7) items ∧
  Ex.outcome (Ex.consume (Ex.conf 3 7) arrivals) = (true, None).
Proof.
  intros items arrivals. split; [|vm_compute; reflexivity].
  pose proof (@consume_prefix rocks_ref clock_ref order_ref Parquet.Ex.lib BlkFile.Ex.fs Disk.Ex.io
    (Ex.conf 3 7) items arrivals Ex.pipe) as Hc.
  destruct Hc as [Hrun _].
  - cbn. apply (bool_decide_unpack _). vm_compute. exact I.
  - intros i Hi. unfold arrivals in Hi. unfold items.
    apply elem_of_cons in Hi as [->|Hi]; [do 3 right; left|].
    apply elem_of_cons in Hi as [->|Hi]; [left|].
    apply elem_of_cons in Hi as [->|Hi]; [right; left|].
    apply list_elem_of_singleton in Hi as ->. do 2 right; left.
  - intros n i Hi. do 4 (destruct n as [|n]; [by injection Hi as <-|]). discriminate Hi.
  - discriminate.
  - reflexivity.
  - by split.
  - assert (reached items arrivals = 4%nat) as Hm by (vm_compute; reflexivity).
    rewrite Hm in Hrun. unfold Ex.consume. rewrite Hrun. unfold Ex.in_order.
    apply m_eq_at, m_bind_proper; [intros u; apply m_bind_unit|reflexivity].
Defined.

(** All the heights arrive, but a skipped one comes before the block it
    follows: it is looked at only after the next arrival, and there is none. *)
Lemma skip_after_drain_lost :
  Ex.outcome (Ex.consume (Ex.conf 3 5) [WiSkipped 4; WiBlock 3 (Ex.block 3)]) = (false, Some (4, 5)) ∧
  Ex.outcome (Ex.consume (Ex.conf 3 5) [WiBlock 3 (Ex.block 3); WiSkipped 4]) = (true, None).
Proof. split; vm_compute; reflexivity. Qed.
