(* ===== verification/PipelineThms.v ===== *)
(** * PipelineThms: what a whole run of the ordered consumer leaves

    The rows of parsed blocks fit the Parquet schemas; handling the blocks of a
    chain in height order leaves the UTXO set of the chain, and in the part
    files the rows of the blocks of each part. *)
From S2P Require Import Prelude F64 Text Hash Types Tx Block BlkFile Utxo UtxoStore UtxoSpec UtxoThms.
From S2P Require Import Disk DiskGuard Tracker Parquet Pipeline.

(** ** Specification *)

(** Whether a transaction has a coinbase input, among the rows of the block. *)
Definition is_coinbase_tx (inputs : list InputRow) (t : nat) : bool :=
  existsb (λ i, ir_is_coinbase i && (ir_tx_index i =? Z.of_nat t)) inputs.

(** The block as written: the fees of the effect, and the total of those of
    the transactions that are not coinbase. *)
Definition written_block (e : Effect) (fb : FullBlock) : FullBlock :=
  let fee t := fee_of e (outputs fb) (Z.of_nat t) in
  let ts := seq 0 (length (txs fb)) in
  mkFullBlock
    (set_br_total_fee (foldl (λ s t, if is_coinbase_tx (inputs fb) t then s else sat_add s (fee t)) 0 ts) (block_row fb))
    (zip_with (λ t, set_tr_fee (fee t)) ts (txs fb)) (inputs fb) (outputs fb).

(** The rows of a written block, in the order they are pushed. *)
Definition rows_of (b : FullBlock) (spends : list SpendRow) : list SinkOp :=
  OpBlock (block_row b) :: (OpTx <$> txs b) ++ (OpInput <$> inputs b) ++ (OpOutput <$> outputs b)
    ++ (OpSpend <$> spends).

Definition block_ops (U : bytes → option UtxoValue) (h : nat) (fb : FullBlock) : list SinkOp :=
  let e := effect_of U h fb in
  rows_of (written_block e fb) ((λ x, spend_row (Z.of_nat h) x.1 x.2) <$> e_resolved e).

Section spec.
Context `{SHA : Sha256} `{RIP : Ripemd160}.

(** The rows of the blocks [bs] from height [h], by height. *)
Fixpoint chain_ops (U : bytes → option UtxoValue) (h : nat) (bs : list (Hash32 * bytes)) : list (Z * list SinkOp) :=
  match bs with
  | [] => []
  | b :: bs =>
    match parsed h b with
    | Ok fb => (Z.of_nat h, block_ops U h fb) :: chain_ops (after U (effect_of U h fb)) (S h) bs
    | _ => []
    end
  end.

(** The parse workers' items for these blocks. *)
Fixpoint chain_items (h : nat) (bs : list (Hash32 * bytes)) : list WorkItem :=
  match bs with
  | [] => []
  | b :: bs =>
    match parsed h b with
    | Ok fb => WiBlock (Z.of_nat h) fb :: chain_items (S h) bs
    | _ => []
    end
  end.
End spec.

(** The rows of one part. *)
Definition part_ops (bpp q : Z) (L : list (Z * list SinkOp)) : list SinkOp :=
  mjoin (snd <$> filter (λ x, x.1 `div` bpp = q) L).

(** ** Lemmas: the fees *)

Lemma coinbase_flags_lookup n inputs (t : nat) :
  Forall (λ i, 0 ≤ ir_tx_index i) inputs → (t < n)%nat →
  coinbase_flags n inputs !! t = Some (is_coinbase_tx inputs t).
Proof.
  intros Hi Ht. unfold coinbase_flags.
  assert (∀ (flags : list bool) f, flags !! t = Some f →
    foldl (λ flags inp, alter (λ f, f || ir_is_coinbase inp) (Z.to_nat (ir_tx_index inp)) flags) flags inputs !! t
      = Some (f || is_coinbase_tx inputs t)) as Hgen.
  { clear Ht. induction Hi as [|i inputs Hx Hi IH]; intros flags f Hf; cbn [foldl].
    { by rewrite Hf, orb_false_r. }
    destruct (decide (Z.to_nat (ir_tx_index i) = t)) as [He|Hne].
    - rewrite (IH _ (f || ir_is_coinbase i)).
      + unfold is_coinbase_tx. cbn [existsb]. rewrite (proj2 (Z.eqb_eq _ _)) by lia.
        by rewrite andb_true_r, orb_assoc.
      + subst t. by rewrite list_lookup_alter_eq, Hf.
    - rewrite (IH _ f) by (by rewrite list_lookup_alter_ne). unfold is_coinbase_tx. cbn [existsb].
      rewrite (proj2 (Z.eqb_neq _ _)) by lia. by rewrite andb_false_r. }
  rewrite (Hgen _ false); [done|]. by apply lookup_replicate_2.
Qed.

Lemma enrich_txs_run {E} i ts fs flags total :
  length fs = (i + length ts)%nat → length flags = (i + length ts)%nat →
  enrich_txs (E := E) i ts fs flags total =
    Ok (zip_with (λ f, set_tr_fee f) (drop i fs) ts,
        foldl (λ s t, if default false (flags !! t) then s else sat_add s (default 0 (fs !! t))) total
          (seq i (length ts))).
Proof.
  revert i total. induction ts as [|t ts IH]; intros i total Hf Hl.
  { simpl. destruct (drop i fs); done. }
  simpl in Hf, Hl. destruct (lookup_lt_is_Some_2 fs i) as [f Hfi]; [lia|].
  cbn [enrich_txs length seq foldl]. unfold index. rewrite Nat2Z.id, Hfi. cbn. rewrite IH by lia.
  by rewrite (drop_S _ _ _ Hfi).
Qed.

Lemma enrich_run {E} (fb : FullBlock) (e : Effect) fs :
  Forall (λ i, 0 ≤ ir_tx_index i) (inputs fb) → length fs = length (txs fb) →
  (∀ t, (t < length (txs fb))%nat → fs !! t = Some (fee_of e (outputs fb) (Z.of_nat t))) →
  enrich (E := E) fb fs = Ok (written_block e fb).
Proof.
  intros Hi Hl Hf. unfold enrich.
  assert (length (coinbase_flags (length (txs fb)) (inputs fb)) = length (txs fb)) as Hfl.
  { unfold coinbase_flags. rewrite <-(length_replicate (length (txs fb)) false) at 2.
    generalize (replicate (length (txs fb)) false). induction (inputs fb) as [|i is_ IH]; intros l; [done|].
    apply Forall_cons in Hi as [_ Hi]. cbn [foldl]. rewrite IH by done. apply length_alter. }
  rewrite enrich_txs_run by (simpl; lia). cbn. unfold with_fees, written_block. cbn [fst snd]. do 2 f_equal.
  - f_equal. assert (∀ ts s, Forall (λ t, (t < length (txs fb))%nat) ts →
      foldl (λ s t, if default false (coinbase_flags (length (txs fb)) (inputs fb) !! t) then s
                    else sat_add s (default 0 (fs !! t))) s ts =
      foldl (λ s t, if is_coinbase_tx (inputs fb) t then s
                    else sat_add s (fee_of e (outputs fb) (Z.of_nat t))) s ts) as Hgen.
    { intros ts s Hts. revert s. induction Hts as [|t ts Ht Hts IH]; intros s; [done|]. cbn [foldl].
      by rewrite coinbase_flags_lookup, Hf by done. }
    apply Hgen. apply Forall_forall. intros t Ht. apply elem_of_seq in Ht. lia.
  - rewrite drop_0, (fees_list _ e (outputs fb) (length (txs fb)) Hl Hf). clear.
    by rewrite zip_with_fmap_l.
Qed.

(** ** Lemmas: the rows fit the schemas *)

Lemma utxos_hash_len m k v : utxos m k = Some v → len (uv_address_hash v) = 32.
Proof.
  unfold utxos. destruct (m !! (CfDefault, k)) as [b|]; [|done]. cbn. unfold utxo_decode.
  destruct (len b =? ENCODED_LEN) eqn:Hb; [|done]. intros [= <-]. cbn [uv_address_hash].
  apply Z.eqb_eq in Hb. unfold ENCODED_LEN in Hb. by rewrite len_slice by lia.
Qed.

(** Every output of a set has a hash of 32 bytes. *)
Definition hashes_32 (U : bytes → option UtxoValue) : Prop := ∀ k v, U k = Some v → len (uv_address_hash v) = 32.

Lemma utxos_hashes m : hashes_32 (utxos m).
Proof. intros k v. apply utxos_hash_len. Qed.

Lemma resolved_input U height ins outs r : r ∈ e_resolved (block_effect U height ins outs) → r.1 ∈ ins.
Proof.
  unfold block_effect.
  assert (∀ ins' e, (∀ r, r ∈ e_resolved e → r.1 ∈ ins) → ins' ⊆ ins →
    ∀ r, r ∈ e_resolved (foldl (effect_input U) e ins') → r.1 ∈ ins) as Hgen.
  { clear r. induction ins' as [|i ins' IH]; intros e He Hsub; [done|]. cbn [foldl]. apply IH; [|set_solver].
    intros r. unfold effect_input. repeat case_match; cbn [e_resolved]; try apply He;
      intros [Hr|Hr%list_elem_of_singleton]%elem_of_app; try (by apply He); subst r; apply Hsub; left. }
  apply Hgen; [|done]. intros x Hx. cbn [e_resolved] in Hx. by apply not_elem_of_nil in Hx.
Qed.

Lemma spend_row_wf height (i : InputRow) v :
  len (ir_txid i) = 32 → len (ir_prev_txid i) = 32 → len (uv_address_hash v) = 32 →
  op_wf (OpSpend (spend_row height i v)).
Proof. intros H1 H2 H3. repeat constructor; cbn [cell_type f_type fbin32]; cbn; f_equal; done. Qed.

Section typed.
Context `{SHA : Sha256} `{RIP : Ripemd160}.

Lemma header_parse_lens raw : 80 ≤ len raw →
  len (prev_hash (header_parse raw)) = 32 ∧ len (merkle_root (header_parse raw)) = 32.
Proof.
  intros Hr. unfold header_parse. cbn [prev_hash merkle_root].
  split; rewrite len_slice; try lia; unfold len in *; rewrite !length_drop; lia.
Qed.

Lemma parsed_block_row payload height hash h fb :
  parse_block_full payload height hash h = Ok fb →
  br_hash (block_row fb) = hash ∧ br_prev_hash (block_row fb) = prev_hash h ∧
  br_merkle_root (block_row fb) = merkle_root h ∧ br_height (block_row fb) = height.
Proof.
  unfold parse_block_full, parse_block_body. intros Hp. m_unfold. unfold mbind, M_bind in Hp.
  destruct (rd (Cursor.skip 80) _) as [[[]|e|] c1]; [|done|done].
  destruct (rd Cursor.read_count c1) as [[n|e|] c2]; [|done|done].
  destruct (parse_txs _ _ _ _ _ c2) as [[acc|e|] c3]; [|done|done].
  destruct (negb _); [done|]. cbn in Hp. by injection Hp as <-.
Qed.

(** The rows written for a parsed block fit the schemas of their tables. *)
Lemma block_ops_wf U h b fb :
  hashes_32 U → is_hash32 b.1 → 80 ≤ len b.2 → is_u32 (Z.of_nat h) → parsed h b = Ok fb →
  Forall op_wf (block_ops U h fb).
Proof.
  intros HU32 Hh H80 Hu Hp. pose proof (parsed_rows_wf _ _ _ Hp) as Hrows. pose proof Hp as Hp'. unfold parsed in Hp'.
  pose proof (parse_block_outcome b.2 (Z.of_nat h) b.1 (header_parse (slice 0 80 b.2))) as Ho.
  rewrite Hp' in Ho. destruct Ho as (_ & _ & _ & rows & Ht & Hi & Hout & Hsane).
  apply parsed_block_row in Hp' as (Hbh & Hbp & Hbm & _).
  destruct (header_parse_lens (slice 0 80 b.2)) as [Hl1 Hl2]; [rewrite len_slice; lia|].
  assert (∀ i, i ∈ inputs fb → len (ir_txid i) = 32 ∧ len (ir_prev_txid i) = 32) as Hins.
  { rewrite Hi. intros i (kk & [[tx ins] outs] & j & Hk & Hj)%elem_of_rows.
    apply Hsane in Hk as (_ & _ & Hid & _ & _ & _ & _ & Hins & _).
    apply Hins in Hj as (_ & _ & _ & -> & Hl & _). done. }
  unfold block_ops, rows_of, written_block. cbn [block_row txs inputs outputs].
  apply Forall_cons. split.
  { destruct fb as [[] ? ? ?]. cbn in *. repeat constructor; cbn; f_equal; congruence || done. }
  repeat (apply Forall_app; split); apply Forall_fmap, Forall_forall; intros x Hx; cbn [compose].
  - apply list_elem_of_lookup in Hx as [j Hj]. rewrite lookup_zip_with in Hj.
    destruct (seq _ _ !! j) as [t|]; [|done]. cbn in Hj.
    destruct (txs fb !! j) as [tx|] eqn:Htx; [|done]. cbn in Hj. injection Hj as <-.
    rewrite Ht in Htx. apply list_lookup_fmap_Some in Htx as ([[tx' ins] outs] & -> & Hr).
    apply Hsane in Hr as (_ & _ & Hid & _). cbn [fst] in *. destruct tx'. cbn in *.
    repeat constructor; cbn; f_equal; done.
  - destruct (Hins x Hx) as [H1 H2]. destruct x. cbn in *. repeat constructor; cbn; f_equal; done.
  - rewrite Hout in Hx. apply elem_of_rows in Hx as (kk & [[tx ins] outs] & j & Hk & Hj).
    apply Hsane in Hk as (_ & _ & Hid & _ & _ & _ & _ & _ & Houts).
    apply Houts in Hj as (_ & _ & _ & Hto & _ & _ & Ha). cbn [fst snd] in *. destruct x. cbn in *.
    repeat constructor; cbn; f_equal; congruence.
  - apply list_elem_of_fmap in Hx as ([i v] & -> & Hr). cbn [fst snd].
    apply resolved_input in Hr as Hin. destruct (Hins i Hin) as [H1 H2]. apply spend_row_wf; [done..|].
    destruct (block_effect_ok U (Z.of_nat h) (inputs fb) (outputs fb)) as (_ & _ & _ & _ & Hres & _).
    destruct (Hres _ Hr) as [kk [HU|Hseed]]; [by eapply HU32|]. cbn in Hseed.
    apply seed_wf in Hseed as (_ & _ & ?); [done..|]. destruct Hrows as (_ & Hout' & _).
    eapply Forall_impl; [exact Hout'|]. intros o []; done.
Qed.

Lemma after_hashes U h b fb :
  hashes_32 U → is_u32 (Z.of_nat h) → parsed h b = Ok fb → hashes_32 (after U (effect_of U h fb)).
Proof.
  intros HU Hu Hp k v. unfold after, effect_of. apply parsed_rows_wf in Hp as (_ & Hout & _).
  destruct (block_effect_ok U (Z.of_nat h) (inputs fb) (outputs fb)) as (Hnew & _).
  destruct (e_new _ !! k) as [v'|] eqn:Hk; [|case_decide; [done|apply HU]]. intros [= ->].
  pose proof (lookup_weaken _ _ _ _ Hk Hnew) as Hseed. apply seed_wf in Hseed as (_ & _ & ?); [done..|].
  eapply Forall_impl; [exact Hout|]. intros o []; done.
Qed.
End typed.

(** ** Lemmas: the sink *)

Section sink.
Context `{PARQ : ParquetLib}.

Lemma ops_run_app l l' : ops_run (l ++ l') ≡ₘ (_ ← ops_run l; ops_run l').
Proof.
  induction l as [|o l IH]; [done|]. cbn [app ops_run]. rewrite m_bind_assoc. f_equiv. intros u. exact IH.
Qed.

Lemma push_each_ops {A} (op : A → SinkOp) push l :
  (∀ a, op_run (op a) = push a) → push_each push l ≡ₘ ops_run (op <$> l).
Proof.
  intros Hp. induction l as [|a l IH]; [done|]. cbn [push_each]. rewrite fmap_cons. cbn [ops_run].
  rewrite Hp. f_equiv. intros u. exact IH.
Qed.

(** [push_rows] pushes the rows of the block in the order of [rows_of]. *)
Lemma push_rows_ops b sp : push_rows b sp ≡ₘ ops_run (rows_of b sp).
Proof.
  unfold push_rows, rows_of. cbn [ops_run op_run]. apply m_bind_proper; [intros u|done].
  rewrite ops_run_app. apply m_bind_proper; [intros u1|by apply push_each_ops].
  rewrite ops_run_app. apply m_bind_proper; [intros u2|by apply push_each_ops].
  rewrite ops_run_app. apply m_bind_proper; [intros u3|]; by apply push_each_ops.
Qed.

Lemma sink_create_no_panic `{FS : Fs} dir part cfg : sink_create dir part cfg ≠ Panic.
Proof.
  assert (∀ e sc, create_writer dir e part sc ≠ Panic) as Hw.
  { intros e sc. unfold create_writer. pose proof (create_dir_no_panic (fs_join dir e)).
    destruct (create_dir_all _); [|done|done]. cbn.
    match goal with |- context [file_create ?p] => pose proof (file_create_no_panic p); destruct (file_create p) end;
      [|done|done]. cbn.
    match goal with |- context [writer_try_new ?f ?s ?p] => pose proof (writer_new_no_panic f s p);
      destruct (writer_try_new f s p) end; done. }
  unfold sink_create, mbind, Res_bind.
  repeat match goal with |- context [create_writer ?d ?e ?p ?sc] =>
    pose proof (Hw e sc); destruct (create_writer d e p sc); [|done|done] end. done.
Qed.
End sink.

(** ** Lemmas: the recorder *)

Section rec.
Context `{IO : AppendIo}.

Lemma append_checkpoint_no_panic net cp file : fst (append_checkpoint net cp file) ≠ Panic.
Proof.
  destruct (existsb (λ c, cp_height c =? cp_height cp) (read_checkpoints file net)) eqn:Hdup.
  - unfold append_checkpoint, io_check. m_unfold. destruct create_parent; [done|]. by rewrite Hdup.
  - pose proof (append_checkpoint_new net cp file Hdup) as Hn.
    by destruct (append_checkpoint net cp file) as [[u|e|] f'].
Qed.

(** What stops the recorder: only a write. *)
Lemma on_block_applied_error env tree h st :
  0 < checkpoint_step env →
  match on_block_applied env tree h st with
  | (Err e, _) => ∃ path x, e = GeWriteCheckpoint path x
  | (Panic, _) => False
  | _ => True
  end.
Proof.
  intros Hs. destruct st as [r file]. unfold on_block_applied.
  rewrite (proj2 (Z.eqb_neq (checkpoint_step env) 0)) by lia.
  destruct (h =? 0); [done|]. destruct (negb _); [done|]. destruct (match r_last r with Some _ => _ | None => _ end); [done|].
  pose proof (append_checkpoint_no_panic (dg_network (r_cfg r)) (mkCp h (current_total_bytes (r_cfg r) tree)) file).
  destruct (append_checkpoint _ _ _) as [[u|e|] f']; [done|by eexists _, _|done].
Qed.

Lemma calls_run_snoc env calls c st bs st' b st'' :
  calls_run env calls st = (Ok bs, st') → on_block_applied env c.1 c.2 st' = (Ok b, st'') →
  calls_run env (calls ++ [c]) st = (Ok (bs ++ [b]), st'').
Proof.
  revert st bs. induction calls as [|[t h] calls IH]; intros st bs Hc Hb.
  { cbn in Hc. injection Hc as <- <-. destruct c as [t h]. cbn [app calls_run fst snd] in *.
    unfold mbind, M_bind. by rewrite Hb. }
  cbn [app calls_run] in *. unfold mbind, M_bind in *.
  destruct (on_block_applied env t h st) as [[b0|e|] s0]; [|done|done].
  destruct (calls_run env calls s0) as [[bs0|e|] s1] eqn:Hrec; [|done|done].
  cbn in Hc. injection Hc as <- <-. by rewrite (IH s0 bs0 Hrec Hb).
Qed.
End rec.

(** ** Lemmas: one block, and a chain of blocks *)

Section run.
Context `{SHA : Sha256} `{RIP : Ripemd160}.
Context `{ROCKS : RocksDB} `{CLOCK : Clock} `{ORDER : HashOrder} `{PARQ : ParquetLib} `{FS : Fs} `{IO : !AppendIo}.
Variable k : Conf.
Hypothesis Hbpp : 0 < k_blocks_per_part k.
Hypothesis Hstep : 0 < checkpoint_step (k_env k).
Hypothesis Hquiet : ∀ h, k_tripped k h = false.
Hypothesis Hstart : 0 ≤ k_start k.

Abbreviation bpp := (k_blocks_per_part k).
Abbreviation set_of p := (utxos (db_view (db (p_store p)))).

(** The failures of the database, the files and the checkpoint file. *)
Definition io_failure (e : PipeError) : Prop :=
  match e with
  | PeUtxo (Rocks _) | PeSink _ | PeGuard (GeWriteCheckpoint _ _) => True
  | _ => False
  end.

Definition BATCH : Z := batch_size sink_config_default.

(** The part files: one per part from the first to the one before [q], each
    with its rows among [L]. *)
Definition parts_closed (q : Z) (L : list (Z * list SinkOp)) (closed : list (Z * list ArrowWriter)) : Prop :=
  closed.*1 = seqZ (k_start k `div` bpp) (q - k_start k `div` bpp) ∧
  k_start k `div` bpp ≤ q ∧
  Forall (λ c : Z * list ArrowWriter, finished BATCH (part_ops bpp c.1 L) c.2) closed.

(** The consumer before height [h], having written the rows [L]. *)
Definition run_inv (rec0 : DiskRecorder * option bytes) (L : list (Z * list SinkOp)) (h : Z) (p : Pipe) : Prop :=
  store_inv (p_store p) ∧
  p_part p = Z.max (k_start k) (h - 1) `div` bpp ∧
  sink_inv BATCH (part_ops bpp (p_part p) L) (p_sink p) ∧
  parts_closed (p_part p) L (p_closed p) ∧
  Forall (λ x : Z * list SinkOp, x.1 `div` bpp ≤ p_part p) L ∧
  ∃ bs, calls_run (k_env k) ((λ x, (k_trees k x.1, x.1)) <$> L) rec0 = (Ok bs, p_rec p).

Lemma part_ops_snoc q L h ops :
  part_ops bpp q (L ++ [(h, ops)]) = part_ops bpp q L ++ if decide (h `div` bpp = q) then ops else [].
Proof.
  unfold part_ops. rewrite filter_app, fmap_app, join_app. f_equal. case_decide.
  - rewrite filter_cons_True by done. cbn. by rewrite app_nil_r.
  - by rewrite filter_cons_False.
Qed.

Lemma part_ops_above q L : Forall (λ x : Z * list SinkOp, x.1 `div` bpp < q) L → part_ops bpp q L = [].
Proof.
  unfold part_ops. induction 1 as [|x L Hx HL IH]; [done|]. rewrite filter_cons_False; [done|]. cbn beta. lia.
Qed.

Lemma closed_below q L closed c : parts_closed q L closed → c ∈ closed → c.1 < q.
Proof.
  intros (Hids & Hq & _) Hc. apply (list_elem_of_fmap_2 fst) in Hc. rewrite Hids in Hc.
  apply elem_of_seqZ in Hc. lia.
Qed.

Lemma parts_closed_snoc q L closed h ops :
  parts_closed q L closed → q ≤ h `div` bpp → parts_closed q (L ++ [(h, ops)]) closed.
Proof.
  intros Hp Hle. pose proof Hp as (Hids & Hq & Hf). split; [done|]. split; [done|].
  apply Forall_forall. intros c Hc. rewrite part_ops_snoc, decide_False, app_nil_r.
  - rewrite Forall_forall in Hf. by apply Hf.
  - pose proof (closed_below _ _ _ _ Hp Hc). lia.
Qed.

Lemma next_part h : k_start k ≤ h →
  let q := Z.max (k_start k) (h - 1) `div` bpp in q ≤ h `div` bpp ≤ q + 1.
Proof.
  intros Hh q. unfold q. destruct (decide (h = k_start k)) as [->|].
  - rewrite Z.max_l by lia. lia.
  - rewrite Z.max_r by lia. pose proof (Z.div_le_mono (h - 1) h bpp).
    pose proof (Z.div_le_mono h (h - 1 + 1 * bpp) bpp). rewrite Z.div_add in * by lia. lia.
Qed.

Lemma finish_part_run L p (Q : () → Pipe → Prop) :
  sink_inv BATCH (part_ops bpp (p_part p) L) (p_sink p) → parts_closed (p_part p) L (p_closed p) →
  (∀ p', p_store p' = p_store p → p_rec p' = p_rec p → p_part p' = p_part p → p_sink p' = p_sink p →
     parts_closed (p_part p + 1) L (p_closed p') → Q () p') →
  runs_to io_failure finish_part p Q.
Proof.
  intros Hs (Hids & Hq & Hf) HQ. unfold runs_to, finish_part. pose proof (sink_finish_inv _ _ _ Hs) as Hfin.
  destruct (sink_finish (p_sink p)) as [ws|e|]; [|done|done]. apply HQ; try done.
  cbn [p_closed]. split; [|split; [lia|]].
  - rewrite fmap_app, Hids. cbn. replace (p_part p + 1 - k_start k `div` bpp) with
      ((p_part p - k_start k `div` bpp) + 1) by lia.
    rewrite seqZ_app by lia. f_equal. rewrite (seqZ_cons _ 1) by lia. f_equal. lia.
  - apply Forall_app. split; [done|]. by repeat constructor.
Qed.

Lemma rotate_run rec0 L h p (Q : () → Pipe → Prop) :
  run_inv rec0 L h p → k_start k ≤ h →
  (∀ p', p_store p' = p_store p → p_rec p' = p_rec p → p_part p' = h `div` bpp →
     sink_inv BATCH (part_ops bpp (h `div` bpp) L) (p_sink p') →
     parts_closed (h `div` bpp) L (p_closed p') → Q () p') →
  runs_to io_failure (rotate k h) p Q.
Proof.
  intros (_ & Hq & Hs & Hp & HL & _) Hh HQ. unfold rotate, part_of.
  rewrite (proj2 (Z.eqb_neq bpp 0)) by lia. apply runs_to_bind, runs_to_ret, runs_to_bind.
  unfold runs_to at 1, m_get. pose proof (next_part h Hh) as Hn. rewrite <-Hq in Hn.
  case_bool_decide as He.
  - apply runs_to_ret. apply HQ; rewrite ?He; done.
  - apply runs_to_bind. eapply finish_part_run; [done..|]. intros p1 H1 H2 _ _ Hc.
    apply runs_to_bind. unfold runs_to at 1, set_part, m_modify, open_part.
    assert (h `div` bpp = p_part p + 1) as Hw by (change (p_part p) with (id (p_part p)) in *; unfold id in *; lia).
    unfold runs_to. cbn [p_sink p_part p_store p_rec p_closed p_missing].
    destruct (sink_create (k_out_dir k) (h `div` bpp) sink_config_default) as [s|e|] eqn:Hcr;
      [|done|by apply sink_create_no_panic in Hcr].
    apply HQ; cbn; try done; [|by rewrite Hw].
    rewrite part_ops_above; [by apply (sink_create_inv _ _ sink_config_default s) in Hcr|].
    eapply Forall_impl; [exact HL|]. intros x Hx. cbn beta in *. lia.
Qed.

Lemma io_sink {A} (m : M ParquetSink SinkError A) p (Q : A → Pipe → Prop) :
  match m (p_sink p) with
  | (Ok a, s') => Q a (mkPipe s' (p_part p) (p_store p) (p_rec p) (p_missing p) (p_closed p))
  | (Err _, _) => True
  | (Panic, _) => False
  end → runs_to io_failure (on_sink m) p Q.
Proof. unfold runs_to, on_sink. by destruct (m (p_sink p)) as [[a|e|] s']. Qed.

(** One block of the chain. *)
Lemma consume_block_run rec0 L h b fb p :
  run_inv rec0 L (Z.of_nat h) p → k_start k ≤ Z.of_nat h → is_u32 (Z.of_nat h) →
  is_hash32 b.1 → 80 ≤ len b.2 → parsed h b = Ok fb →
  runs_to io_failure (consume_block k (Z.of_nat h) fb) p (λ _ p',
    run_inv rec0 (L ++ [(Z.of_nat h, block_ops (set_of p) h fb)]) (Z.of_nat (S h)) p' ∧
    ∀ x, set_of p' x = after (set_of p) (effect_of (set_of p) h fb) x).
Proof.
  intros Hinv Hh Hu Hb1 Hb2 Hp. pose proof Hinv as (Hstore & _ & _ & _ & HL & bs & Hrec).
  pose proof (parsed_rows_wf _ _ _ Hp) as Hrows.
  unfold consume_block. rewrite Hquiet. apply runs_to_bind, runs_to_ret, runs_to_bind.
  eapply rotate_run; [done|done|]. intros p1 Hst1 Hrec1 Hpart1 Hsink1 Hclosed1.
  apply runs_to_bind. unfold runs_to at 1, on_store. rewrite Hst1.
  pose proof (apply_block_outcome (p_store p) (Z.of_nat h) (txs fb) (inputs fb) (outputs fb) Hstore Hrows Hu) as Ho.
  pose proof (apply_block_error (p_store p) (Z.of_nat h) (txs fb) (inputs fb) (outputs fb)) as Herr.
  destruct (apply_block _ _ _ _ _) as [[r|e|] s2]; simpl map_err; cbv iota; [|by destruct Herr as [x ->]|done].
  apply applied_inv in Ho as Hai; [|done..]. destruct Hai as [Hset Hstore2].
  destruct Ho as (_ & _ & _ & _ & Hsp & _ & Hl & Hf & _).
  apply runs_to_bind. unfold runs_to at 1, add_missing, m_modify.
  cbn [p_sink p_part p_store p_rec p_closed p_missing].
  apply runs_to_bind. eapply runs_to_lift.
  { apply (enrich_run fb (effect_of (set_of p) h fb)); [|done|exact Hf].
    destruct Hrows as (Hi & _). eapply Forall_impl; [exact Hi|]. intros i [[? _] _]. done. }
  apply runs_to_bind, io_sink. cbn [p_sink p_part p_store p_rec p_closed p_missing].
  rewrite (m_eq_at (push_rows_ops _ _)), Hsp.
  change (rows_of _ _) with (block_ops (set_of p) h fb).
  pose proof (ops_run_inv BATCH _ (block_ops (set_of p) h fb) (p_sink p1) ltac:(done)
    (block_ops_wf _ _ _ _ (utxos_hashes _) Hb1 Hb2 Hu Hp) Hsink1) as Hops.
  destruct (ops_run _ _) as [[u|e|] s3]; [|done|done].
  unfold record_height. apply runs_to_bind. unfold runs_to at 1, on_recorder.
  cbn [p_sink p_part p_store p_rec p_closed p_missing]. rewrite Hrec1.
  pose proof (on_block_applied_error (k_env k) (k_trees k (Z.of_nat h)) (Z.of_nat h) (p_rec p) Hstep) as Hre.
  destruct (on_block_applied _ _ _ (p_rec p)) as [[b'|e|] rec'] eqn:Hob;
    simpl map_err; cbv iota; [|by destruct Hre as (path & x & ->)|done].
  apply runs_to_ret. split; [|exact Hset]. unfold run_inv. cbn [p_sink p_part p_store p_rec p_closed p_missing].
  rewrite Hpart1. split_and!.
  - done.
  - f_equal. lia.
  - by rewrite part_ops_snoc, decide_True by done.
  - by apply parts_closed_snoc.
  - apply Forall_app. split; [|by repeat constructor].
    eapply Forall_impl; [exact HL|]. intros x Hx. cbn beta in *.
    destruct Hinv as (_ & Hq & _). pose proof (next_part _ Hh) as Hn. rewrite <-Hq in Hn. cbv zeta in Hn. lia.
  - exists (bs ++ [b']). rewrite fmap_app. by eapply calls_run_snoc.
Qed.

(** The set the pipe holds, and the rows written, whatever equal sets they
    were computed from. *)
Lemma chain_ops_ext U1 U2 h bs : (∀ x, U1 x = U2 x) → chain_ops U1 h bs = chain_ops U2 h bs.
Proof.
  revert U1 U2 h. induction bs as [|b bs IH]; intros U1 U2 h HU; [done|]. cbn [chain_ops].
  destruct (parsed h b) as [fb|e|]; [|done|done]. unfold block_ops, effect_of.
  rewrite (block_effect_ext U1 U2) by done. f_equal. apply IH. intros x. unfold after. by rewrite HU.
Qed.

Lemma sequential_run rec0 bs L h p :
  run_inv rec0 L (Z.of_nat h) p → k_start k ≤ Z.of_nat h → Z.of_nat h + len bs ≤ 2 ^ 32 →
  (∀ j b, bs !! j = Some b → is_hash32 b.1 ∧ 80 ≤ len b.2 ∧ ∃ fb, parsed (h + j) b = Ok fb) →
  runs_to io_failure (sequential k (chain_items h bs)) p (λ _ p',
    run_inv rec0 (L ++ chain_ops (set_of p) h bs) (Z.of_nat h + len bs) p' ∧
    ∀ x, set_of p' x = chain_utxos (set_of p) h bs x).
Proof.
  revert L h p. induction bs as [|b bs IH]; intros L h p Hinv Hh Hlen Hgood.
  { apply runs_to_ret. cbn. by rewrite app_nil_r, len_nil, Z.add_0_r. }
  destruct (Hgood 0%nat b eq_refl) as (Hb1 & Hb2 & fb & Hfb). rewrite Nat.add_0_r in Hfb.
  rewrite len_cons in *. pose proof (len_nonneg bs).
  cbn [chain_items chain_ops chain_utxos]. rewrite Hfb. cbn [sequential do_item]. apply runs_to_bind.
  eapply runs_to_mono; [eapply consume_block_run; try done; unfold is_u32; lia|].
  intros [] p1 [Hinv1 Hset1]. eapply runs_to_mono; [apply (IH _ (S h) p1 Hinv1); [lia|lia|]|].
  - intros j b' Hj. destruct (Hgood (S j) b' Hj) as (? & ? & fb' & Hf'). split_and!; [done..|].
    exists fb'. by replace (S h + j)%nat with (h + S j)%nat by lia.
  - intros [] p2 [Hinv2 Hset2]. rewrite (chain_ops_ext _ _ (S h) bs Hset1), <-app_assoc in Hinv2.
    replace (Z.of_nat h + (1 + len bs)) with (Z.of_nat (S h) + len bs) by lia. split; [done|].
    intros x. rewrite Hset2. apply chain_ext. exact Hset1.
Qed.

Lemma chain_items_good h bs :
  (∀ j b, bs !! j = Some b → ∃ fb, parsed (h + j) b = Ok fb) →
  length (chain_items h bs) = length bs ∧ Forall is_block (chain_items h bs) ∧
  consecutive (Z.of_nat h) (chain_items h bs).
Proof.
  revert h. induction bs as [|b bs IH]; intros h Hgood; [by split_and!; [|constructor|intros n i Hi]|].
  destruct (Hgood 0%nat b eq_refl) as [fb Hfb]. rewrite Nat.add_0_r in Hfb. cbn [chain_items]. rewrite Hfb.
  destruct (IH (S h)) as (Hl & Hb & Hc).
  { intros j b' Hj. destruct (Hgood (S j) b' Hj) as [fb' Hf']. exists fb'.
    by replace (S h + j)%nat with (h + S j)%nat by lia. }
  split_and!; [by cbn; rewrite Hl|by constructor|].
  intros [|n] i Hi; [injection Hi as <-; cbn; lia|]. apply Hc in Hi. rewrite Hi. lia.
Qed.
End run.

(** ** Theorems *)

Section theorems.
Context `{SHA : Sha256} `{RIP : Ripemd160}.

Context `{ROCKS : RocksDB} `{CLOCK : Clock} `{ORDER : HashOrder} `{PARQ : ParquetLib} `{FS : Fs} `{IO : !AppendIo}.

(** C31: The rows of a block are written as they are. Take any block the parser
    accepts, applied to any store, and any sink between two rows. Enriching the
    block with the fees gives rows whose cells have the types of their tables'
    schemas. Pushing each of them adds, to the column of each field, exactly the
    cell of that field, and neither panics nor fails; and [push_rows] of them all
    leaves the sink holding the rows it held and these after them, in order. It
    fails only in the Parquet writer, and never panics. *)
Theorem parsed_rows_typed (st st' : UtxoStore) (h : nat) (hash : Hash32) (raw : bytes) (fb : FullBlock)
    (res : SpendResult) (n : Z) (held : list SinkOp) (sink : ParquetSink)
    (Hhash : is_hash32 hash) (Hraw : 80 ≤ len raw) (Hh : is_u32 (Z.of_nat h))
    (Hp : parsed h (hash, raw) = Ok fb) (Hst : store_inv st)
    (Happly : apply_block (Z.of_nat h) (txs fb) (inputs fb) (outputs fb) st = (Ok res, st'))
    (Hn : 0 < n) (Hsink : sink_inv n held sink) :
  let rows := block_ops (utxos (db_view (db st))) h fb in
  (∀ o, o ∈ rows → op_wf o ∧ pushes_cells (schema_of (op_entity o)) (op_cells o) (op_pushes o)) ∧
  ∃ b, enrich (E := PipeError) fb (fees res) = Ok b ∧
    match push_rows b (spends res) sink with
    | (Ok _, sink') => sink_inv n (held ++ rows) sink'
    | (Err e, _) => ∃ x, e = SeParquet x
    | (Panic, _) => False
    end.
Proof.
  intros rows. pose proof (parsed_rows_wf _ _ _ Hp) as Hrows.
  pose proof (block_ops_wf _ h (hash, raw) fb (utxos_hashes (db_view (db st))) Hhash Hraw Hh Hp) as Hwf. fold rows in Hwf.
  split; [intros o Ho; rewrite Forall_forall in Hwf; split; [by apply Hwf|by apply op_pushes_cells, Hwf]|].
  pose proof (apply_block_outcome st (Z.of_nat h) (txs fb) (inputs fb) (outputs fb) Hst Hrows Hh) as Ho.
  rewrite Happly in Ho. destruct Ho as (_ & _ & _ & _ & Hsp & _ & Hl & Hf & _).
  eexists. split.
  { apply (enrich_run fb (effect_of (utxos (db_view (db st))) h fb)); [|done|exact Hf].
    destruct Hrows as (Hi & _). eapply Forall_impl; [exact Hi|]. intros i [[? _] _]. done. }
  rewrite (m_eq_at (push_rows_ops _ _)), Hsp. by apply (ops_run_inv n held rows sink).
Qed.


Lemma consume_ordered_run (k : Conf) (start : nat) (bs : list (Hash32 * bytes)) (arrivals : list WorkItem)
    (store : UtxoStore) (rec : DiskRecorder * option bytes)
    (Hbpp : 0 < k_blocks_per_part k) (Hstep : 0 < checkpoint_step (k_env k))
    (Hquiet : ∀ h, k_tripped k h = false)
    (Hstart : k_start k = Z.of_nat start) (Hend : k_end k = k_start k + len bs) (H32 : k_end k < 2 ^ 32)
    (Hne : bs ≠ []) (Hstore : store_inv store)
    (Hgood : ∀ j b, bs !! j = Some b → is_hash32 b.1 ∧ 80 ≤ len b.2 ∧ ∃ fb, parsed (start + j) b = Ok fb)
    (Harr : arrivals ≡ₚ chain_items start bs) :
  let U := utxos (db_view (db store)) in
  let bpp := k_blocks_per_part k in
  match consume_ordered k arrivals store rec with
  | (Ok _, Some p) =>
    store_inv (p_store p) ∧ (∀ x, utxos (db_view (db (p_store p))) x = chain_utxos U start bs x) ∧
    (p_closed p).*1 = seqZ (k_start k `div` bpp) ((k_end k - 1) `div` bpp - k_start k `div` bpp + 1) ∧
    Forall (λ c : Z * list ArrowWriter, finished BATCH (part_ops bpp c.1 (chain_ops U start bs)) c.2) (p_closed p) ∧
    ∃ oks, calls_run (k_env k) ((λ x, (k_trees k x.1, x.1)) <$> chain_ops U start bs) rec = (Ok oks, p_rec p)
  | (Ok _, None) | (Panic, _) => False
  | (Err e, _) => io_failure e
  end.
Proof.
  intros U bpp. assert (0 ≤ k_start k) as Hs0 by (rewrite Hstart; apply Nat2Z.is_nonneg).
  unfold consume_ordered. rewrite (proj2 (Z.eqb_neq (k_blocks_per_part k) 0)) by lia.
  fold bpp. destruct (sink_create _ _ _) as [s|e|] eqn:Hcr; [|done|by apply sink_create_no_panic in Hcr].
  apply (sink_create_inv _ _ sink_config_default s) in Hcr; [|done].
  set (p0 := mkPipe s _ store rec 0 []).
  destruct (chain_items_good start bs) as (Hl & Hblocks & Hcons); [intros j b Hj; apply (Hgood j b Hj)|].
  assert (k_end k = k_start k + len (chain_items start bs)) as Hend' by (unfold len in *; rewrite Hl; lia).
  assert (chain_items start bs ≠ []) as Hne' by (intros He; rewrite He in Hl; by destruct bs).
  rewrite <-Hstart in Hcons. pose proof (len_nonneg bs).
  pose proof (consume_items_all k _ Hcons Hend' ltac:(lia) arrivals Harr Hblocks Hne') as Hrun.
  assert (run_inv k rec [] (k_start k) p0) as Hinv.
  { unfold run_inv, parts_closed. cbn [p0 p_sink p_part p_store p_rec p_closed p_missing]. rewrite Z.max_l by lia.
    fold bpp. rewrite Z.sub_diag. split_and!; try done. by exists []. }
  assert (runs_to io_failure (consume_items k arrivals) p0 (λ _ p,
    store_inv (p_store p) ∧ (∀ x, utxos (db_view (db (p_store p))) x = chain_utxos U start bs x) ∧
    (∃ oks, calls_run (k_env k) ((λ x, (k_trees k x.1, x.1)) <$> chain_ops U start bs) rec = (Ok oks, p_rec p)) ∧
    parts_closed k ((k_end k - 1) `div` bpp + 1) (chain_ops U start bs) (p_closed p))) as Hfinal.
  { unfold runs_to. rewrite (m_eq_at Hrun p0). apply runs_to_bind.
    rewrite Hstart in Hinv.
    eapply runs_to_mono; [eapply (sequential_run k Hbpp Hstep Hquiet rec bs [] start p0 Hinv); [lia|lia|done]|].
    intros [] p1 [(Hst & Hpart & Hsink & Hclosed & _ & Hrec) Hset].
    rewrite <-Hstart, <-Hend, Z.max_r in Hpart by (unfold len in *; destruct bs; [done|simpl in *; lia]).
    eapply finish_part_run; [done..|]. intros p2 H1 H2 H3 _ Hc.
    rewrite H1, H2. rewrite Hpart in Hc. by split_and!. }
  unfold runs_to in Hfinal. destruct (consume_items k arrivals p0) as [[u|e|] p]; [|done|done].
  destruct Hfinal as (H1 & H2 & H3 & Hids & _ & Hf). split_and!; try done.
  rewrite Hids. unfold bpp. f_equal. lia.
Qed.

(** C5: A parse run. When every block from [start] to [end] parses and arrives,
    in any order, the consumer leaves the UTXO set that the blocks make of the
    stored one, one set of part files for each part that the heights touch, in
    order, each file with exactly the rows of the blocks of its part, and the
    recorder as after one call per height. It fails only when the database, a
    part file or the checkpoint file does, and never panics. *)
Theorem consume_ordered_refines (k : Conf) (start : nat) (bs : list (Hash32 * bytes)) (arrivals : list WorkItem)
    (store : UtxoStore) (rec : DiskRecorder * option bytes)
    (Hbpp : 0 < k_blocks_per_part k) (Hstep : 0 < checkpoint_step (k_env k))
    (Hquiet : ∀ h, k_tripped k h = false)
    (Hstart : k_start k = Z.of_nat start) (Hend : k_end k = k_start k + len bs) (H32 : k_end k < 2 ^ 32)
    (Hne : bs ≠ []) (Hstore : store_inv store)
    (Hgood : ∀ j b, bs !! j = Some b → is_hash32 b.1 ∧ 80 ≤ len b.2 ∧ ∃ fb, parsed (start + j) b = Ok fb)
    (Harr : arrivals ≡ₚ chain_items start bs) :
  let U := utxos (db_view (db store)) in
  let bpp := k_blocks_per_part k in
  match consume_ordered k arrivals store rec with
  | (Ok _, Some p) =>
    store_inv (p_store p) ∧ (∀ x, utxos (db_view (db (p_store p))) x = chain_utxos U start bs x) ∧
    (p_closed p).*1 = seqZ (k_start k `div` bpp) ((k_end k - 1) `div` bpp - k_start k `div` bpp + 1) ∧
    Forall (λ c : Z * list ArrowWriter, finished BATCH (part_ops bpp c.1 (chain_ops U start bs)) c.2) (p_closed p) ∧
    ∃ oks, calls_run (k_env k) ((λ x, (k_trees k x.1, x.1)) <$> chain_ops U start bs) rec = (Ok oks, p_rec p)
  | (Ok _, None) | (Panic, _) => False
  | (Err e, _) => io_failure e
  end.
Proof. by apply consume_ordered_run. Qed.
End theorems.

(** ** Concrete runs *)

Module Ex.
Import Hash.Ref.
Definition bs : list (Hash32 * bytes) := Tracker.Ex.chain_a.
Definition arrivals : list WorkItem := rev (@chain_items sha_ref ripemd_ref 0 bs).
Definition run := @consume_ordered rocks_ref clock_ref order_ref Parquet.Ex.lib BlkFile.Ex.fs Disk.Ex.io
  (Pipeline.Ex.conf 0 3) arrivals Pipeline.Ex.store Pipeline.Ex.recorder.
Definition done_ok : bool := match run with (Ok _, Some _) => true | _ => false end.
End Ex.

Lemma ex_good : @good_chain Hash.Ref.sha_ref Hash.Ref.ripemd_ref Ex.bs.
Proof. apply good_chain_check. vm_compute. reflexivity. Qed.

Lemma ex_rec_store : @store_inv rocks_ref Pipeline.Ex.store.
Proof. by split. Qed.

Lemma ex_sink : @sink_inv Parquet.Ex.lib BATCH [] Pipeline.Ex.sink.
Proof. split; [done|]. by intros []; apply entity_new_inv. Qed.

Lemma parsed_rows_typed_witness :
  match @parsed Hash.Ref.sha_ref Hash.Ref.ripemd_ref 0 (Tracker.Ex.block 1) with
  | Ok fb => ∃ res st', @apply_block rocks_ref clock_ref order_ref 0 (txs fb) (inputs fb) (outputs fb) Pipeline.Ex.store
      = (Ok res, st') ∧ ∃ b,
      match @push_rows Parquet.Ex.lib b (spends res) Pipeline.Ex.sink with
      | (Ok _, sink') => @sink_inv Parquet.Ex.lib BATCH (block_ops (utxos ∅) 0 fb) sink'
      | (Err e, _) => ∃ x, e = SeParquet x
      | (Panic, _) => False
      end
  | _ => False
  end.
Proof.
  assert (match @parsed Hash.Ref.sha_ref Hash.Ref.ripemd_ref 0 (Tracker.Ex.block 1) with
          | Ok fb => match @apply_block rocks_ref clock_ref order_ref 0 (txs fb) (inputs fb) (outputs fb) Pipeline.Ex.store with
                     | (Ok _, _) => true | _ => false end
          | _ => false end = true) as Hb by (vm_compute; reflexivity).
  destruct (parsed 0 (Tracker.Ex.block 1)) as [fb|e|] eqn:Hp; [|discriminate Hb..].
  destruct (apply_block _ _ _ _ _) as [[res|e|] st'] eqn:Ha; [|discriminate Hb..].
  exists res, st'. split; [reflexivity|].
  pose proof (@parsed_rows_typed Hash.Ref.sha_ref Hash.Ref.ripemd_ref rocks_ref clock_ref order_ref Parquet.Ex.lib BlkFile.Ex.fs
    Pipeline.Ex.store st' 0 (Tracker.Ex.id 1) (Tracker.Ex.block 1).2 fb res BATCH [] Pipeline.Ex.sink) as Ht.
  destruct Ht as (_ & b & _ & Hpush); [vm_compute; reflexivity|vm_compute; discriminate|
    split; vm_compute; (reflexivity || discriminate)|exact Hp|exact ex_rec_store|exact Ha|reflexivity|exact ex_sink|].
  exists b. exact Hpush.
Defined.

Lemma consume_ordered_refines_witness :
  match Ex.run with
  | (Ok _, Some p) =>
    (∀ x, utxos (db_view (RocksDB := rocks_ref) (db (p_store p))) x =
          @chain_utxos Hash.Ref.sha_ref Hash.Ref.ripemd_ref (utxos ∅) 0 Ex.bs x) ∧
    (@p_closed rocks_ref Parquet.Ex.lib p).*1 = [0; 1]
  | _ => False
  end.
Proof.
  pose proof (@consume_ordered_refines Hash.Ref.sha_ref Hash.Ref.ripemd_ref rocks_ref clock_ref order_ref
    Parquet.Ex.lib BlkFile.Ex.fs Disk.Ex.io (Pipeline.Ex.conf 0 3) 0 Ex.bs Ex.arrivals Pipeline.Ex.store
    Pipeline.Ex.recorder) as Hr.
  assert (Ex.done_ok = true) as Hb by (vm_compute; reflexivity). unfold Ex.done_ok in Hb. fold Ex.run in Hr.
  cbv zeta in Hr. destruct Ex.run as [[u|e|] [p|]]; try discriminate Hb.
  destruct Hr as (_ & HU & Hids & _).
  - reflexivity.
  - reflexivity.
  - intros h. reflexivity.
  - reflexivity.
  - reflexivity.
  - reflexivity.
  - discriminate.
  - exact ex_rec_store.
  - intros j b Hj. destruct (proj2 ex_good j b Hj) as (H1 & _ & H2 & H3). split; [exact H1|]. split; [exact H2|exact H3].
  - symmetry. apply Permutation_rev.
  - split; [exact HU|]. rewrite Hids. reflexivity.
Defined.

(** A parse run stores no tip: [live] after it finds none and starts from the
    node's own tip ([catch_up_first]), leaving out the blocks between. *)
Lemma parse_stores_no_tip :
  match Ex.run with
  | (Ok _, Some p) => match tip (@p_store rocks_ref Parquet.Ex.lib p) with Ok None => true | _ => false end
  | _ => false
  end = true.
Proof. vm_compute. reflexivity. Qed.
