(* ===== verification/FileCache.v ===== *)
(** * FileCache: the shared cache of decoded blk files, [ThreadFileCache] of [bidx-cli/src/pipeline.rs]

    [touch] and [block_bytes] as one worker runs them, and the interleavings of
    the workers that share the cache, between their locks. *)
From S2P Require Import Prelude Text Hash Types BlkFile.

Definition MAX_CACHED_FILES : Z := 16.

(** [lru] has the oldest file first. *)
Record CacheInner : Type := mkInner { lru : list Z; files : gmap Z BlkFile }.

Definition cache_init : CacheInner := mkInner [] ∅.

(** [lru.iter().position(..)], then [remove(pos)]. *)
Fixpoint remove_first (f : Z) (l : list Z) : list Z :=
  match l with [] => [] | x :: l => if x =? f then l else x :: remove_first f l end.

(** "Evict oldest if over capacity": the loop pops once per round. *)
Fixpoint evict_loop (fuel : nat) (f : Z) (c : CacheInner) : CacheInner :=
  match fuel with
  | O => c
  | S fuel =>
    if MAX_CACHED_FILES <? len (lru c) then
      match lru c with
      | [] => evict_loop fuel f c
      | old :: rest => evict_loop fuel f (mkInner rest (if old =? f then files c else delete old (files c)))
      end
    else c
  end.

Definition touch (f : Z) (c : CacheInner) : CacheInner :=
  let l := remove_first f (lru c) ++ [f] in
  evict_loop (length l) f (mkInner l (files c)).

#[global] Arguments touch : simpl never.

Definition resident (c : CacheInner) : Z := Z.of_nat (size (files c)).

Section cache.
Context `{Fs}.
Variable blocks_dir : rstr.

Definition blk_path (f : Z) : rstr := fs_join blocks_dir (str "blk" ++ fmt_dec0 5 f ++ str ".dat").

Definition cached_block_bytes (loc : BlockLocation) : M CacheInner BlkError bytes :=
  c ← m_get;
  f ← match files c !! file_id loc with
      | Some bf => _ ← m_modify (touch (file_id loc)); mret bf
      | None =>
        bf ← m_lift (open (blk_path (file_id loc)) (file_id loc));
        _ ← m_modify (λ c, mkInner (lru c) (<[file_id loc := bf]> (files c)));
        _ ← m_modify (touch (file_id loc));
        mret bf
      end;
  m_lift (block_bytes f loc).

(** ** Specification *)

(** Reading a block without a cache. *)
Definition read_block (loc : BlockLocation) : Res BlkError bytes :=
  f ← open (blk_path (file_id loc)) (file_id loc); block_bytes f loc.

(** Every file of the cache is what opening it yields. *)
Definition genuine (m : gmap Z BlkFile) : Prop := ∀ f bf, m !! f = Some bf → open (blk_path f) f = Ok bf.

(** Between two calls of one worker. *)
Definition cache_ok (c : CacheInner) : Prop :=
  NoDup (lru c) ∧ len (lru c) ≤ MAX_CACHED_FILES ∧ (∀ f, is_Some (files c !! f) → f ∈ lru c) ∧ genuine (files c).

(** Where a worker is in [block_bytes]: it looked the file up and missed it, it
    has opened it, it is about to [touch] it; with the lock of [lru] it is at
    the head of the eviction loop, or about to remove the file it popped. *)
Inductive Phase : Type :=
  | Idle
  | Missed (f : Z)
  | Opened (f : Z) (bf : BlkFile)
  | Touching (f : Z)
  | Evicting (f : Z)
  | Removing (f old : Z).

Definition holds_lock (p : Phase) : Prop := match p with Evicting _ | Removing _ _ => True | _ => False end.

Record Shared : Type := mkShared { cache : CacheInner; workers : list Phase }.

(** One step of worker [i], between two accesses to what is shared. *)
Inductive cstep : Shared → Shared → Prop :=
  | StepHit c ws i f : ws !! i = Some Idle → is_Some (files c !! f) →
      cstep (mkShared c ws) (mkShared c (<[i := Touching f]> ws))
  | StepMiss c ws i f : ws !! i = Some Idle → files c !! f = None →
      cstep (mkShared c ws) (mkShared c (<[i := Missed f]> ws))
  | StepOpen c ws i f bf : ws !! i = Some (Missed f) → open (blk_path f) f = Ok bf →
      cstep (mkShared c ws) (mkShared c (<[i := Opened f bf]> ws))
  | StepFail c ws i f e : ws !! i = Some (Missed f) → open (blk_path f) f = Err e →
      cstep (mkShared c ws) (mkShared c (<[i := Idle]> ws))
  | StepInsert c ws i f bf : ws !! i = Some (Opened f bf) →
      cstep (mkShared c ws) (mkShared (mkInner (lru c) (<[f := bf]> (files c))) (<[i := Touching f]> ws))
  | StepLock c ws i f : ws !! i = Some (Touching f) → Forall (λ p, ¬ holds_lock p) ws →
      cstep (mkShared c ws) (mkShared (mkInner (remove_first f (lru c) ++ [f]) (files c)) (<[i := Evicting f]> ws))
  | StepPop c ws i f old rest : ws !! i = Some (Evicting f) → MAX_CACHED_FILES < len (lru c) →
      lru c = old :: rest →
      cstep (mkShared c ws)
        (mkShared (mkInner rest (files c)) (<[i := if decide (old = f) then Evicting f else Removing f old]> ws))
  | StepRemove c ws i f old : ws !! i = Some (Removing f old) →
      cstep (mkShared c ws) (mkShared (mkInner (lru c) (delete old (files c))) (<[i := Evicting f]> ws))
  | StepUnlock c ws i f : ws !! i = Some (Evicting f) → len (lru c) ≤ MAX_CACHED_FILES →
      cstep (mkShared c ws) (mkShared c (<[i := Idle]> ws)).

(** The files a worker may keep in the map beyond the list. *)
Definition in_hand (p : Phase) : option Z :=
  match p with Touching f => Some f | Removing _ old => Some old | _ => None end.

Definition busy (p : Phase) : bool := match p with Idle | Missed _ | Opened _ _ => false | _ => true end.

(** The invariant of the interleavings. *)
Record shared_ok (s : Shared) : Prop := {
  so_nodup : NoDup (lru (cache s));
  so_genuine : genuine (files (cache s));
  so_opened : ∀ i f bf, workers s !! i = Some (Opened f bf) → open (blk_path f) f = Ok bf;
  so_lock : ∀ i j p q, workers s !! i = Some p → workers s !! j = Some q → holds_lock p → holds_lock q → i = j;
  so_files : ∀ f, is_Some (files (cache s) !! f) → f ∈ lru (cache s) ∨ Some f ∈ in_hand <$> workers s;
  so_len : len (lru (cache s)) ≤ MAX_CACHED_FILES + 1;
  so_over : MAX_CACHED_FILES < len (lru (cache s)) → ∃ i f, workers s !! i = Some (Evicting f) ∧ last (lru (cache s)) = Some f
}.
End cache.

(** ** Lemmas: the list *)

Lemma remove_first_notin f l : f ∉ l → remove_first f l = l.
Proof.
  induction l as [|x l IH]; intros Hf; [done|]. apply not_elem_of_cons in Hf as [Hne Hf]. simpl.
  rewrite (proj2 (Z.eqb_neq _ _)) by done. by rewrite IH.
Qed.

Lemma remove_first_spec f l : NoDup l →
  NoDup (remove_first f l) ∧ ∀ x, x ∈ remove_first f l ↔ x ∈ l ∧ x ≠ f.
Proof.
  induction 1 as [|x l Hx Hl [IH1 IH2]]; [split; [constructor|]; intros x; simpl; set_solver|].
  simpl. destruct (x =? f) eqn:He.
  - apply Z.eqb_eq in He as ->. split; [done|]. intros y. rewrite elem_of_cons.
    split; [intros Hy; split; [by right|by intros ->]|]. by intros [[->|Hy] Hne].
  - apply Z.eqb_neq in He. split.
    + constructor; [|done]. rewrite IH2. by intros [? _].
    + intros y. rewrite !elem_of_cons, IH2. split; [|tauto].
      intros [->|[? ?]]; [split; [by left|done]|split; [by right|done]].
Qed.

Lemma remove_first_len f l : len (remove_first f l) ≤ len l ∧ (f ∈ l → len (remove_first f l) = len l - 1).
Proof.
  induction l as [|x l [IH1 IH2]]; [split; [done|by intros ?%not_elem_of_nil]|].
  simpl. rewrite len_cons. destruct (x =? f) eqn:He; [split; [lia|intros _; lia]|].
  rewrite len_cons. split; [lia|]. apply Z.eqb_neq in He. intros [->|Hf]%elem_of_cons; [done|].
  specialize (IH2 Hf). lia.
Qed.

(** The list after moving [f] to its end. *)
Lemma moved_back f l : NoDup l →
  NoDup (remove_first f l ++ [f]) ∧ (∀ x, x ∈ remove_first f l ++ [f] ↔ x ∈ l ∨ x = f) ∧
  last (remove_first f l ++ [f]) = Some f ∧ len (remove_first f l ++ [f]) ≤ len l + 1.
Proof.
  intros Hl. destruct (remove_first_spec f l Hl) as [Hnd Hin]. split_and!.
  - apply NoDup_app. split; [done|]. split; [|apply NoDup_singleton].
    intros x Hx%Hin ->%list_elem_of_singleton. by destruct Hx.
  - intros x. rewrite elem_of_app, list_elem_of_singleton, Hin. destruct (decide (x = f)); [subst|]; tauto.
  - apply last_snoc.
  - rewrite len_app, len_cons, len_nil. pose proof (remove_first_len f l). lia.
Qed.

(** ** Lemmas: one worker *)

Section seq.
Context `{Fs}.
Variable blocks_dir : rstr.

Lemma genuine_insert m f bf :
  genuine blocks_dir m → open (blk_path blocks_dir f) f = Ok bf → genuine blocks_dir (<[f := bf]> m).
Proof. intros Hg Ho g x [[<- <-]|[_ Hx]]%lookup_insert_Some; [done|by apply Hg]. Qed.

Lemma genuine_delete m f : genuine blocks_dir m → genuine blocks_dir (delete f m).
Proof. intros Hg g x [_ Hx]%lookup_delete_Some. by apply Hg. Qed.

Lemma touch_ok f c :
  NoDup (lru c) → len (lru c) ≤ MAX_CACHED_FILES → (∀ g, is_Some (files c !! g) → g ∈ lru c ∨ g = f) →
  genuine blocks_dir (files c) → cache_ok blocks_dir (touch f c).
Proof.
  intros Hnd Hl Hin Hg. destruct (moved_back f (lru c) Hnd) as (Hnd' & Hin' & Hlast & Hlen).
  unfold touch. set (l := remove_first f (lru c) ++ [f]) in *.
  destruct (length l) as [|n] eqn:Hn; [by destruct l|]. cbn [evict_loop lru files].
  destruct (MAX_CACHED_FILES <? len l) eqn:Hover.
  2: { split_and!; try done; [cbn; lia|]. intros g Hg'. apply Hin'. by apply Hin. }
  destruct l as [|old rest] eqn:Hl'; [done|]. rewrite len_cons in *. apply NoDup_cons in Hnd' as [Hold Hrest].
  assert (old ≠ f) as Hne.
  { intros ->. destruct rest as [|y rest]; [unfold MAX_CACHED_FILES in *; rewrite len_nil in *; lia|].
    rewrite last_cons_cons in Hlast. by apply last_Some_elem_of in Hlast. }
  rewrite (proj2 (Z.eqb_neq _ _)) by done. destruct n as [|n]; cbn [evict_loop lru files];
    rewrite ?(proj2 (Z.ltb_ge MAX_CACHED_FILES (len rest))) by lia;
    (split_and!; [done|cbn; lia| |by apply genuine_delete]);
    intros g Hg'; cbn [files] in Hg'; apply lookup_delete_is_Some in Hg' as [Hgo Hg']; pose proof (proj2 (Hin' g) (Hin g Hg')) as [->|?]%elem_of_cons; done.
Qed.

Lemma cached_block_bytes_run loc c : cache_ok blocks_dir c →
  fst (cached_block_bytes blocks_dir loc c) = read_block blocks_dir loc ∧
  cache_ok blocks_dir (snd (cached_block_bytes blocks_dir loc c)).
Proof.
  intros (Hnd & Hl & Hin & Hg). unfold cached_block_bytes, read_block. m_unfold. cbn [fst snd].
  destruct (files c !! file_id loc) as [bf|] eqn:Hf; cbn.
  - rewrite (Hg _ _ Hf). split; [done|]. apply touch_ok; try done. intros g Hg'. left. by apply Hin.
  - destruct (open (blk_path blocks_dir (file_id loc)) (file_id loc)) as [bf|e|] eqn:Ho; cbn; [|by split..].
    split; [done|]. apply touch_ok; try done; [|by apply genuine_insert].
    intros g Hg'. cbn [files] in Hg'. apply lookup_insert_is_Some in Hg' as [<-|[_ Hg']]; [by right|left; by apply Hin].
Qed.
End seq.

(** ** Lemmas: the interleavings *)

Section shared.
Context `{Fs}.
Variable blocks_dir : rstr.

Lemma hand_keep (ws : list Phase) i p q f :
  ws !! i = Some p → Some f ∈ in_hand <$> ws → in_hand p ≠ Some f → Some f ∈ in_hand <$> <[i := q]> ws.
Proof.
  intros Hi Hf Hne. apply list_elem_of_lookup in Hf as [j Hj].
  apply list_lookup_fmap_Some in Hj as (p' & Hp' & Hj). destruct (decide (i = j)) as [->|Hij]; [congruence|].
  rewrite Hp'. apply list_elem_of_fmap_2, list_elem_of_lookup. exists j. by rewrite list_lookup_insert_ne.
Qed.

Lemma hand_new (ws : list Phase) i p q f : ws !! i = Some p → in_hand q = Some f → Some f ∈ in_hand <$> <[i := q]> ws.
Proof.
  intros Hi <-. apply list_elem_of_fmap_2, list_elem_of_lookup. exists i.
  apply list_lookup_insert_eq. by eapply lookup_lt_Some.
Qed.

Lemma worker_cases (ws : list Phase) i p j q :
  <[i := p]> ws !! j = Some q → (j = i ∧ q = p) ∨ (j ≠ i ∧ ws !! j = Some q).
Proof. intros [(-> & -> & _)|[? ?]]%list_lookup_insert_Some; auto. Qed.

(** A phase that takes no lock keeps the other fields. *)
Lemma shared_ok_phase c ws i p q :
  ws !! i = Some p → shared_ok blocks_dir (mkShared c ws) →
  (∀ f, in_hand p = Some f → in_hand q = Some f ∨ files c !! f = None ∨ f ∈ lru c) →
  (holds_lock q → holds_lock p) → (∀ f bf, q = Opened f bf → open (blk_path blocks_dir f) f = Ok bf) →
  (∀ f, p = Evicting f → len (lru c) ≤ MAX_CACHED_FILES) →
  shared_ok blocks_dir (mkShared c (<[i := q]> ws)).
Proof.
  intros Hi [Hnd Hg Hop Hlk Hfi Hle Hov] Hhand Hlock Hopen Hev. split; cbn [cache workers] in *; try done.
  - intros j f bf [[-> Hq]|[_ Hj]]%worker_cases; [by apply Hopen|by eapply Hop].
  - intros j1 j2 p1 p2 H1 H2 Hp1 Hp2. apply worker_cases in H1 as [[-> ->]|[? H1]], H2 as [[-> ->]|[? H2]];
      [done|eapply Hlk; [exact Hi|exact H2|by apply Hlock|done]|eapply Hlk; [exact H1|exact Hi|done|by apply Hlock]|by eapply Hlk].
  - intros f Hf. destruct (Hfi f Hf) as [?|Hin]; [by left|].
    destruct (decide (in_hand p = Some f)) as [Hp|Hp]; [|right; by eapply hand_keep].
    destruct (Hhand f Hp) as [Hq|[Hn|?]]; [right; by eapply hand_new| |by left]. by rewrite Hn in Hf; destruct Hf.
  - intros Hover. destruct (Hov Hover) as (j & f & Hj & Hl). exists j, f. split; [|done].
    destruct (decide (j = i)) as [->|]; [|by rewrite list_lookup_insert_ne].
    rewrite Hi in Hj. injection Hj as ->. specialize (Hev f eq_refl). lia.
Qed.

Lemma cstep_ok s s' : cstep blocks_dir s s' → shared_ok blocks_dir s → shared_ok blocks_dir s'.
Proof.
  intros [c ws i f Hi Hf|c ws i f Hi Hf|c ws i f bf Hi Ho|c ws i f e Hi Ho|c ws i f bf Hi|c ws i f Hi Hfree
         |c ws i f old rest Hi Hover Hl|c ws i f old Hi|c ws i f Hi Hle] Hok.
  - eapply shared_ok_phase; [done..|]. done.
  - eapply shared_ok_phase; [done..|]. done.
  - eapply shared_ok_phase; [done|done|done|done|by intros ?? [= <- <-]|done].
  - eapply shared_ok_phase; [done..|]. done.
  - pose proof Hok as [Hnd Hg Hop Hlk Hfi Hle Hov]. cbn [cache workers] in *.
    assert (shared_ok blocks_dir (mkShared c (<[i := Touching f]> ws))) as [? _ ? ? Hfi' ? ?]
      by (eapply shared_ok_phase; done). split; cbn [cache workers lru files] in *; try done.
    + apply genuine_insert; [done|]. by eapply Hop.
    + intros g [<-|[_ Hg']]%lookup_insert_is_Some; [right; by eapply hand_new|by apply Hfi'].
  - destruct Hok as [Hnd Hg Hop Hlk Hfi Hlen Hov]. cbn [cache workers] in *.
    destruct (moved_back f (lru c) Hnd) as (Hnd' & Hin & Hlast & Hlen').
    rewrite Forall_lookup in Hfree.
    assert (len (lru c) ≤ MAX_CACHED_FILES) as H16.
    { destruct (decide (MAX_CACHED_FILES < len (lru c))) as [Ho|]; [|lia].
      destruct (Hov Ho) as (j & g & Hj & _). by destruct (Hfree _ _ Hj). }
    split; cbn [cache workers lru files]; try done.
    + intros j g bf [[-> [=]]|[_ Hj]]%worker_cases. by eapply Hop.
    + intros j1 j2 p1 p2 H1 H2 Hp1 Hp2. apply worker_cases in H1 as [[-> ->]|[? H1]], H2 as [[-> ->]|[? H2]];
        [done|by destruct (Hfree _ _ H2)|by destruct (Hfree _ _ H1)|by eapply Hlk].
    + intros g Hg'. rewrite Hin. destruct (Hfi g Hg') as [?|Hh]; [by left; left|].
      destruct (decide (g = f)) as [->|]; [by left; right|]. right. eapply hand_keep; [done..|]. cbn. congruence.
    + lia.
    + intros _. exists i, f. split; [|done]. apply list_lookup_insert_eq. by eapply lookup_lt_Some.
  - pose proof Hok as [Hnd Hg Hop Hlk Hfi Hlen Hov]. cbn [cache workers] in *.
    destruct (Hov Hover) as (j & g & Hj & Hlast). assert (j = i) as -> by (by eapply Hlk).
    assert (g = f) as -> by congruence. rewrite Hl in *. apply NoDup_cons in Hnd as [Hold Hrest].
    rewrite len_cons in *. rewrite decide_False.
    2: { intros ->. destruct rest as [|y rest]; [unfold MAX_CACHED_FILES in *; rewrite len_nil in *; lia|].
         rewrite last_cons_cons in Hlast. by apply last_Some_elem_of in Hlast. }
    split; cbn [cache workers lru files]; try done.
    + intros k x bf [[-> [=]]|[_ Hk]]%worker_cases. by eapply Hop.
    + intros j1 j2 p1 p2 H1 H2 Hp1 Hp2. apply worker_cases in H1 as [[-> ->]|[? H1]], H2 as [[-> ->]|[? H2]];
        [done|by eapply (Hlk i j2)|by eapply (Hlk j1 i)|by eapply Hlk].
    + intros x Hx. destruct (Hfi x Hx) as [[->|?]%elem_of_cons|Hh]; [right; by eapply hand_new|by left|].
      right. by eapply hand_keep.
    + lia.
    + lia.
  - destruct Hok as [Hnd Hg Hop Hlk Hfi Hlen Hov]. cbn [cache workers] in *.
    split; cbn [cache workers lru files]; try done.
    + by apply genuine_delete.
    + intros k x bf [[-> [=]]|[_ Hk]]%worker_cases. by eapply Hop.
    + intros j1 j2 p1 p2 H1 H2 Hp1 Hp2. apply worker_cases in H1 as [[-> ->]|[? H1]], H2 as [[-> ->]|[? H2]];
        [done|by eapply (Hlk i j2)|by eapply (Hlk j1 i)|by eapply Hlk].
    + intros x [Hne Hx]%lookup_delete_is_Some. destruct (Hfi x Hx) as [?|Hh]; [by left|].
      right. eapply hand_keep; [done..|]. cbn. congruence.
    + intros Hover. destruct (Hov Hover) as (j & g & Hj & Hlast).
      assert (j = i) as -> by (by eapply Hlk). congruence.
  - eapply shared_ok_phase; [done|done|done|done|done|by intros ? [= <-]].
Qed.

(** The busy workers pay for the files beyond the list. *)
Lemma hands_busy (ws : list Phase) : len (omap in_hand ws) ≤ len (filter (λ p, busy p = true) ws).
Proof.
  induction ws as [|p ws IH]; [done|]. cbn [omap list_omap].
  destruct p; cbn [in_hand]; rewrite ?filter_cons_True by done; rewrite ?filter_cons_False by done;
    rewrite ?len_cons; lia.
Qed.

Lemma evicting_busy (ws : list Phase) i f :
  ws !! i = Some (Evicting f) → len (omap in_hand ws) + 1 ≤ len (filter (λ p, busy p = true) ws).
Proof.
  intros Hi. destruct (list_elem_of_split_length ws i (Evicting f) Hi) as (l1 & l2 & -> & _).
  rewrite omap_app, filter_app, !len_app. cbn [omap list_omap in_hand]. rewrite filter_cons_True by done.
  rewrite len_cons. pose proof (hands_busy l1). pose proof (hands_busy l2). lia.
Qed.

Lemma size_list_to_set (l : list Z) : (size (list_to_set l : gset Z) ≤ length l)%nat.
Proof.
  induction l as [|x l IH]; [done|]. cbn [list_to_set length]. rewrite size_union_alt, size_singleton.
  pose proof (subseteq_size (list_to_set l ∖ {[x]} : gset Z) (list_to_set l) ltac:(set_solver)). lia.
Qed.

Lemma resident_bound s : shared_ok blocks_dir s →
  resident (cache s) ≤ MAX_CACHED_FILES + len (filter (λ p, busy p = true) (workers s)).
Proof.
  intros [Hnd _ _ _ Hfi Hlen Hov]. unfold resident.
  assert (dom (files (cache s)) ⊆ (list_to_set (lru (cache s) ++ omap in_hand (workers s)) : gset Z)) as Hsub.
  { intros f Hf. apply elem_of_dom in Hf. apply elem_of_list_to_set, elem_of_app.
    destruct (Hfi f Hf) as [?|Hh]; [by left|right]. apply list_elem_of_fmap in Hh as (p & Hp & Hin).
    apply list_elem_of_omap. by exists p. }
  apply subseteq_size in Hsub. rewrite size_dom in Hsub.
  pose proof (size_list_to_set (lru (cache s) ++ omap in_hand (workers s))) as Hsz.
  pose proof (hands_busy (workers s)). unfold len in *. rewrite length_app in Hsz.
  destruct (decide (MAX_CACHED_FILES < Z.of_nat (length (lru (cache s))))) as [Ho|Ho]; [|lia].
  destruct (Hov Ho) as (i & f & Hi & _). apply evicting_busy in Hi. unfold len in Hi. lia.
Qed.

Lemma shared_ok_init n : shared_ok blocks_dir (mkShared cache_init (replicate n Idle)).
Proof.
  split; cbn [cache workers cache_init lru files]; try done.
  - constructor.
  - by intros i f bf [[=] _]%lookup_replicate.
  - by intros i j p q [-> _]%lookup_replicate _ [].
  - intros f Hf. rewrite lookup_empty in Hf. by destruct Hf.
Qed.

Lemma reach_ok s s' : rtc (cstep blocks_dir) s s' → shared_ok blocks_dir s → shared_ok blocks_dir s'.
Proof. induction 1 as [|s1 s2 s3 Hs _ IH]; [done|]. intros Hok. by eapply IH, cstep_ok. Qed.
End shared.

(** ** Theorems *)

Section theorems.
Context `{Fs}.
Variable blocks_dir : rstr.

(** C26: The file cache is transparent. From any state the cache reaches, reading
    a block through it gives exactly what opening the file and reading the block
    gives, errors included, and keeps the cache sound: at most 16 files, all
    listed, each as opening it yields. *)
Theorem cached_block_bytes_spec (loc : BlockLocation) (c : CacheInner) (Hc : cache_ok blocks_dir c) :
  fst (cached_block_bytes blocks_dir loc c) = read_block blocks_dir loc ∧
  cache_ok blocks_dir (snd (cached_block_bytes blocks_dir loc c)) ∧
  resident (snd (cached_block_bytes blocks_dir loc c)) ≤ MAX_CACHED_FILES.
Proof.
  destruct (cached_block_bytes_run blocks_dir loc c Hc) as [Hr Hok]. split; [done|]. split; [done|].
  destruct Hok as (_ & Hl & Hin & _). unfold resident.
  assert (dom (files (snd (cached_block_bytes blocks_dir loc c)))
    ⊆ (list_to_set (lru (snd (cached_block_bytes blocks_dir loc c))) : gset Z)) as Hsub.
  { intros f Hf. apply elem_of_dom in Hf. apply elem_of_list_to_set. by apply Hin. }
  apply subseteq_size in Hsub. rewrite size_dom in Hsub.
  pose proof (size_list_to_set (lru (snd (cached_block_bytes blocks_dir loc c)))). unfold len in Hl. lia.
Qed.

(** C27: The file cache is bounded under every interleaving. However the workers'
    look-ups, opens, insertions, touches and evictions interleave, the cache
    holds at most 16 files and one for each worker between the insertion of its
    file and the end of its [touch]: at most 16 once they are done. Every file
    held is what opening it yields. *)
Theorem cache_bounded_concurrently (n : nat) (s : Shared)
    (Hreach : rtc (cstep blocks_dir) (mkShared cache_init (replicate n Idle)) s) :
  resident (cache s) ≤ MAX_CACHED_FILES + len (filter (λ p, busy p = true) (workers s)) ∧
  (Forall (λ p, busy p = false) (workers s) → resident (cache s) ≤ MAX_CACHED_FILES) ∧
  genuine blocks_dir (files (cache s)).
Proof.
  assert (shared_ok blocks_dir s) as Hok by (by eapply reach_ok, shared_ok_init).
  pose proof (resident_bound blocks_dir s Hok) as Hb. split; [done|]. split; [|by destruct Hok].
  intros Hidle. assert (filter (λ p, busy p = true) (workers s) = []) as Hf; [|by rewrite Hf in Hb].
  clear -Hidle. destruct s as [c ws]. cbn [workers] in *.
  induction Hidle as [|p ws Hp _ IH]; [done|]. by rewrite filter_cons_False by congruence.
Qed.
End theorems.

(** ** Concrete runs *)

Module Ex.
(** A directory that has every file, each with the content of [BlkFile.Ex]. *)
#[program] Definition fs : Fs := {|
  IoError := (); fs_open p := Ok p; fs_mmap _ := Ok BlkFile.Ex.raw;
  fs_read p := if bool_decide (p = str "b/xor.dat") then Ok BlkFile.Ex.key else Err ();
  fs_read_dir _ := Ok []; fs_parent _ := Some (str "b"); fs_join d n := d ++ str "/" ++ n |}.

Definition loc (f : Z) : BlockLocation := mkLoc f 0 93.

Fixpoint reads (fids : list Z) (c : CacheInner) : CacheInner :=
  match fids with [] => c | f :: fids => reads fids (snd (@cached_block_bytes fs (str "b") (loc f) c)) end.

Definition warm : CacheInner := reads [0; 1; 2; 1; 3] cache_init.
Definition outcome (r : Res (@BlkError fs) bytes) : option bytes := match r with Ok b => Some b | _ => None end.

(** Two workers that share the file 7. *)
Definition bf7 : option BlkFile := res_ok (@open fs (@blk_path fs (str "b") 7) 7).
End Ex.

Lemma cache_init_ok (F : Fs) (d : rstr) : @cache_ok F d cache_init.
Proof. split_and!; [constructor|done|intros f Hf; by destruct Hf|done]. Qed.

Lemma reads_ok fids c : @cache_ok Ex.fs (str "b") c → @cache_ok Ex.fs (str "b") (Ex.reads fids c).
Proof.
  revert c. induction fids as [|f fids IH]; intros c Hc; [done|]. cbn [Ex.reads].
  apply IH. by apply cached_block_bytes_run.
Qed.

Lemma cached_block_bytes_spec_witness :
  lru Ex.warm = [0; 2; 1; 3] ∧
  Ex.outcome (fst (@cached_block_bytes Ex.fs (str "b") (Ex.loc 2) Ex.warm)) = Some (le_bytes 85 12345) ∧
  resident (snd (@cached_block_bytes Ex.fs (str "b") (Ex.loc 2) Ex.warm)) ≤ MAX_CACHED_FILES.
Proof.
  pose proof (@cached_block_bytes_spec Ex.fs (str "b") (Ex.loc 2) Ex.warm (reads_ok _ _ (cache_init_ok _ _))) as (Hr & _ & Hb).
  split; [vm_compute; reflexivity|]. split; [|exact Hb]. rewrite Hr. vm_compute. reflexivity.
Defined.

Lemma cache_bounded_concurrently_witness :
  ∃ s bf, rtc (@cstep Ex.fs (str "b")) (mkShared cache_init (replicate 2 Idle)) s ∧
    workers s = [Touching 7; Opened 7 bf] ∧ resident (cache s) ≤ MAX_CACHED_FILES + 1.
Proof.
  assert (is_Some Ex.bf7) as [bf Hbf] by (vm_compute; by eexists).
  assert (@open Ex.fs (@blk_path Ex.fs (str "b") 7) 7 = Ok bf) as Ho.
  { unfold Ex.bf7 in Hbf. destruct (open _ 7); cbn in Hbf; by simplify_eq. }
  eexists (mkShared (mkInner [] (<[7 := bf]> ∅)) [Touching 7; Opened 7 bf]), bf.
  assert (rtc (@cstep Ex.fs (str "b")) (mkShared cache_init (replicate 2 Idle))
    (mkShared (mkInner [] (<[7 := bf]> ∅)) [Touching 7; Opened 7 bf])) as Hr.
  { eapply rtc_l; [apply (@StepMiss Ex.fs (str "b") _ _ 0 7); reflexivity|].
    eapply rtc_l; [apply (@StepMiss Ex.fs (str "b") _ _ 1 7); reflexivity|].
    eapply rtc_l; [eapply (@StepOpen Ex.fs (str "b") _ _ 0 7 bf); [reflexivity|exact Ho]|].
    eapply rtc_l; [eapply (@StepOpen Ex.fs (str "b") _ _ 1 7 bf); [reflexivity|exact Ho]|].
    eapply rtc_l; [eapply (@StepInsert Ex.fs (str "b") _ _ 0 7 bf); reflexivity|]. apply rtc_refl. }
  split; [exact Hr|]. split; [reflexivity|].
  pose proof (@cache_bounded_concurrently Ex.fs (str "b") 2 _ Hr) as (Hb & _ & _). exact Hb.
Defined.
