(* ===== verification/Directory.v ===== *)
(** * Directory: the chain index of a directory, from the bytes of its blk files

    [build_chain_index] over [discover_blk_files], [open], the record iterator
    and the header pass, and the reads through the index that it makes: BlkFile,
    Chain and FileCache composed. *)
From S2P Require Import Prelude F64 Text Hash Types BlkFile Chain FileCache.

(** ** Specification: a directory of blocks *)

(** A blk file: framed payloads, and a rest that does not start with a record
    (zero padding, a record being written). *)
Record BlkContent : Type := mkContent { bc_frames : list (Z * bytes); bc_rest : bytes }.

Section spec.
Context `{FS : Fs} `{SHA : Sha256} `{LIBM : Libm}.

Definition content_bytes (path : rstr) (c : BlkContent) : bytes :=
  obfuscate (read_xor_key path) (frames (bc_frames c) ++ bc_rest c).

(** The file at [path] has this content; one without a block is empty or starts
    with a zero byte. *)
Record holds (path : rstr) (c : BlkContent) : Prop := {
  ho_file : ∃ file, fs_open path = Ok file ∧ fs_mmap file = Ok (content_bytes path c);
  ho_frames : Forall frame_wf (bc_frames c);
  ho_rest : no_record (bc_rest c);
  ho_len : len (content_bytes path c) < 2 ^ 32;
  ho_empty : bc_frames c = [] → content_bytes path c = [] ∨ content_bytes path c !!! 0%nat = x00 }.

(** The directory lists [names], and the blk file numbered [id] among them has
    the content [content id]. *)
Record blk_dir (dir : rstr) (names : list rstr) (content : Z → BlkContent) : Prop := {
  bd_list : fs_read_dir dir = Ok ((λ n, Ok (n, fs_join dir n)) <$> names);
  bd_files : ∀ id, id ∈ omap parse_blk_name names → holds (blk_path dir id) (content id) }.

Definition payloads (content : Z → BlkContent) (ids : list Z) : list bytes :=
  mjoin ((λ id, (bc_frames (content id)).*2) <$> ids).

(** The blocks of the directory. *)
Definition stored (names : list rstr) (content : Z → BlkContent) : list bytes :=
  payloads content (omap parse_blk_name names).

Definition header_of (p : bytes) : BlockHeader := header_parse (slice 0 80 p).
Definition block_id (p : bytes) : Hash32 := dsha256 (slice 0 80 p).

(** Each block names its predecessor, the first one [prev]. *)
Fixpoint linked (prev : Hash32) (bs : list bytes) : Prop :=
  match bs with
  | [] => True
  | b :: bs => prev_hash (header_of b) = prev ∧ linked (block_id b) bs
  end.

(** A chain of blocks of [ps], from a genesis. *)
Definition chain_of (ps bs : list bytes) : Prop := bs ≠ [] ∧ Forall (λ b, b ∈ ps) bs ∧ linked ZERO bs.

Definition block_work (p : bytes) : f64 := work_from_bits (bits (header_of p)).

Definition chain_work (bs : list bytes) : f64 := foldl (λ acc p, f64_add acc (block_work p)) f64_zero bs.

(** What is expected of SHA-256 on these blocks: no two headers with one hash,
    no cycle of previous hashes, none that is zero. *)
Record hashes_ok (ps : list bytes) : Prop := {
  hs_inj : ∀ p q, p ∈ ps → q ∈ ps → block_id p = block_id q → slice 0 80 p = slice 0 80 q;
  hs_acyclic : ∃ rank : Hash32 → nat, ∀ p q, p ∈ ps → q ∈ ps → prev_hash (header_of p) = block_id q →
    (rank (block_id q) < rank (block_id p))%nat;
  hs_zero : ∀ p, p ∈ ps → block_id p ≠ ZERO }.
End spec.

(** ** Lemmas: lists *)

Lemma linked_snoc `{Sha256} prev bs p :
  linked prev (bs ++ [p]) ↔ linked prev bs ∧ prev_hash (header_of p) = default prev (last (block_id <$> bs)).
Proof.
  revert prev. induction bs as [|b bs IH]; intros prev; [by cbn; intuition|].
  cbn [linked app]. rewrite IH. rewrite (fmap_cons block_id), last_cons.
  destruct (last (block_id <$> bs)); cbn; by intuition.
Qed.

Lemma chain_work_snoc `{Libm} bs p : chain_work (bs ++ [p]) = f64_add (chain_work bs) (block_work p).
Proof. unfold chain_work. by rewrite foldl_app. Qed.

Lemma elem_of_payloads content ids p :
  p ∈ payloads content ids ↔ ∃ id m, id ∈ ids ∧ (m, p) ∈ bc_frames (content id).
Proof.
  unfold payloads. rewrite list_elem_of_join. setoid_rewrite list_elem_of_fmap. split.
  - intros (l & Hp & id & -> & Hid). apply list_elem_of_fmap in Hp as ([m q] & -> & Hq). by exists id, m.
  - intros (id & m & Hid & Hp). eexists. split; [|by exists id].
    apply list_elem_of_fmap. by exists (m, p).
Qed.

(** ** Lemmas: the files *)

Section files.
Context `{FS : Fs} `{SHA : Sha256} `{LIBM : Libm}.
Context (dir : rstr) (content : Z → BlkContent).

Definition file_of (id : Z) : Z * rstr := (id, blk_path dir id).

Lemma blk_entries_names (names : list rstr) :
  blk_entries ((λ n, (n, fs_join dir n)) <$> names) = file_of <$> omap parse_blk_name names.
Proof.
  unfold blk_entries. induction names as [|n names IH]; [done|]. simpl.
  destruct (parse_blk_name n) as [id|] eqn:Hn; simpl; [|exact IH]. f_equal; [|exact IH].
  by apply parse_blk_name_iff in Hn as [_ ->].
Qed.

Lemma discover_names (names : list rstr) :
  fs_read_dir dir = Ok ((λ n, Ok (n, fs_join dir n)) <$> names) →
  match discover_blk_files dir with
  | Ok fs => ∃ ids, fs = file_of <$> ids ∧ ids ≡ₚ omap parse_blk_name names
  | Err e => e = NoFiles dir ∧ omap parse_blk_name names = []
  | Panic => False
  end.
Proof.
  intros Hdir. assert (fs_read_dir dir = Ok (Ok <$> ((λ n, (n, fs_join dir n)) <$> names))) as Hd.
  { rewrite Hdir. f_equal. symmetry. by rewrite <-list_fmap_compose. }
  unfold discover_blk_files. rewrite Hd. simpl. rewrite scan_dir_ok. simpl.
  rewrite blk_entries_names. pose proof (merge_sort_Permutation by_id (file_of <$> omap parse_blk_name names)) as Hp.
  case_bool_decide as Hn.
  - split; [done|]. rewrite Hn in Hp. apply Permutation_nil_l in Hp. by eapply fmap_nil_inv.
  - apply Permutation_map_inv in Hp as (ids & Heq & Hids). exists ids. by split.
Qed.

Lemma open_holds path id c :
  holds path c → ∃ f, open path id = Ok f ∧ bf_file_id f = id ∧ data f = frames (bc_frames c) ∧ len (data f) < 2 ^ 32.
Proof.
  intros [(file & Ho & Hm) Hfr Hrest Hlen Hempty]. set (raw := content_bytes path c) in *.
  assert (obfuscate (read_xor_key path) raw = frames (bc_frames c) ++ bc_rest c) as Hraw.
  { unfold raw, content_bytes, obfuscate. destruct (read_xor_key path); [apply xor_mask_involutive|done]. }
  destruct (open_data path id file raw _ _ Ho Hm Hraw Hfr Hrest) as (f & Hf & Hid & Hd).
  assert (data f = frames (bc_frames c)) as Hdata.
  { rewrite Hd. case_bool_decide as Hn; [|done].
    destruct (Hempty Hn) as [-> | ->]; [done|]. by rewrite (bool_decide_true (x00 = x00)), andb_false_r. }
  exists f. split_and!; [done..|]. rewrite Hdata. apply (f_equal len) in Hraw. rewrite len_app in Hraw.
  pose proof (len_nonneg (bc_rest c)). revert Hraw. unfold obfuscate.
  destruct (read_xor_key path); rewrite ?len_xor_mask; lia.
Qed.

Lemma locate_lookup id off rs k rec :
  locate id off rs !! k = Some rec → ∃ r off', rs !! k = Some r ∧ rec = record_at id off' r.
Proof.
  revert off k. induction rs as [|r rs IH]; intros off [|k]; cbn; [done|done| |apply IH].
  intros [= <-]. by exists r, off.
Qed.

Lemma length_locate id off rs : length (locate id off rs) = length rs.
Proof. revert off. induction rs as [|r rs IH]; intros off; cbn; [done|by rewrite IH]. Qed.

(** The records of the files [ids]. *)
Definition dir_records (ids : list Z) : list BlkRecord := mjoin ((λ id, locate id 0 (bc_frames (content id))) <$> ids).

Lemma len_dir_records ids : len (dir_records ids) = len (payloads content ids).
Proof.
  unfold dir_records, payloads. induction ids as [|id ids IH]; [done|].
  rewrite !mjoin_fmap_cons, !len_app, IH. unfold len. by rewrite length_locate, length_fmap.
Qed.

Lemma scan_files_dir ids headers total nfiles :
  Forall (λ id, holds (blk_path dir id) (content id)) ids →
  scan_files (file_of <$> ids) headers total nfiles =
    Some (Ok (foldl insert_record headers (dir_records ids), total + len (dir_records ids), nfiles + len ids)).
Proof.
  intros Hf. revert headers total nfiles. induction Hf as [|id ids Hid Hf IH]; intros headers total nfiles.
  { cbn. by rewrite !len_nil, !Z.add_0_r. }
  destruct (open_holds (blk_path dir id) id (content id) Hid) as (f & Ho & Hfid & Hd & Hl).
  cbn [fmap list_fmap scan_files file_of]. rewrite Ho.
  assert (all_records f = Some (Ok (locate id 0 (bc_frames (content id))))) as ->.
  { unfold all_records, records. rewrite Hd, Hfid. apply (collect_frames _ id []); [apply Hid|].
    pose proof (length_frames (bc_frames (content id))). lia. }
  change (dir_records (id :: ids)) with (locate id 0 (bc_frames (content id)) ++ dir_records ids).
  rewrite (IH _ _ _), foldl_app, len_app, len_cons. do 3 f_equal; [f_equal|]; lia.
Qed.

(** A record of the files and the block it was made of. *)
Definition record_of (rec : BlkRecord) (p : bytes) : Prop :=
  rec_header rec = header_of p ∧ rec_hash rec = block_id p ∧ read_block dir (location rec) = Ok p.

Lemma records_payloads ids :
  Forall (λ id, holds (blk_path dir id) (content id)) ids →
  Forall2 record_of (dir_records ids) (payloads content ids).
Proof.
  unfold dir_records, payloads. induction 1 as [|id ids Hid Hf IH]; [constructor|]. rewrite !mjoin_fmap_cons.
  apply Forall2_app; [|done]. apply Forall2_same_length_lookup.
  split; [by rewrite length_locate, length_fmap|]. intros k rec p Hrec Hp.
  apply list_lookup_fmap_Some in Hp as (r & -> & Hr).
  destruct (open_holds (blk_path dir id) id (content id) Hid) as (f & Ho & Hfid & Hd & Hl).
  destruct (block_bytes_locate f (bc_frames (content id)) k r) as (rec' & Hrec' & Hb & _); [done|apply Hid|done|done|].
  rewrite Hfid in Hrec'. assert (rec' = rec) as -> by congruence.
  apply locate_lookup in Hrec as (r' & off & Hr' & ->). assert (r' = r) as -> by congruence.
  split; [done|]. split; [done|]. unfold read_block. change (file_id _) with id. by rewrite Ho.
Qed.

(** ** Lemmas: the header map *)

Definition entry_of (e : HeaderEntry) (p : bytes) : Prop :=
  he_prev e = prev_hash (header_of p) ∧ work e = block_work p ∧ read_block dir (he_location e) = Ok p.

Lemma headers_entry recs ps h e :
  Forall2 record_of recs ps → foldl insert_record ∅ recs !! h = Some e →
  ∃ p, p ∈ ps ∧ h = block_id p ∧ entry_of e p.
Proof.
  intros Hf. rewrite header_map_first_wins. intros Hh. apply fmap_Some in Hh as ([k rec] & Hk & ->).
  apply list_find_Some in Hk as (Hrec & <- & _).
  destruct (Forall2_lookup_l _ _ _ _ _ Hf Hrec) as (p & Hp & Hh & Hid & Hr).
  exists p. split; [by eapply list_elem_of_lookup_2|]. split; [done|].
  unfold entry_of, block_work. cbn. by rewrite Hh.
Qed.

Lemma headers_some recs ps p :
  Forall2 record_of recs ps → p ∈ ps → is_Some (foldl insert_record ∅ recs !! block_id p).
Proof.
  intros Hf Hp. apply list_elem_of_lookup in Hp as [k Hk].
  destruct (Forall2_lookup_r _ _ _ _ _ Hf Hk) as (rec & Hrec & _ & Hid & _).
  rewrite header_map_first_wins. destruct (list_find _ recs) as [[j r]|] eqn:Hn; [by eexists|].
  apply list_find_None in Hn. rewrite Forall_lookup in Hn. by destruct (Hn k rec Hrec).
Qed.

Lemma headers_size recs : Z.of_nat (size (foldl insert_record ∅ recs)) ≤ len recs.
Proof.
  assert (∀ m : Headers, Z.of_nat (size (foldl insert_record m recs)) ≤ Z.of_nat (size m) + len recs) as Hm.
  { induction recs as [|r recs IH]; intros m; cbn [foldl]; [rewrite len_nil; lia|].
    specialize (IH (insert_record m r)). rewrite len_cons. unfold insert_record in *.
    destruct (m !! rec_hash r) eqn:Hr; [lia|]. rewrite map_size_insert_None in IH by done. lia. }
  specialize (Hm ∅). rewrite map_size_empty in Hm. lia.
Qed.
End files.

(** ** Lemmas: paths of the header map are chains of blocks *)

Section chains.
Context `{FS : Fs} `{SHA : Sha256} `{LIBM : Libm}.
Context (dir : rstr) (ps : list bytes) (headers : Headers).
Context (Hhash : hashes_ok ps).
Context (Hentry : ∀ h e, headers !! h = Some e → ∃ p, p ∈ ps ∧ h = block_id p ∧ entry_of dir e p).
Context (Hblock : ∀ p, p ∈ ps → is_Some (headers !! block_id p)).

(** The entry of a block is that of its header, whichever copy it was read from. *)
Lemma block_entry p : p ∈ ps →
  ∃ e, headers !! block_id p = Some e ∧ he_prev e = prev_hash (header_of p) ∧ work e = block_work p.
Proof.
  intros Hp. destruct (Hblock p Hp) as [e He]. exists e. split; [done|].
  destruct (Hentry _ _ He) as (q & Hq & Hid & Hprev & Hwork & _).
  apply (hs_inj _ Hhash) in Hid; [|done..]. unfold block_work, header_of in *. by rewrite Hid.
Qed.

Lemma headers_acyclic : acyclic headers.
Proof.
  destruct (hs_acyclic _ Hhash) as [rank Hr]. exists rank. intros h e He _ [e' He'].
  destruct (Hentry _ _ He) as (p & Hp & -> & Hprev & _).
  destruct (Hentry _ _ He') as (q & Hq & Hid & _). rewrite Hid. apply Hr; [done..|congruence].
Qed.

Lemma path_chain h l : path_to headers h l →
  ∃ bs, chain_of ps bs ∧ l = block_id <$> bs ∧ path_work headers l = chain_work bs ∧
    Forall2 (λ x p, ∃ e, headers !! x = Some e ∧ read_block dir (he_location e) = Ok p) l bs.
Proof.
  assert (∀ h e bs p, headers !! h = Some e → p ∈ ps → h = block_id p → entry_of dir e p →
    path_work headers (block_id <$> bs) = chain_work bs →
    path_work headers ((block_id <$> bs) ++ [block_id p]) = chain_work (bs ++ [p])) as Hwork.
  { intros h' e bs p He Hp -> (_ & Hw & _) Hbs. by rewrite path_work_snoc, chain_work_snoc, Hbs, (hwork_eq _ _ _ He), Hw. }
  induction 1 as [h e He Hz|h e l He Hz Hl (bs & (Hne & Hin & Hlink) & -> & Hw & Hread)];
    destruct (Hentry _ _ He) as (p & Hp & -> & Hep); pose proof Hep as (Hprev & _ & Hr).
  - exists [p]. split_and!; [|done|by eapply (Hwork _ _ [])|by constructor; [exists e|constructor]].
    split; [done|]. split; [by constructor|]. split; [congruence|done].
  - exists (bs ++ [p]). split_and!; [|by rewrite fmap_app|by eapply Hwork|].
    + split; [by destruct bs|]. split; [by apply Forall_app; split; [|constructor]|].
      apply linked_snoc. split; [done|]. apply path_to_last in Hl as [l' Hl].
      by rewrite <-Hprev, Hl, last_snoc.
    + apply Forall2_app; [done|]. by constructor; [exists e|constructor].
Qed.

Lemma chain_path bs : chain_of ps bs →
  ∃ h, last (block_id <$> bs) = Some h ∧ path_to headers h (block_id <$> bs) ∧
    path_work headers (block_id <$> bs) = chain_work bs.
Proof.
  induction bs as [|p bs IH] using rev_ind; intros (Hne & Hin & Hlink); [done|].
  apply Forall_app in Hin as [Hin [Hp _]%Forall_cons]. apply linked_snoc in Hlink as [Hlink Hprev].
  destruct (block_entry p Hp) as (e & He & Hpe & Hw).
  exists (block_id p). rewrite fmap_app. cbn [fmap list_fmap]. split; [apply last_snoc|].
  assert (path_work headers (block_id <$> bs) = chain_work bs ∧
          path_to headers (block_id p) ((block_id <$> bs) ++ [block_id p])) as [Hwork Hpath].
  { destruct (decide (bs = [])) as [->|Hbs].
    - split; [done|]. eapply P_genesis; [done|by rewrite Hpe, Hprev].
    - destruct IH as (h & Hl & Hh & Hwh); [by split_and!|]. split; [done|].
      rewrite Hl in Hprev. change (default ZERO (Some h)) with h in Hprev. eapply P_next; [done| |by rewrite Hpe, Hprev].
      rewrite Hpe, Hprev. destruct (path_to_in _ _ _ Hh) as [e' He'].
      destruct (Hentry _ _ He') as (q & Hq & -> & _). by apply (hs_zero _ Hhash). }
  split; [done|]. by rewrite path_work_snoc, chain_work_snoc, Hwork, (hwork_eq _ _ _ He), Hw.
Qed.
End chains.

(** ** Theorems *)

Section theorems.
Context `{FS : Fs} `{SHA : Sha256} `{LIBM : Libm} `{ORDER : HashOrder}.

(** The index of a directory and the chain of blocks that reading it gives. *)
Record indexes (dir : rstr) (ps : list bytes) (ci : ChainIndex) (st : ChainBuildStats) (bs : list bytes) : Prop := {
  ix_chain : chain_of ps bs;
  ix_heaviest : ∀ bs', chain_of ps bs' → f64_le (chain_work bs') (chain_work bs) = true;
  ix_read : Forall2 (λ loc p, read_block dir loc = Ok p) (by_height ci) bs;
  ix_heights : ∀ h z, hash_to_height ci !! h = Some z ↔ ∃ i p, bs !! i = Some p ∧ h = block_id p ∧ z = Z.of_nat i;
  ix_len : len bs ≤ len ps;
  ix_tip : tip_height ci = Some (len bs - 1);
  ix_tip_hash : last (block_id <$> bs) = Some (tip_hash st) }.

Lemma build_chain_index_dir (dir : rstr) (names : list rstr) (content : Z → BlkContent) :
  let ps := stored names content in
  blk_dir dir names content → hashes_ok ps → (∀ bs, chain_of ps bs → not_nan (chain_work bs)) → len ps < 2 ^ 32 →
  match build_chain_index dir with
  | Some (Ok (ci, st)) => ∃ bs, indexes dir ps ci st bs
  | Some (Err e) =>
    e = NoFiles dir ∧ ps = [] ∨ e = NoRecords dir ∧ ∀ p, p ∈ ps → prev_hash (header_of p) ≠ ZERO
  | Some Panic | None => False
  end.
Proof.
  intros ps [Hlist Hfiles] Hhash Hnan Hsize. unfold build_chain_index.
  pose proof (discover_names dir names Hlist) as Hd.
  destruct (discover_blk_files dir) as [fs|e|]; [|destruct Hd as [-> Hnil]; left; split; [done|]|done].
  2: { unfold ps, stored. by rewrite Hnil. }
  destruct Hd as (ids & -> & Hids).
  assert (Forall (λ id, holds (blk_path dir id) (content id)) ids) as Hholds.
  { apply Forall_forall. intros id Hid. apply Hfiles. by rewrite <-Hids. }
  rewrite (scan_files_dir dir content) by done. pose proof (records_payloads dir content ids Hholds) as Hrec.
  set (recs := dir_records content ids) in *. set (headers := foldl insert_record ∅ recs).
  assert (payloads content ids ≡ₚ ps) as Hps by (unfold ps, stored, payloads; by rewrite Hids).
  assert (∀ h e, headers !! h = Some e → ∃ p, p ∈ ps ∧ h = block_id p ∧ entry_of dir e p) as Hentry.
  { intros h e He. setoid_rewrite <-Hps. by eapply headers_entry. }
  assert (∀ p, p ∈ ps → is_Some (headers !! block_id p)) as Hblock.
  { intros p. setoid_rewrite <-Hps. by eapply headers_some. }
  assert (Z.of_nat (size headers) < 2 ^ 32) as Hs.
  { pose proof (headers_size recs). unfold recs in *. rewrite len_dir_records in *.
    unfold len in *. rewrite (Permutation_length Hps) in *. unfold headers. lia. }
  assert (∀ h l, path_to headers h l → not_nan (path_work headers l)) as Hnan'.
  { intros h l Hl. destruct (path_chain dir ps headers Hentry h l Hl) as (bs & Hbs & _ & -> & _). by apply Hnan. }
  pose proof (connect_run dir headers (0 + len recs) (0 + len ids)
    (headers_acyclic dir ps headers Hhash Hentry) Hnan' Hs) as Hc.
  destruct (connect dir headers _ _) as [[[ci st]|e|]|]; [| |done..].
  - destruct Hc as [path [Hpath Hmax Hby Hht Hst Htip _]].
    destruct (path_chain dir ps headers Hentry _ _ Hpath) as (bs & Hbs & -> & Hw & Hread).
    exists bs. split; [done| | | | | |].
    + intros bs' Hbs'. destruct (chain_path dir ps headers Hhash Hentry Hblock bs' Hbs') as (h & _ & Hh & <-).
      rewrite <-Hw. by eapply Hmax.
    + apply Forall2_same_length_lookup. apply Forall2_length in Hby as Hlen, Hread as Hlen'.
      split; [congruence|]. intros i loc p Hloc Hp.
      destruct (Forall2_lookup_r _ _ _ _ _ Hby Hloc) as (h & Hh & He).
      destruct (Forall2_lookup_l _ _ _ _ _ Hread Hh) as (q & Hq & e & He' & Hr).
      rewrite He' in He. by simplify_eq/=.
    + intros h z. rewrite Hht. setoid_rewrite list_lookup_fmap_Some. naive_solver.
    + apply path_length in Hpath; [|by eapply headers_acyclic]. pose proof (headers_size recs) as Hsz.
      unfold recs in Hsz. rewrite len_dir_records in Hsz. rewrite length_fmap in Hpath.
      unfold headers, recs, len in *. rewrite (Permutation_length Hps) in Hsz. lia.
    + rewrite Htip, Hst. unfold len. by rewrite length_fmap.
    + apply path_to_last in Hpath as [l ->]. apply last_snoc.
  - destruct Hc as [-> Hno]. right. split; [done|]. intros p Hp.
    destruct (block_entry dir ps headers Hhash Hentry Hblock p Hp) as (e & He & <- & _). by eapply Hno.
Qed.
End theorems.
