(* ===== verification/Backpressure.v ===== *)
(** * Backpressure: the parse workers and the consumer, [run_parse] of [bidx-cli/src/pipeline.rs]

    The workers spin while the reorder buffer is over its high-water mark,
    unless they hold the height the consumer waits for; they send into a bounded
    channel; the consumer moves heights from the channel to its buffer and
    drains it in order. The pool that hands out the heights is [rayon], a
    parameter. Here no height is skipped, nothing fails and the watchdog stays
    quiet. The same protocol is that of [run_trial] of [bidx-cli/src/bench/mod.rs]. *)
From S2P Require Import Prelude.

(** A worker spinning before its height, or past the check and sending it. *)
Inductive WPhase : Type := Spinning | Sending.

(** The consumer between blocks: in [recv], or in the drain loop. *)
Inductive CPhase : Type := Receiving | Draining.

#[global] Instance WPhase_eq_dec : EqDecision WPhase.
Proof. solve_decision. Defined.
#[global] Instance CPhase_eq_dec : EqDecision CPhase.
Proof. solve_decision. Defined.

(** The heights each worker has still to process, the first being its current
    one; where it is; the channel; the buffer; where the consumer is, and the
    height it waits for. *)
Record Sys : Type := mkSys {
  queues : list (list Z); phases : list WPhase; chan : list Z; buffer : gset Z;
  consumer : CPhase; next : Z }.

Section protocol.
Variable high cap end_ : Z.

(** [rayon]: an idle worker is handed a part of the heights of another. *)
Variable steal : list (list Z) → list (list Z) → Prop.

Inductive pstep : Sys → Sys → Prop :=
  | StepPass qs ps ch b c n i h q : qs !! i = Some (h :: q) → ps !! i = Some Spinning →
      Z.of_nat (size b) ≤ high ∨ n = h →
      pstep (mkSys qs ps ch b c n) (mkSys qs (<[i := Sending]> ps) ch b c n)
  | StepSend qs ps ch b c n i h q : qs !! i = Some (h :: q) → ps !! i = Some Sending → len ch < cap →
      pstep (mkSys qs ps ch b c n) (mkSys (<[i := q]> qs) (<[i := Spinning]> ps) (ch ++ [h]) b c n)
  | StepRecv qs ps ch b n h : n < end_ →
      pstep (mkSys qs ps (h :: ch) b Receiving n) (mkSys qs ps ch ({[h]} ∪ b) Draining n)
  | StepDrain qs ps ch b n : n ∈ b →
      pstep (mkSys qs ps ch b Draining n) (mkSys qs ps ch (b ∖ {[n]}) Draining (n + 1))
  | StepWait qs ps ch b n : n ∉ b →
      pstep (mkSys qs ps ch b Draining n) (mkSys qs ps ch b Receiving n)
  | StepSteal qs qs' ps ch b c n : steal qs qs' →
      pstep (mkSys qs ps ch b c n) (mkSys qs' ps ch b c n).

(** The heights not consumed yet, wherever they are. *)
Definition in_flight (s : Sys) : list Z := mjoin (queues s) ++ chan s ++ elements (buffer s).

Record sys_ok (s : Sys) : Prop := {
  ok_phases : length (phases s) = length (queues s);
  ok_sorted : Forall (StronglySorted Z.lt) (queues s);
  ok_heights : in_flight s ≡ₚ seqZ (next s) (end_ - next s);
  ok_recv : consumer s = Receiving → next s ∉ buffer s;
  ok_sending : ∀ i, phases s !! i = Some Sending → ∃ h q, queues s !! i = Some (h :: q)
}.

(** How many workers are past the check. *)
Definition spins (p : WPhase) : nat := match p with Spinning => 1 | Sending => 0 end.
Definition sends (p : WPhase) : nat := match p with Spinning => 0 | Sending => 1 end.
Definition idle (q : list Z) : nat := match q with [] => 1 | _ => 0 end.

(** What each step lowers. *)
Definition measure (s : Sys) : nat :=
  6 * length (mjoin (queues s)) + sum_list (spins <$> phases s) + sum_list (idle <$> queues s)
  + 3 * length (chan s) + size (buffer s) + (if decide (consumer s = Draining) then 1 else 0).

(** The parsed blocks in memory: buffered, in the channel, or being sent. *)
Definition parsed_blocks (s : Sys) : Z :=
  Z.of_nat (size (buffer s)) + len (chan s) + Z.of_nat (sum_list (sends <$> phases s)).

(** All the heights handed out, nothing done yet. *)
Definition start_state (start : Z) (qs : list (list Z)) : Sys :=
  mkSys qs (replicate (length qs) Spinning) [] ∅ Receiving start.

Definition handed_out (start : Z) (qs : list (list Z)) : Prop :=
  mjoin qs ≡ₚ seqZ start (end_ - start) ∧ Forall (StronglySorted Z.lt) qs.
End protocol.

(** What the pool promises: it moves heights between workers, in order, never
    the one a worker is at, and only to one that has none left. *)
Class Rayon (steal : list (list Z) → list (list Z) → Prop) : Prop := {
  steal_length : ∀ qs qs', steal qs qs' → length qs' = length qs;
  steal_perm : ∀ qs qs', steal qs qs' → mjoin qs' ≡ₚ mjoin qs;
  steal_sorted : ∀ qs qs', steal qs qs' → Forall (StronglySorted Z.lt) qs → Forall (StronglySorted Z.lt) qs';
  steal_current : ∀ qs qs' i h q, steal qs qs' → qs !! i = Some (h :: q) → ∃ q', qs' !! i = Some (h :: q');
  steal_idle : ∀ qs qs', steal qs qs' → (sum_list (idle <$> qs') < sum_list (idle <$> qs))%nat
}.

(** ** Lemmas *)

Section proofs.
Variable high cap end_ : Z.
Variable steal : list (list Z) → list (list Z) → Prop.
Context `{RAYON : !Rayon steal}.

Abbreviation step := (pstep high cap end_ steal).

Lemma mjoin_take_head (qs : list (list Z)) i h q :
  qs !! i = Some (h :: q) → mjoin qs ≡ₚ h :: mjoin (<[i := q]> qs).
Proof.
  revert i. induction qs as [|q0 qs IH]; intros i Hi; [done|]. destruct i as [|i]; cbn in Hi.
  - by injection Hi as ->.
  - cbn [insert list_insert]. change (q0 ++ mjoin qs ≡ₚ h :: q0 ++ mjoin (<[i:=q]> qs)).
    rewrite (IH _ Hi). apply Permutation_sym, Permutation_middle.
Qed.

Lemma seqZ_next n : n < end_ → seqZ n (end_ - n) = n :: seqZ (n + 1) (end_ - (n + 1)).
Proof. intros Hn. rewrite seqZ_cons by lia. do 2 f_equal; lia. Qed.

Lemma in_flight_ge s h : sys_ok end_ s → h ∈ in_flight s → next s ≤ h < end_.
Proof. intros Hok Hh. rewrite (ok_heights _ _ Hok) in Hh. apply elem_of_seqZ in Hh. lia. Qed.

Lemma in_flight_NoDup s : sys_ok end_ s → NoDup (in_flight s).
Proof. intros Hok. rewrite (ok_heights _ _ Hok). apply NoDup_seqZ. Qed.

Lemma pstep_ok s s' : step s s' → sys_ok end_ s → sys_ok end_ s'.
Proof.
  intros Hs Hok. pose proof (in_flight_NoDup s Hok) as Hnd. pose proof (in_flight_ge s) as Hge.
  destruct Hs as [qs ps ch b c n i h q Hi Hp Hc|qs ps ch b c n i h q Hi Hp Hc|qs ps ch b n h Hn|qs ps ch b n Hn
    |qs ps ch b n Hn|qs qs' ps ch b c n Hst]; destruct Hok as [H1 H2 H3 H4 H5];
    unfold in_flight in *; split; unfold in_flight; cbn [queues phases chan buffer consumer next] in *; try done.
  - by rewrite length_insert.
  - intros j Hj. apply list_lookup_insert_Some in Hj as [(-> & _ & _)|[_ Hj]]; [by exists h, q|by apply H5].
  - by rewrite !length_insert.
  - apply Forall_insert; [done|]. rewrite Forall_lookup in H2. apply H2 in Hi. by apply StronglySorted_inv in Hi as [? _].
  - rewrite <-H3, (mjoin_take_head _ _ _ _ Hi), (Permutation_app_comm ch [h]). cbn [app].
    apply Permutation_sym, Permutation_middle.
  - intros j Hj. apply list_lookup_insert_Some in Hj as [(_ & [=] & _)|[Hne Hj]].
    rewrite list_lookup_insert_ne by done. by apply H5.
  - rewrite <-H3. apply Permutation_app_head. cbn [app].
    rewrite elements_union_singleton; [symmetry; apply Permutation_middle|].
    intros Hb. apply NoDup_app in Hnd as (_ & _ & Hnd). cbn [app] in Hnd. apply NoDup_cons in Hnd as [Hnd _].
    apply Hnd, elem_of_app. right. by apply elem_of_elements.
  - assert (n < end_) as Hlt.
    { assert (n ∈ seqZ n (end_ - n)) as Hin; [|apply elem_of_seqZ in Hin; lia].
      rewrite <-H3. set_solver. }
    rewrite (seqZ_next n Hlt) in H3. apply (Permutation_cons_inv (a := n)). rewrite <-H3.
    rewrite (union_difference_singleton_L n b Hn) at 2. rewrite elements_union_singleton by set_solver.
    by rewrite <-(Permutation_middle ch), <-(Permutation_middle (mjoin qs)).
  - by rewrite (steal_length _ _ Hst).
  - by eapply steal_sorted.
  - by rewrite (steal_perm _ _ Hst).
  - intros j Hj. destruct (H5 j Hj) as (h & q & Hq). destruct (steal_current _ _ _ _ _ Hst Hq) as [q' Hq'].
    by exists h, q'.
Qed.

Lemma sum_insert {A} (f : A → nat) (l : list A) i x y :
  l !! i = Some x → (sum_list (f <$> <[i := y]> l) + f x = sum_list (f <$> l) + f y)%nat.
Proof.
  revert i. induction l as [|z l IH]; intros i Hi; [done|]. destruct i as [|i]; cbn in Hi.
  - injection Hi as ->. cbn. lia.
  - specialize (IH i Hi). change (f z + sum_list (f <$> <[i := y]> l) + f x = f z + sum_list (f <$> l) + f y)%nat. lia.
Qed.

Lemma pstep_measure s s' : step s s' → (measure s' < measure s)%nat.
Proof.
  intros [qs ps ch b c n i h q Hi Hp Hc|qs ps ch b c n i h q Hi Hp Hc|qs ps ch b n h Hn|qs ps ch b n Hn
    |qs ps ch b n Hn|qs qs' ps ch b c n Hst]; unfold measure; cbn [queues phases chan buffer consumer next].
  - pose proof (sum_insert spins ps i _ Sending Hp) as Hs. cbn [spins] in Hs. lia.
  - pose proof (sum_insert spins ps i _ Spinning Hp) as Hs. pose proof (sum_insert idle qs i _ q Hi) as Hq.
    pose proof (Permutation_length (mjoin_take_head _ _ _ _ Hi)) as Hl. cbn [spins idle length] in Hs, Hq, Hl.
    rewrite length_app. assert (idle q ≤ 1)%nat by (destruct q; cbn; lia). cbn [length]. lia.
  - rewrite size_union_alt, size_singleton. pose proof (subseteq_size (b ∖ {[h]}) b ltac:(set_solver)).
    rewrite decide_True, decide_False by done. cbn [length]. lia.
  - rewrite size_difference, size_singleton by set_solver.
    assert (size b ≠ 0)%nat by (intros Hz%size_empty_iff; set_solver). lia.
  - rewrite decide_False, decide_True by done. lia.
  - pose proof (steal_idle _ _ Hst). rewrite (steal_perm _ _ Hst). lia.
Qed.

(** The smallest height left is at the head of a queue. *)
Lemma queue_head qs n : Forall (StronglySorted Z.lt) qs → (∀ h, h ∈ mjoin qs → n ≤ h) → n ∈ mjoin qs →
  ∃ i q, qs !! i = Some (n :: q).
Proof.
  intros Hs Hge (l & Hn & Hl)%list_elem_of_join. apply list_elem_of_lookup in Hl as [i Hi]. exists i.
  rewrite Forall_lookup in Hs. specialize (Hs _ _ Hi). destruct l as [|x l]; [by apply not_elem_of_nil in Hn|].
  exists l. assert (x = n) as ->; [|done]. apply elem_of_cons in Hn as [|Hn]; [done|].
  apply StronglySorted_inv in Hs as [_ Hx]. rewrite Forall_forall in Hx. specialize (Hx n Hn).
  assert (n ≤ x); [|lia]. apply Hge, list_elem_of_join. exists (x :: l). split; [left|].
  by eapply list_elem_of_lookup_2.
Qed.

(** Before the last height is consumed somebody can move. *)
Lemma pstep_progress s : 0 < cap → sys_ok end_ s → next s < end_ → ∃ s', step s s'.
Proof.
  intros Hcap Hok Hn. pose proof (in_flight_ge s) as Hge. destruct s as [qs ps ch b c n]. destruct Hok as [H1 H2 H3 H4 H5].
  unfold in_flight in *. cbn [queues phases chan buffer consumer next] in *.
  destruct c; [|destruct (decide (n ∈ b)); eexists; [by apply StepDrain|by apply StepWait]].
  destruct ch as [|h ch]; [|eexists; by apply StepRecv].
  destruct (queue_head qs n) as (i & q & Hi); [done| | |].
  - intros h Hh. apply Hge; [by split|]. set_solver.
  - assert (n ∈ seqZ n (end_ - n)) as Hin by (apply elem_of_seqZ; lia). rewrite <-H3 in Hin.
    specialize (H4 eq_refl). cbn [app] in Hin. set_solver.
  - destruct (lookup_lt_is_Some_2 ps i) as [p Hp]; [rewrite H1; by eapply lookup_lt_Some|].
    destruct p; eexists; [eapply StepPass; [done|done|by right]|eapply StepSend; [done|done|by rewrite len_nil]].
Qed.

Lemma start_ok start qs : handed_out end_ start qs → sys_ok end_ (start_state start qs).
Proof.
  intros [Hp Hs]. split; unfold in_flight; cbn [start_state queues phases chan buffer consumer next].
  - by rewrite length_replicate.
  - done.
  - by rewrite elements_empty, !app_nil_r.
  - set_solver.
  - by intros i [[=] _]%lookup_replicate.
Qed.

Lemma psteps_ok s s' : rtc step s s' → sys_ok end_ s → sys_ok end_ s'.
Proof. induction 1 as [|s1 s2 s3 Hs _ IH]; [done|]. intros Hok. by eapply IH, pstep_ok. Qed.

Lemma psteps_acc s : Acc (λ s2 s1, step s1 s2) s.
Proof.
  remember (measure s) as m eqn:Hm. revert s Hm. induction m as [m IH] using lt_wf_ind. intros s ->.
  constructor. intros s' Hs. eapply IH; [by apply pstep_measure|done].
Qed.

Lemma pstep_next s s' : step s s' → sys_ok end_ s → next s ≤ end_ → next s' ≤ end_.
Proof.
  intros Hs Hok Hle. pose proof (in_flight_ge s) as Hge. destruct Hs; cbn [next] in *; try done.
  assert (n < end_); [|lia]. apply (Hge n Hok). unfold in_flight. cbn [queues chan buffer]. set_solver.
Qed.

(** Some run from [s] consumes the last height; no run can avoid it. *)
Lemma psteps_finish s : 0 < cap → sys_ok end_ s → next s ≤ end_ → ∃ s', rtc step s s' ∧ next s' = end_.
Proof.
  intros Hcap. induction (psteps_acc s) as [s _ IH]. intros Hok Hle.
  destruct (decide (next s = end_)) as [He|Hne]; [by exists s|].
  destruct (pstep_progress s Hcap Hok ltac:(lia)) as [s1 Hs1].
  pose proof (pstep_ok _ _ Hs1 Hok) as Hok1.
  destruct (IH s1 Hs1 Hok1) as (s' & Hr & He); [by eapply pstep_next|exists s'; split; [by eapply rtc_l|done]].
Qed.

Lemma psteps_next s s' : rtc step s s' → sys_ok end_ s → next s ≤ end_ → next s' ≤ end_.
Proof.
  induction 1 as [|s1 s2 s3 Hs _ IH]; [done|]. intros Hok Hle. apply IH; [by eapply pstep_ok|by eapply pstep_next].
Qed.

(** The height waited for is past the check. *)
Definition next_passed (s : Sys) : Prop :=
  next s ∈ buffer s ∨ next s ∈ chan s ∨
  ∃ i q, queues s !! i = Some (next s :: q) ∧ phases s !! i = Some Sending.

Definition room (s : Sys) : Z := Z.max 0 high + cap + Z.of_nat (length (phases s)).

Definition bounded (s : Sys) : Prop :=
  len (chan s) ≤ cap ∧ (parsed_blocks s ≤ room s ∨ (next_passed s ∧ parsed_blocks s ≤ room s + 1)).

Lemma sends_le (ps : list WPhase) : (sum_list (sends <$> ps) ≤ length ps)%nat.
Proof.
  induction ps as [|p ps IH]; [done|]. change (sends p + sum_list (sends <$> ps) ≤ S (length ps))%nat.
  destruct p; cbn [sends]; lia.
Qed.

Lemma pstep_bounded s s' : step s s' → sys_ok end_ s → bounded s → bounded s'.
Proof.
  intros Hs Hok [Hch Hb]. pose proof (in_flight_NoDup s Hok) as Hnd.
  assert (parsed_blocks s ≤ room s + 1) as Hb1 by (destruct Hb as [?|[_ ?]]; lia).
  destruct Hs as [qs ps ch b c n i h q Hi Hp Hc|qs ps ch b c n i h q Hi Hp Hc|qs ps ch b n h Hn|qs ps ch b n Hn
    |qs ps ch b n Hn|qs qs' ps ch b c n Hst]; unfold bounded, parsed_blocks, room, next_passed, in_flight in *;
    cbn [queues phases chan buffer consumer next] in *.
  - rewrite length_insert. split; [done|]. pose proof (sum_insert sends ps i _ Sending Hp) as Hsum. cbn [sends] in Hsum.
    pose proof (sends_le (<[i := Sending]> ps)) as Hle. rewrite length_insert in Hle.
    destruct (decide (n = h)) as [->|Hne]; [|left; destruct Hc as [Hc|?]; [lia|done]].
    right. split; [right; right; exists i, q; split; [done|]; apply list_lookup_insert_eq; by eapply lookup_lt_Some|].
    destruct Hb as [Hb|[Hpass _]]; [lia|]. exfalso.
    rewrite (mjoin_take_head _ _ _ _ Hi) in Hnd. cbn [app] in Hnd. apply NoDup_cons in Hnd as [Hnot Hnd].
    destruct Hpass as [Hin|[Hin|(j & q' & Hj & Hpj)]]; [set_solver|set_solver|].
    assert (j ≠ i) as Hji by congruence. apply Hnot, elem_of_app. left. apply list_elem_of_join.
    exists (h :: q'). split; [left|]. apply list_elem_of_lookup. exists j. by rewrite list_lookup_insert_ne.
  - rewrite length_insert. split; [rewrite len_app, len_cons, len_nil; lia|].
    pose proof (sum_insert sends ps i _ Spinning Hp) as Hsum. cbn [sends] in Hsum.
    rewrite len_app, len_cons, len_nil. destruct Hb as [Hb|[Hpass Hb]]; [left; lia|right; split; [|lia]].
    destruct Hpass as [Hin|[Hin|(j & q' & Hj & Hpj)]]; [by left|right; left; set_solver|].
    destruct (decide (j = i)) as [->|]; [right; left; rewrite Hi in Hj; simplify_eq; set_solver|].
    right; right. exists j, q'. by rewrite !list_lookup_insert_ne.
  - rewrite len_cons in *. split; [lia|]. rewrite size_union_alt, size_singleton.
    pose proof (subseteq_size (b ∖ {[h]}) b ltac:(set_solver)).
    destruct Hb as [Hb|[Hpass Hb]]; [left; lia|right; split; [|lia]].
    destruct Hpass as [Hin|[[->|Hin]%elem_of_cons|?]]; [left; set_solver|left; set_solver|by right; left|by right; right].
  - split; [done|]. left. rewrite size_difference, size_singleton by set_solver.
    assert (size b ≠ 0)%nat by (intros Hz%size_empty_iff; set_solver). lia.
  - split; [done|]. destruct Hb as [Hb|[Hpass Hb]]; [by left|by right].
  - split; [done|]. destruct Hb as [Hb|[Hpass Hb]]; [by left|right; split; [|done]].
    destruct Hpass as [?|[?|(j & q' & Hj & Hpj)]]; [by left|by right; left|right; right].
    destruct (steal_current _ _ _ _ _ Hst Hj) as [q'' Hj']. by exists j, q''.
Qed.

Lemma psteps_bounded s s' : rtc step s s' → sys_ok end_ s → bounded s → bounded s'.
Proof.
  induction 1 as [|s1 s2 s3 Hs _ IH]; [done|]. intros Hok Hb. apply IH; [by eapply pstep_ok|by eapply pstep_bounded].
Qed.

Lemma start_bounded start qs : 0 ≤ cap → bounded (start_state start qs).
Proof.
  intros Hcap. split; [done|]. left. unfold parsed_blocks, room, start_state. cbn [queues phases chan buffer consumer next].
  rewrite size_empty, (@len_nil Z). pose proof (sends_le (replicate (length qs) Spinning)). lia.
Qed.

Lemma psteps_phases s s' : rtc step s s' → length (phases s') = length (phases s).
Proof. induction 1 as [|s1 s2 s3 Hs _ IH]; [done|]. rewrite IH. destruct Hs; cbn; by rewrite ?length_insert. Qed.
End proofs.

(** ** Theorems *)

Section theorems.
Variable high cap end_ : Z.
Variable steal : list (list Z) → list (list Z) → Prop.
Context `{RAYON : !Rayon steal}.

(** C19: No deadlock. With a channel that has room for a block, in every state
    the workers and the consumer reach from handing out the heights [start] to
    [end], somebody can move until the consumer has the last height; every run
    is finite, so whatever the schedule it ends, and only with all the heights
    consumed. *)
Theorem pipeline_finishes (start : Z) (qs : list (list Z)) (s : Sys)
    (Hcap : 0 < cap) (Hrange : start ≤ end_) (Hqs : handed_out end_ start qs)
    (Hreach : rtc (pstep high cap end_ steal) (start_state start qs) s) :
  ((∀ s', ¬ pstep high cap end_ steal s s') → next s = end_) ∧
  Acc (λ s2 s1, pstep high cap end_ steal s1 s2) s ∧
  ∃ s', rtc (pstep high cap end_ steal) s s' ∧ next s' = end_.
Proof.
  pose proof (psteps_ok high cap end_ steal _ _ Hreach (start_ok end_ steal start qs Hqs)) as Hok.
  assert (next s ≤ end_) as Hle by (by eapply (psteps_next high cap end_ steal _ _ Hreach (start_ok end_ steal start qs Hqs))).
  split_and!; [|apply psteps_acc|by apply psteps_finish].
  intros Hstuck. destruct (decide (next s = end_)) as [|Hne]; [done|].
  destruct (pstep_progress high cap end_ steal s Hcap Hok ltac:(lia)) as [s' Hs]. by destruct (Hstuck s').
  Unshelve. done.
Qed.

(** C36: How many parsed blocks the pipeline holds. In every reachable state the
    buffer, the channel and the workers past the check hold together at most
    the high-water mark, the channel's depth, one block per worker, and the one
    the consumer waits for. *)
Theorem parsed_blocks_bounded (start : Z) (qs : list (list Z)) (s : Sys)
    (Hcap : 0 ≤ cap) (Hhigh : 0 ≤ high) (Hqs : handed_out end_ start qs)
    (Hreach : rtc (pstep high cap end_ steal) (start_state start qs) s) :
  parsed_blocks s ≤ high + cap + len qs + 1 ∧ len (chan s) ≤ cap.
Proof.
  pose proof (psteps_bounded high cap end_ steal _ _ Hreach (start_ok end_ steal start qs Hqs)
    (start_bounded high cap start qs Hcap)) as [Hc Hb].
  pose proof (psteps_phases high cap end_ steal _ _ Hreach) as Hp. unfold room in Hb. rewrite Hp in Hb.
  cbn [start_state phases] in Hb. rewrite length_replicate in Hb. unfold len at 1. split; [|done].
  destruct Hb as [Hb|[_ Hb]]; lia.
Qed.
End theorems.

(** ** A concrete pool *)

(** An idle worker takes the end of another's heights. *)
Definition take_end (qs qs' : list (list Z)) : Prop :=
  ∃ i j h l1 l2, qs !! i = Some (h :: l1 ++ l2) ∧ qs !! j = Some [] ∧ l2 ≠ [] ∧
    qs' = <[j := l2]> (<[i := h :: l1]> qs).

Lemma mjoin_insert (qs : list (list Z)) i q0 q :
  qs !! i = Some q0 → mjoin (<[i := q]> qs) ++ q0 ≡ₚ mjoin qs ++ q.
Proof.
  revert i. induction qs as [|x qs IH]; intros i Hi; [done|]. destruct i as [|i]; cbn in Hi.
  - injection Hi as ->. change ((q ++ mjoin qs) ++ q0 ≡ₚ (q0 ++ mjoin qs) ++ q).
    rewrite <-!app_assoc, (Permutation_app_comm q), (Permutation_app_comm q0), <-!app_assoc.
    by rewrite (Permutation_app_comm q q0).
  - change ((x ++ mjoin (<[i := q]> qs)) ++ q0 ≡ₚ (x ++ mjoin qs) ++ q). rewrite <-!app_assoc. by rewrite (IH i Hi).
Qed.

Lemma sorted_app_inv (l1 l2 : list Z) : StronglySorted Z.lt (l1 ++ l2) → StronglySorted Z.lt l1 ∧ StronglySorted Z.lt l2.
Proof.
  induction l1 as [|x l1 IH]; intros Hs; [by split; [constructor|]|]. cbn [app] in Hs.
  apply StronglySorted_inv in Hs as [Hs Hx]. destruct (IH Hs) as [H1 H2]. split; [|done].
  constructor; [done|]. by apply Forall_app in Hx as [? _].
Qed.

#[export] Instance take_end_rayon : Rayon take_end.
Proof.
  split.
  - intros qs qs' (i & j & h & l1 & l2 & Hi & Hj & Hne & ->). by rewrite !length_insert.
  - intros qs qs' (i & j & h & l1 & l2 & Hi & Hj & Hne & ->).
    assert (i ≠ j) by (intros ->; congruence).
    pose proof (mjoin_insert qs i _ (h :: l1) Hi) as H1.
    assert ((<[i := h :: l1]> qs) !! j = Some []) as Hj' by (by rewrite list_lookup_insert_ne).
    pose proof (mjoin_insert _ j _ l2 Hj') as H2. rewrite app_nil_r in H2. rewrite H2.
    apply (Permutation_app_inv_r (h :: l1)). rewrite <-H1, <-!app_assoc.
    by rewrite (Permutation_app_comm l2).
  - intros qs qs' (i & j & h & l1 & l2 & Hi & Hj & Hne & ->) Hs. rewrite Forall_lookup in Hs.
    pose proof (Hs _ _ Hi) as Hsi. change (h :: l1 ++ l2) with ((h :: l1) ++ l2) in Hsi.
    apply sorted_app_inv in Hsi as [H1 H2]. apply Forall_insert; [|done]. apply Forall_insert; [|done].
    by apply Forall_lookup.
  - intros qs qs' a h' q (i & j & h & l1 & l2 & Hi & Hj & Hne & ->) Ha.
    assert (a ≠ j) by (intros ->; congruence). rewrite list_lookup_insert_ne by done.
    destruct (decide (a = i)) as [->|]; [|rewrite list_lookup_insert_ne by done; by exists q].
    rewrite Hi in Ha. injection Ha as <- _. exists l1. apply list_lookup_insert_eq. by eapply lookup_lt_Some.
  - intros qs qs' (i & j & h & l1 & l2 & Hi & Hj & Hne & ->). assert (i ≠ j) by (intros ->; congruence).
    assert ((<[i := h :: l1]> qs) !! j = Some []) as Hj' by (by rewrite list_lookup_insert_ne).
    pose proof (sum_insert idle qs i _ (h :: l1) Hi) as H1. pose proof (sum_insert idle _ j _ l2 Hj') as H2.
    cbn [idle] in H1, H2. destruct l2 as [|x l2]; [done|]. cbn [idle] in H2. lia.
Qed.

Lemma seqZ_snoc n j : 0 ≤ j → seqZ n (Z.succ j) = seqZ n j ++ [n + j].
Proof. intros Hj. rewrite <-Z.add_1_r, seqZ_app by lia. by rewrite (seqZ_cons (n + j) 1) by lia. Qed.

Module Ex.
(** Two workers; the first has height 0, the second the rest of 40. *)
Definition qs (n : Z) : list (list Z) := [[0]; seqZ 1 (n - 1)].
(** The second worker sends [m] heights while the first is at height 0. *)
Definition sent (n : Z) (m : Z) : Sys :=
  mkSys [[0]; seqZ (1 + m) (n - 1 - m)] [Spinning; Spinning] (seqZ 1 m) ∅ Receiving 0.
End Ex.

Abbreviation ex_step := (pstep 32 512 40 take_end).

Lemma ex_handed : handed_out 40 0 (Ex.qs 40).
Proof.
  split; [by vm_compute|]. apply Forall_cons. split; [repeat constructor|]. apply Forall_cons.
  split; [|by apply Forall_nil]. vm_compute. repeat constructor.
Qed.

Lemma ex_sent m : 0 ≤ m → m ≤ 39 → rtc ex_step (start_state 0 (Ex.qs 40)) (Ex.sent 40 m).
Proof.
  intros Hm. pattern m. apply natlike_ind; [|clear m Hm|done].
  { intros _. apply rtc_refl. }
  intros m Hm IH Hle. etrans; [apply IH; lia|]. unfold Ex.sent.
  rewrite (seqZ_cons (1 + m)) by lia. replace (Z.succ (1 + m)) with (1 + Z.succ m) by lia.
  replace (Z.pred (40 - 1 - m)) with (40 - 1 - Z.succ m) by lia.
  eapply rtc_l; [eapply (StepPass _ _ _ _ _ _ _ _ _ _ 1); [done|done|by left]|].
  eapply rtc_l; [eapply (StepSend _ _ _ _ _ _ _ _ _ _ 1); [done|done|]|].
  { unfold len. rewrite length_seqZ. lia. }
  cbn [insert list_insert]. rewrite seqZ_snoc by lia. apply rtc_refl.
Qed.

Lemma ex_received j : 0 ≤ j → j ≤ 39 →
  rtc ex_step (Ex.sent 40 39) (mkSys [[0]; []] [Spinning; Spinning] (seqZ (1 + j) (39 - j)) (list_to_set (seqZ 1 j)) Receiving 0).
Proof.
  intros Hj. pattern j. apply natlike_ind; [|clear j Hj|done].
  { intros _. apply rtc_refl. }
  intros j Hj IH Hle. etrans; [apply IH; lia|].
  rewrite (seqZ_cons (1 + j)) by lia. replace (Z.succ (1 + j)) with (1 + Z.succ j) by lia.
  replace (Z.pred (39 - j)) with (39 - Z.succ j) by lia.
  eapply rtc_l; [by apply StepRecv|]. eapply rtc_l; [apply StepWait|].
  { intros [Hz%elem_of_singleton|Hz%elem_of_list_to_set]%elem_of_union; [lia|]. apply elem_of_seqZ in Hz. lia. }
  rewrite (seqZ_snoc 1 j) by lia. rewrite list_to_set_app_L. cbn [list_to_set].
  rewrite union_empty_r_L, union_comm_L. apply rtc_refl.
Qed.

(** The high-water mark does not bound the buffer: what was sent before the
    buffer filled up is still to come. With 39 blocks sent ahead of height 0 the
    buffer holds all 39, 7 over the mark. *)
Lemma buffer_over_watermark :
  ∃ s, rtc ex_step (start_state 0 (Ex.qs 40)) s ∧ Z.of_nat (size (buffer s)) = 39.
Proof.
  eexists. split; [etrans; [apply (ex_sent 39); lia|apply (ex_received 39); lia]|].
  vm_compute. reflexivity.
Qed.

Lemma pipeline_finishes_witness :
  ∃ s', rtc ex_step (Ex.sent 40 39) s' ∧ next s' = 40.
Proof.
  pose proof (@pipeline_finishes 32 512 40 take_end take_end_rayon 0 (Ex.qs 40) (Ex.sent 40 39)) as Hf.
  destruct Hf as (_ & _ & Hs); [reflexivity|discriminate|exact ex_handed|apply ex_sent; lia|exact Hs].
Defined.

Lemma parsed_blocks_bounded_witness :
  parsed_blocks (Ex.sent 40 39) = 39 ∧ parsed_blocks (Ex.sent 40 39) ≤ 32 + 512 + 2 + 1.
Proof.
  pose proof (@parsed_blocks_bounded 32 512 40 take_end take_end_rayon 0 (Ex.qs 40) (Ex.sent 40 39)) as Hf.
  split; [vm_compute; reflexivity|].
  destruct Hf as (Hb & _); [discriminate|discriminate|exact ex_handed|apply ex_sent; lia|exact Hb].
Defined.
