(* ===== verification/ParseRun.v ===== *)
(** * ParseRun: [bidx parse] and [bidx inspect], [bidx-cli/src/pipeline.rs]; the watchdog of [bidx-cli/src/bench/mod.rs]

    Everything around the ordered consumer: the memory limit, the range of
    heights, the disk check, the parse workers, and what the run returns. *)
From S2P Require Import Prelude F64 Text Hash Types Tx Block BlkFile Chain Utxo UtxoStore UtxoSpec UtxoThms Disk DiskGuard Node.
From S2P Require Import Tracker Parquet Pipeline PipelineThms FileCache.

(** [max_rss_kb], from the text of [/proc/meminfo] if it can be read. *)
Definition RESERVED_FOR_RUNTIME_KB : Z := 2 * 1024 * 1024.

(** The closure of [find_map] over the lines. *)
Definition line_kb (name line : rstr) : option Z :=
  rest ← strip_prefix name line; w ← head (split_whitespace rest); parse_uint u64_max w.

Definition field_kb (meminfo : option rstr) (name : rstr) : option Z :=
  text ← meminfo; head (omap (line_kb name) (str_lines text)).

Definition max_rss_kb (meminfo : option rstr) : Z :=
  let total_kb := default (16 * 1024 * 1024) (field_kb meminfo (str "MemTotal:")) in
  let available_kb := default total_kb (field_kb meminfo (str "MemAvailable:")) in
  Z.max (sat_sub (sat_sub available_kb (available_kb `div` 10)) RESERVED_FOR_RUNTIME_KB) (256 * 1024).

(** The watchdog: its thread samples the resident size until one is over the
    limit; here [samples] are those taken so far. *)
Record OomWatchdog : Type := mkWatchdog { wd_tripped : bool; wd_max_rss_kb : Z }.

Fixpoint watch (max_rss : Z) (samples : list Z) : bool :=
  match samples with
  | [] => false
  | rss :: samples => if max_rss <? rss then true else watch max_rss samples
  end.

Definition watchdog_start (max_rss : Z) (samples : list Z) : OomWatchdog := mkWatchdog (watch max_rss samples) max_rss.

Definition is_tripped (w : OomWatchdog) : bool := wd_tripped w.

(** The limit its error names, in MiB. *)
Definition tripped_error (w : OomWatchdog) : Z := wd_max_rss_kb w `div` 1024.

Record ParseConfig : Type := mkParseConfig {
  pc_blocks_dir : rstr; pc_out : rstr; pc_utxo : rstr; pc_start : Z; pc_end : option Z;
  pc_blocks_per_part : Z; pc_threads : option Z; pc_rpc_url : option rstr; pc_rpc_cookie : option rstr;
  pc_skip_disk_check : bool; pc_checkpoint_file : option rstr; pc_network : option Network;
  pc_orphan_blocks : option (gset Hash32) }.

Section run.
Context `{SHA : Sha256} `{RIP : Ripemd160} `{LIBM : Libm} `{FS : Fs} `{IO : !AppendIo} `{ENV : RpcEnv}.
Context `{ROCKS : RocksDB} `{CLOCK : Clock} `{ORDER : HashOrder} `{PARQ : ParquetLib}.

Inductive RunError : Type :=
  | ReBlk (e : BlkError)
  | ReEmptyChain
  | ReEmptyRange (start end_ : Z)
  | ReNoNetwork
  | ReRpcInit (e : RpcError)
  | ReBlockCount (e : RpcError)
  | ReGuard (e : GuardError)
  | ReParse (e : TxParseError)
  | RePipe (e : PipeError)
  | ReConsumerDropped
  | ReConsumerPanicked
  | ReHeight.

Definition chain_index (blocks_dir : rstr) : Res RunError (ChainIndex * ChainBuildStats) :=
  match build_chain_index blocks_dir with Some r => map_err ReBlk r | None => Panic end.

(** The range of heights. *)
Definition parse_range (cfg : ParseConfig) (index : ChainIndex) : Res RunError (Z * Z) :=
  tip ← ok_or ReEmptyChain (tip_height index);
  let start := Z.min (pc_start cfg) tip in
  let end_ := Z.min (default (u32 (tip + 1)) (pc_end cfg)) (u32 (tip + 1)) in
  if end_ <=? start then Err (ReEmptyRange start end_) else Ok (start, end_).

(** [cfg.utxo.parent()], or the current directory. *)
Definition parse_disk_cfg (cfg : ParseConfig) : Res RunError DiskGuardConfig :=
  network ← ok_or ReNoNetwork
    (match pc_network cfg with Some n => Some n | None => detect_from_blocks_dir (pc_blocks_dir cfg) end);
  let parent_of_utxo := default (str ".") (fs_parent (pc_utxo cfg)) in
  let file := default (fs_join parent_of_utxo DEFAULT_CHECKPOINT_FILE_NAME) (pc_checkpoint_file cfg) in
  Ok (mkGuard file network parent_of_utxo [pc_utxo cfg; pc_out cfg]).

(** The highest recorded checkpoint. *)
Definition local_tip (disk : DiskGuardConfig) (d : DiskView) : Z :=
  default 0 (cp_height <$> last (read_checkpoints (d_file d (checkpoint_file disk)) (dg_network disk))).

(** The orphans, or the configured ones when there are none or the call fails. *)
Definition ask_orphans (node : Transport) (cfg : ParseConfig) : M Net RunError (option (gset Hash32)) := λ net,
  match orphan_block_hashes node net with
  | (Ok set, net) => (Ok (if bool_decide (set = ∅) then pc_orphan_blocks cfg else Some set), net)
  | (Err _, net) => (Ok (pc_orphan_blocks cfg), net)
  | (Panic, net) => (Panic, net)
  end.

(** The disk check and the orphans asked of the node; [None] of the result means
    no filter. A failure to get the orphans is not fatal. *)
Definition parse_preflight (cfg : ParseConfig) (disk : DiskGuardConfig) (d : DiskView)
    : M Net RunError (option (gset Hash32)) :=
  if pc_skip_disk_check cfg then mret (pc_orphan_blocks cfg)
  else
    match pc_rpc_url cfg with
    | None => mret (pc_orphan_blocks cfg)
    | Some rpc_url =>
      node ← m_lift (map_err ReRpcInit (node_new (mkRpcConfig rpc_url (pc_rpc_cookie cfg) None None)));
      node_tip ← m_map_err ReBlockCount (get_block_count node);
      _ ← m_lift (map_err ReGuard (run_pre_flight disk d node_tip (local_tip disk d) MIN_FREE_BYTES));
      ask_orphans node cfg
    end.

(** What a worker does with the bytes of its block. *)
Definition work_item (orphans : option (gset Hash32)) (height : Z) (raw : bytes) : Res RunError WorkItem :=
  header_raw ← slice_at 0 80 raw;
  let header := header_parse header_raw in
  let hash := dsha256 header_raw in
  if match orphans with Some s => bool_decide (hash ∈ s) | None => false end then Ok (WiSkipped height)
  else
    block ← map_err ReParse (parse_block_full raw height hash header);
    Ok (WiBlock height block).

(** The closure of the workers, past the backpressure check: the item it sends. *)
Definition worker (blocks_dir : rstr) (index : ChainIndex) (orphans : option (gset Hash32)) (height : Z)
    : M CacheInner RunError WorkItem :=
  loc ← m_lift (Prelude.index (by_height index) height);
  raw ← m_map_err ReBlk (cached_block_bytes blocks_dir loc);
  m_lift (work_item orphans height raw).

(** [send_failed]. *)
Definition send_failed (w : OomWatchdog) : RunError :=
  if is_tripped w then RePipe (PeWatchdog (tripped_error w)) else ReConsumerDropped.

(** "Close the channel so the consumer can terminate": the workers' result comes
    first, the consumer's is looked at when they succeed; a panic of its thread
    is an error here. *)
Definition join_results (parse_result : Res RunError ()) (consumer : Res PipeError ()) : Res RunError () :=
  _ ← parse_result; match consumer with Panic => Err ReConsumerPanicked | r => map_err RePipe r end.

(** [run_parse]. [schedule] is the outcome of the parse stage, from the limits,
    the range and the orphans: the items the consumer receives, the result of
    the workers, and the watchdog's readings. *)
Record ParseStage : Type := mkStage {
  st_arrivals : list WorkItem; st_result : Res RunError (); st_tripped : Z → bool }.

Record RunEnv : Type := mkEnv {
  e_step : option rstr; e_meminfo : option rstr; e_disk : DiskView; e_trees : Z → rstr → option Entry;
  e_stage : ChainIndex → Z * Z → option (gset Hash32) → ParseStage }.

Definition run_parse (env : RunEnv) (cfg : ParseConfig) : M Net RunError (option Pipe) :=
  idx ← m_lift (chain_index (pc_blocks_dir cfg));
  range ← m_lift (parse_range cfg idx.1);
  disk ← m_lift (parse_disk_cfg cfg);
  orphans ← parse_preflight cfg disk (e_disk env);
  store ← m_lift (map_err (λ e, RePipe (PeUtxo e)) (store_open None (pc_utxo cfg)));
  let file := d_file (e_disk env) (checkpoint_file disk) in
  let stage := e_stage env idx.1 range orphans in
  let k := mkConf range.1 range.2 (pc_blocks_per_part cfg) (pc_out cfg) (e_step env) (e_trees env)
             (st_tripped stage) (max_rss_kb (e_meminfo env)) in
  let '(consumer, p) := consume_ordered k (st_arrivals stage) store (recorder_new disk file, file) in
  _ ← m_lift (join_results (st_result stage) consumer);
  mret p.

(** [inspect_block], up to printing. *)
Definition inspect_block (blocks_dir : rstr) (height : Z) : Res RunError (Hash32 * FullBlock) :=
  idx ← chain_index blocks_dir;
  loc ← ok_or ReHeight (by_height idx.1 !! Z.to_nat height);
  let path := fs_join blocks_dir (str "blk" ++ fmt_dec0 5 (file_id loc) ++ str ".dat") in
  bf ← map_err ReBlk (open path (file_id loc));
  raw ← map_err ReBlk (block_bytes bf loc);
  header_raw ← slice_at 0 80 raw;
  let header := header_parse header_raw in
  let hash := dsha256 header_raw in
  block ← map_err ReParse (parse_block_full raw height hash header);
  Ok (hash, block).
End run.

(** ** Specification *)

Section spec.
Context `{SHA : Sha256} `{RIP : Ripemd160} `{LIBM : Libm} `{FS : Fs} `{IO : !AppendIo} `{ENV : RpcEnv}.
Context `{ROCKS : RocksDB} `{CLOCK : Clock} `{ORDER : HashOrder} `{PARQ : ParquetLib}.

(** The pool: when the workers' stage succeeds, every height was given to a
    worker, and what the consumer receives is what they made of them, in some
    order; and the watchdog stayed quiet. *)
Definition stage_done (cfg : ParseConfig) (idx : ChainIndex) (range : Z * Z) (o : option (gset Hash32))
    (st : ParseStage) : Prop :=
  (∀ h, st_tripped st h = false) ∧
  (st_result st = Ok () → ∃ sent,
     Forall2 (λ h i, ∃ c, cache_ok (pc_blocks_dir cfg) c ∧ fst (worker (pc_blocks_dir cfg) idx o h c) = Ok i)
       (seqZ range.1 (range.2 - range.1)) sent ∧
     st_arrivals st ≡ₚ sent).

(** The blocks of the index from height [start], as the blk files hold them. *)
Definition blocks_read (blocks_dir : rstr) (idx : ChainIndex) (start : nat) (bs : list (Hash32 * bytes)) : Prop :=
  ∀ j b, bs !! j = Some b →
    b.1 = dsha256 (slice 0 80 b.2) ∧
    ∃ loc, by_height idx !! (start + j)%nat = Some loc ∧ read_block blocks_dir loc = Ok b.2.

(** ** Lemmas *)

(** A worker's item, whatever the state of the cache. *)
Lemma worker_item dir idx h c i :
  cache_ok dir c → 0 ≤ h → fst (worker dir idx None h c) = Ok i →
  ∃ raw fb, i = WiBlock h fb ∧ 80 ≤ len raw ∧
    parsed (Z.to_nat h) (dsha256 (slice 0 80 raw), raw) = Ok fb ∧
    ∃ loc, by_height idx !! Z.to_nat h = Some loc ∧ read_block dir loc = Ok raw.
Proof.
  intros Hc Hh Hw. unfold worker in Hw. m_unfold. unfold mbind, M_bind, m_lift in Hw.
  unfold Prelude.index in Hw. destruct (by_height idx !! Z.to_nat h) as [loc|] eqn:Hloc; [|done].
  unfold m_map_err in Hw. pose proof (proj1 (cached_block_bytes_run dir loc c Hc)) as Hr.
  destruct (cached_block_bytes dir loc c) as [r c']. cbn [fst] in Hr. subst r.
  destruct (read_block dir loc) as [raw|e|] eqn:Hread; [|done|done]. cbn in Hw. unfold work_item in Hw.
  unfold slice_at in Hw. destruct (_ && _ && (80 <=? len raw)) eqn:H80; [|done]. cbn in Hw.
  destruct (parse_block_full raw h (dsha256 (slice 0 80 raw)) (header_parse (slice 0 80 raw))) as [fb|e|] eqn:Hp; [|done|done].
  cbn in Hw. injection Hw as <-. exists raw, fb. split; [done|]. split.
  { apply andb_prop in H80 as [_ H80]. by apply Z.leb_le in H80. }
  split; [|by exists loc]. unfold parsed. cbn [fst snd]. by rewrite Z2Nat.id.
Qed.

(** The items of all heights are those of the blocks read. *)
Lemma workers_items dir idx (start n : nat) sent :
  Forall2 (λ h i, ∃ c, cache_ok dir c ∧ fst (worker dir idx None h c) = Ok i) (seqZ (Z.of_nat start) (Z.of_nat n)) sent →
  ∃ bs, length bs = n ∧ blocks_read dir idx start bs ∧ sent = chain_items start bs ∧
    ∀ j b, bs !! j = Some b → is_hash32 b.1 ∧ 80 ≤ len b.2 ∧ ∃ fb, parsed (start + j) b = Ok fb.
Proof.
  revert start sent. induction n as [|n IH]; intros start sent Hf.
  { apply Forall2_nil_inv_l in Hf as ->. by exists []. }
  rewrite seqZ_cons in Hf by lia. apply Forall2_cons_inv_l in Hf as (i & sent' & (c & Hc & Hw) & Hf & ->).
  replace (Z.pred (Z.of_nat (S n))) with (Z.of_nat n) in Hf by lia.
  replace (Z.succ (Z.of_nat start)) with (Z.of_nat (S start)) in Hf by lia.
  destruct (IH _ _ Hf) as (bs & Hl & Hread & -> & Hgood).
  destruct (worker_item dir idx (Z.of_nat start) c i Hc ltac:(lia) Hw) as (raw & fb & -> & H80 & Hp & loc & Hloc & Hr).
  rewrite Nat2Z.id in *. exists ((dsha256 (slice 0 80 raw), raw) :: bs). split; [by cbn; rewrite Hl|]. split_and!.
  - intros [|j] b Hj; [injection Hj as <-; split; [done|]; exists loc; by rewrite Nat.add_0_r|].
    replace (start + S j)%nat with (S start + j)%nat by lia. by apply Hread.
  - cbn [chain_items]. by rewrite Hp.
  - intros [|j] b Hj.
    + injection Hj as <-. rewrite Nat.add_0_r. split; [apply dsha256_len|]. split; [done|]. by exists fb.
    + replace (start + S j)%nat with (S start + j)%nat by lia. by apply Hgood.
Qed.

Lemma store_open_inv left path s : store_open left path = Ok s → store_inv s.
Proof.
  unfold store_open. intros (opts & d & cfs & _ & ->)%open_with_ok. by split.
Qed.

Lemma parse_range_bounds cfg idx start end_ :
  parse_range cfg idx = Ok (start, end_) → 0 ≤ pc_start cfg → start < end_ ∧ 0 ≤ start ∧ end_ < 2 ^ 32.
Proof.
  unfold parse_range. destruct (tip_height idx) as [tip|] eqn:Ht; [|done]. cbn. intros Hr H0.
  destruct (_ <=? _) eqn:Hle; [done|]. injection Hr as <- <-. apply Z.leb_gt in Hle.
  assert (0 ≤ tip) by (unfold tip_height in Ht; destruct (by_height idx); [done|injection Ht as <-; apply Z.mod_pos_bound; lia]).
  pose proof (Z.mod_pos_bound (tip + 1) (2 ^ 32) ltac:(lia)). unfold u32 in *. lia.
Qed.
(** ** Lemmas: a run whose chain is indexed and whose store opens *)

Section over.
Context (env : RunEnv) (cfg : ParseConfig) (net : Net) (idx : ChainIndex) (stats : ChainBuildStats).
Context (a b : Z) (disk : DiskGuardConfig) (store : UtxoStore).
Context (Hnode : pc_rpc_url cfg = None) (Horphans : pc_orphan_blocks cfg = None).
Context (Hidx : build_chain_index (pc_blocks_dir cfg) = Some (Ok (idx, stats))).
Context (Hrange : parse_range cfg idx = Ok (a, b)) (Hdisk : parse_disk_cfg cfg = Ok disk).
Context (Hstore : store_open None (pc_utxo cfg) = Ok store).

(** The parse stage and the consumer's configuration. *)
Let stage := e_stage env idx (a, b) None.
Let conf := mkConf a b (pc_blocks_per_part cfg) (pc_out cfg) (e_step env) (e_trees env) (st_tripped stage)
              (max_rss_kb (e_meminfo env)).

Lemma run_parse_stage : ∃ rec,
  run_parse env cfg net =
    (let '(consumer, p) := consume_ordered conf (st_arrivals stage) store rec in
     (_ ← join_results (st_result stage) consumer; Ok p, net)).
Proof.
  exists (recorder_new disk (d_file (e_disk env) (checkpoint_file disk)), d_file (e_disk env) (checkpoint_file disk)).
  unfold run_parse, parse_preflight. rewrite Hnode, Horphans.
  replace (if pc_skip_disk_check cfg then mret None else mret None : M Net RunError (option (gset Hash32)))
    with (mret None : M Net RunError (option (gset Hash32))) by by destruct (pc_skip_disk_check cfg).
  unfold chain_index, m_lift, mbind, M_bind, mret, M_ret. rewrite Hidx. cbn [map_err fst snd].
  rewrite Hrange. cbn [fst snd]. rewrite Hdisk, Hstore. cbn [map_err fst snd]. fold stage. fold conf.
  destruct (consume_ordered conf _ _ _) as [r p]. by destruct (join_results (st_result stage) r) as [[]|e|].
Qed.

(** The workers' failure is the run's. *)
Lemma run_parse_failed :
  match st_result stage with
  | Ok _ => True
  | Err e => fst (run_parse env cfg net) = Err e
  | Panic => fst (run_parse env cfg net) = Panic
  end.
Proof.
  destruct run_parse_stage as [rec ->]. by destruct (consume_ordered _ _ _ _), (st_result stage) as [[]|e|].
Qed.

(** When the workers succeed and the items are those of the blocks [bs]. *)
Lemma run_parse_over (bs : list (Hash32 * bytes)) :
  let start := Z.to_nat a in
  let U := utxos (db_view (db store)) in
  let bpp := pc_blocks_per_part cfg in
  0 < bpp → 0 ≤ pc_start cfg → 0 < checkpoint_step (e_step env) →
  (∀ h, st_tripped stage h = false) → st_result stage = Ok () → len bs = b - a →
  (∀ j r, bs !! j = Some r → is_hash32 r.1 ∧ 80 ≤ len r.2 ∧ ∃ fb, parsed (start + j) r = Ok fb) →
  st_arrivals stage ≡ₚ chain_items start bs →
  match run_parse env cfg net with
  | (Ok (Some pipe), _) =>
    (∀ x, utxos (db_view (db (p_store pipe))) x = chain_utxos U start bs x) ∧
    (p_closed pipe).*1 = seqZ (a `div` bpp) ((b - 1) `div` bpp - a `div` bpp + 1) ∧
    Forall (λ c : Z * list ArrowWriter, finished BATCH (part_ops bpp c.1 (chain_ops U start bs)) c.2) (p_closed pipe)
  | (Err e, _) => ∃ e', e = RePipe e' ∧ io_failure e'
  | (Ok None, _) | (Panic, _) => False
  end.
Proof.
  intros start U bpp Hbpp Hstart Hstep Hquiet Hres Hl Hgood Harr. destruct run_parse_stage as [rec ->].
  apply parse_range_bounds in Hrange as (Hab & Ha & Hb32); [|done].
  pose proof (consume_ordered_run conf start bs (st_arrivals stage) store rec Hbpp Hstep Hquiet) as Hc.
  cbn [conf k_blocks_per_part k_start k_end k_env k_tripped] in Hc.
  specialize (Hc ltac:(subst start; lia) ltac:(lia) ltac:(lia) ltac:(intros ->; rewrite len_nil in Hl; lia)
    (store_open_inv _ _ _ Hstore) Hgood Harr). cbv zeta in Hc.
  destruct (consume_ordered conf _ _ _) as [[u|e|] [pipe|]]; rewrite Hres; try done; cbn; [|by exists e..].
  destruct Hc as (_ & HU & Hids & Hparts & _). by split_and!.
Qed.
End over.
End spec.

(** ** Theorems *)

Section theorems.
Context `{SHA : Sha256} `{RIP : Ripemd160} `{LIBM : Libm} `{FS : Fs} `{IO : !AppendIo} `{ENV : RpcEnv}.
Context `{ROCKS : RocksDB} `{CLOCK : Clock} `{ORDER : HashOrder} `{PARQ : ParquetLib}.

(** C4: [bidx parse], from the blk files to the store and the part files. For a
    run without a node whose chain is indexed and whose store opens: when the
    parse stage succeeds it has read, for each height of the range, the block at
    that place of the index, and the run succeeds or fails in the database, a
    part file or the checkpoint file. When it succeeds the store holds the UTXO
    set those blocks make of the one it was opened with, and there is one set of
    part files for each part of the range, in order, each with exactly the rows
    of its blocks. When the parse stage fails, so does the run. *)
Theorem run_parse_indexes (env : RunEnv) (cfg : ParseConfig) (net : Net) (idx : ChainIndex) (stats : ChainBuildStats)
    (a b : Z) (disk : DiskGuardConfig) (store : UtxoStore)
    (Hbpp : 0 < pc_blocks_per_part cfg) (Hstart : 0 ≤ pc_start cfg) (Hstep : 0 < checkpoint_step (e_step env))
    (Hnode : pc_rpc_url cfg = None) (Horphans : pc_orphan_blocks cfg = None)
    (Hidx : build_chain_index (pc_blocks_dir cfg) = Some (Ok (idx, stats)))
    (Hrange : parse_range cfg idx = Ok (a, b)) (Hdisk : parse_disk_cfg cfg = Ok disk)
    (Hstore : store_open None (pc_utxo cfg) = Ok store)
    (Hstage : stage_done cfg idx (a, b) None (e_stage env idx (a, b) None)) :
  let stage := e_stage env idx (a, b) None in
  let start := Z.to_nat a in
  let U := utxos (db_view (db store)) in
  let bpp := pc_blocks_per_part cfg in
  match run_parse env cfg net with
  | (Ok (Some pipe), _) =>
    ∃ bs, len bs = b - a ∧ blocks_read (pc_blocks_dir cfg) idx start bs ∧
      (∀ x, utxos (db_view (db (p_store pipe))) x = chain_utxos U start bs x) ∧
      (p_closed pipe).*1 = seqZ (a `div` bpp) ((b - 1) `div` bpp - a `div` bpp + 1) ∧
      Forall (λ c : Z * list ArrowWriter, finished BATCH (part_ops bpp c.1 (chain_ops U start bs)) c.2) (p_closed pipe)
  | (Ok None, _) => False
  | (Err e, _) => st_result stage = Err e ∨ ∃ e', e = RePipe e' ∧ io_failure e'
  | (Panic, _) => st_result stage = Panic
  end.
Proof.
  cbv zeta. destruct Hstage as [Hquiet Hsent]. set (stage := e_stage env idx (a, b) None) in *.
  pose proof (run_parse_failed env cfg net idx stats a b disk store Hnode Horphans Hidx Hrange Hdisk Hstore) as Hfail.
  fold stage in Hfail. destruct (st_result stage) as [[]|e|] eqn:Hres.
  2: { destruct (run_parse env cfg net) as [r net']. cbn in Hfail. subst r. by left. }
  2: { destruct (run_parse env cfg net) as [r net']. cbn in Hfail. by subst r. }
  destruct (Hsent eq_refl) as (sent & Hf & Hperm). cbn [fst snd] in Hf.
  apply parse_range_bounds in Hrange as Hab; [|done].
  replace a with (Z.of_nat (Z.to_nat a)) in Hf by lia.
  replace (b - Z.of_nat (Z.to_nat a)) with (Z.of_nat (Z.to_nat (b - a))) in Hf by lia.
  destruct (workers_items _ _ _ _ _ Hf) as (bs & Hl & Hread & -> & Hgood).
  assert (len bs = b - a) as Hlen by (unfold len; lia).
  pose proof (run_parse_over env cfg net idx stats a b disk store Hnode Horphans Hidx Hrange Hdisk Hstore bs
    Hbpp Hstart Hstep Hquiet Hres Hlen Hgood Hperm) as Hc. cbv zeta in Hc.
  destruct (run_parse env cfg net) as [[[pipe|]|e|] net']; try done; [|by right].
  destruct Hc as (HU & Hids & Hparts). exists bs. by split_and!.
Qed.
End theorems.

(** ** Witness *)

Module Ex.
Import Hash.Ref.

(** A directory with one blk file of two blocks, no [xor.dat]. *)
Definition b0 : bytes := block_wire (Tracker.Ex.header 1) [Tracker.Ex.coinbase 1].
Definition b1 : bytes :=
  block_wire (mkHeader 1 (@dsha256 sha_ref (slice 0 80 b0)) (Tracker.Ex.id 5) 1231006505 0x1d00ffff 2) [Tracker.Ex.coinbase 2].
Definition fs : Fs := {|
  IoError := (); fs_open p := Ok p;
  fs_mmap _ := Ok (frames [(BLOCK_MAGIC, b0); (BLOCK_MAGIC, b1)]); fs_read _ := Err ();
  fs_read_dir _ := Ok [Ok (str "blk00000.dat", str "b/blk00000.dat")];
  fs_parent _ := Some (str "b"); fs_join d n := d ++ str "/" ++ n |}.
Definition io : @AppendIo fs := @Build_AppendIo fs None None (λ _ _, None).
(** Every block has the same work. *)
Definition libm : Libm := {| f64_log2 x := x; f64_exp2 _ := f64_of_Z 1 |}.

Definition cfg : ParseConfig :=
  mkParseConfig (str "b") (str "out") (str "b/utxo") 0 None 1 None None None true None (Some Mainnet) None.

(** The workers in order, each with its own cache; the items arrive reversed. *)
Definition work (fs : Fs) idx (range : Z * Z) o : list (Res (@RunError fs hex_ref Node.Ref.rpc_ref rocks_ref Parquet.Ex.lib) WorkItem) :=
  (λ h, fst (@worker sha_ref ripemd_ref fs hex_ref Node.Ref.rpc_ref rocks_ref Parquet.Ex.lib (str "b") idx o h cache_init)) <$>
    seqZ range.1 (range.2 - range.1).
Definition stage (fs : Fs) idx range o : @ParseStage fs hex_ref Node.Ref.rpc_ref rocks_ref Parquet.Ex.lib :=
  let items := omap res_ok (work fs idx range o) in
  @mkStage fs hex_ref Node.Ref.rpc_ref rocks_ref Parquet.Ex.lib (rev items)
    (if bool_decide (length items = length (work fs idx range o)) then Ok () else Err (@ReConsumerDropped _ _ _ _ _))
    (λ _, false).
Definition env (fs : Fs) : @RunEnv fs hex_ref Node.Ref.rpc_ref rocks_ref Parquet.Ex.lib :=
  @mkEnv fs hex_ref Node.Ref.rpc_ref rocks_ref Parquet.Ex.lib None None (DiskGuard.Ex.disk None 5)
    (λ _, DiskGuard.Ex.tree 5) (stage fs).
End Ex.

Lemma ex_stage_done (fs : Fs) idx range o :
  @stage_done Hash.Ref.sha_ref Hash.Ref.ripemd_ref fs Hash.Ref.hex_ref Node.Ref.rpc_ref rocks_ref Parquet.Ex.lib
    Ex.cfg idx range o (Ex.stage fs idx range o).
Proof.
  split; [done|]. unfold Ex.stage, Ex.work. cbn [st_result st_arrivals].
  set (f := λ h, fst (worker (str "b") idx o h cache_init)).
  case_bool_decide as Hl; [|done]. intros _. exists (omap res_ok (f <$> seqZ range.1 (range.2 - range.1))).
  split; [|symmetry; apply Permutation_rev]. revert Hl. generalize (seqZ range.1 (range.2 - range.1)). intros hs.
  assert (∀ hs, length (omap res_ok (f <$> hs)) ≤ length (f <$> hs))%nat as Hle.
  { induction hs0 as [|h hs0 IH]; [done|]. cbn. destruct (res_ok (f h)); cbn; lia. }
  induction hs as [|h hs IH]; [by constructor|]. cbn. intros Hl.
  destruct (f h) as [i|e|] eqn:Hf; cbn in *.
  - constructor; [|apply IH; lia]. exists cache_init. split; [apply cache_init_ok|done].
  - specialize (Hle hs). lia.
  - specialize (Hle hs). lia.
Qed.

Abbreviation ex_parse := (@run_parse Hash.Ref.sha_ref Ex.libm Ex.fs Ex.io Hash.Ref.hex_ref Node.Ref.rpc_ref rocks_ref clock_ref
  order_ref Parquet.Ex.lib (Ex.env Ex.fs) Ex.cfg (Tracker.Ex.net [])).

(** Both blocks of the file, each in a part of its own. *)
Lemma run_parse_indexes_witness :
  match ex_parse with
  | (Ok (Some p), _) => (@p_closed rocks_ref Parquet.Ex.lib p).*1 = [0; 1] ∧
      ∃ bs, length bs = 2%nat ∧ ∀ x, utxos (db_view (RocksDB := rocks_ref) (db (p_store p))) x =
          @chain_utxos Hash.Ref.sha_ref Hash.Ref.ripemd_ref (utxos ∅) 0 bs x
  | _ => False
  end.
Proof.
  assert (match ex_parse with (Ok (Some p), _) => true | _ => false end = true) as Hb by (vm_compute; reflexivity).
  assert (match @build_chain_index Ex.fs Hash.Ref.sha_ref Ex.libm order_ref (pc_blocks_dir Ex.cfg) with
          | Some (Ok (idx, _)) => match @parse_range Ex.fs Hash.Ref.hex_ref Node.Ref.rpc_ref rocks_ref Parquet.Ex.lib Ex.cfg idx with
             | Ok r => bool_decide (r = (0, 2)) | _ => false end | _ => false end = true)
    as Hr by (vm_compute; reflexivity).
  destruct (@build_chain_index Ex.fs Hash.Ref.sha_ref Ex.libm order_ref (pc_blocks_dir Ex.cfg)) as [[[idx stats]|e|]|] eqn:Hi;
    try discriminate Hr.
  destruct (@parse_range Ex.fs Hash.Ref.hex_ref Node.Ref.rpc_ref rocks_ref Parquet.Ex.lib Ex.cfg idx) as [r|e|] eqn:Hrange;
    try discriminate Hr.
  apply bool_decide_eq_true in Hr. subst r.
  pose proof (@run_parse_indexes Hash.Ref.sha_ref Hash.Ref.ripemd_ref Ex.libm Ex.fs Ex.io Hash.Ref.hex_ref
    Node.Ref.rpc_ref rocks_ref clock_ref order_ref Parquet.Ex.lib (Ex.env Ex.fs) Ex.cfg (Tracker.Ex.net []) idx stats 0 2 _
    (@mkStore rocks_ref (∅ : View) (str "b/utxo") ∅ None false false)
    eq_refl ltac:(discriminate) eq_refl eq_refl eq_refl Hi Hrange eq_refl eq_refl (ex_stage_done Ex.fs idx (0, 2) None)) as Hp.
  cbv zeta in Hp. destruct ex_parse as [[[p|]|e|] net']; try discriminate Hb.
  destruct Hp as (bs & Hl & _ & HU & Hids & _). split; [exact Hids|]. exists bs. split; [unfold len in Hl; lia|exact HU].
Defined.
