(* ===== verification/ParseBytes.v ===== *)
(** * ParseBytes: [bidx parse] from the bytes of a directory of blk files

    The index of Directory, the workers over it and the run of ParseRun
    composed, for a directory of serialized blocks. *)
From S2P Require Import Prelude F64 Text Cursor Hash Types Tx Block BlkFile Chain Directory Utxo UtxoStore UtxoSpec UtxoThms Disk DiskGuard Node.
From S2P Require Import Tracker Parquet Pipeline PipelineThms FileCache ParseRun.

(** ** Specification *)

Section spec.
Context `{SHA : Sha256} `{RIP : Ripemd160} `{LIBM : Libm} `{FS : Fs} `{IO : !AppendIo} `{ENV : RpcEnv}.
Context `{ROCKS : RocksDB} `{CLOCK : Clock} `{ORDER : HashOrder} `{PARQ : ParquetLib}.

(** A block as it is serialized. *)
Definition is_block (p : bytes) : Prop := ∃ h ts, block_wf h ts ∧ p = block_wire h ts.

(** The worker threads: those of [stage_done], which fail only when one of them
    fails on its height or the consumer hangs up. *)
Definition pool_runs (cfg : ParseConfig) (stage : ChainIndex → Z * Z → option (gset Hash32) → ParseStage) : Prop :=
  ∀ idx range,
    stage_done cfg idx range None (stage idx range None) ∧
    ((∀ h c, range.1 ≤ h < range.2 → cache_ok (pc_blocks_dir cfg) c →
        ∃ i, fst (worker (pc_blocks_dir cfg) idx None h c) = Ok i) →
     st_result (stage idx range None) = Ok () ∨ st_result (stage idx range None) = Err ReConsumerDropped).

(** The heights [a] to [b] of a chain, with the hashes. *)
Definition chain_range (bs : list bytes) (a b : Z) : list (Hash32 * bytes) :=
  (λ p, (block_id p, p)) <$> take (Z.to_nat (b - a)) (drop (Z.to_nat a) bs).

(** ** Lemmas *)

(** A serialized block parses, at any height. *)
Lemma parsed_block (h : nat) (p : bytes) : is_block p → 80 ≤ len p ∧ ∃ fb, parsed h (block_id p, p) = Ok fb.
Proof.
  intros (hd & ts & Hwf & ->). pose proof Hwf as (Hh & _).
  assert (slice 0 80 (block_wire hd ts) = header_bytes hd) as Hs.
  { unfold block_wire. apply slice_prefix. symmetry. by apply len_header_bytes. }
  split.
  - unfold block_wire. rewrite len_app, len_header_bytes by done. pose proof (len_nonneg (varint (len ts) ++ mjoin (tx_bytes <$> ts))). lia.
  - eexists. unfold parsed. cbn [fst snd]. rewrite Hs, <-(app_nil_r (header_bytes hd)), header_parse_bytes by done.
    by apply parse_block_wire.
Qed.

(** A worker on a height whose block the index can read. *)
Lemma worker_block dir idx h c loc p :
  cache_ok dir c → 0 ≤ h → by_height idx !! Z.to_nat h = Some loc → read_block dir loc = Ok p → is_block p →
  ∃ fb, parsed (Z.to_nat h) (block_id p, p) = Ok fb ∧ fst (worker dir idx None h c) = Ok (WiBlock h fb).
Proof.
  intros Hc Hh Hloc Hread Hp. destruct (parsed_block (Z.to_nat h) p Hp) as (H80 & fb & Hfb). exists fb. split; [done|].
  unfold worker. m_unfold. unfold mbind, M_bind, m_lift, Prelude.index. rewrite Hloc. unfold m_map_err.
  pose proof (proj1 (cached_block_bytes_run dir loc c Hc)) as Hr.
  destruct (cached_block_bytes dir loc c) as [r c']. cbn [fst] in Hr. subst r. rewrite Hread. cbn.
  unfold work_item. rewrite slice_at_ok by lia. cbn.
  unfold parsed in Hfb. cbn [fst snd] in Hfb. rewrite Z2Nat.id in Hfb by done.
  unfold block_id in Hfb. by rewrite Hfb.
Qed.

(** The blocks of a range of heights. *)
Lemma chain_range_lookup bs a b j r : chain_range bs a b !! j = Some r →
  ∃ p, r = (block_id p, p) ∧ bs !! (Z.to_nat a + j)%nat = Some p.
Proof.
  intros (p & -> & Hp)%list_lookup_fmap_Some. exists p. split; [done|].
  apply lookup_take_Some in Hp as [Hp _]. by rewrite lookup_drop in Hp.
Qed.

Lemma len_chain_range bs a b : 0 ≤ a → a ≤ b ≤ len bs → len (chain_range bs a b) = b - a.
Proof.
  intros Ha Hb. unfold chain_range. rewrite len_fmap. unfold len in *. rewrite length_take, length_drop. lia.
Qed.

(** The items of an index are determined by the blocks it reads. *)
Lemma items_of_index dir idx a b bs sent :
  0 ≤ a → a ≤ b ≤ len bs →
  Forall2 (λ loc p, read_block dir loc = Ok p) (by_height idx) bs →
  Forall2 (λ h i, ∃ c, cache_ok dir c ∧ fst (worker dir idx None h c) = Ok i) (seqZ a (b - a)) sent →
  sent = chain_items (Z.to_nat a) (chain_range bs a b).
Proof.
  intros Ha Hb Hread Hf. replace a with (Z.of_nat (Z.to_nat a)) in Hf by lia.
  replace (b - Z.of_nat (Z.to_nat a)) with (Z.of_nat (Z.to_nat (b - a))) in Hf by lia.
  destruct (workers_items _ _ _ _ _ Hf) as (rs & Hl & Hrs & -> & _). f_equal.
  pose proof (len_chain_range bs a b Ha Hb) as Hlc.
  apply list_eq_same_length with (length rs); [unfold len in *; lia|done|].
  intros j r r' _ Hr Hr'. apply chain_range_lookup in Hr' as (p & -> & Hp).
  destruct (Hrs j r Hr) as (Hid & loc & Hloc & Hb').
  destruct (Forall2_lookup_r _ _ _ _ _ Hread Hp) as (loc' & Hloc' & Hb'').
  assert (r.2 = p) as <- by congruence. destruct r as [r1 r2]. cbn in *. by rewrite Hid.
Qed.
End spec.

(** ** Theorems *)

Section theorems.
Context `{SHA : Sha256} `{RIP : Ripemd160} `{LIBM : Libm} `{FS : Fs} `{IO : !AppendIo} `{ENV : RpcEnv}.
Context `{ROCKS : RocksDB} `{CLOCK : Clock} `{ORDER : HashOrder} `{PARQ : ParquetLib}.

(** C3: [bidx parse] end to end. Over a directory whose blk files hold serialized
    blocks, obfuscated or not, in any order and with forks, copies, padding and
    incomplete tails, with a genesis among them: the run indexes the heaviest
    chain from a genesis, every worker reads and parses its block, and the run
    leaves the UTXO set which the blocks of the requested heights of that chain
    make of the one the store was opened with, and one set of part files per
    part with exactly the rows of its blocks. It fails only in the database, a
    part file or the checkpoint file, which hangs up on the workers. *)
Theorem parse_directory (env : RunEnv) (cfg : ParseConfig) (net : Net) (names : list rstr) (content : Z → BlkContent)
    (disk : DiskGuardConfig) (store : UtxoStore)
    (Hdir : blk_dir (pc_blocks_dir cfg) names content)
    (Hblocks : ∀ p, p ∈ stored names content → is_block p)
    (Hgenesis : ∃ p, p ∈ stored names content ∧ prev_hash (header_of p) = ZERO)
    (Hhash : hashes_ok (stored names content))
    (Hnan : ∀ bs, chain_of (stored names content) bs → not_nan (chain_work bs))
    (Hsize : len (stored names content) < 2 ^ 32)
    (Hbpp : 0 < pc_blocks_per_part cfg) (Hstart : 0 ≤ pc_start cfg) (Hend : from_option (λ e, pc_start cfg < e) True (pc_end cfg))
    (Hstep : 0 < checkpoint_step (e_step env)) (Hnode : pc_rpc_url cfg = None) (Horphans : pc_orphan_blocks cfg = None)
    (Hdisk : parse_disk_cfg cfg = Ok disk) (Hstore : store_open None (pc_utxo cfg) = Ok store)
    (Hpool : pool_runs cfg (e_stage env)) :
  ∃ bs, chain_of (stored names content) bs ∧
    (∀ bs', chain_of (stored names content) bs' → f64_le (chain_work bs') (chain_work bs) = true) ∧
    let a := Z.min (pc_start cfg) (len bs - 1) in
    let b := Z.min (default (len bs) (pc_end cfg)) (len bs) in
    let blocks := chain_range bs a b in
    let bpp := pc_blocks_per_part cfg in
    let U := utxos (db_view (db store)) in
    a < b ∧
    match run_parse env cfg net with
    | (Ok (Some pipe), _) =>
      (∀ x, utxos (db_view (db (p_store pipe))) x = chain_utxos U (Z.to_nat a) blocks x) ∧
      (p_closed pipe).*1 = seqZ (a `div` bpp) ((b - 1) `div` bpp - a `div` bpp + 1) ∧
      Forall (λ c : Z * list ArrowWriter,
        finished BATCH (part_ops bpp c.1 (chain_ops U (Z.to_nat a) blocks)) c.2) (p_closed pipe)
    | (Err e, _) => e = ReConsumerDropped ∨ ∃ e', e = RePipe e' ∧ io_failure e'
    | (Ok None, _) | (Panic, _) => False
    end.
Proof.
  pose proof (build_chain_index_dir _ names content Hdir Hhash Hnan Hsize) as Hi.
  set (ps := stored names content) in *. destruct Hgenesis as (g & Hg & Hz).
  destruct (build_chain_index (pc_blocks_dir cfg)) as [[[idx st]|e|]|] eqn:Hidx; try done.
  2: { destruct Hi as [[_ Hnil]|[_ Hno]]; [rewrite Hnil in Hg; by apply not_elem_of_nil in Hg|by destruct (Hno g Hg)]. }
  destruct Hi as [bs [Hchain Hmax Hread _ Hlen Htip _]]. pose proof Hchain as (Hne & Hin & _).
  exists bs. split; [done|]. split; [done|]. intros a b blocks bpp U.
  assert (0 < len bs) as Hpos by (destruct bs; [done|rewrite len_cons; pose proof (len_nonneg bs); lia]).
  assert (a < b ∧ 0 ≤ a ∧ b ≤ len bs) as (Hab & Ha & Hb) by (unfold a, b; destruct (pc_end cfg); cbn in *; lia).
  split; [done|].
  assert (Forall is_block bs) as Hwire by (eapply Forall_impl; [exact Hin|exact Hblocks]).
  assert (parse_range cfg idx = Ok (a, b)) as Hrange.
  { unfold parse_range. rewrite Htip. cbn. rewrite Z.sub_add, (u32_small (len bs)) by lia.
    fold a. fold b. by rewrite (proj2 (Z.leb_gt b a)). }
  assert (∀ j r, blocks !! j = Some r → is_hash32 r.1 ∧ 80 ≤ len r.2 ∧ ∃ fb, parsed (Z.to_nat a + j) r = Ok fb) as Hgood.
  { intros j r (p & -> & Hp)%chain_range_lookup. split; [apply dsha256_len|].
    apply parsed_block. by eapply Forall_lookup_1. }
  destruct (Hpool idx (a, b)) as [[Hquiet Hsent] Hdone]. cbn [fst snd] in *.
  destruct Hdone as [Hres|Hres].
  - intros h c Hh Hc. destruct (lookup_lt_is_Some_2 bs (Z.to_nat h)) as [p Hp]; [unfold len in *; lia|].
    destruct (Forall2_lookup_r _ _ _ _ _ Hread Hp) as (loc & Hloc & Hr).
    destruct (worker_block (pc_blocks_dir cfg) idx h c loc p) as (fb & _ & Hw); [done|lia|done|done| |by eexists].
    by eapply Forall_lookup_1.
  - destruct (Hsent Hres) as (sent & Hf & Hperm). rewrite (items_of_index _ idx a b bs sent) in Hperm by (done || lia).
    pose proof (run_parse_over env cfg net idx st a b disk store Hnode Horphans Hidx Hrange Hdisk Hstore blocks
      Hbpp Hstart Hstep Hquiet Hres (len_chain_range bs a b Ha (conj (Z.lt_le_incl _ _ Hab) Hb)) Hgood Hperm) as Hc. cbv zeta in Hc.
    destruct (run_parse env cfg net) as [[[pipe|]|e|] net']; [exact Hc|done|by right|done].
  - pose proof (run_parse_failed env cfg net idx st a b disk store Hnode Horphans Hidx Hrange Hdisk Hstore) as Hfail.
    rewrite Hres in Hfail. destruct (run_parse env cfg net) as [r net']. cbn in Hfail. subst r. by left.
Qed.
End theorems.

(** ** Witness: two obfuscated files, a fork, a copy, children before parents, a partial record *)

Module Ex.
Import Hash.Ref.
Definition key : bytes := BlkFile.Ex.key.
Definition wire (prev : Hash32) (n : Z) : bytes :=
  block_wire (mkHeader 1 prev (Tracker.Ex.id n) 1231006505 0x1d00ffff n) [Tracker.Ex.coinbase n].
Definition b0 : bytes := Eval vm_compute in wire ZERO 1.
Definition b1 : bytes := Eval vm_compute in wire (@block_id sha_ref b0) 2.
Definition c1 : bytes := Eval vm_compute in wire (@block_id sha_ref b0) 3.
Definition c2 : bytes := Eval vm_compute in wire (@block_id sha_ref c1) 4.
Definition h0 : Hash32 := Eval vm_compute in @block_id sha_ref b0.
Definition h1 : Hash32 := Eval vm_compute in @block_id sha_ref b1.
Definition k1 : Hash32 := Eval vm_compute in @block_id sha_ref c1.
Definition k2 : Hash32 := Eval vm_compute in @block_id sha_ref c2.

Definition record (p : bytes) : Z * bytes := (BLOCK_MAGIC, p).
Definition content (id : Z) : BlkContent :=
  if id =? 0 then mkContent (record <$> [c2; b1; b0]) (zeros 5) else mkContent (record <$> [c1; b0]) (take 100 (frame (record b1))).
Definition names : list rstr := [str "blk00007.dat"; str "xor.dat"; str "blk00000.dat"].
Definition all : list bytes := [c1; b0; c2; b1; b0].
Definition raw (id : Z) : bytes := xor_mask key (frames (bc_frames (content id)) ++ bc_rest (content id)).
Definition raw0 : bytes := Eval vm_compute in raw 0.
Definition raw7 : bytes := Eval vm_compute in raw 7.

Definition fs : Fs := {|
  IoError := (); fs_open p := Ok p;
  fs_mmap p := Ok (if bool_decide (p = str "b/blk00000.dat") then raw0 else raw7);
  fs_read p := if bool_decide (p = str "b/xor.dat") then Ok key else Err ();
  fs_read_dir _ := Ok ((λ n, Ok (n, str "b/" ++ n)) <$> names);
  fs_parent _ := Some (str "b"); fs_join d n := d ++ str "/" ++ n |}.
Definition io : @AppendIo fs := @Build_AppendIo fs None None (λ _ _, None).
Definition cfg : ParseConfig := ParseRun.Ex.cfg.
Definition disk : DiskGuardConfig :=
  mkGuard (str "b/" ++ DEFAULT_CHECKPOINT_FILE_NAME) Mainnet (str "b") [str "b/utxo"; str "out"].
Definition libm : Libm := ParseRun.Ex.libm.
End Ex.

Lemma ex_stored : stored Ex.names Ex.content = Ex.all.
Proof. vm_compute. reflexivity. Qed.

Lemma ex_blk_dir : @blk_dir Ex.fs (str "b") Ex.names Ex.content.
Proof.
  split; [reflexivity|]. intros id Hid. assert (id = 7 ∨ id = 0) as [-> | ->].
  { assert (omap parse_blk_name Ex.names = [7; 0]) as Ho by (vm_compute; reflexivity). rewrite Ho in Hid. set_solver. }
  all: split; [eexists; split; [reflexivity|vm_compute; reflexivity]| |apply (bool_decide_eq_true _); vm_compute; reflexivity|by vm_compute|done].
  all: repeat constructor; by vm_compute.
Qed.

(** A fork: [b1] and [c1] on [b0], [c2] on [c1]; [b0] stored twice. *)
Section fork.
Context `{SHA : Sha256} (b0 b1 c1 c2 : bytes) (h0 h1 k1 k2 : Hash32).
Context (Hids : block_id <$> [b0; b1; c1; c2] = [h0; h1; k1; k2]).
Context (Hprevs : prev_hash ∘ header_of <$> [b0; b1; c1; c2] = [ZERO; h0; h0; k1]).
Context (Hdist : NoDup [ZERO; h0; h1; k1; k2]).

Let all : list bytes := [c1; b0; c2; b1; b0].

Lemma fork_cases p : p ∈ all →
  (p = b0 ∧ block_id p = h0 ∧ prev_hash (header_of p) = ZERO) ∨ (p = b1 ∧ block_id p = h1 ∧ prev_hash (header_of p) = h0) ∨
  (p = c1 ∧ block_id p = k1 ∧ prev_hash (header_of p) = h0) ∨ (p = c2 ∧ block_id p = k2 ∧ prev_hash (header_of p) = k1).
Proof.
  injection Hids as ? ? ? ?. injection Hprevs as ? ? ? ?. unfold all.
  rewrite !elem_of_cons, elem_of_nil. intros [->|[->|[->|[->|[->|[]]]]]]; tauto.
Qed.

Lemma fork_distinct :
  ZERO ≠ h0 ∧ ZERO ≠ h1 ∧ ZERO ≠ k1 ∧ ZERO ≠ k2 ∧ h0 ≠ h1 ∧ h0 ≠ k1 ∧ h0 ≠ k2 ∧ h1 ≠ k1 ∧ h1 ≠ k2 ∧ k1 ≠ k2.
Proof. rewrite !NoDup_cons in Hdist. set_solver. Qed.

Lemma fork_hashes : hashes_ok all.
Proof.
  pose proof fork_distinct as Hd. split.
  - intros p q Hp Hq Hid. f_equal.
    destruct (fork_cases p Hp) as [H|[H|[H|H]]], (fork_cases q Hq) as [H'|[H'|[H'|H']]]; intuition congruence.
  - exists (λ h, if decide (h = h0) then 0 else if decide (h = k2) then 2 else 1)%nat. intros p q Hp Hq Hid.
    destruct (fork_cases p Hp) as [(-> & Hi & Hr)|[(-> & Hi & Hr)|[(-> & Hi & Hr)|(-> & Hi & Hr)]]], (fork_cases q Hq) as [(-> & Hi' & Hr')|[(-> & Hi' & Hr')|[(-> & Hi' & Hr')|(-> & Hi' & Hr')]]];
      try (exfalso; intuition congruence); rewrite Hi, Hi'; repeat case_decide; intuition (congruence || lia).
  - intros p Hp. destruct (fork_cases p Hp) as [H|[H|[H|H]]]; intuition congruence.
Qed.

(** No block follows [b1] or [c2]. *)
Lemma fork_chains bs : chain_of all bs → bs ∈ [[b0]; [b0; b1]; [b0; c1]; [b0; c1; c2]].
Proof.
  pose proof fork_distinct as Hd.
  assert (∀ x bs, Forall (λ b, b ∈ all) bs → linked x bs →
    (x = h1 ∨ x = k2 → bs = []) ∧ (x = k1 → bs = [] ∨ bs = [c2]) ∧
    (x = h0 → bs = [] ∨ bs = [b1] ∨ bs = [c1] ∨ bs = [c1; c2])) as Hl.
  { intros x l Hin. revert x. induction Hin as [|p l Hp Hin IH]; intros x Hx; [by auto|].
    destruct Hx as [Hpx Hx]. specialize (IH _ Hx).
    destruct (fork_cases p Hp) as [(-> & Hi & Hr)|[(-> & Hi & Hr)|[(-> & Hi & Hr)|(-> & Hi & Hr)]]];
      rewrite Hi in IH; destruct IH as (I1 & I2 & I3); split_and!; intros; try (exfalso; intuition congruence).
    all: intuition (subst; auto). }
  intros (Hne & Hin & Hlink). destruct bs as [|p bs]; [done|].
  apply Forall_cons in Hin as [Hp Hin]. destruct Hlink as [Hz Hlink].
  destruct (Hl _ _ Hin Hlink) as (_ & _ & H0).
  destruct (fork_cases p Hp) as [(-> & Hi & Hr)|[(-> & Hi & Hr)|[(-> & Hi & Hr)|(-> & Hi & Hr)]]]; [|exfalso; intuition congruence..].
  destruct (H0 Hi) as [->|[->|[->| ->]]]; [left|right; left|do 2 right; left|do 3 right; left].
Qed.

Lemma fork_long : chain_of all [b0; c1; c2].
Proof.
  injection Hids as H0 _ Hk _. injection Hprevs as P0 _ P1 P2. split; [done|].
  split; [unfold all; repeat constructor; set_solver|].
  split; [exact P0|]. split; [exact (eq_trans P1 (eq_sym H0))|]. by split; [exact (eq_trans P2 (eq_sym Hk))|].
Qed.
End fork.

Lemma ex_fork :
  @block_id Hash.Ref.sha_ref <$> [Ex.b0; Ex.b1; Ex.c1; Ex.c2] = [Ex.h0; Ex.h1; Ex.k1; Ex.k2] ∧
  prev_hash ∘ header_of <$> [Ex.b0; Ex.b1; Ex.c1; Ex.c2] = [ZERO; Ex.h0; Ex.h0; Ex.k1] ∧
  NoDup [ZERO; Ex.h0; Ex.h1; Ex.k1; Ex.k2].
Proof.
  split; [vm_compute; reflexivity|]. split; [vm_compute; reflexivity|].
  apply (bool_decide_eq_true _). vm_compute. reflexivity.
Qed.

Lemma ex_chains bs : @chain_of Hash.Ref.sha_ref (stored Ex.names Ex.content) bs →
  bs ∈ [[Ex.b0]; [Ex.b0; Ex.b1]; [Ex.b0; Ex.c1]; [Ex.b0; Ex.c1; Ex.c2]].
Proof. rewrite ex_stored. destruct ex_fork as (Hi & Hp & Hd). by eapply (@fork_chains Hash.Ref.sha_ref). Qed.

(** The work of a chain is its length here. *)
Lemma ex_works bs : bs ∈ [[Ex.b0]; [Ex.b0; Ex.b1]; [Ex.b0; Ex.c1]; [Ex.b0; Ex.c1; Ex.c2]] →
  @chain_work Ex.libm bs = f64_of_Z (len bs).
Proof.
  rewrite !elem_of_cons, elem_of_nil. intros [->|[->|[->|[->|[]]]]]; vm_compute; reflexivity.
Qed.

(** The longer branch is the heaviest chain. *)
Lemma ex_heaviest bs : let ps := stored Ex.names Ex.content in
  @chain_of Hash.Ref.sha_ref ps bs →
  (∀ bs', @chain_of Hash.Ref.sha_ref ps bs' → f64_le (@chain_work Ex.libm bs') (@chain_work Ex.libm bs) = true) →
  bs = [Ex.b0; Ex.c1; Ex.c2].
Proof.
  intros ps Hc Hmax. apply ex_chains in Hc as Hin.
  assert (@chain_of Hash.Ref.sha_ref ps [Ex.b0; Ex.c1; Ex.c2]) as Hlong.
  { unfold ps. rewrite ex_stored. destruct ex_fork as (Hi & Hp & _). by eapply (@fork_long Hash.Ref.sha_ref). }
  specialize (Hmax _ Hlong). rewrite (ex_works bs Hin), (ex_works [Ex.b0; Ex.c1; Ex.c2]) in Hmax by (do 3 right; left).
  rewrite !elem_of_cons, elem_of_nil in Hin. destruct Hin as [->|[->|[->|[->|[]]]]]; done.
Qed.

Lemma ex_wires : Forall (λ e, is_block (Ex.wire e.1 e.2)) [(ZERO, 1); (Ex.h0, 2); (Ex.h0, 3); (Ex.k1, 4)].
Proof.
  repeat (apply Forall_cons; split); [..|constructor]; cbn [fst snd]; (eexists _, _; split; [|reflexivity]).
  all: split_and!; [by vm_compute|repeat (constructor || split_and!); by vm_compute|by vm_compute|by vm_compute].
Qed.

Lemma ex_is_block p : p ∈ stored Ex.names Ex.content → is_block p.
Proof.
  rewrite ex_stored. pose proof ex_wires as Hw. rewrite !Forall_cons in Hw. destruct Hw as (H0 & H1 & H2 & H3 & _).
  cbn [fst snd] in *. unfold Ex.all. rewrite !elem_of_cons, elem_of_nil. intros [->|[->|[->|[->|[->|[]]]]]].
  all: [> exact H2|exact H0|exact H3|exact H1|exact H0].
Qed.

Abbreviation ex_parse := (@run_parse Hash.Ref.sha_ref Ex.libm Ex.fs Ex.io Hash.Ref.hex_ref Node.Ref.rpc_ref rocks_ref clock_ref
  order_ref Parquet.Ex.lib (ParseRun.Ex.env Ex.fs) Ex.cfg (Tracker.Ex.net [])).

Lemma ex_pool : @pool_runs Hash.Ref.sha_ref Hash.Ref.ripemd_ref Ex.fs Hash.Ref.hex_ref Node.Ref.rpc_ref rocks_ref Parquet.Ex.lib
  Ex.cfg (ParseRun.Ex.stage Ex.fs).
Proof.
  intros idx range. split; [apply ex_stage_done|]. intros _. unfold ParseRun.Ex.stage. cbn [st_result].
  case_bool_decide; [by left|by right].
Qed.

(** The run stores the blocks of the longer branch, whichever file holds them. *)
Lemma parse_directory_witness :
  match ex_parse with
  | (Ok (Some p), _) => (@p_closed rocks_ref Parquet.Ex.lib p).*1 = [0; 1; 2] ∧
      ∀ x, utxos (db_view (RocksDB := rocks_ref) (db (p_store p))) x =
        @chain_utxos Hash.Ref.sha_ref Hash.Ref.ripemd_ref (utxos ∅) 0 (@chain_range Hash.Ref.sha_ref [Ex.b0; Ex.c1; Ex.c2] 0 3) x
  | _ => False
  end.
Proof.
  assert (match ex_parse with (Ok (Some p), _) => true | _ => false end = true) as Hb by (vm_compute; reflexivity).
  destruct ex_fork as (Hi & Hpv & Hd).
  destruct (@parse_directory Hash.Ref.sha_ref Hash.Ref.ripemd_ref Ex.libm Ex.fs Ex.io Hash.Ref.hex_ref Node.Ref.rpc_ref
    rocks_ref clock_ref order_ref Parquet.Ex.lib (ParseRun.Ex.env Ex.fs) Ex.cfg (Tracker.Ex.net []) Ex.names Ex.content Ex.disk
    (@mkStore rocks_ref (∅ : View) (str "b/utxo") ∅ None false false) ex_blk_dir ex_is_block)
    as (bs & Hc & Hmax & _ & Hp).
  - exists Ex.b0. split; [rewrite ex_stored; right; left|vm_compute; reflexivity].
  - rewrite ex_stored. by eapply (@fork_hashes Hash.Ref.sha_ref).
  - intros bs Hc. apply ex_chains in Hc as Hin. rewrite (ex_works bs Hin).
    rewrite !elem_of_cons, elem_of_nil in Hin. by destruct Hin as [->|[->|[->|[->|[]]]]].
  - rewrite ex_stored. by vm_compute.
  - reflexivity.
  - discriminate.
  - exact I.
  - reflexivity.
  - reflexivity.
  - reflexivity.
  - reflexivity.
  - reflexivity.
  - exact ex_pool.
  - cbv zeta in Hp. destruct ex_parse as [[[p|]|e|] net']; try discriminate Hb.
    rewrite (ex_heaviest bs Hc Hmax) in Hp. destruct Hp as (HU & Hids & _). split; [exact Hids|exact HU].
Defined.
