(* ===== verification/Loader.v ===== *)
(** * Loader: the ClickHouse schema and bulk loader, [bidx-loader/src/lib.rs] and [bidx-loader/src/schema.rs]

    The statements the loader runs, and in which order. Running a program is a
    parameter, the class [Command]; the tables are compared with the schemas of
    the part files of [Parquet]. *)
From S2P Require Import Prelude Text Hash Types BlkFile Parquet.

(** [std::process]: the standard output and error of a program that ran, and
    whether it was successful. *)
Record Output : Type := mkOutput { success : bool; stdout : bytes; stderr : bytes }.

Class Command := {
  ProcState : Type;
  SpawnError : Type;
  output : rstr → list rstr → M ProcState SpawnError Output;
  output_no_panic : ∀ program args s, fst (output program args s) ≠ Panic
}.

(** [schema.rs]. *)
Module schema.
Definition ENTITIES : list rstr :=
  [str "blocks"; str "transactions"; str "inputs"; str "outputs"; str "spends"].

Definition blocks (db : rstr) : rstr :=
  str "CREATE TABLE IF NOT EXISTS " ++ db ++ str ".blocks " ++
  str "(height UInt32, hash FixedString(32), prev_hash FixedString(32), " ++
  str "merkle_root FixedString(32), time UInt32, bits UInt32, nonce UInt32, " ++
  str "version Int32, tx_count UInt32, size UInt32, weight UInt32, " ++
  str "total_fee UInt64, coinbase_value UInt64) " ++
  str "ENGINE = MergeTree " ++
  str "PARTITION BY intDiv(height, 10000) " ++
  str "ORDER BY height".

Definition transactions (db : rstr) : rstr :=
  str "CREATE TABLE IF NOT EXISTS " ++ db ++ str ".transactions " ++
  str "(height UInt32, tx_index UInt32, txid FixedString(32), version Int32, " ++
  str "locktime UInt32, size UInt32, weight UInt32, fee UInt64, " ++
  str "input_count UInt32, output_count UInt32, has_witness UInt8) " ++
  str "ENGINE = MergeTree " ++
  str "PARTITION BY intDiv(height, 10000) " ++
  str "ORDER BY (height, tx_index)".

Definition transactions_by_txid (db : rstr) : rstr :=
  str "CREATE TABLE IF NOT EXISTS " ++ db ++ str ".transactions_by_txid " ++
  str "(txid FixedString(32), height UInt32, tx_index UInt32) " ++
  str "ENGINE = MergeTree " ++
  str "ORDER BY txid".

Definition inputs (db : rstr) : rstr :=
  str "CREATE TABLE IF NOT EXISTS " ++ db ++ str ".inputs " ++
  str "(height UInt32, tx_index UInt32, input_index UInt32, txid FixedString(32), " ++
  str "prev_txid FixedString(32), prev_vout UInt32, script_sig_len UInt32, " ++
  str "sequence UInt32, witness_items UInt32, witness_bytes UInt32, is_coinbase UInt8) " ++
  str "ENGINE = MergeTree " ++
  str "PARTITION BY intDiv(height, 10000) " ++
  str "ORDER BY (height, tx_index, input_index)".

Definition inputs_by_prev_output (db : rstr) : rstr :=
  str "CREATE TABLE IF NOT EXISTS " ++ db ++ str ".inputs_by_prev_output " ++
  str "(prev_txid FixedString(32), prev_vout UInt32, height UInt32, " ++
  str "tx_index UInt32, input_index UInt32, txid FixedString(32)) " ++
  str "ENGINE = MergeTree " ++
  str "ORDER BY (prev_txid, prev_vout)".

Definition outputs (db : rstr) : rstr :=
  str "CREATE TABLE IF NOT EXISTS " ++ db ++ str ".outputs " ++
  str "(height UInt32, tx_index UInt32, output_index UInt32, txid FixedString(32), " ++
  str "value_sat UInt64, script_pubkey_len UInt32, script_type UInt8, " ++
  str "address_hash FixedString(32)) " ++
  str "ENGINE = MergeTree " ++
  str "PARTITION BY intDiv(height, 10000) " ++
  str "ORDER BY (height, tx_index, output_index)".

Definition outputs_by_address (db : rstr) : rstr :=
  str "CREATE TABLE IF NOT EXISTS " ++ db ++ str ".outputs_by_address " ++
  str "(address_hash FixedString(32), script_type UInt8, height UInt32, " ++
  str "tx_index UInt32, output_index UInt32, txid FixedString(32), value_sat UInt64) " ++
  str "ENGINE = MergeTree " ++
  str "ORDER BY (address_hash, height, tx_index, output_index)".

Definition spends (db : rstr) : rstr :=
  str "CREATE TABLE IF NOT EXISTS " ++ db ++ str ".spends " ++
  str "(height UInt32, spending_tx_index UInt32, spending_input_index UInt32, " ++
  str "spending_txid FixedString(32), spent_txid FixedString(32), spent_vout UInt32, " ++
  str "spent_value_sat UInt64, spent_script_type UInt8, " ++
  str "spent_address_hash FixedString(32), spent_height UInt32) " ++
  str "ENGINE = MergeTree " ++
  str "PARTITION BY intDiv(height, 10000) " ++
  str "ORDER BY (height, spending_tx_index, spending_input_index)".

Definition all_ddl (db : rstr) : list rstr :=
  [blocks db; transactions db; transactions_by_txid db; inputs db; inputs_by_prev_output db;
   outputs db; outputs_by_address db; spends db].
End schema.

Record ChConfig : Type := mkCh {
  ch_host : rstr; ch_port : Z; ch_user : rstr; ch_password : option rstr; ch_database : rstr }.

Definition ch_config_default : ChConfig :=
  mkCh (str "localhost") 9000 (str "default") None (str "bitcoin").

Record ChLoader : Type := mkLoader { ch_cfg : ChConfig; client : rstr }.

(** [String::from_utf8_lossy]: each maximal prefix of a sequence that cannot be
    completed becomes one replacement character. *)
Definition second_ok (x y : Z) : bool :=
  if x =? 0xE0 then (0xA0 <=? y) && (y <? 0xC0)
  else if x =? 0xED then (0x80 <=? y) && (y <? 0xA0)
  else if x =? 0xF0 then (0x90 <=? y) && (y <? 0xC0)
  else if x =? 0xF4 then (0x80 <=? y) && (y <? 0x90)
  else (0x80 <=? y) && (y <? 0xC0).

Definition REPLACEMENT : Z := 0xFFFD.

Fixpoint utf8_lossy (bs : bytes) : rstr :=
  match bs with
  | [] => []
  | a :: r1 =>
    let x := byteZ a in
    if x <? 0x80 then x :: utf8_lossy r1
    else if (x <? 0xC2) || (0xF5 <=? x) then REPLACEMENT :: utf8_lossy r1
    else
      match r1 with
      | [] => [REPLACEMENT]
      | b :: r2 =>
        let y := byteZ b in
        if negb (second_ok x y) then REPLACEMENT :: utf8_lossy r1
        else if x <? 0xE0 then ((x - 0xC0) * 64 + (y - 0x80)) :: utf8_lossy r2
        else
          match r2 with
          | [] => [REPLACEMENT]
          | c :: r3 =>
            let z := byteZ c in
            if negb (cont c) then REPLACEMENT :: utf8_lossy r2
            else if x <? 0xF0 then ((x - 0xE0) * 4096 + (y - 0x80) * 64 + (z - 0x80)) :: utf8_lossy r3
            else
              match r3 with
              | [] => [REPLACEMENT]
              | d :: r4 =>
                if negb (cont d) then REPLACEMENT :: utf8_lossy r3
                else ((x - 0xF0) * 262144 + (y - 0x80) * 4096 + (z - 0x80) * 64 + (byteZ d - 0x80)) :: utf8_lossy r4
              end
          end
      end
  end.

Section loader.
Context `{COMMAND : Command}.

Inductive LoadError : Type :=
  | NoClient
  | Client (message : rstr)
  | LeIo (e : SpawnError).

(** One round of [which_client]'s loop: the path [which] printed. *)
Definition which (name : rstr) : M ProcState LoadError (option rstr) := λ s,
  match output (str "which") [name] s with
  | (Ok out, s) =>
    let p := trim (utf8_lossy (stdout out)) in
    (Ok (if success out && negb (bool_decide (p = [])) then Some p else None), s)
  | (Err _, s) => (Ok None, s)
  | (Panic, s) => (Panic, s)
  end.

Fixpoint which_first (names : list rstr) : M ProcState LoadError (option rstr) :=
  match names with
  | [] => mret None
  | name :: names =>
    p ← which name;
    match p with Some p => mret (Some p) | None => which_first names end
  end.

Definition which_client : M ProcState LoadError (option rstr) :=
  which_first [str "clickhouse-client"; str "clickhouse"].

Definition loader_new (cfg : ChConfig) : M ProcState LoadError ChLoader :=
  client ← which_client;
  client ← m_lift (ok_or NoClient client);
  mret (mkLoader cfg client).

Definition base_args (l : ChLoader) : list rstr :=
  [str "--host=" ++ ch_host (ch_cfg l); str "--port=" ++ fmt_dec (ch_port (ch_cfg l));
   str "--user=" ++ ch_user (ch_cfg l)] ++
  match ch_password (ch_cfg l) with Some p => [str "--password=" ++ p] | None => [] end.

Definition run_query (l : ChLoader) (sql : rstr) : M ProcState LoadError () :=
  out ← m_map_err LeIo (output (client l) (base_args l ++ [str "--query=" ++ sql]));
  if success out then mret () else m_fail (Client (utf8_lossy (stderr out))).

Fixpoint run_queries (l : ChLoader) (sqls : list rstr) : M ProcState LoadError () :=
  match sqls with
  | [] => mret ()
  | sql :: sqls => _ ← run_query l sql; run_queries l sqls
  end.

Definition init_schema (l : ChLoader) : M ProcState LoadError () :=
  _ ← run_query l (str "CREATE DATABASE IF NOT EXISTS " ++ ch_database (ch_cfg l));
  run_queries l (schema.all_ddl (ch_database (ch_cfg l))).

Definition load_entity `{Fs} (l : ChLoader) (entity parquet_dir : rstr) : M ProcState LoadError () :=
  let glob := fs_join (fs_join parquet_dir entity) (str "*.parquet") in
  run_query l (str "INSERT INTO " ++ ch_database (ch_cfg l) ++ str "." ++ entity ++
               str " SELECT * FROM file('" ++ glob ++ str "', Parquet)").

Fixpoint load_entities `{Fs} (l : ChLoader) (entities : list rstr) (parquet_dir : rstr) : M ProcState LoadError () :=
  match entities with
  | [] => mret ()
  | entity :: entities => _ ← load_entity l entity parquet_dir; load_entities l entities parquet_dir
  end.

Definition load_all `{Fs} (l : ChLoader) (parquet_dir : rstr) : M ProcState LoadError () :=
  load_entities l schema.ENTITIES parquet_dir.
End loader.

(** The arms [InitDb] and [Load] of [main]. *)
Definition cmd_init_db `{Command} (cfg : ChConfig) : M ProcState LoadError () :=
  l ← loader_new cfg; init_schema l.

Definition cmd_load `{Command, Fs} (cfg : ChConfig) (input : rstr) : M ProcState LoadError () :=
  l ← loader_new cfg; load_all l input.

(** ** Specification *)

(** The ClickHouse type that holds the values of a column of the part files. *)
Definition ch_type (t : DataType) : rstr :=
  match t with
  | DUInt32 => str "UInt32" | DUInt64 => str "UInt64" | DInt32 => str "Int32"
  | DUInt8 | DBoolean => str "UInt8"
  | DFixedSizeBinary w => str "FixedString(" ++ fmt_dec w ++ str ")"
  end.

Fixpoint join_with (sep : rstr) (l : list rstr) : rstr :=
  match l with
  | [] => []
  | [x] => x
  | x :: l => x ++ sep ++ join_with sep l
  end.

Definition comma_list (l : list rstr) : rstr := join_with (str ", ") l.

Definition column (f : Field) : rstr := f_name f ++ str " " ++ ch_type (f_type f).

(** A table: its columns, whether it is partitioned by height, its order. *)
Record Table : Type := mkDdl { t_name : rstr; t_fields : list Field; t_partitioned : bool; t_order : list rstr }.

Definition order_by (keys : list rstr) : rstr :=
  match keys with [k] => k | _ => str "(" ++ comma_list keys ++ str ")" end.

Definition create_table (db : rstr) (t : Table) : rstr :=
  str "CREATE TABLE IF NOT EXISTS " ++ db ++ str "." ++ t_name t ++
  str " (" ++ comma_list (column <$> t_fields t) ++ str ") ENGINE = MergeTree " ++
  (if t_partitioned t then str "PARTITION BY intDiv(height, 10000) " else []) ++
  str "ORDER BY " ++ order_by (t_order t).

Definition entities : list Entity := [Blocks; Transactions; Inputs; Outputs; Spends].

Definition entity_name (e : Entity) : rstr :=
  match e with
  | Blocks => str "blocks" | Transactions => str "transactions" | Inputs => str "inputs"
  | Outputs => str "outputs" | Spends => str "spends"
  end.

(** What identifies a row: its height and its place in the block. *)
Definition row_key (e : Entity) : list rstr :=
  match e with
  | Blocks => [str "height"]
  | Transactions => [str "height"; str "tx_index"]
  | Inputs => [str "height"; str "tx_index"; str "input_index"]
  | Outputs => [str "height"; str "tx_index"; str "output_index"]
  | Spends => [str "height"; str "spending_tx_index"; str "spending_input_index"]
  end.

(** The table of an entity has the columns of its part files, in their order. *)
Definition entity_table (e : Entity) : Table := mkDdl (entity_name e) (schema_of e) true (row_key e).

(** A derived table has some of the columns, ordered by its first ones. *)
Definition pick (e : Entity) (names : list rstr) : list Field :=
  omap (λ n, head (filter (λ f, f_name f = n) (schema_of e))) names.

Definition projection (e : Entity) (suffix : rstr) (names order : list rstr) : Table :=
  mkDdl (entity_name e ++ suffix) (pick e names) false order.

Definition by_txid : Table :=
  projection Transactions (str "_by_txid") [str "txid"; str "height"; str "tx_index"] [str "txid"].

Definition by_prev_output : Table :=
  projection Inputs (str "_by_prev_output")
    [str "prev_txid"; str "prev_vout"; str "height"; str "tx_index"; str "input_index"; str "txid"]
    [str "prev_txid"; str "prev_vout"].

Definition by_address : Table :=
  projection Outputs (str "_by_address")
    [str "address_hash"; str "script_type"; str "height"; str "tx_index"; str "output_index"; str "txid"; str "value_sat"]
    [str "address_hash"; str "height"; str "tx_index"; str "output_index"].

Definition tables : list Table :=
  [entity_table Blocks; entity_table Transactions; by_txid; entity_table Inputs; by_prev_output;
   entity_table Outputs; by_address; entity_table Spends].

Definition create_database (db : rstr) : rstr := str "CREATE DATABASE IF NOT EXISTS " ++ db.

(** The part files of [create_writer] are in the directory of their entity. *)
Definition insert_parts `{Fs} (db dir : rstr) (e : Entity) : rstr :=
  str "INSERT INTO " ++ db ++ str "." ++ entity_name e ++ str " SELECT * FROM file('" ++
  fs_join (fs_join dir (entity_name e)) (str "*.parquet") ++ str "', Parquet)".

(** Running statements one after the other, up to the first that fails. *)
Inductive ran `{Command} (l : ChLoader) : list rstr → ProcState → Res LoadError () → ProcState → Prop :=
  | RanAll s : ran l [] s (Ok ()) s
  | RanOk sql sqls s out s1 r s' :
      output (client l) (base_args l ++ [str "--query=" ++ sql]) s = (Ok out, s1) → success out = true →
      ran l sqls s1 r s' → ran l (sql :: sqls) s r s'
  | RanRefused sql sqls s out s' :
      output (client l) (base_args l ++ [str "--query=" ++ sql]) s = (Ok out, s') → success out = false →
      ran l (sql :: sqls) s (Err (Client (utf8_lossy (stderr out)))) s'
  | RanNotStarted sql sqls s e s' :
      output (client l) (base_args l ++ [str "--query=" ++ sql]) s = (Err e, s') →
      ran l (sql :: sqls) s (Err (LeIo e)) s'.

(** ** Lemmas *)

Lemma all_ddl_tables db : schema.all_ddl db = create_table db <$> tables.
Proof. vm_compute. reflexivity. Qed.

(** Settles every test of the goal from the tests known. *)
Ltac by_tests :=
  repeat match goal with
  | |- context [if ?x =? ?n then _ else _] => destruct (Z.eqb_spec x n)
  | |- context [if ?b then _ else _] => first [replace b with true by lia|replace b with false by lia]
  end.

(** Valid text is not changed. *)
Lemma utf8_lossy_valid bs s : utf8_decode bs = Some s → utf8_lossy bs = s.
Proof.
  revert s. induction bs as [bs IH] using (induction_ltof1 _ (@length byte)). unfold ltof in IH. intros s.
  destruct bs as [|a r1]; [by intros [= <-]|]. cbn [utf8_decode utf8_lossy].
  assert (∀ (r : bytes) x, (length r ≤ length r1)%nat → (cons x <$> utf8_decode r) = Some s → x :: utf8_lossy r = s) as Hr.
  { intros r x Hl Hs. apply fmap_Some in Hs as (s' & Hs' & ->). f_equal. apply IH; [cbn; lia|done]. }
  destruct (byteZ a <? 0x80) eqn:H80; [by apply Hr|]. destruct r1 as [|b r2]; [done|]. cbn [length] in Hr.
  unfold second_ok, cont. destruct (_ && _ && _) eqn:H2; [intros Hs; by_tests; ((exfalso; lia) || (apply Hr; [cbn; lia|done]))|].
  destruct r2 as [|c r3]; [intros [=]|]. cbn [length] in Hr.
  destruct (_ && _ && _ && _ && _ && _) eqn:H3; [intros Hs; by_tests; ((exfalso; lia) || (apply Hr; [cbn; lia|done]))|].
  destruct r3 as [|d r4]; [intros [=]|]. cbn [length] in Hr.
  destruct (_ && _ && _ && _ && _ && _ && _) eqn:H4; [intros Hs; by_tests; ((exfalso; lia) || (apply Hr; [cbn; lia|done]))|intros [=]].
Qed.

Section proofs.
Context `{COMMAND : Command}.

Lemma run_queries_ran l sqls s :
  ran l sqls s (fst (run_queries l sqls s)) (snd (run_queries l sqls s)).
Proof.
  revert s. induction sqls as [|sql sqls IH]; intros s; [constructor|]. cbn [run_queries].
  unfold run_query, mbind, M_bind, m_map_err.
  pose proof (output_no_panic (client l) (base_args l ++ [str "--query=" ++ sql]) s) as Hp.
  destruct (output (client l) (base_args l ++ [str "--query=" ++ sql]) s) as [[out|e|] s1] eqn:Ho; [| |done].
  - cbn. destruct (success out) eqn:Hs; [eapply RanOk; [done..|apply IH]|by apply RanRefused].
  - by apply RanNotStarted.
Qed.

Lemma which_client_found s : ∃ c, fst (which_client s) = Ok c.
Proof.
  unfold which_client, which_first, which, mbind, M_bind.
  pose proof (output_no_panic (str "which") [str "clickhouse-client"] s) as H1.
  destruct (output (str "which") [str "clickhouse-client"] s) as [[o|e|] s1]; [| |done];
    [destruct (_ && _); [by eexists|]|];
    pose proof (output_no_panic (str "which") [str "clickhouse"] s1) as H2;
    (destruct (output (str "which") [str "clickhouse"] s1) as [[o2|e2|] s2]; [| |done]);
    try destruct (_ && _); by eexists.
Qed.

Lemma init_schema_queries l s :
  init_schema l s = run_queries l (create_database (ch_database (ch_cfg l)) :: (create_table (ch_database (ch_cfg l)) <$> tables)) s.
Proof. unfold init_schema. by rewrite all_ddl_tables. Qed.

Lemma load_all_queries `{Fs} l dir s :
  load_all l dir s = run_queries l (insert_parts (ch_database (ch_cfg l)) dir <$> entities) s.
Proof. done. Qed.
End proofs.

(** ** Theorem *)

(** C33: The loader. [bidx init-db] creates the database and then, in order, one
    table per kind of part file, with exactly the columns of the files, in
    their order and with the types that hold their values, partitioned by
    height and ordered by height and place in the block, and three more with
    some of those columns. [bidx load] inserts the part files of each kind, of
    the directory the sink writes them to, into its table. Both need a client
    on the path and stop at the first statement that fails, with its error. *)
Theorem loader_statements `{COMMAND : Command, FS : Fs} (l : ChLoader) (dir : rstr) (s : ProcState) :
  let db := ch_database (ch_cfg l) in
  ran l (create_database db :: (create_table db <$> tables)) s (fst (init_schema l s)) (snd (init_schema l s)) ∧
  ran l (insert_parts db dir <$> entities) s (fst (load_all l dir s)) (snd (load_all l dir s)) ∧
  (∀ e, In (entity_table e) tables ∧ In e entities) ∧
  ∀ cfg,
    let found := which_client s in
    let client := match fst found with Ok (Some c) => Some (mkLoader cfg c) | _ => None end in
    cmd_init_db cfg s = match client with Some l => init_schema l (snd found) | None => (Err NoClient, snd found) end ∧
    cmd_load cfg dir s = match client with Some l => load_all l dir (snd found) | None => (Err NoClient, snd found) end.
Proof.
  cbv zeta. split_and!.
  - rewrite init_schema_queries. apply run_queries_ran.
  - rewrite load_all_queries. apply run_queries_ran.
  - intros []; cbn; auto 10.
  - intros cfg. pose proof (which_client_found s) as [c Hc]. unfold cmd_init_db, cmd_load, loader_new, mbind, M_bind.
    destruct (which_client s) as [r s1]. cbn [fst snd] in *. subst r. by destruct c.
Qed.

(** ** Witness *)

Module Ex.
(** A client that logs what it is asked and refuses the statements on [spends]. *)
Definition refused (args : list rstr) : bool :=
  existsb (λ a, bool_decide (a = str "--query=" ++ insert_parts (H := BlkFile.Ex.fs) (str "bitcoin") (str "out") Spends)) args.

#[program] Definition command : Command := {|
  ProcState := list (rstr * list rstr); SpawnError := ();
  output program args s :=
    (Ok (mkOutput (negb (refused args))
           (if bool_decide (program = str "which") then utf8_encode (str "/usr/bin/clickhouse-client" ++ [10]) else [])
           [x6e; x6f; xff]), s ++ [(program, args)]) |}.
Next Obligation. done. Qed.

Definition loader : ChLoader := mkLoader ch_config_default (str "/usr/bin/clickhouse-client").

Definition result {A} (r : Res (@LoadError command) A) : option (option rstr) :=
  match r with Ok _ => Some None | Err (Client m) => Some (Some m) | _ => None end.
End Ex.

Lemma loader_statements_witness :
  let found := @which_client Ex.command [] in
  let r := @cmd_load Ex.command BlkFile.Ex.fs ch_config_default (str "out") [] in
  r = @load_all Ex.command BlkFile.Ex.fs Ex.loader (str "out") (snd found) ∧
  @ran Ex.command Ex.loader (@insert_parts BlkFile.Ex.fs (str "bitcoin") (str "out") <$> entities)
    (snd found) (fst r) (snd r) ∧
  Ex.result (fst r) = Some (Some [110; 111; 0xFFFD]) ∧ length (snd r) = 6%nat.
Proof.
  cbv zeta. pose proof (@loader_statements Ex.command BlkFile.Ex.fs Ex.loader (str "out") (snd (@which_client Ex.command [])))
    as (_ & Hran & _).
  pose proof (@loader_statements Ex.command BlkFile.Ex.fs Ex.loader (str "out") []) as (_ & _ & _ & Hcli).
  destruct (Hcli ch_config_default) as [_ Hload].
  assert (match fst (@which_client Ex.command []) with
          | Ok (Some c) => Some (mkLoader ch_config_default c) | _ => None end = Some Ex.loader) as Hc
    by (vm_compute; reflexivity).
  rewrite Hc in Hload. rewrite Hload. split_and!; [done|exact Hran|vm_compute; reflexivity|vm_compute; reflexivity].
Defined.
