(* ===== verification/Restart.v ===== *)
(** * Restart: a parse run that was interrupted, and the run after it

    What a block does to one key of the UTXO set does not depend on the set: it
    leaves the key, gives it a value or removes it. Hence blocks applied again
    over a set that already has some of them give the set they give once, and,
    when no output was missing the first time, the same rows. [bidx parse] with
    [apply_block] in bulk mode (no WAL, [bidx-store/src/utxo.rs]) relies on this:
    "reproducible from source". *)
From S2P Require Import Prelude F64 Text Hash Types Tx Block BlkFile Utxo UtxoStore UtxoSpec UtxoThms.
From S2P Require Import Disk DiskGuard Node Tracker Parquet Pipeline PipelineThms.

(** ** Specification *)

(** The outputs of a run of blocks that were looked up and not found. *)
Section spec.
Context `{SHA : Sha256} `{RIP : Ripemd160}.

Fixpoint chain_missing (U : bytes → option UtxoValue) (h : nat) (bs : list (Hash32 * bytes)) : Z :=
  match bs with
  | [] => 0
  | b :: bs =>
    match parsed h b with
    | Ok fb => e_missing (effect_of U h fb) + chain_missing (after U (effect_of U h fb)) (S h) bs
    | _ => 0
    end
  end.
End spec.

(** Every output of [U] is one of [U']. *)
Definition set_sub (U U' : bytes → option UtxoValue) : Prop := ∀ k v, U k = Some v → U' k = Some v.

(** What an input does to the key [k]: whether [k] is among the outputs of the
    block, with its value, and whether it was removed from the set. *)
Definition touch_input (k : bytes) (s : option UtxoValue * bool) (inp : InputRow) : option UtxoValue * bool :=
  if ir_is_coinbase inp then s
  else if decide (input_key inp = k) then match s.1 with Some _ => (None, s.2) | None => (None, true) end
  else s.

(** What a block does to [k]: nothing, or its new value. *)
Definition touch_block (h : nat) (fb : FullBlock) (k : bytes) : option (option UtxoValue) :=
  let s := foldl (touch_input k) (seed_pending (Z.of_nat h) (outputs fb) !! k, false) (inputs fb) in
  match s.1 with
  | Some v => Some (Some v)
  | None => if s.2 : bool then Some None else None
  end.

Section touch.
Context `{SHA : Sha256} `{RIP : Ripemd160}.

(** The last change of [k] by a run of blocks, after [t]. *)
Fixpoint touch_chain (t : option (option UtxoValue)) (h : nat) (bs : list (Hash32 * bytes)) (k : bytes)
    : option (option UtxoValue) :=
  match bs with
  | [] => t
  | b :: bs =>
    match parsed h b with
    | Ok fb => touch_chain (match touch_block h fb k with Some v => Some v | None => t end) (S h) bs k
    | _ => t
    end
  end.
End touch.

(** ** Lemmas: one block *)

Section block.
Variable U : bytes → option UtxoValue.

(** The loop over the inputs, seen from the key [k]. *)
Lemma touch_inputs k e s ins :
  s.1 = e_new e !! k → (k ∈ (e_spent e).*1 → s.2 = true) → (s.2 = true → k ∈ (e_spent e).*1 ∨ U k = None) →
  let e' := foldl (effect_input U) e ins in
  let s' := foldl (touch_input k) s ins in
  s'.1 = e_new e' !! k ∧ (k ∈ (e_spent e').*1 → s'.2 = true) ∧ (s'.2 = true → k ∈ (e_spent e').*1 ∨ U k = None).
Proof.
  revert e s. induction ins as [|i ins IH]; intros e [n d] H1 H2 H3; [done|]. cbn [foldl]. cbn [fst snd] in *.
  unfold effect_input at 2 4 6, touch_input at 2 4 6. destruct (ir_is_coinbase i); [by apply IH|].
  cbn [fst snd]. case_decide as Hk.
  - rewrite Hk. subst n. destruct (e_new e !! k) as [v|] eqn:Hn.
    + apply IH; cbn; [by rewrite lookup_delete_eq|done|done].
    + destruct (U k) as [v|] eqn:HU; apply IH; cbn; try done; [|by right].
      intros _. left. rewrite fmap_app. apply elem_of_app. right. by left.
  - destruct (e_new e !! input_key i) as [v|] eqn:Hn.
    + apply IH; cbn; [by rewrite lookup_delete_ne|done|done].
    + destruct (U (input_key i)) as [v|] eqn:HU; apply IH; cbn; try done.
      * rewrite fmap_app. intros [?|Hin%list_elem_of_singleton]%elem_of_app; [by apply H2|by destruct Hk].
      * intros [?|?]%H3; [left; rewrite fmap_app; apply elem_of_app|]; auto.
Qed.

Lemma after_touch h fb k : after U (effect_of U h fb) k = default (U k) (touch_block h fb k).
Proof.
  unfold effect_of, block_effect, touch_block, after.
  set (e0 := mkEffect (seed_pending (Z.of_nat h) (outputs fb)) [] [] 0 ∅ 0).
  destruct (touch_inputs k e0 (seed_pending (Z.of_nat h) (outputs fb) !! k, false) (inputs fb)) as (H1 & H2 & H3);
    [done|by intros ?%not_elem_of_nil|done|].
  cbv zeta. rewrite H1. destruct (e_new _ !! k) as [v|]; [done|].
  destruct (foldl (touch_input k) _ _).2 eqn:Hd.
  - case_decide as Hin; [done|]. by destruct (H3 eq_refl).
  - case_decide as Hin; [|done]. by apply H2 in Hin.
Qed.
End block.

(** A block all of whose inputs are found does the same over any larger set. *)
Lemma effect_sub U U' h fb :
  set_sub U U' → e_missing (effect_of U h fb) ≤ 0 → effect_of U' h fb = effect_of U h fb.
Proof.
  intros Hsub. unfold effect_of, block_effect.
  assert (∀ ins e, e_missing e ≤ e_missing (foldl (effect_input U) e ins)) as Hmono.
  { induction ins as [|i ins IH]; intros e; [done|]. cbn [foldl]. etrans; [|apply IH].
    unfold effect_input. repeat case_match; simpl; lia. }
  assert (0 ≤ e_missing (mkEffect (seed_pending (Z.of_nat h) (outputs fb)) [] [] 0 ∅ 0)) as H0 by done.
  revert H0. generalize (mkEffect (seed_pending (Z.of_nat h) (outputs fb)) [] [] 0 ∅ 0).
  induction (inputs fb) as [|i ins IH]; intros e H0; [done|]. cbn [foldl]. intros Hm.
  assert (effect_input U' e i = effect_input U e i ∧ 0 ≤ e_missing (effect_input U e i)) as [-> ?]; [|by apply IH].
  pose proof (Hmono ins (effect_input U e i)) as Hle. assert (e_missing (effect_input U e i) ≤ 0) as Hi by lia.
  revert Hi. clear Hle Hm. unfold effect_input. destruct (ir_is_coinbase i); [done|].
  destruct (e_new e !! input_key i); [done|]. destruct (U (input_key i)) as [v|] eqn:HU; simpl; [|lia].
  by rewrite (Hsub _ _ HU).
Qed.

Lemma set_sub_after U U' h fb : set_sub U U' → set_sub (after U (effect_of U h fb)) (after U' (effect_of U' h fb)).
Proof. intros Hsub k v. rewrite !after_touch. destruct (touch_block h fb k); [done|]. apply Hsub. Qed.

Lemma effect_missing_nonneg U h fb : 0 ≤ e_missing (effect_of U h fb).
Proof.
  unfold effect_of, block_effect. assert (∀ ins e, 0 ≤ e_missing e → 0 ≤ e_missing (foldl (effect_input U) e ins)) as Hm;
    [|by apply Hm].
  induction ins as [|i ins IH]; intros e He; [done|]. apply IH. unfold effect_input. repeat case_match; simpl; lia.
Qed.

(** ** Lemmas: a run of blocks *)

Section chain.
Context `{SHA : Sha256} `{RIP : Ripemd160}.

Lemma chain_touch U h bs k t U0 :
  U k = default (U0 k) t → chain_utxos U h bs k = default (U0 k) (touch_chain t h bs k).
Proof.
  revert U h t. induction bs as [|b bs IH]; intros U h t HU; [done|]. cbn [chain_utxos touch_chain].
  destruct (parsed h b) as [fb|e|]; [|done|done]. apply IH. rewrite after_touch. by destruct (touch_block h fb k).
Qed.

(** Every block parses at its height. *)
Definition all_parse (h : nat) (bs : list (Hash32 * bytes)) : Prop :=
  ∀ j b, bs !! j = Some b → ∃ fb, parsed (h + j) b = Ok fb.

Lemma all_parse_cons h b bs : all_parse h (b :: bs) → (∃ fb, parsed h b = Ok fb) ∧ all_parse (S h) bs.
Proof.
  intros Hg. split; [rewrite <-(Nat.add_0_r h); by apply Hg|]. intros j b' Hj.
  destruct (Hg (S j) b' Hj) as [fb' Hf']. exists fb'. by replace (S h + j)%nat with (h + S j)%nat by lia.
Qed.

Lemma touch_chain_app t h bs bs' k :
  all_parse h bs →
  touch_chain t h (bs ++ bs') k = touch_chain (touch_chain t h bs k) (h + length bs) bs' k.
Proof.
  revert t h. induction bs as [|b bs IH]; intros t h Hgood; [by rewrite Nat.add_0_r|]. cbn [app touch_chain length].
  apply all_parse_cons in Hgood as [[fb Hfb] Hgood]. rewrite Hfb.
  replace (h + S (length bs))%nat with (S h + length bs)%nat by lia. by apply IH.
Qed.

(** A run of blocks either changes [k] or not, whatever came before. *)
Lemma touch_chain_prior t h bs k :
  touch_chain t h bs k = match touch_chain None h bs k with Some v => Some v | None => t end.
Proof.
  revert t h. induction bs as [|b bs IH]; intros t h; [done|]. cbn [touch_chain].
  destruct (parsed h b) as [fb|e|]; [|done|done]. rewrite IH. rewrite (IH (match touch_block h fb k with Some v => Some v | None => None end)).
  destruct (touch_chain None (S h) bs k); [done|]. by destruct (touch_block h fb k).
Qed.

Lemma all_parse_take h bs n : all_parse h bs → all_parse h (take n bs).
Proof. intros Hg j b [Hj _]%lookup_take_Some. by apply Hg. Qed.

Lemma all_parse_drop h bs n : all_parse h bs → all_parse (h + n) (drop n bs).
Proof. intros Hg j b Hj. rewrite lookup_drop in Hj. apply Hg in Hj as [fb Hfb]. exists fb. by rewrite <-Nat.add_assoc. Qed.

(** The blocks from the [a]-th on, over a set that has the first [n]. *)
Lemma chain_resume U h bs a n k :
  all_parse h bs → (a ≤ n)%nat → (n ≤ length bs)%nat →
  chain_utxos (chain_utxos U h (take n bs)) (h + a) (drop a bs) k = chain_utxos U h bs k.
Proof.
  intros Hg Ha Hn.
  rewrite (chain_touch _ (h + a) (drop a bs) k None (chain_utxos U h (take n bs)) eq_refl).
  rewrite (chain_touch U h bs k None U eq_refl), (chain_touch U h (take n bs) k None U eq_refl).
  assert (∀ m, (a ≤ m)%nat → touch_chain None h (take m bs) k =
    touch_chain (touch_chain None h (take a bs) k) (h + a) (drop a (take m bs)) k) as Hsplit.
  { intros m Hm. rewrite <-(take_drop a (take m bs)) at 1. rewrite take_take, Nat.min_l by lia.
    rewrite touch_chain_app by (by apply all_parse_take). by rewrite length_take_le by lia. }
  pose proof (Hsplit (length bs) ltac:(lia)) as Hall. rewrite firstn_all in Hall. rewrite Hall, (Hsplit n Ha).
  rewrite (touch_chain_prior (touch_chain None h (take a bs) k) (h + a) (drop a bs)).
  rewrite (touch_chain_prior (touch_chain None h (take a bs) k) (h + a) (drop a (take n bs))).
  destruct (touch_chain None (h + a) (drop a bs) k) as [v|] eqn:Ht; [done|]. cbn.
  assert (touch_chain None (h + a) (drop a (take n bs)) k = None) as ->; [|by destruct (touch_chain None h (take a bs) k)].
  rewrite <-(take_drop (n - a) (drop a bs)), touch_chain_app, touch_chain_prior in Ht.
  - rewrite skipn_firstn_comm. by destruct (touch_chain None (h + a + _) _ k).
  - by apply all_parse_take, all_parse_drop.
Qed.

Lemma chain_missing_nonneg U h bs : 0 ≤ chain_missing U h bs.
Proof.
  revert U h. induction bs as [|b bs IH]; intros U h; [done|]. cbn [chain_missing].
  destruct (parsed h b) as [fb|e|]; [|done|done]. pose proof (effect_missing_nonneg U h fb).
  pose proof (IH (after U (effect_of U h fb)) (S h)). lia.
Qed.

Lemma chain_missing_ext U1 U2 h bs : (∀ k, U1 k = U2 k) → chain_missing U1 h bs = chain_missing U2 h bs.
Proof.
  revert U1 U2 h. induction bs as [|b bs IH]; intros U1 U2 h HU; [done|]. cbn [chain_missing].
  destruct (parsed h b) as [fb|e|]; [|done|done]. unfold effect_of. rewrite (block_effect_ext U1 U2) by done. f_equal.
  apply IH. intros k. unfold after. by rewrite HU.
Qed.

(** A complete history has the same rows over any larger set. *)
Lemma chain_ops_sub U U' h bs :
  set_sub U U' → chain_missing U h bs = 0 → chain_ops U' h bs = chain_ops U h bs ∧ chain_missing U' h bs = 0.
Proof.
  revert U U' h. induction bs as [|b bs IH]; intros U U' h Hsub; [done|]. cbn [chain_missing chain_ops].
  destruct (parsed h b) as [fb|e|]; [|done|done]. intros Hm.
  pose proof (chain_missing_nonneg (after U (effect_of U h fb)) (S h) bs).
  pose proof (effect_missing_nonneg U h fb). pose proof (effect_sub U U' h fb Hsub ltac:(lia)) as He.
  destruct (IH _ _ (S h) (set_sub_after U U' h fb Hsub) ltac:(lia)) as [Hops Hmiss]. unfold block_ops.
  rewrite Hops, Hmiss, He. split; [done|lia].
Qed.

(** The rows of a run, from its [a]-th block on. *)
Lemma chain_ops_drop U h bs a :
  all_parse h bs → drop a (chain_ops U h bs) = chain_ops (chain_utxos U h (take a bs)) (h + a) (drop a bs).
Proof.
  revert U h a. induction bs as [|b bs IH]; intros U h a Hg; [by destruct a|].
  destruct a as [|a]; [by rewrite Nat.add_0_r|]. apply all_parse_cons in Hg as [[fb Hfb] Hg].
  cbn [chain_ops take drop chain_utxos]. rewrite Hfb. cbn [drop]. rewrite IH by done.
  by replace (S h + a)%nat with (h + S a)%nat by lia.
Qed.
End chain.

(** ** Lemmas: a run that stops anywhere *)

Section stopped.
Context `{SHA : Sha256} `{RIP : Ripemd160}.
Context `{ROCKS : RocksDB} `{CLOCK : Clock} `{ORDER : HashOrder} `{PARQ : ParquetLib} `{FS : Fs} `{IO : !AppendIo}.

Abbreviation set_of p := (utxos (db_view (db (p_store p)))).

(** A step that does not touch the store, whatever its outcome. *)
Definition keeps_store {A} (m : M Pipe PipeError A) : Prop := ∀ p, p_store (snd (m p)) = p_store p.

Lemma keeps_bind {A B} (m : M Pipe PipeError A) (c : A → M Pipe PipeError B) :
  keeps_store m → (∀ a, keeps_store (c a)) → keeps_store (m ≫= c).
Proof.
  intros Hm Hc p. unfold mbind, M_bind. pose proof (Hm p) as Hp. destruct (m p) as [[a|e|] p']; [|done..].
  cbn in Hp. by rewrite Hc.
Qed.

Lemma keeps_lift {A} (r : Res PipeError A) : keeps_store (m_lift r).
Proof. done. Qed.

Lemma keeps_sink {A} (m : M ParquetSink SinkError A) : keeps_store (on_sink m).
Proof. intros p. unfold on_sink. destruct (m (p_sink p)). done. Qed.

Lemma keeps_finish : keeps_store finish_part.
Proof. intros p. unfold finish_part. destruct (sink_finish _); done. Qed.

Lemma keeps_record k h : keeps_store (record_height k h).
Proof. apply keeps_bind; [|done]. intros p. unfold on_recorder. by destruct (on_block_applied _ _ _ _). Qed.

Lemma keeps_rotate k h : keeps_store (rotate k h).
Proof.
  apply keeps_bind; [|intros q; apply keeps_bind; [done|intros p0]].
  - unfold part_of. destruct (_ =? 0); done.
  - case_bool_decide; [done|]. apply keeps_bind; [apply keeps_finish|intros _].
    apply keeps_bind; [done|intros _]. intros p. unfold open_part. by destruct (sink_create _ _ _).
Qed.

Variable k : Conf.

(** Handling a block either leaves the set alone or applies the block, and
    applies it when it succeeds. *)
Lemma consume_block_stops h b fb p :
  store_inv (p_store p) → is_u32 (Z.of_nat h) → parsed h b = Ok fb →
  match consume_block k (Z.of_nat h) fb p with
  | (r, p') =>
    ((∀ x, set_of p' x = set_of p x) ∧ (∀ u, r ≠ Ok u)) ∨
    (store_inv (p_store p') ∧ ∀ x, set_of p' x = after (set_of p) (effect_of (set_of p) h fb) x)
  end.
Proof.
  intros Hinv Hu Hp. pose proof (parsed_rows_wf _ _ _ Hp) as Hrows. unfold consume_block.
  destruct (k_tripped k _); [by left|]. unfold mbind at 1, M_bind at 1, mret, M_ret.
  unfold mbind at 1, M_bind at 1. pose proof (keeps_rotate k (Z.of_nat h) p) as Hrot.
  destruct (rotate k _ p) as [[u|e|] p1]; cbn in Hrot; [|left; by rewrite Hrot..].
  unfold mbind at 1, M_bind at 1. unfold on_store at 1.
  pose proof (apply_block_outcome (p_store p1) (Z.of_nat h) (txs fb) (inputs fb) (outputs fb)) as Ho.
  rewrite Hrot in Ho. rewrite Hrot. specialize (Ho Hinv Hrows Hu).
  destruct (apply_block _ _ _ _ (p_store p)) as [[r|e|] s2]; cbn; [|left; cbn; by rewrite Ho|done].
  apply applied_inv in Ho as [Hset Hinv2]; [|done..].
  match goal with |- match ?m ?p2 with _ => _ end =>
    assert (keeps_store m) as Hk; [|specialize (Hk p2); cbn in Hk; destruct (m p2) as [x p']] end.
  - apply keeps_bind; [done|intros _]. apply keeps_bind; [apply keeps_lift|intros b2].
    apply keeps_bind; [apply keeps_sink|intros _]. apply keeps_record.
  - right. cbn in Hk. rewrite Hk. split; [exact Hinv2|exact Hset].
Qed.

(** Whatever the outcome, the set is that of the first [n] blocks. *)
Lemma sequential_stops h bs p :
  store_inv (p_store p) → Z.of_nat h + len bs ≤ 2 ^ 32 → all_parse h bs →
  match sequential k (chain_items h bs) p with
  | (r, p') => ∃ n, (n ≤ length bs)%nat ∧ (∀ x, set_of p' x = chain_utxos (set_of p) h (take n bs) x) ∧
      (r = Ok () → n = length bs)
  end.
Proof.
  revert h p. induction bs as [|b bs IH]; intros h p Hinv Hlen Hg; [by exists 0%nat|].
  apply all_parse_cons in Hg as [[fb Hfb] Hg']. cbn [chain_items]. rewrite Hfb.
  rewrite len_cons in Hlen. pose proof (len_nonneg bs). cbn [sequential do_item]. unfold mbind, M_bind.
  pose proof (consume_block_stops h b fb p Hinv ltac:(unfold is_u32; lia) Hfb) as Hb.
  assert (∀ (r : Res PipeError ()) p1, r ≠ Ok () →
    ((∀ x, set_of p1 x = set_of p x) ∧ (∀ u, r ≠ Ok u)) ∨
    (store_inv (p_store p1) ∧ ∀ x, set_of p1 x = after (set_of p) (effect_of (set_of p) h fb) x) →
    ∃ n, (n ≤ length (b :: bs))%nat ∧ (∀ x, set_of p1 x = chain_utxos (set_of p) h (take n (b :: bs)) x) ∧
      (r = Ok () → n = length (b :: bs))) as Hstop.
  { intros r p1 Hr [[Hset _]|[_ Hset]]; [exists 0%nat|exists 1%nat]; (split; [cbn; lia|]); (split; [|done]); [done|].
    intros x. rewrite Hset. cbn [take chain_utxos]. by rewrite Hfb, take_0. }
  destruct (consume_block k _ fb p) as [[[]|e|] p1].
  - destruct Hb as [[_ Hb]|[Hinv1 Hset1]]; [by destruct (Hb ())|].
    pose proof (IH (S h) p1 Hinv1 ltac:(lia) Hg') as Hs.
    destruct (sequential k (chain_items (S h) bs) p1) as [r p2]. destruct Hs as (n & Hn & Hset & Hall).
    exists (S n). split; [cbn; lia|]. split; [|intros Hr; cbn; by rewrite Hall].
    intros x. rewrite Hset. cbn [take chain_utxos]. rewrite Hfb. by apply chain_ext.
  - by apply Hstop.
  - by apply Hstop.
Qed.

Lemma chain_items_take h bs m : all_parse h bs → take m (chain_items h bs) = chain_items h (take m bs).
Proof.
  revert h m. induction bs as [|b bs IH]; intros h m Hg; [by destruct m|]. cbn [chain_items].
  apply all_parse_cons in Hg as [[fb Hfb] Hg]. rewrite Hfb.
  destruct m as [|m]; [done|]. cbn [take chain_items]. rewrite Hfb. f_equal. by apply IH.
Qed.
End stopped.

(** ** Theorems *)

Section theorems.
Context `{SHA : Sha256} `{RIP : Ripemd160}.
Context `{ROCKS : RocksDB} `{CLOCK : Clock} `{ORDER : HashOrder} `{PARQ : ParquetLib} `{FS : Fs} `{IO : !AppendIo}.

(** C7: A parse run that is interrupted. Whatever stops the consumer, a failure
    of the database or of a file, the watchdog, workers that send only some of
    the blocks, or a panic, the UTXO set in the store is what a prefix of the
    blocks of the range makes of it, in height order; when the run succeeds it
    is all of them. *)
Theorem interrupted_parse_prefix (k : Conf) (start : nat) (bs : list (Hash32 * bytes)) (arrivals : list WorkItem)
    (store : UtxoStore) (rec : DiskRecorder * option bytes) (r : Res PipeError ()) (p : Pipe)
    (Hstart : k_start k = Z.of_nat start) (Hend : k_end k = k_start k + len bs) (H32 : k_end k < 2 ^ 32)
    (Hne : bs ≠ []) (Hstore : store_inv store) (Hparse : all_parse start bs)
    (Hnd : NoDup (wi_height <$> arrivals)) (Hsub : arrivals ⊆ chain_items start bs)
    (Hrun : consume_ordered k arrivals store rec = (r, Some p)) :
  ∃ n, (n ≤ length bs)%nat ∧ (r = Ok () → n = length bs) ∧
    ∀ x, utxos (db_view (db (p_store p))) x = chain_utxos (utxos (db_view (db store))) start (take n bs) x.
Proof.
  unfold consume_ordered in Hrun. destruct (_ =? 0); [done|]. destruct (sink_create _ _ _) as [s|e|]; [|done..].
  set (p0 := mkPipe s _ store rec 0 []) in *.
  destruct (chain_items_good start bs Hparse) as (Hl & Hblocks & Hcons). rewrite <-Hstart in Hcons.
  assert (chain_items start bs ≠ []) as Hne' by (intros He; rewrite He in Hl; by destruct bs).
  destruct (consume_items_run k (chain_items start bs) Hcons ltac:(unfold len in *; rewrite Hl; lia) ltac:(lia)
    arrivals Hnd Hsub Hne') as (Hm & _ & Heq).
  set (m := reached (chain_items start bs) arrivals) in *.
  destruct (consume_items k arrivals p0) as [r' p'] eqn:Hc. injection Hrun as -> ->.
  rewrite (m_eq_at Heq), chain_items_take in Hc by done. unfold mbind at 1, M_bind at 1 in Hc.
  pose proof (sequential_stops k start (take m bs) p0 Hstore) as Hs.
  destruct (sequential k _ p0) as [rs ps] eqn:Hseq. destruct Hs as (n & Hn & Hset & Hall).
  { assert (len (take m bs) ≤ len bs); [unfold len; rewrite length_take; lia|lia]. }
  { by apply all_parse_take. }
  rewrite take_take in Hset. rewrite length_take in Hn, Hall. exists (n `min` m)%nat. split; [lia|].
  assert (keeps_store (_ ← finish_part; if (m <? length (chain_items start bs))%nat
    then m_fail (PeClosedEarly (k_start k + Z.of_nat m) (k_end k)) else mret ())) as Hk.
  { apply keeps_bind; [apply keeps_finish|]. intros []. by case_match. }
  destruct rs as [[]|e|]; [|injection Hc as <- <-; by split..].
  specialize (Hk ps). rewrite Hc in Hk. cbn in Hk. rewrite Hk. split; [|done]. intros ->.
  unfold mbind, M_bind in Hc. destruct (finish_part ps) as [[u|e|] pf]; [|done..].
  destruct (m <? length (chain_items start bs))%nat eqn:Hlt; [done|]. apply Nat.ltb_ge in Hlt.
  rewrite Hall by done. lia.
Qed.

(** C6: Resuming a parse run. Over a store whose set is that of the first [n]
    blocks of a range (what an interrupted run leaves), a run from any height of
    the range not above the one the first run stopped at, to its end, leaves the
    set of the whole range: blocks that were applied may be applied again. The
    rows it writes are those of an uninterrupted run when it continues exactly
    where the first stopped, or when it starts over from an empty set and no
    output was missing. It fails only in the database or a file. *)
Theorem parse_resumes (k : Conf) (U : bytes → option UtxoValue) (start a n : nat) (bs : list (Hash32 * bytes))
    (arrivals : list WorkItem) (store : UtxoStore) (rec : DiskRecorder * option bytes)
    (Hbpp : 0 < k_blocks_per_part k) (Hstep : 0 < checkpoint_step (k_env k))
    (Hquiet : ∀ h, k_tripped k h = false)
    (Han : (a ≤ n ≤ length bs)%nat) (Ha : (a < length bs)%nat)
    (Hstart : k_start k = Z.of_nat (start + a)) (Hend : k_end k = Z.of_nat start + len bs) (H32 : k_end k < 2 ^ 32)
    (Hgood : ∀ j b, bs !! j = Some b → is_hash32 b.1 ∧ 80 ≤ len b.2 ∧ ∃ fb, parsed (start + j) b = Ok fb)
    (Hstore : store_inv store)
    (Hleft : ∀ x, utxos (db_view (db store)) x = chain_utxos U start (take n bs) x)
    (Harr : arrivals ≡ₚ chain_items (start + a) (drop a bs)) :
  let bpp := k_blocks_per_part k in
  match consume_ordered k arrivals store rec with
  | (Ok _, Some p) =>
    (∀ x, utxos (db_view (db (p_store p))) x = chain_utxos U start bs x) ∧
    (p_closed p).*1 = seqZ (k_start k `div` bpp) ((k_end k - 1) `div` bpp - k_start k `div` bpp + 1) ∧
    (a = n ∨ (a = 0%nat ∧ (∀ x, U x = None) ∧ chain_missing U start bs = 0) →
     Forall (λ c : Z * list ArrowWriter, finished BATCH (part_ops bpp c.1 (drop a (chain_ops U start bs))) c.2) (p_closed p))
  | (Ok _, None) | (Panic, _) => False
  | (Err e, _) => io_failure e
  end.
Proof.
  intros bpp. assert (all_parse start bs) as Hparse by (intros j b Hj; apply (Hgood j b Hj)).
  pose proof (consume_ordered_run k (start + a) (drop a bs) arrivals store rec Hbpp Hstep Hquiet Hstart) as Hr.
  cbv zeta in Hr. fold bpp in Hr. destruct (consume_ordered k arrivals store rec) as [[u|e|] [p|]].
  2-6: apply Hr; try done.
  1: destruct Hr as (_ & Hset & Hparts & Hrows & _); try done.
  all: try (unfold len in *; rewrite length_drop; lia).
  all: try (intros Hnil; apply (f_equal length) in Hnil; rewrite length_drop in Hnil; cbn in Hnil; lia).
  all: try (intros j b Hj; rewrite lookup_drop in Hj; rewrite <-Nat.add_assoc; by apply Hgood).
  assert (∀ x, chain_utxos (utxos (db_view (db store))) (start + a) (drop a bs) x = chain_utxos U start bs x) as Hall.
  { intros x. rewrite <-(chain_resume U start bs a n x Hparse) by lia. by apply chain_ext. }
  split; [intros x; by rewrite Hset|]. split; [done|]. intros Hcase.
  assert (chain_ops (utxos (db_view (db store))) (start + a) (drop a bs) = drop a (chain_ops U start bs)) as <-; [|done].
  destruct Hcase as [->|(-> & Hempty & Hmiss)].
  - rewrite chain_ops_drop by done. by apply chain_ops_ext.
  - rewrite Nat.add_0_r, !drop_0. apply chain_ops_sub; [|done]. intros x v. by rewrite Hempty.
Qed.
End theorems.

(** ** Concrete runs *)

Module Ex.
Import Hash.Ref.
(** A coinbase block, and one that also spends its output. *)
Definition payment : Tx :=
  mkTx 1 None [mkTxIn (@txid_of sha_ref (Tracker.Ex.coinbase 1)) 0 [] 0 []] [mkTxOut 4000 ([x00; x14] ++ le_bytes 20 9)] 0.
Definition paying : Hash32 * bytes :=
  (Tracker.Ex.id 3, block_wire (Tracker.Ex.header 3) [Tracker.Ex.coinbase 3; payment]).
Definition bs : list (Hash32 * bytes) := [Tracker.Ex.block 1; paying].
Definition items (h : nat) (bs : list (Hash32 * bytes)) : list WorkItem := @chain_items sha_ref ripemd_ref h bs.
Abbreviation pipe := (@Pipe rocks_ref Parquet.Ex.lib).

Abbreviation consume start end_ arrivals store :=
  (@consume_ordered rocks_ref clock_ref order_ref Parquet.Ex.lib BlkFile.Ex.fs Disk.Ex.io (Pipeline.Ex.conf start end_)
    arrivals store Pipeline.Ex.recorder).

(** The store of a new process over the same database. *)
Definition reopened (r : Res (@PipeError rocks_ref Parquet.Ex.lib BlkFile.Ex.fs) () * option pipe) : @UtxoStore rocks_ref :=
  match r with
  | (_, Some p) => @mkStore rocks_ref (@db rocks_ref (@p_store rocks_ref Parquet.Ex.lib p)) (str "db") ∅ None false false
  | (_, None) => Pipeline.Ex.store
  end.

(** A run whose workers fail after the first block, one over the first block
    only, and a run over what that leaves. *)
Definition sent : list WorkItem := take 1 (items 0 bs).
Definition stopped := consume 0 2 sent Pipeline.Ex.store.
Definition part := consume 0 1 (items 0 (take 1 bs)) Pipeline.Ex.store.
Definition resumed := consume 0 2 (rev (items 0 bs)) (reopened part).

#[global] Strategy expand [stopped part resumed].

(** How a run ended: well, or not, with a state. *)
Definition ended (r : Res (@PipeError rocks_ref Parquet.Ex.lib BlkFile.Ex.fs) () * option pipe) : option bool :=
  match r with (Ok _, Some _) => Some true | (_, Some _) => Some false | (_, None) => None end.
End Ex.

(** A range that is followed by others in the store cannot be processed again,
    as README.md says it can: the output the block at height 1 spends is no
    longer in the set (its fee and spend row are lost), and height 0 puts back
    an output that height 1 spent. *)
Lemma reprocessed_range_differs :
  let U := @chain_utxos Hash.Ref.sha_ref Hash.Ref.ripemd_ref (utxos ∅) 0 Ex.bs in
  let again h bs := @chain_utxos Hash.Ref.sha_ref Hash.Ref.ripemd_ref U h bs (Tracker.Ex.outpoint 1) in
  @chain_missing Hash.Ref.sha_ref Hash.Ref.ripemd_ref U 1 [Ex.paying] = 1 ∧
  uv_value_sat <$> again 0%nat [Tracker.Ex.block 1] = Some 5001.
Proof. split_and!; vm_compute; reflexivity. Qed.

(** ** Witnesses *)

Lemma ex_restart_good : @good_chain Hash.Ref.sha_ref Hash.Ref.ripemd_ref Ex.bs.
Proof. apply good_chain_check. vm_compute. reflexivity. Qed.

Lemma ex_all_parse : @all_parse Hash.Ref.sha_ref Hash.Ref.ripemd_ref 0 Ex.bs.
Proof. intros j b Hj. by destruct (proj2 ex_restart_good j b Hj) as (_ & _ & _ & H). Qed.

Lemma interrupted_parse_prefix_witness :
  match Ex.stopped with
  | (Err _, Some p) | (Panic, Some p) => ∃ n, (n ≤ 2)%nat ∧
      ∀ x, utxos (@db rocks_ref (@p_store rocks_ref Parquet.Ex.lib p)) x =
           @chain_utxos Hash.Ref.sha_ref Hash.Ref.ripemd_ref (utxos ∅) 0 (take n Ex.bs) x
  | _ => False
  end.
Proof.
  assert (Ex.ended Ex.stopped = Some false) as Hb by (vm_compute; reflexivity).
  pose proof (λ r p, @interrupted_parse_prefix Hash.Ref.sha_ref Hash.Ref.ripemd_ref rocks_ref clock_ref order_ref
    Parquet.Ex.lib BlkFile.Ex.fs Disk.Ex.io (Pipeline.Ex.conf 0 2) 0 Ex.bs Ex.sent Pipeline.Ex.store
    Pipeline.Ex.recorder r p) as Hr.
  fold Ex.stopped in Hr. destruct Ex.stopped as [x [p|]]; cbn [Ex.ended] in Hb; [|by destruct x].
  destruct (Hr x p) as (n & Hn & Hall & Hset).
  - reflexivity.
  - reflexivity.
  - reflexivity.
  - discriminate.
  - by split.
  - exact ex_all_parse.
  - apply (bool_decide_unpack _). vm_compute. exact I.
  - apply subseteq_take.
  - reflexivity.
  - clear Hr. destruct x as [[]|e|]; cbn [Ex.ended] in Hb; [discriminate Hb|exists n; by split..].
Defined.

(** What the run over one block left is what it makes. *)
Lemma ex_reopened_inv r : @store_inv rocks_ref (Ex.reopened r).
Proof. unfold Ex.reopened. destruct r as [x [p|]]; by split. Qed.

Lemma ex_left x :
  utxos (db_view (RocksDB := rocks_ref) (db (Ex.reopened Ex.part))) x =
  @chain_utxos Hash.Ref.sha_ref Hash.Ref.ripemd_ref (utxos ∅) 0 (take 1 Ex.bs) x.
Proof.
  assert (Ex.ended Ex.part = Some true) as Hb by (vm_compute; reflexivity).
  pose proof (@consume_ordered_run Hash.Ref.sha_ref Hash.Ref.ripemd_ref rocks_ref clock_ref order_ref Parquet.Ex.lib
    BlkFile.Ex.fs Disk.Ex.io (Pipeline.Ex.conf 0 1) 0 (take 1 Ex.bs) (Ex.items 0 (take 1 Ex.bs)) Pipeline.Ex.store
    Pipeline.Ex.recorder eq_refl eq_refl (λ _, eq_refl) eq_refl eq_refl eq_refl ltac:(discriminate) ltac:(by split)) as Hr.
  fold Ex.part in Hr. cbv zeta in Hr. destruct Ex.part as [[u|e|] [p|]]; cbn [Ex.ended] in Hb; try discriminate Hb.
  destruct Hr as (_ & HU & _); [|done|exact (HU x)].
  intros j b [Hj _]%lookup_take_Some. destruct (proj2 ex_restart_good j b Hj) as (H1 & _ & H2 & H3). by split_and!.
Qed.

Lemma parse_resumes_witness :
  match Ex.resumed with
  | (Ok _, Some p) =>
    (∀ x, utxos (@db rocks_ref (@p_store rocks_ref Parquet.Ex.lib p)) x =
          @chain_utxos Hash.Ref.sha_ref Hash.Ref.ripemd_ref (utxos ∅) 0 Ex.bs x) ∧
    Forall (λ c : Z * list (@ArrowWriter Parquet.Ex.lib), finished BATCH
      (part_ops (k_blocks_per_part (Pipeline.Ex.conf 0 2)) c.1
        (drop 0 (@chain_ops Hash.Ref.sha_ref Hash.Ref.ripemd_ref (utxos ∅) 0 Ex.bs))) c.2)
      (@p_closed rocks_ref Parquet.Ex.lib p)
  | _ => False
  end.
Proof.
  assert (Ex.ended Ex.resumed = Some true) as Hb by (vm_compute; reflexivity).
  assert (∀ x, utxos (db_view (RocksDB := rocks_ref) (db (Ex.reopened Ex.part))) x =
    @chain_utxos Hash.Ref.sha_ref Hash.Ref.ripemd_ref (utxos ∅) 0 (take 1 Ex.bs) x) as Hleft by apply ex_left.
  pose proof (@parse_resumes Hash.Ref.sha_ref Hash.Ref.ripemd_ref rocks_ref clock_ref order_ref Parquet.Ex.lib
    BlkFile.Ex.fs Disk.Ex.io (Pipeline.Ex.conf 0 2) (utxos ∅) 0 0 1 Ex.bs (rev (Ex.items 0 Ex.bs))
    (Ex.reopened Ex.part) Pipeline.Ex.recorder) as Hr.
  cbv zeta in Hr. fold Ex.resumed in Hr.
  destruct Ex.resumed as [[u|e|] [p|]]; cbn [Ex.ended] in Hb; try discriminate Hb.
  destruct Hr as (HU & _ & Hrows); [reflexivity|reflexivity|intros h; reflexivity|cbn; lia|cbn; lia|reflexivity|reflexivity
    |reflexivity| |apply ex_reopened_inv|exact Hleft|symmetry; apply Permutation_rev|].
  - intros j b Hj. destruct (proj2 ex_restart_good j b Hj) as (H1 & _ & H2 & H3). split; [exact H1|]. split; [exact H2|exact H3].
  - split; [exact HU|]. apply Hrows. right. split; [reflexivity|]. split; [intros x; reflexivity|].
    vm_compute. reflexivity.
Defined.
