(* ===== verification/LiveLoop.v ===== *)
(** * LiveLoop: the notification loop of [bidx-live/src/tracker.rs] over time

    [Tracker] shows what one [catch_up] does while the node serves its chain.
    Here the node may be unreachable for a while, notifications may be lost or
    malformed, and the chain grows between the rounds of [live_loop]. *)
From S2P Require Import Prelude F64 Text Hash Types Tx Block Utxo UtxoStore UtxoSpec UtxoThms Node Tracker.

(** ** Specification *)

Section spec.
Context `{SHA : Sha256} `{RIP : Ripemd160} `{ENV : RpcEnv} `{ZMQ : !ZmqLib}.

(** What the subscriber makes of a received message. *)
Definition announces (msg : list bytes) : Prop := ∃ h, parse_hashblock_multipart msg = Ok h.

Variable node : Transport.
Variable sock : Socket.

(** A call that is answered with [a], and leaves the network in [fwd], or fails
    and leaves it in [back]. *)
Definition answers {A} (r : Res RpcError A * Net) (a : A) (fwd back : Net → Prop) : Prop :=
  match r with (Ok a', s') => a' = a ∧ fwd s' | (Err _, s') => back s' | (Panic, _) => False end.

(** The node of chain [c] drops out during a [catch_up] that starts in [s] with
    the first [m] blocks of the chain applied: either it does not say its height, or
    it does, confirms the stored tip, and then may fail at any request. [fwd i]
    and [fwr i] are where the hash and the block at height [i] are requested;
    the network is left in [back i], where [i] blocks have been applied. *)
Definition drops_out (c : list (Hash32 * bytes)) (m : nat) (back : nat → Net → Prop) (s : Net) : Prop :=
  (∃ e s', get_block_count node s = (Err e, s') ∧ back m s') ∨
  ∃ fwd fwr : nat → Net → Prop,
    (∃ s1 s2 b, get_block_count node s = (Ok (len c - 1), s1) ∧ c !! pred m = Some b ∧
       get_block_hash node (Z.of_nat (pred m)) s1 = (Ok b.1, s2) ∧ fwd m s2) ∧
    (∀ i s b, fwd i s → c !! i = Some b → answers (get_block_hash node (Z.of_nat i) s) b.1 (fwr i) (back i)) ∧
    (∀ i s b, fwr i s → c !! i = Some b → answers (get_block_raw node b.1 s) b.2 (fwd (S i)) (back i)) ∧
    (∀ s, fwd (length c) s → back (length c) s).

(** The outside world comes back after at most [n] bad rounds, in each of which
    no block is announced, or one is but the node drops out; then a block is
    announced and the node answers everything (its state is in [up]). The first
    [m] blocks of the chain are applied. *)
Fixpoint recovers (c : list (Hash32 * bytes)) (up : Net → Prop) (n m : nat) (s : Net) : Prop :=
  match n with
  | O => ∃ msg s', recv_multipart sock s = (Ok msg, s') ∧ announces msg ∧ up s'
  | S n =>
    recovers c up n m s ∨
    (∃ r s', recv_multipart sock s = (r, s') ∧ r ≠ Panic ∧ (∀ msg, r = Ok msg → ¬ announces msg) ∧
       recovers c up n m s') ∨
    (∃ msg s', recv_multipart sock s = (Ok msg, s') ∧ announces msg ∧ drops_out c m (recovers c up n) s')
  end.

(** One after the other the node serves the chains [cs]; [m] blocks are applied
    at the start. *)
Inductive history : nat → list (list (Hash32 * bytes)) → Net → Prop :=
  | hist_nil m s : history m [] s
  | hist_cons up c n m cs s :
      serves node up c → good_chain c → recovers c up n m s → (∀ s', up s' → history (length c) cs s') →
      history m (c :: cs) s.
End spec.

(** A database whose reads and writes succeed. *)
Definition db_reliable `{RocksDB} : Prop :=
  (∀ d cf k e, db_get d cf k ≠ Err e) ∧ ∀ d b wo e d', db_write d b wo ≠ (Err e, d').

(** Each chain of a list extends the one before. *)
Fixpoint grows (c : list (Hash32 * bytes)) (cs : list (list (Hash32 * bytes))) : Prop :=
  match cs with [] => True | c' :: cs => c `prefix_of` c' ∧ grows c' cs end.

(** The events that are not just [CaughtUp]. *)
Definition is_news (e : Event) : bool := match e.1 with CaughtUp _ => false | _ => true end.
Definition news (es : list Event) : list Event := filter (λ e, is_news e = true) es.

Section theory.
Context `{SHA : Sha256} `{RIP : Ripemd160} `{ENV : RpcEnv} `{ZMQ : !ZmqLib}.
Context `{ROCKS : RocksDB} `{CLOCK : Clock} `{ORDER : HashOrder}.
Variable node : Transport.
Variable cfg : TrackerConfig.
Variable sock : Socket.

Abbreviation set_of w := (utxos (db_view (db (w_store w)))).
Abbreviation loop n w := (live_loop node cfg (Some sock) n w).

(** The store follows the chain [c] from [U], the set before its block at [h],
    having reported the blocks from there on, once and in order, after [es]. *)
Definition in_step (U : bytes → option UtxoValue) (h : nat) (es : list Event) (c : list (Hash32 * bytes)) (w : World) : Prop :=
  store_inv (w_store w) ∧
  (∃ b, last c = Some b ∧ stored_tip (w_store w) (mkTip (len c - 1) b.1)) ∧
  (∀ k, set_of w k = chain_utxos U h (drop h c) k) ∧
  news (w_events w) = es ++ chain_events U h (drop h c).

(** ** Lemmas *)

Lemma loop_add n m w w' : loop n w = (Ok (), w') → loop (n + m) w = loop m w'.
Proof.
  revert w. induction n as [|n IH]; intros w Hn; [by injection Hn as ->|]. cbn [Nat.add live_loop] in *.
  unfold mbind, M_bind in *. destruct (zmq_round _ _ _ w) as [[u|e|] w1]; [|done..]. by apply IH.
Qed.

(** A round without an announcement, and one with. *)
Lemma round_silent w r s' :
  recv_multipart sock (w_net w) = (r, s') → r ≠ Panic → (∀ msg, r = Ok msg → ¬ announces msg) →
  loop 1 w = (Ok (), mkWorld s' (w_store w) (w_events w)).
Proof.
  intros Hr Hp Hn. cbn [live_loop]. unfold mbind, M_bind, zmq_round, next_block_hash, m_map_err, mbind, M_bind. rewrite Hr.
  destruct r as [msg|e|]; [|done..]. cbn. specialize (Hn msg eq_refl). unfold announces in Hn.
  destruct (parse_hashblock_multipart msg) as [h|e|] eqn:Hp2; [by destruct Hn; exists h|done|].
  unfold parse_hashblock_multipart in Hp2. by repeat case_match.
Qed.

Lemma round_catch_up w msg s' :
  recv_multipart sock (w_net w) = (Ok msg, s') → announces msg →
  loop 1 w = match catch_up node cfg (mkWorld s' (w_store w) (w_events w)) with
             | (Err (ReorgTooDeep n), w') => (Err (ReorgTooDeep n), w')
             | (Panic, w') => (Panic, w')
             | (_, w') => (Ok (), w')
             end.
Proof.
  intros Hr [h Hh]. cbn [live_loop]. unfold mbind, M_bind, zmq_round, next_block_hash, m_map_err, mbind, M_bind. rewrite Hr.
  cbn. rewrite Hh. destruct (catch_up _ _ _) as [[u|[]|] w']; done.
Qed.

Lemma news_app es es' : news (es ++ es') = news es ++ news es'.
Proof. apply filter_app. Qed.

Lemma chain_news U h bs : news (chain_events U h bs) = chain_events U h bs.
Proof.
  revert U h. induction bs as [|b bs IH]; intros U h; [done|]. cbn [chain_events].
  destruct (parsed h b) as [fb|e|]; [|done|done]. unfold news in *. rewrite filter_cons_True by done. by rewrite IH.
Qed.

(** What the loop reaches. *)
Definition reaches (w : World) (P : World → Prop) : Prop := ∃ n w', loop n w = (Ok (), w') ∧ P w'.

Lemma reaches_now w (P : World → Prop) : P w → reaches w P.
Proof. intros HP. by exists 0%nat, w. Qed.

Lemma reaches_step w w1 (P : World → Prop) : loop 1 w = (Ok (), w1) → reaches w1 P → reaches w P.
Proof. intros H1 (n & w' & Hn & HP). exists (1 + n)%nat, w'. split; [|done]. by rewrite (loop_add 1 n w w1 H1). Qed.

Lemma reaches_trans w (P Q : World → Prop) : reaches w P → (∀ w', P w' → reaches w' Q) → reaches w Q.
Proof.
  intros (n & w1 & Hn & HP) HQ. destruct (HQ w1 HP) as (m & w' & Hm & Hq).
  exists (n + m)%nat, w'. split; [|done]. by rewrite (loop_add n m w w1 Hn).
Qed.

(** One more block of the chain, or another event that is no news. *)
Lemma in_step_next U h es c j b fb w w' :
  good_chain c → c !! S j = Some b → parsed (S j) b = Ok fb → (h ≤ S j)%nat →
  in_step U h es (take (S j) c) w → store_inv (w_store w') → stored_tip (w_store w') (mkTip (Z.of_nat (S j)) b.1) →
  (∀ k, set_of w' k = after (set_of w) (effect_of (set_of w) (S j) fb) k) →
  w_events w' = w_events w ++ [applied_event (set_of w) (S j) b fb] →
  in_step U h es (take (S (S j)) c) w'.
Proof.
  intros Hg Hb Hp Hh (_ & _ & Hset & Hnews) Hinv Htip Hset' Hev.
  pose proof (lookup_lt_Some _ _ _ Hb) as Hlt.
  assert (drop h (take (S (S j)) c) = drop h (take (S j) c) ++ [b]) as Hd.
  { rewrite (take_S_r _ _ _ Hb), drop_app_le; [done|]. rewrite length_take. lia. }
  destruct (chain_split U h (drop h (take (S j) c)) [b]) as [He Hu].
  { intros i x Hi. rewrite lookup_drop in Hi. apply lookup_take_Some in Hi as [Hi _].
    by apply (proj2 Hg) in Hi as (_ & _ & _ & ?). }
  rewrite length_drop, length_take in He, Hu.
  replace (h + (S j `min` length c - h))%nat with (S j) in He, Hu by lia.
  destruct (chain_ext _ _ (S j) [b] Hset) as [Hevs Hsets].
  cbn [chain_events chain_utxos] in *. rewrite Hp in *.
  split; [done|]. split; [|rewrite Hd; split].
  - exists b. split; [by rewrite (take_S_r _ _ _ Hb), last_snoc|]. unfold len. rewrite length_take.
    by replace (Z.of_nat (S (S j) `min` length c) - 1) with (Z.of_nat (S j)) by lia.
  - intros k. by rewrite Hset', Hu, <-Hsets.
  - rewrite Hev, news_app, Hnews, He, <-Hevs. unfold news at 1. rewrite filter_cons_True by done. by rewrite app_assoc.
Qed.

Lemma in_step_caught_up U h es c w n :
  in_step U h es c w → in_step U h es c (mkWorld (w_net w) (w_store w) (w_events w ++ [(CaughtUp n, None)])).
Proof.
  intros (H1 & H2 & H3 & H4). split_and!; [done..|]. cbn [w_events]. by rewrite news_app, H4, app_nil_r.
Qed.

(** ** Lemmas: a database that does not fail *)

Definition avoids {S E A} (bad : E → Prop) (m : M S E A) : Prop := ∀ s e s', m s = (Err e, s') → ¬ bad e.

Lemma avoids_bind {S E A B} bad (m : M S E A) (k : A → M S E B) :
  avoids bad m → (∀ a, avoids bad (k a)) → avoids bad (a ← m; k a).
Proof.
  intros Hm Hk s e s'. unfold mbind, M_bind. destruct (m s) as [[a|e1|] s1] eqn:Hms; [apply Hk| |done].
  intros [= -> ->]. by eapply Hm.
Qed.

Lemma avoids_lift {S E A} (bad : E → Prop) (r : Res E A) : (∀ e, r = Err e → ¬ bad e) → avoids bad (m_lift (S := S) r).
Proof. intros Hr s e s' [= He _]. by apply Hr. Qed.

Section reliable.
Hypothesis Hdb : db_reliable.

Definition rocks (e : UtxoError) : Prop := ∃ x, e = Rocks x.

Lemma avoids_db_get {S} d cf k : avoids (S := S) rocks (m_lift (map_err Rocks (db_get d cf k))).
Proof.
  apply avoids_lift. intros e He. pose proof (proj1 Hdb d cf k) as Hd. destruct (db_get d cf k) as [v|x|]; try done.
  by destruct (Hd x).
Qed.

Lemma avoids_store_write b wo : avoids rocks (store_write b wo).
Proof.
  intros s e s'. unfold store_write. destruct (db_write (db s) b wo) as [[u|x|] d] eqn:Hw; try done.
  by destruct (proj2 Hdb _ _ _ _ _ Hw).
Qed.

Lemma avoids_apply_inputs d undo height inps : avoids rocks (apply_inputs d undo height inps).
Proof.
  induction inps as [|inp inps IH]; [done|]. cbn [apply_inputs]. apply avoids_bind; [|done]. unfold apply_input.
  destruct (ir_is_coinbase inp); [done|]. apply avoids_bind; [done|]. intros s.
  assert (∀ sp fs v, avoids rocks (m_lift (S := Applying) (record_spend sp fs height inp v))) as Hrec.
  { intros. apply avoids_lift. intros e He. by apply record_spend_no_err in He. }
  destruct (p_pending s !! _); [by apply avoids_bind|].
  destruct (match p_recent s with Some _ => _ | None => _ end) as [[v|] rc]; [by apply avoids_bind|].
  apply avoids_bind; [done|]. intros _. apply avoids_bind; [apply avoids_db_get|].
  intros [raw|]; [|done]. destruct (utxo_decode raw); [by apply avoids_bind|done].
Qed.

Lemma avoids_apply_block height ts inps outs : avoids rocks (apply_block height ts inps outs).
Proof.
  intros s e s'. unfold apply_block. destruct (apply_inputs _ _ _ _ _) as [[[]|e1|] a] eqn:Ha; [| |done].
  2: { intros [= -> _]. by eapply avoids_apply_inputs. }
  destruct (subtract_outputs outs (p_fees a)) eqn:Hs; [|by apply subtract_outputs_no_err in Hs|done].
  destruct (db_write _ _ _) as [[u|x|] d] eqn:Hw; [done| |done]. by destruct (proj2 Hdb _ _ _ _ _ Hw).
Qed.

Lemma avoids_disconnect height : avoids rocks (disconnect_block height).
Proof.
  unfold disconnect_block. apply avoids_bind; [done|]. intros s. apply avoids_bind; [apply avoids_db_get|]. intros raw.
  apply avoids_bind; [apply avoids_lift; intros e He; destruct raw; simplify_eq/=; by intros []|]. intros r.
  apply avoids_bind; [apply avoids_lift; intros e He; destruct (undo_decode r); simplify_eq/=; by intros []|].
  intros u. apply avoids_store_write.
Qed.

Lemma avoids_utxo {A} (m : M UtxoStore UtxoError A) : avoids rocks m → avoids rocks_error (utxo m).
Proof.
  intros Hm w e w'. unfold utxo. destruct (m (w_store w)) as [[a|x|] s] eqn:Hs; try done.
  intros [= <- _] [y [= ->]]. eapply Hm; [exact Hs|by eexists].
Qed.

Lemma avoids_rpc {A} (m : M Net RpcError A) : avoids rocks_error (rpc m).
Proof. intros w e w'. unfold rpc. destruct (m (w_net w)) as [[a|x|] s]; try done. by intros [= <- _] []. Qed.

Lemma avoids_tip : avoids rocks (utxo_tip).
Proof.
  intros s e s'. unfold utxo_tip, tip. pose proof (proj1 Hdb (db s) CfMeta META_TIP_KEY) as Hd.
  destruct (db_get _ _ _) as [r|x|]; [done|by destruct (Hd x)|done].
Qed.

Lemma avoids_hash_or_zero h : avoids rocks_error (hash_or_zero node h).
Proof. intros w e w'. unfold hash_or_zero. by destruct (get_block_hash _ _ _) as [[]]. Qed.

Lemma avoids_reorg fuel d t : avoids rocks_error (reorg_loop node cfg fuel d t).
Proof.
  revert d t. induction fuel as [|fuel IH]; intros d t; [done|]. cbn [reorg_loop].
  apply avoids_bind; [apply avoids_hash_or_zero|]. intros x.
  destruct (_ && _); [done|]. destruct (_ =? 0); [done|]. destruct (_ <=? _).
  { intros w e w' [= <- _]. by intros []. }
  apply avoids_bind; [by destruct (d =? 0)|]. intros _.
  apply avoids_bind; [apply avoids_utxo, avoids_disconnect|]. intros _. apply avoids_bind; [done|]. intros _.
  apply avoids_bind; [apply avoids_rpc|]. intros p. apply avoids_bind; [apply avoids_utxo, avoids_store_write|].
  intros _. apply IH.
Qed.

Lemma avoids_fees i ts fs t e : fill_fees i ts fs t = Err e → ¬ rocks_error e.
Proof.
  revert i t. induction ts as [|x ts IH]; intros i t; [done|]. cbn [fill_fees]. unfold index.
  destruct (fs !! _); [|done]. cbn. destruct (fill_fees _ _ _ _) eqn:Hf; [done| |done].
  intros [= ->]. by eapply IH.
Qed.

Lemma avoids_apply_next t : avoids rocks_error (apply_next node t).
Proof.
  rewrite apply_next_fetches. apply avoids_bind; [apply avoids_rpc|]. intros x.
  apply avoids_bind; [apply avoids_rpc|]. intros raw. unfold apply_fetched.
  apply avoids_bind. { apply avoids_lift. intros e. unfold parse_header, slice_at. repeat case_match; try done. by intros [= <-] []. }
  intros hdr. apply avoids_bind.
  { apply avoids_lift. intros e. destruct (parse_block_full _ _ _ _); try done. by intros [= <-] []. }
  intros b. apply avoids_bind; [apply avoids_utxo, avoids_apply_block|]. intros r.
  apply avoids_bind; [apply avoids_lift; intros e; apply avoids_fees|]. intros f.
  apply avoids_bind; [apply avoids_utxo, avoids_store_write|]. intros _. by apply avoids_bind.
Qed.

Lemma avoids_catch_up : avoids rocks_error (catch_up node cfg).
Proof.
  unfold catch_up. apply avoids_bind; [apply avoids_rpc|]. intros n.
  apply avoids_bind; [apply avoids_utxo, avoids_tip|]. intros [t|].
  - apply avoids_bind; [apply avoids_reorg|]. intros t'. apply avoids_bind; [|done].
    generalize (S (Z.to_nat (n - tip_h t'))). intros fuel. revert t'.
    induction fuel as [|fuel IH]; intros t'; [done|]. cbn [forward_loop]. destruct (_ <? _); [|done].
    apply avoids_bind; [apply avoids_apply_next|apply IH].
  - apply avoids_bind; [apply avoids_rpc|]. intros x. apply avoids_bind; [apply avoids_utxo, avoids_store_write|done].
Qed.

(** ** Lemmas: rounds *)

(** The outcome of a computation while the node may drop out: a value and a
    world in [Q], or an error of the node with a world in [G]. *)
Definition wpx {A} (G : World → Prop) (m : TM A) (w : World) (Q : A → World → Prop) : Prop :=
  match m w with
  | (Ok a, w') => Q a w'
  | (Err e, w') => rocks_error e ∨ (∃ x, e = TeRpc x) ∧ G w'
  | (Panic, _) => False
  end.

Lemma wpx_bind {A B} G (m : TM A) (k : A → TM B) w Q :
  wpx G m w (λ a w', wpx G (k a) w' Q) → wpx G (a ← m; k a) w Q.
Proof. unfold wpx, mbind, M_bind. destruct (m w) as [[a|e|] w']; auto. Qed.

Lemma wpx_wp {A} G (m : TM A) w (Q : A → World → Prop) : wp m w Q → wpx G m w Q.
Proof. unfold wp, wpx. destruct (m w) as [[a|e|] w']; auto. Qed.

Lemma wpx_mono {A} G (m : TM A) w (Q Q' : A → World → Prop) :
  wpx G m w Q → (∀ a w', Q a w' → Q' a w') → wpx G m w Q'.
Proof. unfold wpx. destruct (m w) as [[a|e|] w']; auto. Qed.

Lemma wpx_rpc {A} G (m : M Net RpcError A) a fwd back w (Q : A → World → Prop) :
  answers (m (w_net w)) a fwd back →
  (∀ s', fwd s' → Q a (mkWorld s' (w_store w) (w_events w))) →
  (∀ s', back s' → G (mkWorld s' (w_store w) (w_events w))) → wpx G (rpc m) w Q.
Proof.
  unfold answers, wpx, rpc. destruct (m (w_net w)) as [[x|e|] s']; [|intros Hb _ HG|done].
  - intros [-> Hf] HQ _. by apply HQ.
  - right. split; [by eexists|]. by apply HG.
Qed.

Section drop.
Variables (U : bytes → option UtxoValue) (h : nat) (es : list Event) (c : list (Hash32 * bytes)).
Hypothesis Hgood : good_chain c.
Variable back : nat → Net → Prop.

(** Part of the chain may have been applied. *)
Definition some_step (n : nat) (w : World) : Prop :=
  ∃ m, (n ≤ m ≤ length c)%nat ∧ back m (w_net w) ∧ in_step U h es (take m c) w.

Lemma wpx_forward (fwd fwr : nat → Net → Prop) n j b w :
  (∀ i s x, fwd i s → c !! i = Some x → answers (get_block_hash node (Z.of_nat i) s) x.1 (fwr i) (back i)) →
  (∀ i s x, fwr i s → c !! i = Some x → answers (get_block_raw node x.1 s) x.2 (fwd (S i)) (back i)) →
  (∀ s, fwd (length c) s → back (length c) s) →
  c !! j = Some b → (h ≤ S j)%nat → (n ≤ S j)%nat → fwd (S j) (w_net w) → in_step U h es (take (S j) c) w →
  wpx (some_step n) (local ← forward_loop node (S (Z.to_nat (len c - 1 - Z.of_nat j))) (len c - 1) (mkTip (Z.of_nat j) b.1);
     on_event (CaughtUp (tip_h local)) None) w (λ _, some_step n).
Proof.
  intros Hhash Hraw Hback Hb Hh Hn Hf Hin. apply wpx_bind. revert Hb Hh Hn Hf Hin.
  remember (Z.to_nat (len c - 1 - Z.of_nat j)) as k eqn:Hk. revert j b w Hk.
  induction k as [|k IH]; intros j b w Hk Hb Hh Hn Hf Hin; pose proof (lookup_lt_Some _ _ _ Hb) as Hlt;
    cbn [forward_loop tip_h].
  - rewrite (proj2 (Z.ltb_ge _ _)) by (unfold len in *; lia). apply wpx_wp, wp_ret, wpx_wp, wp_event.
    assert (S j = length c) as Hj by (unfold len in *; lia).
    exists (S j). split; [lia|]. split; [rewrite Hj; apply Hback; by rewrite <-Hj|by apply in_step_caught_up].
  - rewrite (proj2 (Z.ltb_lt _ _)) by (unfold len in *; lia).
    destruct (lookup_lt_is_Some_2 c (S j)) as [b' Hb']; [unfold len in *; lia|].
    destruct (proj2 Hgood _ _ Hb') as (_ & _ & _ & fb & Hfb).
    pose proof (chain_height c Hgood _ _ Hb') as H32.
    assert (∀ s', back (S j) s' → some_step n (mkWorld s' (w_store w) (w_events w))) as Hstop
      by (intros s' Hs'; exists (S j); split; [lia|by split]).
    assert (u32 (Z.of_nat j + 1) = Z.of_nat (S j)) as Hu by (unfold is_u32 in *; rewrite u32_small; lia).
    apply wpx_bind. eapply (wpx_mono _ _ _ (λ t w1,
      t = mkTip (Z.of_nat (S j)) b'.1 ∧ fwd (S (S j)) (w_net w1) ∧ in_step U h es (take (S (S j)) c) w1)).
    2: { intros t w1 (-> & Hf1 & Hin1). apply (IH (S j) b'); [lia|done|lia|lia|done|done]. }
    rewrite apply_next_fetches. cbn [tip_h]. rewrite Hu. apply wpx_bind.
    eapply wpx_rpc; [by apply Hhash|intros s1 Hf1|exact Hstop]. apply wpx_bind.
    eapply wpx_rpc; [by apply (Hraw (S j) s1 b')|intros s2 Hf2|exact Hstop].
    apply wpx_wp. eapply (wp_apply_fetched c Hgood (S j) b' fb); [done..|apply Hin|].
    intros w1 Hn1 Hinv1 Htip1 Hset1 Hev1. split; [done|]. split; [by rewrite Hn1|].
    by eapply (in_step_next U h es c j b' fb w w1).
Qed.

(** A round in which the node drops out. *)
Lemma round_drops c0 w msg s' :
  c0 `prefix_of` c → (h ≤ length c0)%nat → in_step U h es c0 w →
  recv_multipart sock (w_net w) = (Ok msg, s') → announces msg → drops_out node c (length c0) back s' →
  ∃ w', loop 1 w = (Ok (), w') ∧ some_step (length c0) w'.
Proof.
  intros Hpre Hh Hin Hr Ha Hd. rewrite (round_catch_up w msg s' Hr Ha). pose proof Hin as (_ & (b & Hb & Htip) & _).
  rewrite last_lookup in Hb. pose proof (lookup_lt_Some _ _ _ Hb) as Hlt.
  set (w0 := mkWorld s' (w_store w) (w_events w)). set (j := pred (length c0)) in *.
  assert (len c0 - 1 = Z.of_nat j) as Hpos by (unfold len, j; lia). rewrite Hpos in Htip.
  assert (take (length c0) c = c0) as Htake by (destruct Hpre as [x ->]; apply take_app_length).
  pose proof (prefix_lookup_Some _ _ _ _ Hb Hpre) as Hb'. pose proof (prefix_length _ _ Hpre) as Hle.
  cut (wpx (some_step (length c0)) (catch_up node cfg) w0 (λ _, some_step (length c0))).
  { unfold wpx. pose proof (avoids_catch_up w0) as Hav. destruct (catch_up node cfg w0) as [[[]|e|] w'];
      [by exists w'| |done]. intros [Hx|[[y ->] HG]]; [by destruct (Hav e w' eq_refl)|by exists w']. }
  unfold catch_up. apply wpx_bind. destruct Hd as [(e & s1 & Hc & Hback)|(fwd & fwr & (s1 & s2 & b2 & Hc & Hb2 & H2 & Hf2) & Hhash & Hraw & Hfb)].
  - unfold wpx, rpc. unfold w0. cbn [w_net]. rewrite Hc. right. split; [by eexists|].
    exists (length c0). rewrite Htake. split; [lia|]. split; [exact Hback|exact Hin].
  - apply (wpx_rpc _ _ (len c - 1) (λ s, s = s1) (λ _, False)); [by unfold answers, w0; cbn [w_net]; rewrite Hc|intros ? ->|done].
    apply wpx_bind, wpx_wp, (wp_stored_tip (mkTip (Z.of_nat j) b.1)); [exact Htip|]. cbn [tip_h]. rewrite Nat2Z.id.
    apply wpx_bind. fold j in Hb2, H2. assert (b2 = b) as -> by congruence.
    assert (wp (reorg_loop node cfg (S j) 0 (mkTip (Z.of_nat j) b.1)) (mkWorld s1 (w_store w) (w_events w))
      (λ t w', t = mkTip (Z.of_nat j) b.1 ∧ w' = mkWorld s2 (w_store w) (w_events w))) as Hreorg.
    { cbn [reorg_loop tip_h tip_hash]. apply wp_bind. unfold wp at 1, hash_or_zero. cbn [w_net]. rewrite H2.
      pose proof (proj2 Hgood j b Hb') as (_ & Hnz & _).
      rewrite bool_decide_true, bool_decide_false by done. by apply wp_ret. }
    apply wpx_wp. eapply wp_mono; [exact Hreorg|]. intros t w' [-> ->]. cbn [tip_h].
    assert (S j = length c0) as Hsj by (unfold j; lia).
    apply (wpx_forward fwd fwr (length c0) j b); try done; [lia|lia|by rewrite Hsj|by rewrite Hsj, Htake].
Qed.
End drop.

(** A round in which the node answers: the announced blocks are applied. *)
Lemma round_answered up U h es c c' w msg s' :
  serves node up c' → good_chain c' → c `prefix_of` c' → (h ≤ length c)%nat → in_step U h es c w →
  recv_multipart sock (w_net w) = (Ok msg, s') → announces msg → up s' →
  ∃ w', loop 1 w = (Ok (), w') ∧ up (w_net w') ∧ in_step U h es c' w'.
Proof.
  intros Hs Hg [x ->] Hh (Hinv & (b & Hb & Htip) & Hset & Hnews) Hr Ha Hup.
  rewrite last_lookup in Hb. pose proof (lookup_lt_Some _ _ _ Hb) as Hlt.
  assert (Z.of_nat (pred (length c)) = len c - 1) as Hpos by (unfold len; lia).
  pose proof (catch_up_extends_run node cfg up (c ++ x) (mkWorld s' (w_store w) (w_events w)) (pred (length c)) b
    Hs Hg Hup Hinv ltac:(by rewrite lookup_app_l) ltac:(by rewrite Hpos)) as Hc.
  rewrite (round_catch_up w msg s' Hr Ha). pose proof (avoids_catch_up (mkWorld s' (w_store w) (w_events w))) as Hav.
  destruct (catch_up _ _ _) as [[[]|e|] w']; [|by destruct (Hav e w' eq_refl)|done].
  exists w'. split; [done|]. destruct Hc as (Hup' & Hinv' & Hlast & Hset' & Hev). split; [done|].
  replace (S (pred (length c))) with (length c) in * by lia. rewrite drop_app_length in Hset', Hev.
  cbn [w_store w_events] in Hset', Hev.
  destruct (chain_split U h (drop h c) x) as [He Hu].
  { intros j b' Hj. rewrite lookup_drop in Hj. apply (proj2 Hg).
    rewrite lookup_app_l; [done|by eapply lookup_lt_Some]. }
  rewrite length_drop in He, Hu. replace (h + (length c - h))%nat with (length c) in * by lia.
  destruct (chain_ext (set_of w) (chain_utxos U h (drop h c)) (length c) x Hset) as [Hevs Hsets].
  unfold in_step. rewrite (drop_app_le c x h Hh). split; [done|]. split; [done|]. split.
  - intros k. by rewrite Hset', Hsets, Hu.
  - rewrite Hev, !news_app, Hnews, chain_news, Hevs, He. unfold news at 1. cbn. by rewrite app_nil_r, app_assoc.
Qed.

(** One chain: bad rounds, each of which may have applied some blocks, and then
    one that applies the rest. *)
Lemma catches_up up n U h es c c' w :
  serves node up c' → good_chain c' → c `prefix_of` c' → (h ≤ length c)%nat →
  recovers node sock c' up n (length c) (w_net w) → in_step U h es c w →
  reaches w (λ w', up (w_net w') ∧ in_step U h es c' w').
Proof.
  intros Hs Hg. revert c w. induction n as [|n IH]; intros c w Hpre Hh Hrec Hin; cbn [recovers] in Hrec.
  { destruct Hrec as (msg & s' & Hr & Ha & Hup).
    destruct (round_answered up U h es c c' w msg s') as (w' & H1 & Hw'); [done..|].
    eapply reaches_step; [exact H1|]. by apply reaches_now. }
  destruct Hrec as [Hrec|[(r & s' & Hr & Hp & Hn & Hrec)|(msg & s' & Hr & Ha & Hd)]].
  - by eapply IH.
  - eapply reaches_step; [by apply (round_silent w r s')|]. by apply (IH c).
  - destruct (round_drops U h es c' Hg _ c w msg s' Hpre Hh Hin Hr Ha Hd) as (w' & H1 & m & Hm & Hback & Hin').
    assert (length (take m c') = m) as Hl by (rewrite length_take; lia).
    eapply reaches_step; [exact H1|]. apply (IH (take m c')); [apply prefix_take|lia|by rewrite Hl|done].
Qed.

(** A growing chain. *)
Lemma follows_history U h es c cs w :
  history node sock (length c) cs (w_net w) → grows c cs → (h ≤ length c)%nat → in_step U h es c w →
  reaches w (in_step U h es (default c (last cs))).
Proof.
  revert c w. induction cs as [|c' cs IH]; intros c w Hist Hg Hh Hin; [by apply reaches_now|].
  inversion_clear Hist as [|up ? n ? ? ? Hs Hgood Hrec Hrest]. destruct Hg as [Hpre Hg].
  eapply reaches_trans; [by eapply catches_up|]. intros w' [Hup' Hin'].
  replace (default c (last (c' :: cs))) with (default c' (last cs)) by (rewrite last_cons; by destruct (last cs)).
  apply IH; [by apply Hrest|done| |done]. apply prefix_length in Hpre. lia.
Qed.

(** The tracker's run, from a stored tip on the chain the node serves at the start. *)
Lemma run_follows up h b chain cs w :
  serves node up chain → good_chain chain → up (w_net w) → store_inv (w_store w) →
  chain !! h = Some b → stored_tip (w_store w) (mkTip (Z.of_nat h) b.1) →
  (∀ net, up net → history node sock (length chain) cs net) → grows chain cs →
  ∃ n w', Tracker.run node cfg (Some sock) n w = (Ok (), w') ∧
    in_step (set_of w) (S h) (news (w_events w)) (default chain (last cs)) w'.
Proof.
  intros Hs Hg Hup Hinv Hb Htip Hhist Hgrows. pose proof (lookup_lt_Some _ _ _ Hb) as Hlt.
  pose proof (catch_up_extends_run node cfg up chain w h b Hs Hg Hup Hinv Hb Htip) as Hc.
  unfold Tracker.run, mbind, M_bind. pose proof (avoids_catch_up w) as Hav.
  destruct (catch_up node cfg w) as [[[]|e|] w1]; [|by destruct (Hav e w1 eq_refl)|done].
  destruct Hc as (Hup1 & Hinv1 & Hlast & Hset & Hev).
  assert (in_step (set_of w) (S h) (news (w_events w)) chain w1) as Hin.
  { split_and!; try done. rewrite Hev, !news_app, chain_news. unfold news at 3. cbn. by rewrite app_nil_r. }
  destruct (follows_history (set_of w) (S h) (news (w_events w)) chain cs w1 (Hhist _ Hup1) Hgrows Hlt Hin)
    as (n & w' & Hn & Hin').
  by exists n, w'.
Qed.
End reliable.

Lemma grows_prefix c cs : grows c cs → c `prefix_of` default c (last cs).
Proof.
  revert c. induction cs as [|c' cs IH]; intros c; [done|]. intros [Hc Hcs].
  replace (default c (last (c' :: cs))) with (default c' (last cs)) by (rewrite last_cons; by destruct (last cs)).
  etrans; [exact Hc|by apply IH].
Qed.

Lemma good_chain_prefix c c' : c `prefix_of` c' → good_chain c' → good_chain c.
Proof.
  intros Hpre [Hlen Hg]. split.
  - apply prefix_length in Hpre. unfold len in *. lia.
  - intros h b Hb. by eapply Hg, prefix_lookup_Some.
Qed.
End theory.

(** ** Theorem *)

(** C9: Liveness of the live loop. Suppose the database does not fail and the node
    serves one growing chain after another. Before each, any finite number of
    rounds may go wrong: the notification fails or says nothing, the node does
    not say its height, or it stops answering at any point after it has confirmed
    the stored tip. Then some number of rounds after the last chain appears the
    loop is still running, the tip stored is its tip, the set is what its
    further blocks make of the stored one, and each of these blocks has been
    reported exactly once, in order. (The request that confirms the stored tip is
    the one that must not fail: [outage_in_catch_up_loses_block].) *)
Theorem live_loop_follows `{SHA : Sha256, RIP : Ripemd160, ENV : RpcEnv, ZMQ : !ZmqLib, ROCKS : RocksDB, CLOCK : Clock, ORDER : HashOrder}
    (node : Transport) (cfg : TrackerConfig) (sock : Socket) (w : World) (b : Hash32 * bytes)
    (c : list (Hash32 * bytes)) (cs : list (list (Hash32 * bytes)))
    (Hdb : db_reliable)
    (Hhist : history node sock (length c) cs (w_net w)) (Hgrows : grows c cs) (Hlast : last c = Some b)
    (Hinv : store_inv (w_store w)) (Htip : stored_tip (w_store w) (mkTip (len c - 1) b.1)) :
  let U := utxos (db_view (db (w_store w))) in
  let c' := default c (last cs) in
  ∃ n w', live_loop node cfg (Some sock) n w = (Ok (), w') ∧ store_inv (w_store w') ∧
    (∃ b', last c' = Some b' ∧ stored_tip (w_store w') (mkTip (len c' - 1) b'.1)) ∧
    (∀ k, utxos (db_view (db (w_store w'))) k = chain_utxos U (length c) (drop (length c) c') k) ∧
    news (w_events w') = news (w_events w) ++ chain_events U (length c) (drop (length c) c').
Proof.
  intros U c'. apply (follows_history node cfg sock Hdb U (length c) (news (w_events w)) c cs w Hhist Hgrows); [done|].
  unfold in_step. rewrite drop_all. split; [done|]. split; [by exists b|]. split; [done|]. by rewrite app_nil_r.
Qed.

(** ** Concrete runs *)

Module Ex.
Import Hash.Ref.

(** A node of two blocks, and one of three, that do not answer the calls marked. *)
Definition chain : list (Hash32 * bytes) := [Tracker.Ex.block 1; Tracker.Ex.block 2].
Definition chain_3 : list (Hash32 * bytes) := chain ++ [Tracker.Ex.block 3].
Definition net_2 (faults : list bool) : Node.Ref.State := Node.Ref.mkState chain [] [] faults.
Definition net (faults : list bool) : Node.Ref.State := Node.Ref.mkState chain_3 [] [] faults.
Definition trouble : list bool := [true; false; false; false; false; true].
Definition world (faults : list bool) (store : @UtxoStore rocks_ref) : Tracker.Ex.world :=
  @mkWorld hex_ref Node.Ref.rpc_ref rocks_ref (net faults) store [].
Definition loop (n : nat) (w : Tracker.Ex.world) :=
  @live_loop sha_ref ripemd_ref hex_ref Node.Ref.rpc_ref Tracker.Ex.zmq_ref rocks_ref clock_ref order_ref Node.Ref.node
    tracker_config_default (Some tt) n w.
(** The store at the tip of the chain. *)
Definition at_tip : @UtxoStore rocks_ref :=
  @w_store hex_ref Node.Ref.rpc_ref rocks_ref (snd (Tracker.Ex.catch_up' (Tracker.Ex.at_genesis chain))).
Definition world_2 (faults : list bool) (store : @UtxoStore rocks_ref) : Tracker.Ex.world :=
  @mkWorld hex_ref Node.Ref.rpc_ref rocks_ref (net_2 faults) store [].
End Ex.

(** Two calls that fail in the middle of [catch_up], at the tip: the failed
    request for the tip's hash counts as another hash, the block is disconnected,
    and its parent's hash cannot be fetched either. The stored tip still names
    the block, so every later round finds the node in agreement and reports to
    be caught up, and the block's outputs are gone from the set. *)
Lemma outage_in_catch_up_loses_block :
  let before := Ex.world_2 [false; true; true] Ex.at_tip in
  let after := snd (Ex.loop 2 before) in
  Tracker.Ex.unspent [2] before = [2] ∧ Tracker.Ex.unspent [2] after = [] ∧
  Tracker.Ex.outline after = [(3, 0); (2, 1); (4, 1)].
Proof. split_and!; vm_compute; reflexivity. Qed.

(** The block and the tip are two writes: a process that ends between them
    applies the block again when it comes back. The set is the same, but what
    the block spent is no longer found, so its rows are lost, and the new undo
    record has nothing to restore: after a reorganisation the spent output
    stays spent. *)
Lemma reapplied_block_loses_undo :
  let key := make_key (UtxoThms.Ex.id 1) 0 in
  let r1 := UtxoThms.Ex.run (UtxoThms.Ex.store true None) in
  let r2 := UtxoThms.Ex.run (snd r1) in
  let d := @disconnect_block rocks_ref 9 (snd r2) in
  match fst r1, fst r2 with Ok x, Ok y => (len (spends x), len (spends y)) | _, _ => (0, 0) end = (2, 1) ∧
  uv_value_sat <$> utxos UtxoThms.Ex.base key = Some 1000 ∧
  match fst d with Ok _ => true | _ => false end = true ∧ uv_value_sat <$> utxos (db_view (RocksDB := rocks_ref) (db (snd d))) key = None.
Proof. split_and!; vm_compute; reflexivity. Qed.

(** ** Witness *)

Lemma rocks_ref_reliable : @db_reliable rocks_ref.
Proof. split; intros; discriminate. Qed.

(** First the node does not say its height; in the next round it hands out
    block 2 and then stops answering; after that it answers everything. *)
Lemma ex_recovers :
  @recovers Hash.Ref.hex_ref Node.Ref.rpc_ref Tracker.Ex.zmq_ref Node.Ref.node tt Ex.chain_3 (λ s : Node.Ref.State, s = Ex.net []) 2 1
    (Ex.net Ex.trouble).
Proof.
  assert (@announces Hash.Ref.hex_ref Node.Ref.rpc_ref Tracker.Ex.zmq_ref [[x68]; Tracker.Ex.id 1]) as Ha.
  { exists (Tracker.Ex.id 1). reflexivity. }
  right. right. eexists _, _. split; [reflexivity|]. split; [exact Ha|]. left. eexists _, _. split; [reflexivity|].
  right. right. eexists _, _. split; [reflexivity|]. split; [exact Ha|]. right.
  exists (λ i s, (i = 1%nat ∧ s = Ex.net [false; false; true]) ∨ (i = 2%nat ∧ s = Ex.net [true])),
    (λ i s, i = 1%nat ∧ s = Ex.net [false; true]).
  split_and!.
  - eexists _, _, _. split; [reflexivity|]. split; [reflexivity|]. split; [reflexivity|]. by left.
  - intros i s b [[-> ->]|[-> ->]] [= <-]; [by split|]. eexists _, _. split; [reflexivity|]. by split.
  - intros i s b [-> ->] [= <-]. split; [reflexivity|]. by right.
  - intros s [[? _]|[? _]]; discriminate.
Qed.

Lemma live_loop_follows_witness :
  ∃ n w', Ex.loop n (Ex.world Ex.trouble Tracker.Ex.store) = (Ok tt, w') ∧
     (∃ b', last Ex.chain_3 = Some b' ∧
        @stored_tip rocks_ref (@w_store Hash.Ref.hex_ref Node.Ref.rpc_ref rocks_ref w') (mkTip 2 b'.1)).
Proof.
  pose proof (@live_loop_follows Hash.Ref.sha_ref Hash.Ref.ripemd_ref Hash.Ref.hex_ref Node.Ref.rpc_ref Tracker.Ex.zmq_ref
    rocks_ref clock_ref order_ref Node.Ref.node tracker_config_default tt (Ex.world Ex.trouble Tracker.Ex.store)
    (Tracker.Ex.block 1) [Tracker.Ex.block 1] [Ex.chain_3] rocks_ref_reliable) as Hl.
  cbv zeta in Hl. destruct Hl as (n & w' & Hn & _ & Htip & _).
  - eapply (@hist_cons Hash.Ref.sha_ref Hash.Ref.ripemd_ref Hash.Ref.hex_ref Node.Ref.rpc_ref Tracker.Ex.zmq_ref _ _
      (λ s : Node.Ref.State, s = Ex.net [])).
    + exact (ex_serves Ex.chain_3 ltac:(vm_compute; reflexivity)).
    + exact (good_chain_check Ex.chain_3 ltac:(vm_compute; reflexivity)).
    + exact ex_recovers.
    + intros s' _. constructor.
  - split; [|exact I]. by exists [Tracker.Ex.block 2; Tracker.Ex.block 3].
  - reflexivity.
  - exact ex_store_inv.
  - exact ex_store_tip.
  - exists n, w'. split; [exact Hn|exact Htip].
Defined.

(** The loop does get there: a round without an answer, one with block 2 only,
    and the third catches up. *)
Example three_rounds :
  Tracker.Ex.outline (snd (Ex.loop 2 (Ex.world Ex.trouble Tracker.Ex.store))) = [(1, 1)] ∧
  Tracker.Ex.outline (snd (Ex.loop 3 (Ex.world Ex.trouble Tracker.Ex.store))) = [(1, 1); (1, 2); (4, 2)].
Proof. split; vm_compute; reflexivity. Qed.
