(* ===== verification/StoreStats.v ===== *)
(** * StoreStats: what a store reports about its database, [bidx-store/src/utxo.rs]

    The properties that [bidx bench] prints, and the sizes. *)
From S2P Require Import Prelude F64 Text Hash Types Utxo UtxoStore Disk.

Section stats.
Context `{ROCKS : RocksDB}.

(** [.ok().flatten()] of [property_value]. *)
Definition property (s : UtxoStore) (prop : PropName) : option rstr :=
  match db_property (db s) prop with inr v => v | inl _ => None end.

Definition approx_size_on_disk (s : UtxoStore) : Z :=
  default 0 (property s ESTIMATE_LIVE_DATA_SIZE ≫= parse_uint u64_max).

Definition property_or_unavailable (s : UtxoStore) (prop : PropName) : rstr :=
  default (str "unavailable") (property s prop).

Definition KEYS : list (PropName * rstr) :=
  [(CUR_SIZE_ALL_MEM_TABLES, str "cur_size_all_mem_tables");
   (SIZE_ALL_MEM_TABLES, str "size_all_mem_tables");
   (CUR_SIZE_ACTIVE_MEM_TABLE, str "cur_size_active_mem_table");
   (NUM_IMMUTABLE_MEM_TABLE, str "num_immutable_mem_table");
   (MEM_TABLE_FLUSH_PENDING, str "mem_table_flush_pending");
   (NUM_RUNNING_FLUSHES, str "num_running_flushes");
   (COMPACTION_PENDING, str "compaction_pending");
   (NUM_RUNNING_COMPACTIONS, str "num_running_compactions");
   (IS_WRITE_STOPPED, str "is_write_stopped");
   (ACTUAL_DELAYED_WRITE_RATE, str "actual_delayed_write_rate");
   (ESTIMATE_NUM_KEYS, str "estimate_num_keys");
   (ESTIMATE_LIVE_DATA_SIZE, str "estimate_live_data_size");
   (TOTAL_SST_FILES_SIZE, str "total_sst_files_size");
   (BLOCK_CACHE_CAPACITY, str "block_cache_capacity");
   (BLOCK_CACHE_USAGE, str "block_cache_usage")].

Definition perf_properties (s : UtxoStore) : list (rstr * rstr) :=
  ((λ k : PropName * rstr, (k.2, property_or_unavailable s k.1)) <$> KEYS)
  ++ [(str "num_files_at_level0", property_or_unavailable s (num_files_at_level 0))].

(** [str::contains]. *)
Fixpoint str_contains (pat s : rstr) : bool :=
  match strip_prefix pat s with
  | Some _ => true
  | None => match s with [] => false | _ :: s => str_contains pat s end
  end.

Definition stall_line (l : rstr) : bool := str_contains (str "stall") l || str_contains (str "Stall") l.

Definition stall_report (s : UtxoStore) : list rstr :=
  default [] ((λ text, trim <$> filter (λ l, stall_line l = true) (str_lines text)) <$> property s STATS).

(** The directory of the store, as the file system has it. *)
Definition disk_size_bytes (entry : rstr → option Entry) (s : UtxoStore) : Z := dir_size_bytes (entry (store_path s)).

(** ** Lemmas *)

(** "Reported as unavailable rather than omitted, so two runs can be diffed
    key-for-key": the keys do not depend on the store, and none is given twice. *)
Lemma perf_properties_keys (s1 s2 : UtxoStore) :
  (perf_properties s1).*1 = (perf_properties s2).*1 ∧ NoDup (perf_properties s1).*1 ∧
  length (perf_properties s1) = 16%nat.
Proof. split_and!; [done| |done]. apply (bool_decide_unpack _). vm_compute. exact I. Qed.

Lemma str_contains_spec pat s : str_contains pat s = true ↔ ∃ a b, s = a ++ pat ++ b.
Proof.
  induction s as [|c s IH]; cbn [str_contains].
  - destruct (strip_prefix pat []) as [r|] eqn:Hp.
    + apply strip_prefix_Some in Hp. split; [|done]. intros _. by exists [], r.
    + split; [done|]. intros (a & b & Hab). symmetry in Hab.
      apply app_eq_nil in Hab as [-> Hab].
      assert (strip_prefix pat (pat ++ b) = Some b) as Hs by by apply strip_prefix_Some. by rewrite Hab, Hp in Hs.
  - destruct (strip_prefix pat (c :: s)) as [r|] eqn:Hp.
    + apply strip_prefix_Some in Hp. split; [|done]. intros _. by exists [], r.
    + rewrite IH. split; [intros (a & b & ->); by exists (c :: a), b|].
      intros ([|c' a] & b & Hab); simpl in Hab; [|injection Hab as -> ->; by exists a, b].
      rewrite Hab in Hp. assert (strip_prefix pat (pat ++ b) = Some b) as Hs by by apply strip_prefix_Some. by rewrite Hp in Hs.
Qed.

(** A line is reported exactly when it is one of the statistics' lines and
    mentions a stall. *)
Lemma stall_report_spec s text l :
  property s STATS = Some text →
  l ∈ stall_report s ↔ ∃ x, x ∈ str_lines text ∧ l = trim x ∧
    ((∃ a b, x = a ++ str "stall" ++ b) ∨ ∃ a b, x = a ++ str "Stall" ++ b).
Proof.
  intros Hp. unfold stall_report. rewrite Hp. cbn. rewrite list_elem_of_fmap.
  setoid_rewrite list_elem_of_filter. unfold stall_line. setoid_rewrite orb_true_iff.
  setoid_rewrite str_contains_spec. naive_solver.
Qed.
End stats.
