(* ===== verification/Fmt.v ===== *)
(** * Fmt: what the program uses of Rust's formatting of floats and of padding

    [{:.p}] rounds the exact value, half to even; [{}] gives the shortest digits
    that read back as the same float. *)
From S2P Require Import Prelude F64 Text.

(** The integer nearest to [a / b], half to even, for [b] positive. *)
Definition round_half_even (a b : Z) : Z :=
  let q := a `div` b in
  let r := a `mod` b in
  match 2 * r ?= b with Lt => q | Gt => q + 1 | Eq => if Z.even q then q else q + 1 end.

(** [x * 2 ^ e] as a fraction. *)
Definition num_of (m e : Z) : Z := if 0 <=? e then m * 2 ^ e else m.
Definition den_of (e : Z) : Z := if 0 <=? e then 1 else 2 ^ (- e).

(** [n / 10 ^ p] with [p] digits after the point, if any. *)
Definition fmt_scaled (p : nat) (n : Z) : rstr :=
  let d := 10 ^ Z.of_nat p in
  fmt_dec (n `div` d) ++ match p with O => [] | _ => str "." ++ pad_left p (fmt_dec (n `mod` d)) end.

Definition fmt_sign (s : bool) : rstr := if s then str "-" else [].

(** [{:.p}]. *)
Definition fmt_fixed (p : nat) (x : f64) : rstr :=
  match x with
  | S754_nan => str "NaN"
  | S754_infinity s => fmt_sign s ++ str "inf"
  | S754_zero s => fmt_sign s ++ fmt_scaled p 0
  | S754_finite s m e => fmt_sign s ++ fmt_scaled p (round_half_even (num_of (Z.pos m) e * 10 ^ Z.of_nat p) (den_of e))
  end.

(** Whether [n / 10 ^ p] reads back as [m * 2 ^ e]: it lies between the midpoints
    to the neighbours (the one below is closer at a power of two), or on one
    when [m] is even. *)
Definition reads_back (m e : Z) (p : nat) (n : Z) : bool :=
  let ten := 10 ^ Z.of_nat p in
  let v := n * den_of (e - 2) in
  let lo := num_of (4 * m - (if bool_decide (m = 2 ^ 52) then 1 else 2)) (e - 2) * ten in
  let hi := num_of (4 * m + 2) (e - 2) * ten in
  if Z.even m then (lo <=? v) && (v <=? hi) else (lo <? v) && (v <? hi).

(** The first number of digits after the point, from [p] on, that is enough. *)
Fixpoint shortest (fuel p : nat) (m e : Z) : rstr :=
  let n := round_half_even (num_of m e * 10 ^ Z.of_nat p) (den_of e) in
  match fuel with
  | O => fmt_scaled p n
  | S fuel => if reads_back m e p n then fmt_scaled p n else shortest fuel (S p) m e
  end.

(** [{}], of a float below 2^53. *)
Definition fmt_display (x : f64) : rstr :=
  match x with
  | S754_nan => str "NaN"
  | S754_infinity s => fmt_sign s ++ str "inf"
  | S754_zero s => fmt_sign s ++ str "0"
  | S754_finite s m e => fmt_sign s ++ shortest (Z.to_nat (Z.max 0 (- e))) 0 (Z.pos m) e
  end.

(** [{:>w}]. *)
Definition pad_right_align (w : nat) (s : rstr) : rstr := replicate (w - length s) 32 ++ s.

(** ** Lemmas *)

(** The rounded value is within half a unit; a tie goes to an even number. *)
Lemma round_half_even_spec a b :
  0 < b → let n := round_half_even a b in
  2 * Z.abs (a - n * b) ≤ b ∧ (2 * Z.abs (a - n * b) = b → Z.even n = true).
Proof.
  intros Hb n. pose proof (Z.div_mod a b ltac:(lia)) as Hd. pose proof (Z.mod_pos_bound a b Hb) as Hm.
  subst n. unfold round_half_even. set (q := a `div` b) in *. set (r := a `mod` b) in *.
  assert (a - q * b = r) as Hq by lia. assert (a - (q + 1) * b = r - b) as Hq1 by lia.
  destruct (Z.compare_spec (2 * r) b) as [He|Hl|Hg].
  - destruct (Z.even q) eqn:Hev; [rewrite Hq; split; [lia|done]|]. rewrite Hq1. split; [lia|].
    intros _. by rewrite Z.add_1_r, Z.even_succ, <-Z.negb_even, Hev.
  - rewrite Hq. split; [lia|]. intros. lia.
  - rewrite Hq1. split; [lia|]. intros. lia.
Qed.

Lemma den_of_pos e : 0 < den_of e.
Proof. unfold den_of. destruct (Z.leb_spec 0 e); [lia|]. apply Z.pow_pos_nonneg; lia. Qed.

(** What [{:.p}] prints of a positive float differs from it by at most half a
    unit of its last digit. *)
Lemma fmt_fixed_nearest p m e :
  ∃ n, fmt_fixed p (S754_finite false m e) = fmt_scaled p n ∧
    2 * Z.abs (num_of (Z.pos m) e * 10 ^ Z.of_nat p - n * den_of e) ≤ den_of e.
Proof.
  eexists. split; [reflexivity|]. apply round_half_even_spec, den_of_pos.
Qed.

Example fmt_some :
  fmt_fixed 3 (f64_div (f64_of_Z 5) (f64_of_Z 8)) = str "0.625" ∧
  fmt_fixed 2 (f64_div (f64_of_Z 5) (f64_of_Z 8)) = str "0.62" ∧
  fmt_fixed 1 (f64_div (f64_of_Z 2000) (f64_of_Z 3)) = str "666.7" ∧
  fmt_fixed 0 (f64_of_Z 250) = str "250" ∧
  fmt_display (f64_div (f64_of_Z 100) (f64_of_Z 3)) = str "33.333333333333336" ∧
  fmt_display (f64_of_Z 100) = str "100" ∧
  fmt_display (f64_div (f64_of_Z 1) (f64_of_Z 10)) = str "0.1".
Proof. split_and!; vm_compute; reflexivity. Qed.
