(* ===== verification/GuardReport.v ===== *)
(** * GuardReport: what the startup disk check says, [bidx-cli/src/diskguard.rs]

    The log line of a pre-flight report and the message of a refusal. *)
From S2P Require Import Prelude F64 Fmt Text Hash Types BlkFile Disk DiskGuard.

(** [b as f64 / (1u64 << 30) as f64]. *)
Definition gib (b : Z) : f64 := f64_div (f64_of_Z b) (f64_of_Z (2 ^ 30)).

(** The fields of a log event, in order, and its message. *)
Definition LogEvent : Type := list (rstr * rstr) * rstr.

(** [PreflightReport::log]. *)
Definition report_log (r : PreflightReport) : LogEvent :=
  if rp_checkpoints_used r =? 0 then
    ([(str "network", net_name (rp_network r))],
     str "no prior disk checkpoints for this network yet " ++ [0x2014]
     ++ str " growth estimate unavailable until 100k blocks have been indexed on-disk; skipping projection")
  else
    ([(str "network", net_name (rp_network r));
      (str "indexed_tip", fmt_dec (rp_indexed_tip r));
      (str "node_tip", fmt_dec (rp_node_tip r));
      (str "checkpoints", fmt_dec (rp_checkpoints_used r));
      (str "current_gib", fmt_fixed 2 (gib (rp_current_total_bytes r)));
      (str "projected_gib", fmt_fixed 2 (gib (rp_projected_total_bytes r)));
      (str "additional_gib", fmt_fixed 2 (gib (rp_additional_needed_bytes r)));
      (str "free_now_gib", fmt_fixed 1 (gib (rp_free_bytes_now r)));
      (str "free_end_gib", fmt_fixed 1 (gib (rp_free_bytes_at_completion r)))],
     str "disk-space projection").

(** The message of the refusal. *)
Definition insufficient_message (network : rstr) (node_tip additional_needed free_at_end min_free need_gib : Z) : rstr :=
  str "insufficient disk space: projecting the " ++ network ++ str " index to height " ++ fmt_dec node_tip
  ++ str " needs ~" ++ fmt_fixed 1 (gib additional_needed)
  ++ str " GiB more disk than will remain free (projected free at completion " ++ fmt_fixed 1 (gib free_at_end)
  ++ str " GiB, require " ++ [0x2265] ++ str " " ++ fmt_fixed 1 (gib min_free) ++ str " GiB). Free up at least "
  ++ fmt_dec need_gib ++ str " GiB and try again.".

(** What a check that passes logs after its report. *)
Definition ok_log (r : PreflightReport) : LogEvent :=
  ([(str "free_gib", fmt_fixed 1 (gib (rp_free_bytes_now r)))], str "startup disk check OK").

(** The message names the whole growth as what is needed beyond the free space:
    with 100 GiB free, 110 to come and 10 to stay free, 20 are missing, and it
    asks for 110 more. *)
Lemma insufficient_names_growth net :
  insufficient_message net 840000 (110 * 2 ^ 30) 0 (10 * 2 ^ 30) 10 =
  str "insufficient disk space: projecting the " ++ net ++ str " index to height 840000"
  ++ str " needs ~110.0 GiB more disk than will remain free (projected free at completion 0.0 GiB, require "
  ++ [0x2265] ++ str " 10.0 GiB). Free up at least 10 GiB and try again.".
Proof. unfold insufficient_message. do 2 f_equal. Qed.
