(* ===== verification/Live.v ===== *)
(** * Live: [bidx live], [bidx-cli/src/live.rs]

    The sink that rotates part files as the tip moves, the callback the tracker
    gives its events to, and the run from its configuration on. The callback
    does not act on the tracker, so it is run over the events afterwards. *)
From S2P Require Import Prelude F64 Text Hash Types Tx Block BlkFile Utxo UtxoStore UtxoSpec UtxoThms Disk DiskGuard.
From S2P Require Import Node Tracker LiveLoop Parquet Pipeline PipelineThms FileCache ParseRun.

Definition LIVE_BLOCKS_PER_PART : Z := 1000.

Record LiveConfig : Type := mkLiveConfig {
  lv_rpc_url : rstr; lv_cookie : option rstr; lv_rpc_user : option rstr; lv_rpc_password : option rstr;
  lv_zmq : option rstr; lv_utxo : rstr; lv_out : option rstr; lv_max_reorg_depth : Z;
  lv_blocks_dir : option rstr; lv_network : option Network; lv_skip_disk_check : bool;
  lv_checkpoint_file : option rstr }.

Section sink.
Context `{PARQ : ParquetLib} `{FS : Fs}.

(** With the files of the sinks already finished. *)
Record LiveSink : Type := mkLiveSink {
  ls_dir : rstr; ls_part : Z; ls_sink : option ParquetSink; ls_closed : list (Z * list ArrowWriter) }.

Definition live_create (dir : rstr) (start_part : Z) : Res SinkError LiveSink :=
  sink ← sink_create dir start_part sink_config_default;
  Ok (mkLiveSink dir start_part (Some sink) []).

(** [if let Some(s) = self.sink.take() { s.finish()?; }]: the sink is gone even
    when finishing it fails. *)
Definition finish_taken : M LiveSink SinkError () := λ l,
  match ls_sink l with
  | None => (Ok (), l)
  | Some s =>
    match sink_finish s with
    | Ok ws => (Ok (), mkLiveSink (ls_dir l) (ls_part l) None (ls_closed l ++ [(ls_part l, ws)]))
    | Err e => (Err e, mkLiveSink (ls_dir l) (ls_part l) None (ls_closed l))
    | Panic => (Panic, l)
    end
  end.

Definition open_wanted (wanted : Z) : M LiveSink SinkError () := λ l,
  match sink_create (ls_dir l) wanted sink_config_default with
  | Ok s => (Ok (), mkLiveSink (ls_dir l) wanted (Some s) (ls_closed l))
  | Err e => (Err e, l)
  | Panic => (Panic, l)
  end.

Definition rotate_if_needed (height : Z) : M LiveSink SinkError () :=
  let wanted := height `div` LIVE_BLOCKS_PER_PART in
  l ← m_get;
  if bool_decide (wanted = ls_part l) then mret () else _ ← finish_taken; open_wanted wanted.

(** [expect("sink present after rotate")], then the rows. *)
Definition push_all (b : FullBlock) (spends : list SpendRow) : M LiveSink SinkError () := λ l,
  match ls_sink l with
  | None => (Panic, l)
  | Some s =>
    let '(r, s) := push_rows b spends s in (r, mkLiveSink (ls_dir l) (ls_part l) (Some s) (ls_closed l))
  end.

Definition write_block (b : FullBlock) (spends : list SpendRow) : M LiveSink SinkError () :=
  _ ← rotate_if_needed (br_height (block_row b)); push_all b spends.
End sink.

Section live.
Context `{SHA : Sha256} `{RIP : Ripemd160} `{LIBM : Libm} `{FS : Fs} `{IO : !AppendIo} `{ENV : RpcEnv} `{ZMQ : !ZmqLib}.
Context `{ROCKS : RocksDB} `{CLOCK : Clock} `{ORDER : HashOrder} `{PARQ : ParquetLib}.

Inductive LiveError : Type :=
  | LvRpcInit (e : RpcError)
  | LvZmq (e : ZmqError)
  | LvUtxo (e : UtxoError)
  | LvBlockCount (e : RpcError)
  | LvGuard (e : GuardError)
  | LvSink (e : SinkError)
  | LvTracker (e : TrackerError).

(** The callback logs what fails and goes on. *)
Inductive LiveWarning : Type :=
  | LwParquet (e : SinkError)
  | LwCheckpoint (e : GuardError).

Record LiveCtx : Type := mkLive {
  lc_sink : option LiveSink; lc_rec : DiskRecorder * option bytes; lc_warnings : list LiveWarning }.

(** [trees] is the content of the tracked directories when a height is recorded. *)
Record LiveEnv : Type := mkLiveEnv {
  lv_step : option rstr; lv_disk : DiskView; lv_trees : Z → rstr → option Entry }.

Definition write_parquet (block : option FullBlock) (spends : list SpendRow) : M LiveCtx LiveError () := λ c,
  match lc_sink c, block with
  | Some l, Some b =>
    match write_block b spends l with
    | (Ok _, l) => (Ok (), mkLive (Some l) (lc_rec c) (lc_warnings c))
    | (Err e, l) => (Ok (), mkLive (Some l) (lc_rec c) (lc_warnings c ++ [LwParquet e]))
    | (Panic, l) => (Panic, mkLive (Some l) (lc_rec c) (lc_warnings c))
    end
  | _, _ => (Ok (), c)
  end.

Definition record_checkpoint (env : LiveEnv) (height : Z) : M LiveCtx LiveError () := λ c,
  match on_block_applied (lv_step env) (lv_trees env height) height (lc_rec c) with
  | (Ok _, rec) => (Ok (), mkLive (lc_sink c) rec (lc_warnings c))
  | (Err e, rec) => (Ok (), mkLive (lc_sink c) rec (lc_warnings c ++ [LwCheckpoint e]))
  | (Panic, rec) => (Panic, mkLive (lc_sink c) rec (lc_warnings c))
  end.

(** The closure given to [tracker.run]. *)
Definition on_tracker_event (env : LiveEnv) (ev : Event) : M LiveCtx LiveError () :=
  match ev.1 with
  | Applied height _ spends => _ ← write_parquet ev.2 spends; record_checkpoint env height
  | Disconnected _ _ | ReorgStart _ | CaughtUp _ => mret ()
  end.

Fixpoint handle_events (env : LiveEnv) (evs : list Event) : M LiveCtx LiveError () :=
  match evs with
  | [] => mret ()
  | ev :: evs => _ ← on_tracker_event env ev; handle_events env evs
  end.

Definition live_network (cfg : LiveConfig) : Network :=
  default Mainnet
    (match lv_network cfg with Some n => Some n | None => d ← lv_blocks_dir cfg; detect_from_blocks_dir d end).

Definition live_disk_cfg (cfg : LiveConfig) : DiskGuardConfig :=
  let parent_of_utxo := default (str ".") (fs_parent (lv_utxo cfg)) in
  let file := default (fs_join parent_of_utxo DEFAULT_CHECKPOINT_FILE_NAME) (lv_checkpoint_file cfg) in
  mkGuard file (live_network cfg) parent_of_utxo
    (lv_utxo cfg :: match lv_out cfg with Some out => [out] | None => [] end).

Definition live_tip (store : UtxoStore) : Res LiveError (option TipState) := map_err LvUtxo (tip store).

Definition live_local_tip (disk : DiskGuardConfig) (d : DiskView) (store : UtxoStore) : Res LiveError Z :=
  let local_tip_ckpt := default 0 (cp_height <$> last (read_checkpoints (d_file d (checkpoint_file disk)) (dg_network disk))) in
  t ← live_tip store;
  Ok (Z.max local_tip_ckpt (default 0 (tip_h <$> t))).

Definition live_preflight (node : Transport) (cfg : LiveConfig) (d : DiskView) (store : UtxoStore) : M Net LiveError () :=
  if lv_skip_disk_check cfg then mret ()
  else
    let disk := live_disk_cfg cfg in
    node_tip ← m_map_err LvBlockCount (get_block_count node);
    local_tip ← m_lift (live_local_tip disk d store);
    _ ← m_lift (map_err LvGuard (run_pre_flight disk d node_tip local_tip MIN_FREE_BYTES));
    mret ().

Definition live_zmq (cfg : LiveConfig) : Res LiveError (option Socket) :=
  match lv_zmq cfg with
  | Some ep => s ← map_err LvZmq (subscriber_connect ep); Ok (Some s)
  | None => Ok None
  end.

(** The part of the first height after the stored tip. *)
Definition live_start_part (t : option TipState) : Z :=
  default 0 ((λ t, u32 (tip_h t + 1) `div` LIVE_BLOCKS_PER_PART) <$> t).

Definition live_sink (cfg : LiveConfig) (store : UtxoStore) : Res LiveError (option LiveSink) :=
  match lv_out cfg with
  | Some d =>
    t ← live_tip store;
    s ← map_err LvSink (live_create d (live_start_part t));
    Ok (Some s)
  | None => Ok None
  end.

(** [tracker.run] with the callback, up to [rounds] rounds of the tracker's loop. *)
Definition follow (env : LiveEnv) (cfg : LiveConfig) (rounds : nat) (node : Transport) (zmq : option Socket)
    (store : UtxoStore) (c : LiveCtx) : M Net LiveError (World * LiveCtx) := λ net,
  let '(r, w) := Tracker.run node (mkTrackerConfig (lv_max_reorg_depth cfg)) zmq rounds (mkWorld net store []) in
  match handle_events env (w_events w) c with
  | (Ok _, c) => (_ ← map_err LvTracker r; Ok (w, c), w_net w)
  | (Err e, _) => (Err e, w_net w)
  | (Panic, _) => (Panic, w_net w)
  end.

Definition run_live (env : LiveEnv) (cfg : LiveConfig) (rounds : nat) : M Net LiveError (World * LiveCtx) :=
  node ← m_lift (map_err LvRpcInit
    (node_new (mkRpcConfig (lv_rpc_url cfg) (lv_cookie cfg) (lv_rpc_user cfg) (lv_rpc_password cfg))));
  zmq ← m_lift (live_zmq cfg);
  store ← m_lift (map_err LvUtxo (open_live None (lv_utxo cfg)));
  _ ← live_preflight node cfg (lv_disk env) store;
  let disk := live_disk_cfg cfg in
  let file := d_file (lv_disk env) (checkpoint_file disk) in
  let rec := (recorder_new disk file, file) in
  _ ← m_lift (live_tip store);
  sink ← m_lift (live_sink cfg store);
  follow env cfg rounds node zmq store (mkLive sink rec []).
End live.

(** ** Specification *)

(** In every block of the chain the transactions with a coinbase input are the
    first one: a consensus rule. *)
Definition coinbase_first (fb : FullBlock) : Prop :=
  ∀ t, (t < length (txs fb))%nat → is_coinbase_tx (inputs fb) t = bool_decide (t = 0%nat).

Section spec.
Context `{SHA : Sha256} `{RIP : Ripemd160}.

Definition coinbases_first (h : nat) (bs : list (Hash32 * bytes)) : Prop :=
  ∀ j b fb, bs !! j = Some b → parsed (h + j) b = Ok fb → coinbase_first fb.
End spec.

Section inv.
Context `{PARQ : ParquetLib} `{FS : Fs}.

(** The sink of a run that started at height [start], before height [h], having
    written the rows [L]. *)
Record sink_at (start : Z) (L : list (Z * list SinkOp)) (h : Z) (l : LiveSink) : Prop := {
  sa_heights : Forall (λ x : Z * list SinkOp, start ≤ x.1 < h) L;
  sa_part : ls_part l = Z.max start (h - 1) `div` LIVE_BLOCKS_PER_PART;
  sa_sink : ∃ s, ls_sink l = Some s ∧ sink_inv BATCH (part_ops LIVE_BLOCKS_PER_PART (ls_part l) L) s;
  sa_closed : (ls_closed l).*1 = seqZ (start `div` LIVE_BLOCKS_PER_PART) (ls_part l - start `div` LIVE_BLOCKS_PER_PART);
  sa_files : Forall (λ c : Z * list ArrowWriter, finished BATCH (part_ops LIVE_BLOCKS_PER_PART c.1 L) c.2) (ls_closed l)
}.

(** What holds before height [h] even when writing failed: an open sink is safe
    to push to, and without one the next block opens another. *)
Definition sink_usable (h : Z) (l : LiveSink) : Prop :=
  ls_part l ≤ h `div` LIVE_BLOCKS_PER_PART ∧
  match ls_sink l with Some s => sink_safe s | None => ls_part l < h `div` LIVE_BLOCKS_PER_PART end.
End inv.

(** ** Lemmas: the rows *)

Section rows.
Context `{SHA : Sha256} `{RIP : Ripemd160}.

Lemma total_tail (fb : FullBlock) (fee : nat → Z) n : (n ≤ length (txs fb))%nat → coinbase_first fb →
  foldl (λ s t, if is_coinbase_tx (inputs fb) t then s else sat_add s (fee t)) 0 (seq 0 n) =
  foldl sat_add 0 (tail (fee <$> seq 0 n)).
Proof.
  intros Hn Hc. destruct n as [|n]; [done|]. cbn [seq foldl fmap list_fmap tail].
  rewrite (Hc 0%nat) by lia. cbn [bool_decide decide_rel]. rewrite bool_decide_true by done.
  assert (∀ m k acc, (1 ≤ k)%nat → (k + m ≤ length (txs fb))%nat →
    foldl (λ s t, if is_coinbase_tx (inputs fb) t then s else sat_add s (fee t)) acc (seq k m) =
    foldl sat_add acc (fee <$> seq k m)) as Hgen; [|apply Hgen; lia].
  induction m as [|m IH]; intros k acc Hk Hm; [done|]. cbn [seq foldl fmap list_fmap].
  rewrite (Hc k), bool_decide_false by lia. apply IH; lia.
Qed.

(** [live] hands out the block that [parse] writes. *)
Lemma written_final e fb : coinbase_first fb → written_block e fb = final_block e fb.
Proof.
  intros Hc. unfold written_block, final_block. cbv zeta.
  rewrite (total_tail fb (λ t, fee_of e (outputs fb) (Z.of_nat t))) by done. f_equal.
  by rewrite zip_with_fmap_l.
Qed.
End rows.

(** ** Lemmas: the sink *)

Section sinks.
Context `{PARQ : ParquetLib} `{FS : Fs}.

(** The parts are those of a parse run with the same size of part. *)
Definition live_conf (start : Z) : Conf := mkConf start 0 LIVE_BLOCKS_PER_PART [] None (λ _ _, None) (λ _, false) 0.

Lemma sink_at_closed start L h l : start ≤ h → sink_at start L h l → parts_closed (live_conf start) (ls_part l) L (ls_closed l).
Proof.
  intros Hh [_ Hp _ Hc Hf]. split; [done|]. split; [|done]. rewrite Hp. cbn. apply Z.div_le_mono; [done|lia].
Qed.

Lemma rotate_usable h l : sink_usable h l →
  match rotate_if_needed h l with
  | (Ok _, l') => sink_usable h l' ∧ ls_part l' = h `div` LIVE_BLOCKS_PER_PART ∧ is_Some (ls_sink l')
  | (Err _, l') => sink_usable h l'
  | (Panic, _) => False
  end.
Proof.
  intros [Hp Hs]. unfold rotate_if_needed, mbind, M_bind, m_get. case_bool_decide as Hw.
  { cbn. split; [by split|]. split; [done|]. destruct (ls_sink l); [by eexists|lia]. }
  unfold finish_taken. pose proof (sink_create_no_panic (ls_dir l) (h `div` LIVE_BLOCKS_PER_PART) sink_config_default) as Hnp.
  assert (∀ closed, match open_wanted (h `div` LIVE_BLOCKS_PER_PART) (mkLiveSink (ls_dir l) (ls_part l) None closed) with
    | (Ok _, l') => sink_usable h l' ∧ ls_part l' = h `div` LIVE_BLOCKS_PER_PART ∧ is_Some (ls_sink l')
    | (Err _, l') => sink_usable h l' | (Panic, _) => False end) as Hopen.
  { intros closed. unfold open_wanted. cbn [ls_dir ls_part ls_sink ls_closed].
    destruct (sink_create _ _ _) as [s|e|] eqn:Hcr; [| |done].
    - split; [|done]. split; cbn; [done|]. eapply sink_inv_safe, (sink_create_inv _ _ sink_config_default); [done|exact Hcr].
    - split; cbn; [done|lia]. }
  destruct l as [dir part [s|] closed]; cbn [ls_dir ls_part ls_sink ls_closed] in *; [|apply Hopen].
  pose proof (sink_finish_safe s Hs) as Hf. destruct (sink_finish s) as [ws|e|]; [apply Hopen| |done].
  split; cbn; [done|lia].
Qed.

Lemma write_block_usable h b sp l : br_height (block_row b) = h → Forall op_wf (rows_of b sp) → sink_usable h l →
  match write_block b sp l with (Panic, _) => False | (_, l') => sink_usable (h + 1) l' end.
Proof.
  intros Hb Hwf Hu. unfold write_block, mbind, M_bind. rewrite Hb.
  assert (∀ l', sink_usable h l' → sink_usable (h + 1) l') as Hnext.
  { intros l' [Hp Hs]. pose proof (Z.div_le_mono h (h + 1) LIVE_BLOCKS_PER_PART ltac:(done) ltac:(lia)).
    split; [lia|]. destruct (ls_sink l'); [done|lia]. }
  pose proof (rotate_usable h l Hu) as Hr. destruct (rotate_if_needed h l) as [[u|e|] l1]; [|by apply Hnext|done].
  destruct Hr as ([Hp Hs] & _ & [s Hl]). unfold push_all. rewrite Hl in *.
  rewrite (m_eq_at (push_rows_ops _ _)). destruct (ops_run_safe _ s Hwf Hs) as [Hnp Hsafe].
  destruct (ops_run _ s) as [r s']. cbn [fst snd] in *. destruct r; [| |done]; (apply Hnext; by split).
Qed.

Lemma rotate_at start L h l l' u : start ≤ h → sink_at start L h l → rotate_if_needed h l = (Ok u, l') →
  sink_at start L (h + 1) l'.
Proof.
  intros Hh Hat Hr. pose proof (sink_at_closed _ _ _ _ Hh Hat) as (_ & Hge & _). cbn in Hge.
  destruct Hat as [HL Hp (s & Hs & Hinv) Hc Hf]. unfold rotate_if_needed, mbind, M_bind, m_get in Hr.
  pose proof (next_part (live_conf start) ltac:(done) h Hh) as Hn. cbn in Hn. rewrite <-Hp in Hn.
  assert (Forall (λ x : Z * list SinkOp, start ≤ x.1 < h + 1) L) as HL'
    by (eapply Forall_impl; [exact HL|]; cbn beta; lia).
  assert (Z.max start (h + 1 - 1) = h) as Hmax by lia.
  case_bool_decide as Hw.
  { injection Hr as <- <-. split; try done; [by rewrite Hmax|by exists s]. }
  unfold finish_taken in Hr. rewrite Hs in Hr. pose proof (sink_finish_inv _ _ _ Hinv) as Hfin.
  destruct (sink_finish s) as [ws|e|]; [|done|done]. unfold open_wanted in Hr. cbn in Hr.
  destruct (sink_create _ _ _) as [s'|e|] eqn:Hcr; [|done|done]. injection Hr as <- <-.
  apply (sink_create_inv _ _ sink_config_default) in Hcr; [|done].
  split; cbn [ls_part ls_sink ls_closed]; [done|by rewrite Hmax| | |].
  - exists s'. split; [done|]. rewrite (part_ops_above (live_conf start)); [done|].
    eapply Forall_impl; [exact HL|]. cbn beta. intros x Hx.
    assert (x.1 `div` LIVE_BLOCKS_PER_PART ≤ ls_part l); [|cbn; lia].
    rewrite Hp. apply Z.div_le_mono; [done|lia].
  - rewrite fmap_app, Hc. cbn.
    replace (h `div` LIVE_BLOCKS_PER_PART - start `div` LIVE_BLOCKS_PER_PART) with
      ((ls_part l - start `div` LIVE_BLOCKS_PER_PART) + 1) by lia.
    rewrite seqZ_app by lia. f_equal. rewrite (seqZ_cons _ 1) by lia. f_equal. lia.
  - apply Forall_app. split; [done|]. by repeat constructor.
Qed.

Lemma write_block_at start L h b sp l l' u : start ≤ h → br_height (block_row b) = h → Forall op_wf (rows_of b sp) →
  sink_at start L h l → write_block b sp l = (Ok u, l') → sink_at start (L ++ [(h, rows_of b sp)]) (h + 1) l'.
Proof.
  intros Hh Hb Hwf Hat Hw. unfold write_block, mbind, M_bind in Hw. rewrite Hb in Hw.
  destruct (rotate_if_needed h l) as [[u1|e|] l1] eqn:Hr; [|done|done].
  pose proof (rotate_at _ _ _ _ _ _ Hh Hat Hr) as Hat1.
  pose proof (sink_at_closed start L (h + 1) l1 ltac:(lia) Hat1) as Hcl. destruct Hat1 as [HL Hp (s & Hs & Hinv) _ _].
  unfold push_all in Hw. rewrite Hs, (m_eq_at (push_rows_ops _ _)) in Hw.
  pose proof (ops_run_inv BATCH _ _ s ltac:(done) Hwf Hinv) as Ho.
  destruct (ops_run _ s) as [[u2|e|] s']; [|done|done]. injection Hw as <- <-.
  assert (Z.max start (h + 1 - 1) = h) as Hmax by lia. rewrite Hmax in Hp.
  apply (parts_closed_snoc _ _ _ _ h (rows_of b sp)) in Hcl as (Hids & _ & Hf); [|cbn; rewrite Hp; lia].
  split; cbn [ls_part ls_sink ls_closed]; [|by rewrite Hmax| |done|done].
  - apply Forall_app. split; [done|]. constructor; [cbn; lia|done].
  - exists s'. split; [done|]. rewrite (part_ops_snoc (live_conf start)).
    rewrite decide_True by (cbn; rewrite Hp; done). done.
Qed.
(** At the start. *)
Lemma live_create_at dir h l :
  live_create dir (Z.of_nat h `div` LIVE_BLOCKS_PER_PART) = Ok l → sink_at (Z.of_nat h) [] (Z.of_nat h) l.
Proof.
  unfold live_create. destruct (sink_create _ _ _) as [s|e|] eqn:Hcr; [|done|done]. intros [= <-].
  apply (sink_create_inv _ _ sink_config_default) in Hcr; [|done]. split; cbn; try done.
  - f_equal. lia.
  - by exists s.
  - by rewrite Z.sub_diag.
Qed.

Lemma sink_at_usable start L h l : start ≤ h → sink_at start L h l → sink_usable h l.
Proof.
  intros Hh [_ Hp (s & Hs & Hinv) _ _]. split; [rewrite Hp; apply Z.div_le_mono; [done|lia]|].
  rewrite Hs. by eapply sink_inv_safe.
Qed.
End sinks.

(** ** Lemmas: the callback *)

Section callback.
Context `{SHA : Sha256} `{RIP : Ripemd160} `{FS : Fs} `{IO : !AppendIo} `{ENV : RpcEnv} `{ZMQ : !ZmqLib}.
Context `{ROCKS : RocksDB} `{PARQ : ParquetLib}.
Variable env : LiveEnv.
Hypothesis Hstep : 0 < checkpoint_step (lv_step env).

Definition ctx_usable (h : Z) (c : LiveCtx) : Prop := ∃ l, lc_sink c = Some l ∧ sink_usable h l.

(** Before height [h], nothing having failed since [start]. *)
Definition ctx_at (start : Z) (rec0 : DiskRecorder * option bytes) (L : list (Z * list SinkOp)) (h : Z) (c : LiveCtx) : Prop :=
  (∃ l, lc_sink c = Some l ∧ sink_at start L h l) ∧
  ∃ bs, calls_run (lv_step env) ((λ x, (lv_trees env x.1, x.1)) <$> L) rec0 = (Ok bs, lc_rec c).

Lemma handle_app a b : handle_events env (a ++ b) ≡ₘ (_ ← handle_events env a; handle_events env b).
Proof.
  induction a as [|ev a IH]; [done|]. cbn [app handle_events]. rewrite m_bind_assoc. f_equiv. intros u. exact IH.
Qed.

Lemma handle_caught_up h n c : handle_events env (replicate n (CaughtUp h, None)) c = (Ok (), c).
Proof. induction n as [|n IH]; [done|exact IH]. Qed.

Lemma applied_run U h b fb c :
  hashes_32 U → is_hash32 b.1 → 80 ≤ len b.2 → is_u32 (Z.of_nat h) → parsed h b = Ok fb → coinbase_first fb →
  ctx_usable (Z.of_nat h) c →
  match on_tracker_event env (applied_event U h b fb) c with
  | (Ok _, c') => ctx_usable (Z.of_nat (S h)) c' ∧
      (lc_warnings c' = [] → lc_warnings c = [] ∧ ∀ start rec0 L, start ≤ Z.of_nat h → ctx_at start rec0 L (Z.of_nat h) c →
         ctx_at start rec0 (L ++ [(Z.of_nat h, block_ops U h fb)]) (Z.of_nat (S h)) c')
  | _ => False
  end.
Proof.
  intros HU Hb1 Hb2 Hu Hp Hcb (l & Hl & Husable).
  pose proof (block_ops_wf U h b fb HU Hb1 Hb2 Hu Hp) as Hwf. unfold block_ops in *. cbv zeta in *.
  rewrite written_final in * by done. pose proof Hp as Hh. apply parsed_block_row in Hh as (_ & _ & _ & Hh).
  unfold applied_event, on_tracker_event, mbind, M_bind, write_parquet. cbn [fst snd]. rewrite Hl.
  set (fin := final_block _ _) in *. set (sp := _ <$> e_resolved _) in *.
  pose proof (write_block_usable (Z.of_nat h) fin sp l Hh Hwf Husable) as Hw.
  pose proof (λ start L l' u Hs, write_block_at start L (Z.of_nat h) fin sp l l' u Hs Hh Hwf) as Hat.
  replace (Z.of_nat h + 1) with (Z.of_nat (S h)) in * by lia.
  pose proof (on_block_applied_error (lv_step env) (lv_trees env (Z.of_nat h)) (Z.of_nat h) (lc_rec c) Hstep) as Hre.
  unfold record_checkpoint.
  destruct (write_block fin sp l) as [[u|e|] l1]; [| |done]; cbn [lc_sink lc_rec lc_warnings];
    destruct (on_block_applied _ _ _ (lc_rec c)) as [[b'|e'|] rec'] eqn:Hob; try done;
    (split; [by exists l1|]); cbn [lc_sink lc_rec lc_warnings]; intros Hnil; try by destruct (lc_warnings c).
  split; [done|]. intros start rec0 L Hs ((l0 & Hl0 & Hat0) & bs & Hrec). rewrite Hl in Hl0. injection Hl0 as <-. split.
  - exists l1. split; [done|]. by eapply Hat.
  - exists (bs ++ [b']). rewrite fmap_app. by eapply calls_run_snoc.
Qed.

Lemma chain_run U h bs c :
  hashes_32 U → Z.of_nat (h + length bs) ≤ 2 ^ 32 →
  (∀ j b, bs !! j = Some b → is_hash32 b.1 ∧ 80 ≤ len b.2 ∧ ∃ fb, parsed (h + j) b = Ok fb) →
  coinbases_first h bs → ctx_usable (Z.of_nat h) c →
  match handle_events env (chain_events U h bs) c with
  | (Ok _, c') => ctx_usable (Z.of_nat (h + length bs)) c' ∧
      (lc_warnings c' = [] → lc_warnings c = [] ∧ ∀ start rec0 L, start ≤ Z.of_nat h → ctx_at start rec0 L (Z.of_nat h) c →
         ctx_at start rec0 (L ++ chain_ops U h bs) (Z.of_nat (h + length bs)) c')
  | _ => False
  end.
Proof.
  revert U h c. induction bs as [|b bs IH]; intros U h c HU Hlen Hgood Hcb Hc.
  { cbn. rewrite Nat.add_0_r. split; [done|]. intros Hn. split; [done|]. intros. by rewrite app_nil_r. }
  destruct (Hgood 0%nat b eq_refl) as (Hb1 & Hb2 & fb & Hfb). rewrite Nat.add_0_r in Hfb.
  cbn [chain_events chain_ops length] in *. rewrite Hfb. cbn [handle_events]. unfold mbind, M_bind.
  assert (is_u32 (Z.of_nat h)) as Hu by (unfold is_u32; lia).
  pose proof (applied_run U h b fb c HU Hb1 Hb2 Hu Hfb) as Hstep1.
  specialize (Hstep1 (Hcb 0%nat b fb eq_refl ltac:(by rewrite Nat.add_0_r)) Hc).
  destruct (on_tracker_event _ _ c) as [[u|e|] c1]; [|done|done]. destruct Hstep1 as [Hc1 Hat1].
  specialize (IH (after U (effect_of U h fb)) (S h) c1).
  replace (h + S (length bs))%nat with (S h + length bs)%nat by lia.
  ospecialize (IH _ _ _ _ Hc1).
  - by apply (after_hashes U h b).
  - lia.
  - intros j b' Hj. replace (S h + j)%nat with (h + S j)%nat by lia. by apply Hgood.
  - intros j b' fb' Hj. replace (S h + j)%nat with (h + S j)%nat by lia. by apply Hcb.
  - destruct (handle_events _ _ c1) as [[u2|e|] c2]; [|done|done]. destruct IH as [Hc2 Hat2]. split; [done|].
    intros Hn. destruct (Hat2 Hn) as [Hn1 Hat2']. destruct (Hat1 Hn1) as [Hn0 Hat1']. split; [done|].
    intros start rec0 L Hs Hat. specialize (Hat1' start rec0 L Hs Hat).
    specialize (Hat2' start rec0 _ ltac:(lia) Hat1'). by rewrite <-app_assoc in Hat2'.
Qed.
End callback.

(** ** Theorem *)

Section theorems.
Context `{SHA : Sha256} `{RIP : Ripemd160} `{LIBM : Libm} `{FS : Fs} `{IO : !AppendIo} `{ENV : RpcEnv} `{ZMQ : !ZmqLib}.
Context `{ROCKS : RocksDB} `{CLOCK : Clock} `{ORDER : HashOrder} `{PARQ : ParquetLib}.

(** Only applied blocks reach the sink and the recorder. *)
Lemma handle_news env es c : handle_events env (news es) c = handle_events env es c.
Proof.
  revert c. induction es as [|ev es IH]; intros c; [done|]. unfold news in *. rewrite filter_cons. cbn [handle_events].
  unfold mbind, M_bind. case_decide as Hn.
  - cbn [handle_events]. unfold mbind, M_bind. destruct (on_tracker_event _ _ _) as [[u|e|] c1]; [apply IH|done|done].
  - by destruct ev as [[] o].
Qed.

Lemma reliable_tip (Hdb : db_reliable) t s : stored_tip s t → tip s = Ok (Some t).
Proof.
  intros [Hwf Hm]. pose proof (tip_run t s Hwf Hm) as Ht. pose proof (avoids_tip Hdb s) as Hav. unfold utxo_tip in Hav.
  destruct (tip s) as [t'|e|]; [by rewrite Ht| |done]. by destruct (Hav e s eq_refl).
Qed.

(** C8: The rows of [bidx live]. It runs with a notification socket, a database
    and a first part file that can be opened, on a store whose tip is the last
    height of a part and a block of the chain the node serves at the start; the
    node then serves one growing chain after another, with the bad rounds in
    between that [live_loop_follows] allows. After some number of rounds it is
    still running, with the last chain's tip and the UTXO set its blocks make,
    whatever failed to be written. If no write failed, the part files it has
    finished are those of the complete parts since the stored tip, each with
    exactly the rows [parse] writes for its blocks; the rows after the last
    boundary are pushed to the open part's writers, which only a later block
    closes; and the recorder was given every height. *)
Theorem run_live_follows (env : LiveEnv) (cfg : LiveConfig) (net : Net) (node : Transport) (sock : Socket)
    (up : Net → Prop) (chain : list (Hash32 * bytes)) (cs : list (list (Hash32 * bytes)))
    (store : UtxoStore) (h : nat) (b : Hash32 * bytes) (dir : rstr)
    (Hdb : db_reliable) (Hstep : 0 < checkpoint_step (lv_step env))
    (Hzmq : live_zmq cfg = Ok (Some sock)) (Hout : lv_out cfg = Some dir)
    (Hnode : node_new (mkRpcConfig (lv_rpc_url cfg) (lv_cookie cfg) (lv_rpc_user cfg) (lv_rpc_password cfg)) = Ok node)
    (Hstore : open_live None (lv_utxo cfg) = Ok store)
    (Hdisk : ∃ net', live_preflight node cfg (lv_disk env) store net = (Ok (), net') ∧ up net')
    (Hserves : serves node up chain) (Hb : chain !! h = Some b) (Htip : stored_tip store (mkTip (Z.of_nat h) b.1))
    (Hhist : ∀ net, up net → history node sock (length chain) cs net) (Hgrows : grows chain cs)
    (Hboundary : Z.of_nat (S h) `mod` LIVE_BLOCKS_PER_PART = 0)
    (Hcreate : ∃ l, live_create dir (Z.of_nat (S h) `div` LIVE_BLOCKS_PER_PART) = Ok l) :
  let U := utxos (db_view (db store)) in
  let c' := default chain (last cs) in
  let new := drop (S h) c' in
  let L := chain_ops U (S h) new in
  good_chain c' → len c' < 2 ^ 32 → coinbases_first (S h) new →
  ∃ n w c net', run_live env cfg n net = (Ok (w, c), net') ∧
    (∃ b', last c' = Some b' ∧ stored_tip (w_store w) (mkTip (len c' - 1) b'.1)) ∧
    (∀ x, utxos (db_view (db (w_store w))) x = chain_utxos U (S h) new x) ∧
    ∃ l, lc_sink c = Some l ∧
      (lc_warnings c = [] →
         let first := Z.of_nat (S h) `div` LIVE_BLOCKS_PER_PART in
         let file := d_file (lv_disk env) (checkpoint_file (live_disk_cfg cfg)) in
         ls_part l = Z.max (Z.of_nat (S h)) (len c' - 1) `div` LIVE_BLOCKS_PER_PART ∧
         (ls_closed l).*1 = seqZ first (ls_part l - first) ∧
         Forall (λ f, finished BATCH (part_ops LIVE_BLOCKS_PER_PART f.1 L) f.2) (ls_closed l) ∧
         (∃ s, ls_sink l = Some s ∧ sink_inv BATCH (part_ops LIVE_BLOCKS_PER_PART (ls_part l) L) s) ∧
         ∃ bs, calls_run (lv_step env) ((λ x, (lv_trees env x.1, x.1)) <$> L)
           (recorder_new (live_disk_cfg cfg) file, file) = (Ok bs, lc_rec c)).
Proof.
  cbv zeta. set (c' := default chain (last cs)). intros Hgood Hlen Hfirst. pose proof (lookup_lt_Some _ _ _ Hb) as Hlt.
  pose proof (grows_prefix chain cs Hgrows) as Hpre. fold c' in Hpre. pose proof (prefix_length _ _ Hpre) as Hle.
  assert (store_inv store) as Hinv.
  { unfold open_live in Hstore. apply open_with_ok in Hstore as (opts & d & cfs' & _ & ->). by split. }
  destruct Hdisk as (net1 & Hflight & Hup). destruct Hcreate as [l0 Hcr].
  destruct (run_follows node (mkTrackerConfig (lv_max_reorg_depth cfg)) sock Hdb up h b chain cs (mkWorld net1 store [])
    Hserves (good_chain_prefix _ _ Hpre Hgood) Hup Hinv Hb Htip Hhist Hgrows) as (n & w & Hrun & _ & Hlast & Hset & Hev).
  cbn [w_store w_events] in Hset, Hev. cbn [app] in Hev. fold c' in Hlast, Hset, Hev.
  exists n, w. unfold run_live. rewrite Hnode, Hstore, Hzmq. unfold m_lift, live_sink, mbind, M_bind, mret, M_ret.
  cbn [map_err]. rewrite Hflight. unfold live_tip. rewrite (reliable_tip Hdb _ _ Htip), Hout. cbn [map_err].
  cbn. rewrite u32_small by (unfold len in *; lia). replace (Z.of_nat h + 1) with (Z.of_nat (S h)) by lia. rewrite Hcr. cbn.
  unfold follow. rewrite Hrun. set (c0 := mkLive _ _ _). rewrite <-handle_news, Hev. cbn [news filter list_filter app].
  pose proof (chain_run env Hstep (utxos (db_view (db store))) (S h) (drop (S h) c') c0 (utxos_hashes _)) as Hc.
  rewrite length_drop in Hc. replace (S h + (length c' - S h))%nat with (length c') in Hc by lia.
  pose proof (live_create_at dir (S h) l0 Hcr) as Hat0.
  ospecialize (Hc _ _ Hfirst _).
  - unfold len in Hlen. lia.
  - intros j b' Hj. rewrite lookup_drop in Hj. destruct (proj2 Hgood _ _ Hj) as (H1 & _ & H2 & H3). done.
  - eexists. split; [done|]. by eapply sink_at_usable.
  - destruct (handle_events _ _ c0) as [[u1|e|] c1]; [|done|done]. destruct Hc as [(l & Hl & _) Hat].
    exists c1, (w_net w). split; [done|]. split; [done|]. split; [done|]. exists l. split; [done|]. intros Hn.
    destruct (proj2 (Hat Hn) (Z.of_nat (S h)) (lc_rec c0) [] ltac:(lia)) as [(l' & Hl' & [_ Hpart Hs Hcl Hf]) Hrec].
    + split; [by exists l0|by exists []].
    + rewrite Hl in Hl'. injection Hl' as <-. split; [exact Hpart|]. done.
Qed.
End theorems.

(** ** Witness *)

Module Ex.
Import Hash.Ref.

(** A database whose store has the tip [t]. *)
Definition stored (t : TipState) : View := <[(CfMeta, META_TIP_KEY) := tip_bytes t]> ∅.
#[program] Definition rocks (t : TipState) : RocksDB := {|
  DB := View; RocksError := ();
  db_open left _ _ _ := Ok (default (stored t) left);
  db_get d cf k := Ok (d !! (cf, k)); db_write d b _ := (Ok (), batch_apply d b);
  db_flush d := (Ok (), d); db_property _ _ := inr None; db_view d := d |}.
Solve All Obligations with naive_solver.
Definition store (t : TipState) : @UtxoStore (rocks t) := @mkStore (rocks t) (stored t) (str "b/utxo") ∅ None true false.

Definition cfg (zmq : option rstr) : LiveConfig :=
  mkLiveConfig (str "http://127.0.0.1:8332") None (Some (str "u")) (Some (str "p")) zmq (str "b/utxo") (Some (str "out"))
    100 None None true None.
Definition env : LiveEnv := mkLiveEnv None (DiskGuard.Ex.disk None 5) (λ _, DiskGuard.Ex.tree 5).

(** Blocks of the same contents and different hashes. *)
Definition payload : bytes := block_wire (Tracker.Ex.header 1) [Tracker.Ex.coinbase 1].
Definition chain (n : Z) : list (Hash32 * bytes) := (λ i, (Tracker.Ex.id i, payload)) <$> seqZ 1 n.

(** At the first notification the node goes on to 2001 blocks. *)
#[program] Definition zmq : @ZmqLib hex_ref Node.Ref.rpc_ref :=
  @Build_ZmqLib hex_ref Node.Ref.rpc_ref () () (Ok ()) (λ _ _, Ok ()) (λ _ _, Ok ()) (λ _ _, Ok ())
    (λ _ _, (Ok [[x68]; Tracker.Ex.id 1], Tracker.Ex.net (chain 2001))).

Abbreviation world t := (@World hex_ref Node.Ref.rpc_ref (rocks t)).
Definition tip_999 : TipState := mkTip 999 (Tracker.Ex.id 1000).
Definition run_999 (n : nat) := @run_live sha_ref ripemd_ref ParseRun.Ex.fs ParseRun.Ex.io hex_ref Node.Ref.rpc_ref zmq
  (rocks tip_999) clock_ref order_ref Parquet.Ex.lib env (cfg (Some (str "tcp://127.0.0.1:28332"))) n (Tracker.Ex.net (chain 1000)).
(** Polling, with a short chain. *)
Definition run_short := @run_live sha_ref ripemd_ref ParseRun.Ex.fs ParseRun.Ex.io hex_ref Node.Ref.rpc_ref zmq
  (rocks (mkTip 0 (Tracker.Ex.id 1))) clock_ref order_ref Parquet.Ex.lib env (cfg None) 2 (Tracker.Ex.net Tracker.Ex.chain_b).
End Ex.

Section ex.
Import Hash.Ref.

Lemma ex_payload_wf : block_wf (Tracker.Ex.header 1) [Tracker.Ex.coinbase 1].
Proof. split_and!; [by vm_compute| |by vm_compute|by vm_compute]. repeat (constructor || split_and!); by vm_compute. Qed.

Lemma ex_chain_lookup n h b : Ex.chain n !! h = Some b → b = (Tracker.Ex.id (1 + Z.of_nat h), Ex.payload) ∧ Z.of_nat h < n.
Proof. unfold Ex.chain. rewrite list_lookup_fmap. intros (i & [-> Hi]%lookup_seqZ & ->)%fmap_Some. done. Qed.

Lemma ex_parsed h id : @parsed sha_ref ripemd_ref h (id, Ex.payload) =
  Ok (@block_rows sha_ref ripemd_ref (Z.of_nat h) id (Tracker.Ex.header 1) [Tracker.Ex.coinbase 1] (len Ex.payload)).
Proof.
  unfold parsed. cbn [fst snd]. replace (header_parse (slice 0 80 Ex.payload)) with (Tracker.Ex.header 1) by (by vm_compute).
  apply parse_block_wire, ex_payload_wf.
Qed.

Lemma ex_chain_length n : 0 ≤ n → len (Ex.chain n) = n.
Proof. intros Hn. unfold len, Ex.chain. rewrite length_fmap, length_seqZ. lia. Qed.

Lemma ex_chain_good n : 0 ≤ n < 2 ^ 32 → @good_chain sha_ref ripemd_ref (Ex.chain n).
Proof.
  intros Hn. split; [rewrite ex_chain_length by lia; lia|]. intros h b Hb.
  apply ex_chain_lookup in Hb as [-> Hh]. split; [apply len_le_bytes|]. split; [|split; [by vm_compute|]].
  - intros Hz. apply (f_equal le_val) in Hz. unfold Tracker.Ex.id in Hz. cbn [fst] in Hz.
    rewrite le_val_bytes_small in Hz by lia. change (le_val ZERO) with 0 in Hz. lia.
  - eexists. apply ex_parsed.
Qed.

Lemma ex_chain_serves n : 0 ≤ n < 2 ^ 32 →
  @serves hex_ref Node.Ref.rpc_ref Node.Ref.node (λ s, s = Tracker.Ex.net (Ex.chain n)) (Ex.chain n).
Proof.
  intros Hn. apply (Node.Ref.node_serves (Tracker.Ex.net (Ex.chain n)) eq_refl).
  - cbn [Node.Ref.st_chain Tracker.Ex.net]. unfold Ex.chain. rewrite <-list_fmap_compose. apply NoDup_alt. intros i j x Hi Hj.
    rewrite list_lookup_fmap in Hi, Hj. apply fmap_Some in Hi as (a & [-> Ha]%lookup_seqZ & ->).
    apply fmap_Some in Hj as (b & [-> Hb]%lookup_seqZ & He). cbn in He. apply le_bytes_inj in He; lia.
  - apply Forall_lookup. intros h b Hb. by apply (proj2 (ex_chain_good n Hn)) in Hb as (? & _).
Qed.

Lemma ex_chain_prefix a b : 0 ≤ a ≤ b → Ex.chain a `prefix_of` Ex.chain b.
Proof.
  intros Hab. unfold Ex.chain. replace b with (a + (b - a)) by lia. rewrite seqZ_app, fmap_app by lia. by eexists.
Qed.

Lemma ex_coinbases h n : @coinbases_first sha_ref ripemd_ref h (drop h (Ex.chain n)).
Proof.
  intros j b fb Hb Hp. rewrite lookup_drop in Hb. apply ex_chain_lookup in Hb as [-> _]. rewrite ex_parsed in Hp.
  injection Hp as <-. intros [|t] Ht; [done|]. cbn in Ht. lia.
Qed.
End ex.

(** From the stored tip 999 the node first has no new block, then 1001 of them:
    part 1 is complete and finished. *)
Lemma run_live_follows_witness :
  ∃ n w c net', Ex.run_999 n = (Ok (w, c), net') ∧
    @stored_tip (Ex.rocks Ex.tip_999) (@w_store Hash.Ref.hex_ref Node.Ref.rpc_ref (Ex.rocks Ex.tip_999) w)
      (mkTip 2000 (Tracker.Ex.id 2001)) ∧
    ∃ l, lc_sink c = Some l ∧ (lc_warnings c = [] → (ls_closed l).*1 = [1]).
Proof.
  pose proof (@run_live_follows Hash.Ref.sha_ref Hash.Ref.ripemd_ref ParseRun.Ex.fs ParseRun.Ex.io Hash.Ref.hex_ref
    Node.Ref.rpc_ref Ex.zmq (Ex.rocks Ex.tip_999) clock_ref order_ref Parquet.Ex.lib Ex.env
    (Ex.cfg (Some (str "tcp://127.0.0.1:28332"))) (Tracker.Ex.net (Ex.chain 1000)) Node.Ref.node tt
    (λ s, s = Tracker.Ex.net (Ex.chain 1000)) (Ex.chain 1000) [Ex.chain 2001] (Ex.store Ex.tip_999)
    (Z.to_nat 999) (Tracker.Ex.id 1000, Ex.payload) (str "out")) as Hr.
  destruct Hr as (n & w & c & net' & Hrun & (b' & Hlast & Htip) & _ & l & Hl & Hparts).
  - split; intros; discriminate.
  - reflexivity.
  - reflexivity.
  - reflexivity.
  - reflexivity.
  - reflexivity.
  - eexists. split; reflexivity.
  - apply (ex_chain_serves 1000). lia.
  - unfold Ex.chain. rewrite list_lookup_fmap, (lookup_seqZ_lt 1 1000) by lia. reflexivity.
  - split; [split; [by split|vm_compute; reflexivity]|]. vm_compute. reflexivity.
  - intros s ->. eapply (@hist_cons Hash.Ref.sha_ref Hash.Ref.ripemd_ref Hash.Ref.hex_ref Node.Ref.rpc_ref Ex.zmq _ _
      (λ s : Node.Ref.State, s = Tracker.Ex.net (Ex.chain 2001)) _ 0).
    + apply (ex_chain_serves 2001). lia.
    + apply ex_chain_good. lia.
    + eexists _, _. split; [reflexivity|]. split; [|reflexivity]. exists (Tracker.Ex.id 1). reflexivity.
    + intros s _. constructor.
  - split; [|exact I]. apply ex_chain_prefix. lia.
  - vm_compute. reflexivity.
  - eexists. vm_compute. reflexivity.
  - apply ex_chain_good. cbn [last default from_option id]. lia.
  - cbn [last default from_option id]. rewrite ex_chain_length by lia. lia.
  - apply ex_coinbases.
  - cbn [last default from_option id] in *. rewrite ex_chain_length in * by lia.
    exists n, w, c, net'. split; [exact Hrun|]. split.
    + rewrite last_lookup in Hlast. apply ex_chain_lookup in Hlast as [-> _].
      replace (length (Ex.chain 2001)) with 2001%nat in Htip by (pose proof (ex_chain_length 2001); unfold len in *; lia).
      exact Htip.
    + exists l. split; [exact Hl|]. intros Hw. destruct (Hparts Hw) as (Hp & Hc & _). rewrite Hc, Hp. vm_compute. reflexivity.
Defined.

(** A run that follows three blocks in two polls, without a warning. *)
Example run_short_is_quiet :
  match Ex.run_short with (Ok (w, c), _) => len (@w_events _ _ (Ex.rocks (mkTip 0 (Tracker.Ex.id 1))) w) = 6 ∧ lc_warnings c = [] | _ => False end.
Proof. vm_compute. by split. Qed.

(** ** What the sink does not handle *)

Module Parts.
Definition write (l : @LiveSink Parquet.Ex.lib) (h : Z) : @LiveSink Parquet.Ex.lib :=
  snd (@write_block Parquet.Ex.lib ParseRun.Ex.fs (Pipeline.Ex.block h) [] l).

Definition sink0 : @LiveSink Parquet.Ex.lib :=
  @mkLiveSink Parquet.Ex.lib (str "out") 0 (Some Pipeline.Ex.sink) [].

(** The rows of [blocks] in the part files, in the order they are finished. *)
Definition blocks_of (l : @LiveSink Parquet.Ex.lib) : list (Z * list nat) :=
  (λ c : Z * list (list (list (list Cell))),
    (c.1, (λ b, length (default [] (head b))) <$> default [] (head c.2))) <$>
    (@ls_closed Parquet.Ex.lib l : list (Z * list (list (list (list Cell))))).
End Parts.

(** A reorganisation over the boundary of a part creates its file anew: of the
    blocks 998 and 999, and the new 999, only the last is left in part 0. *)
Lemma reorg_rewrites_part :
  Parts.blocks_of (foldl Parts.write Parts.sink0 [998; 999; 1000; 999; 1000]) = [(0, [2%nat]); (1, [1%nat]); (0, [1%nat])].
Proof. vm_compute. reflexivity. Qed.

(** When a rotation fails there is no sink, but the part is still the old one:
    a block of that part then panics. *)
Lemma failed_rotation_panics `{PARQ : ParquetLib, FS : Fs} (l l' : LiveSink) (h h' : Z) e b sp :
  rotate_if_needed h l = (Err e, l') → h' `div` LIVE_BLOCKS_PER_PART = ls_part l → br_height (block_row b) = h' →
  fst (write_block b sp l') = Panic.
Proof.
  intros Hr Hp Hb. unfold rotate_if_needed, mbind, M_bind, m_get in Hr. case_bool_decide as Hw; [done|].
  assert (ls_part l' = ls_part l ∧ ls_sink l' = None) as [Hl Hn].
  { unfold finish_taken, open_wanted in Hr. destruct l as [d p [s|] cl]; cbn in Hr.
    - destruct (sink_finish s); cbn in Hr; [|by injection Hr as _ <-|done].
      destruct (sink_create _ _ _); [done|by injection Hr as _ <-|done].
    - destruct (sink_create _ _ _); [done|by injection Hr as _ <-|done]. }
  unfold write_block, rotate_if_needed, mbind, M_bind, m_get. rewrite Hb, Hl, bool_decide_true by done.
  cbn. unfold push_all. by rewrite Hn.
Qed.
