(* ===== verification/Bench.v ===== *)
(** * Bench: [bidx bench], [bidx-cli/src/bench/mod.rs] and [bidx-cli/src/bench/metrics.rs]

    The masks of the modes, the numbers of a report, and the consumer with its
    stages switched on or off. Durations and samples of the process are inputs.
    [Trial] has the trials around it. *)
From S2P Require Import Prelude F64 Text Hash Types Tx Block BlkFile Chain Utxo UtxoStore UtxoSpec UtxoThms Disk DiskGuard.
From S2P Require Import Node Tracker Parquet Pipeline PipelineThms FileCache ParseRun.

Inductive BenchMode : Type := Full | Headers_ | Parse | Drain | UtxoMode | SinkMode.

#[global] Instance BenchMode_eq_dec : EqDecision BenchMode.
Proof. solve_decision. Defined.

Definition needs_utxo (m : BenchMode) : bool := match m with Full | UtxoMode => true | _ => false end.
Definition needs_sink (m : BenchMode) : bool := match m with Full | SinkMode => true | _ => false end.
Definition needs_fee_enrichment (m : BenchMode) : bool := needs_utxo m.

Record BenchConfig : Type := mkBenchConfig {
  bc_blocks_dir : rstr; bc_mode : BenchMode; bc_start : Z; bc_end : option Z; bc_threads : option Z;
  bc_utxo : option rstr; bc_utxo_dir : option rstr; bc_out_dir : option rstr; bc_blocks_per_part : Z;
  bc_sink_batch_rows : option Z; bc_reorder_high : option Z; bc_channel_depth : option Z; bc_repeat : Z;
  bc_allow_missing_utxos : bool; bc_utxo_cache_mb : Z; bc_rocksdb_stats : bool; bc_csv : option rstr }.

(** "Defaults mirror [pipeline.rs]". *)
Record Tuning : Type := mkTuning { reorder_high : Z; channel_depth : Z; sink_batch_rows : Z }.

Definition from_cfg (cfg : BenchConfig) : Tuning :=
  mkTuning (default REORDER_HIGH (bc_reorder_high cfg)) (default 512 (bc_channel_depth cfg))
    (default (batch_size sink_config_default) (bc_sink_batch_rows cfg)).

Definition tuning_sink_config (t : Tuning) : SinkConfig := mkSinkConfig (sink_batch_rows t).

(** ** [metrics.rs] *)

Record ResourceSample : Type := mkSample { rss_kb : Z; user_jiffies : Z; sys_jiffies : Z }.

(** What follows the last [')'], if there is one. *)
Fixpoint after_last_paren (s : rstr) : option rstr :=
  match s with
  | [] => None
  | c :: s =>
    match after_last_paren s with
    | Some r => Some r
    | None => if c =? 41 then Some s else None
    end
  end.

Definition parse_or_zero (w : rstr) : Z := default 0 (parse_uint u64_max w).

(** [ResourceSample::now], from the text of [/proc/self/stat] and the page size.
    [stat[rparen + 2..]] panics at the end of the text and inside a character. *)
Definition sample_now {E} (stat : option rstr) (page_size : Z) : Res E ResourceSample :=
  match stat ≫= after_last_paren with
  | None => Ok (mkSample 0 0 0)
  | Some [] => Panic
  | Some (c :: rest) =>
    if negb (utf8_len_char c =? 1) then Panic
    else
      let f := split_whitespace rest in
      Ok (if 21 <? len f then
            mkSample (u64 (parse_or_zero (nth 21 f []) * page_size) `div` 1024)
              (parse_or_zero (nth 11 f [])) (parse_or_zero (nth 12 f []))
          else mkSample 0 0 0)
  end.

Definition cpu_jiffies (s : ResourceSample) : Z := u64 (user_jiffies s + sys_jiffies s).

(** [peak_rss_kb], from the text of [/proc/self/status] and what [getrusage]
    returns. *)
Definition hwm_line (line : rstr) : option Z :=
  rest ← strip_prefix (str "VmHWM:") line; w ← head (split_whitespace rest); parse_uint u64_max w.

Definition peak_rss_kb (status : option rstr) (ru_maxrss : option Z) : Z :=
  match status ≫= (λ s, head (omap hwm_line (str_lines s))) with
  | Some v => v
  | None => default 0 (u64 <$> ru_maxrss)
  end.

(** [Duration::as_secs_f64], of nanoseconds. *)
Definition as_secs_f64 (nanos : Z) : f64 :=
  f64_add (f64_of_Z (nanos `div` 1000000000)) (f64_div (f64_of_Z (nanos `mod` 1000000000)) (f64_of_Z 1000000000)).

(** [StageTimer]: its clock and its sample at the start; [elapsed] and the
    second sample are taken when it stops. Durations are in nanoseconds. *)
Record StageMeasure : Type := mkMeasure { sm_wall : Z; sm_cpu_jiffies : Z; sm_peak_rss_kb : Z }.

Record StageTimer : Type := mkTimer { tm_start : Z; tm_start_res : ResourceSample }.

Definition timer_start (now : Z) (res : ResourceSample) : StageTimer := mkTimer now res.

Definition timer_stop (t : StageTimer) (now : Z) (end_res : ResourceSample) (peak : Z) : StageMeasure :=
  mkMeasure (now - tm_start t) (u64 (cpu_jiffies end_res - cpu_jiffies (tm_start_res t))) peak.

Definition wall_secs (m : StageMeasure) : f64 := as_secs_f64 (sm_wall m).

(** [1e-6] and [f64::min] with a number. *)
Definition micro : f64 := f64_div (f64_of_Z 1) (f64_of_Z 1000000).
Definition f64_min1 (x : f64) : f64 :=
  match x with S754_nan => f64_of_Z 1 | _ => if f64_lt (f64_of_Z 1) x then f64_of_Z 1 else x end.

Definition cpu_utilization (m : StageMeasure) (hz : Z) (thread_count_hint : f64) : f64 :=
  let secs := f64_max (wall_secs m) micro in
  let cpu_secs := f64_div (f64_of_Z (sm_cpu_jiffies m)) (f64_of_Z hz) in
  f64_min1 (f64_div (f64_div cpu_secs secs) thread_count_hint).

(** ** The numbers of a report *)

Record LatencyReport : Type := mkLatency { lat_n : Z; p50_ms : f64; p99_ms : f64; max_ms : f64; sum_secs : f64 }.

(** [x.round() as usize]: half away from zero, then saturating. *)
Definition round_usize (x : f64) : Z :=
  match x with
  | S754_finite false m e =>
    Z.min u64_max (if 0 <=? e then Z.pos m * 2 ^ e else (Z.pos m + 2 ^ (- e - 1)) `div` 2 ^ (- e))
  | S754_infinity false => u64_max
  | _ => 0
  end.

(** [((n as f64 - 1.0) * q).round() as usize]. *)
Definition pick_index (n : Z) (q : f64) : Z := round_usize (f64_mul (f64_sub (f64_of_Z n) (f64_of_Z 1)) q).

Definition pick {E} (samples : list Z) (n : Z) (q : f64) : Res E f64 :=
  s ← index samples (pick_index n q); Ok (f64_div (f64_of_Z s) (f64_of_Z 1000000)).

Definition from_samples {E} (samples : list Z) : Res E LatencyReport :=
  match samples with
  | [] => Ok (mkLatency 0 f64_zero f64_zero f64_zero f64_zero)
  | _ =>
    let sorted := merge_sort Z.le samples in
    let n := len sorted in
    p50 ← pick sorted n (f64_div (f64_of_Z 1) (f64_of_Z 2));
    p99 ← pick sorted n (f64_div (f64_of_Z 99) (f64_of_Z 100));
    mx ← index sorted (n - 1);
    Ok (mkLatency n p50 p99 (f64_div (f64_of_Z mx) (f64_of_Z 1000000))
          (f64_div (f64_of_Z (u64 (foldl Z.add 0 sorted))) (f64_of_Z 1000000000)))
  end.

Definition is_nan (x : f64) : bool := match x with S754_nan => true | _ => false end.

(** [median]: [partial_cmp(..).unwrap()] panics on a NaN, and the indexing on
    no value. *)
#[global] Instance f64_le_dec x y : Decision (f64_le x y = true).
Proof. apply _. Defined.

Definition median {E} (v : list f64) : Res E (f64 * f64 * f64) :=
  if existsb is_nan v && (2 <=? len v) then Panic
  else
    let v := merge_sort (λ x y, f64_le x y = true) v in
    let mid := len v `div` 2 in
    med ← (if len v `mod` 2 =? 0 then
             a ← index v (mid - 1); b ← index v mid; Ok (f64_div (f64_add a b) (f64_of_Z 2))
           else index v mid);
    mn ← index v 0;
    mx ← index v (len v - 1);
    Ok (mn, med, mx).

(** ** The consumer *)

Section consumer.
Context `{ROCKS : RocksDB} `{CLOCK : Clock} `{ORDER : HashOrder} `{PARQ : ParquetLib} `{FS : Fs}.

Inductive BenchError : Type :=
  | BeUtxo (e : UtxoError)
  | BeSink (e : SinkError)
  | BeWatchdog (limit_mib : Z)
  | BeSkipped (height : Z)
  | BeClosedEarly (height : Z).

(** What does not change during a trial: of [r_conf] the range, the size of a
    part, the directory and the watchdog; the stages that run; and how long
    applying and writing the block of a height takes. *)
Record BenchRun : Type := mkBenchRun {
  r_conf : Conf; r_sink : bool; r_utxo : bool; r_fees : bool; r_sink_cfg : SinkConfig;
  r_apply_nanos : Z → Z; r_sink_nanos : Z → Z }.

(** The sink, its part, the store, the counters of the report, the durations
    returned; and the files of the parts finished. *)
Record Bench : Type := mkBench {
  bn_sink : option ParquetSink; bn_part : Z; bn_store : option UtxoStore; bn_closed : list (Z * list ArrowWriter);
  bn_blocks : Z; bn_missing : Z; bn_lookups : Z; bn_db_nanos : Z; bn_pending : Z; bn_cache : Z;
  bn_sink_wall : Z; bn_utxo_wall : Z; bn_samples : list Z }.

Definition with_sink (s : Bench) (sink : option ParquetSink) (part : Z) (closed : list (Z * list ArrowWriter)) : Bench :=
  mkBench sink part (bn_store s) closed (bn_blocks s) (bn_missing s) (bn_lookups s) (bn_db_nanos s) (bn_pending s)
    (bn_cache s) (bn_sink_wall s) (bn_utxo_wall s) (bn_samples s).

Definition with_store (s : Bench) (store : option UtxoStore) : Bench :=
  mkBench (bn_sink s) (bn_part s) store (bn_closed s) (bn_blocks s) (bn_missing s) (bn_lookups s) (bn_db_nanos s)
    (bn_pending s) (bn_cache s) (bn_sink_wall s) (bn_utxo_wall s) (bn_samples s).

Definition add_apply_time (dt : Z) (s : Bench) : Bench :=
  mkBench (bn_sink s) (bn_part s) (bn_store s) (bn_closed s) (bn_blocks s) (bn_missing s) (bn_lookups s) (bn_db_nanos s)
    (bn_pending s) (bn_cache s) (bn_sink_wall s) (u64 (bn_utxo_wall s + dt)) (bn_samples s ++ [dt]).

Definition add_counters (res : SpendResult) (s : Bench) : Bench :=
  mkBench (bn_sink s) (bn_part s) (bn_store s) (bn_closed s) (bn_blocks s) (u64 (bn_missing s + missing res))
    (u64 (bn_lookups s + db_lookups res)) (u64 (bn_db_nanos s + db_nanos res)) (u64 (bn_pending s + pending_hits res))
    (u64 (bn_cache s + cache_hits res)) (bn_sink_wall s) (bn_utxo_wall s) (bn_samples s).

Definition add_sink_time (dt : Z) (s : Bench) : Bench :=
  mkBench (bn_sink s) (bn_part s) (bn_store s) (bn_closed s) (bn_blocks s) (bn_missing s) (bn_lookups s) (bn_db_nanos s)
    (bn_pending s) (bn_cache s) (u64 (bn_sink_wall s + dt)) (bn_utxo_wall s) (bn_samples s).

Definition add_block (s : Bench) : Bench :=
  mkBench (bn_sink s) (bn_part s) (bn_store s) (bn_closed s) (u64 (bn_blocks s + 1)) (bn_missing s) (bn_lookups s)
    (bn_db_nanos s) (bn_pending s) (bn_cache s) (bn_sink_wall s) (bn_utxo_wall s) (bn_samples s).

(** [if let Some(s) = sink.take() { s.finish()?; }]. *)
Definition bench_finish : M Bench BenchError () := λ s,
  match bn_sink s with
  | None => (Ok (), s)
  | Some sk =>
    match sink_finish sk with
    | Ok ws => (Ok (), with_sink s None (bn_part s) (bn_closed s ++ [(bn_part s, ws)]))
    | Err e => (Err (BeSink e), with_sink s None (bn_part s) (bn_closed s))
    | Panic => (Panic, s)
    end
  end.

Variable r : BenchRun.

Definition bench_open (part : Z) : M Bench BenchError () := λ s,
  match sink_create (k_out_dir (r_conf r)) part (r_sink_cfg r) with
  | Ok sk => (Ok (), with_sink s (Some sk) part (bn_closed s))
  | Err e => (Err (BeSink e), with_sink s None part (bn_closed s))
  | Panic => (Panic, s)
  end.

Definition bench_rotate (next : Z) : M Bench BenchError () := λ s,
  match bn_sink s with
  | None => (Ok (), s)
  | Some _ =>
    if k_blocks_per_part (r_conf r) =? 0 then (Panic, s)
    else
      let wanted_part := next `div` k_blocks_per_part (r_conf r) in
      if bool_decide (wanted_part = bn_part s) then (Ok (), s) else (_ ← bench_finish; bench_open wanted_part) s
  end.

(** [utxo.map(|u| u.apply_block(..)).transpose()?], timed. *)
Definition bench_apply (next : Z) (b : FullBlock) : M Bench BenchError (option SpendResult) := λ s,
  if r_utxo r then
    match bn_store s with
    | None => (Ok None, add_apply_time (r_apply_nanos r next) s)
    | Some st =>
      match apply_block next (txs b) (inputs b) (outputs b) st with
      | (Ok res, st) => (Ok (Some res), add_apply_time (r_apply_nanos r next) (with_store s (Some st)))
      | (Err e, st) => (Err (BeUtxo e), with_store s (Some st))
      | (Panic, st) => (Panic, with_store s (Some st))
      end
    end
  else (Ok None, s).

Definition bench_fees (b : FullBlock) (res : option SpendResult) : M Bench BenchError FullBlock :=
  match res with
  | Some res => _ ← m_modify (add_counters res); if r_fees r then m_lift (enrich b (fees res)) else mret b
  | None => mret b
  end.

Definition bench_push (next : Z) (b : FullBlock) (res : option SpendResult) : M Bench BenchError () := λ s,
  match bn_sink s with
  | None => (Ok (), s)
  | Some sk =>
    let '(x, sk) := push_rows b (match res with Some res => spends res | None => [] end) sk in
    let s := with_sink s (Some sk) (bn_part s) (bn_closed s) in
    (map_err BeSink x, match x with Ok _ => add_sink_time (r_sink_nanos r next) s | _ => s end)
  end.

(** The body of the drain loop up to [next += 1]. *)
Definition bench_block (next : Z) (b : FullBlock) : M Bench BenchError () :=
  _ ← (if k_tripped (r_conf r) next then m_fail (BeWatchdog (k_limit_kb (r_conf r) `div` 1024)) else mret ());
  _ ← bench_rotate next;
  res ← bench_apply next b;
  b ← bench_fees b res;
  _ ← bench_push next b res;
  m_modify add_block.

Fixpoint bench_drain (fuel : nat) (q : Reorder) : M Bench BenchError (Reorder * bool) :=
  match fuel with
  | O => m_panic
  | S fuel =>
    match q_buffer q !! q_next q with
    | Some b =>
      _ ← bench_block (q_next q) b;
      let q := mkReorder (delete (q_next q) (q_buffer q)) (q_skipped q) (u32 (q_next q + 1)) (u64 (q_depth q - 1)) in
      if k_end (r_conf r) <=? q_next q then _ ← bench_finish; mret (q, true) else bench_drain fuel q
    | None => mret (q, false)
    end
  end.

Definition bench_round (i : WorkItem) (q : Reorder) : M Bench BenchError (Reorder * bool) :=
  match i with
  | WiBlock _ _ => let q := receive i q in bench_drain (S (size (q_buffer q))) q
  | WiSkipped h => m_fail (BeSkipped h)
  end.

Fixpoint bench_recv (items : list WorkItem) (q : Reorder) : M Bench BenchError (Reorder * bool) :=
  match items with
  | [] => mret (q, false)
  | i :: items =>
    x ← bench_round i q;
    let '(q, done) := (x : Reorder * bool) in
    if done then mret (q, true) else bench_recv items q
  end.

Definition bench_items (items : list WorkItem) : M Bench BenchError () :=
  x ← bench_recv items (mkReorder ∅ ∅ (k_start (r_conf r)) 0);
  let '(q, done) := (x : Reorder * bool) in
  if done then mret ()
  else
    _ ← bench_finish;
    if q_next q <? k_end (r_conf r) then m_fail (BeClosedEarly (q_next q)) else mret ().

Definition bench_consume (items : list WorkItem) (store : option UtxoStore) : Res BenchError () * option Bench :=
  if k_blocks_per_part (r_conf r) =? 0 then (Panic, None)
  else
    let part_id := k_start (r_conf r) `div` k_blocks_per_part (r_conf r) in
    let start sink := mkBench sink part_id store [] 0 0 0 0 0 0 0 0 [] in
    if r_sink r then
      match sink_create (k_out_dir (r_conf r)) part_id (r_sink_cfg r) with
      | Ok sk => let '(x, s) := bench_items items (start (Some sk)) in (x, Some s)
      | Err e => (Err (BeSink e), None)
      | Panic => (Panic, None)
      end
    else let '(x, s) := bench_items items (start None) in (x, Some s).
End consumer.

(** The masks of a mode. *)
Definition mode_run (m : BenchMode) (k : Conf) (sink_cfg : SinkConfig) (apply_nanos sink_nanos : Z → Z) : BenchRun :=
  mkBenchRun k (needs_sink m) (needs_utxo m) (needs_fee_enrichment m) sink_cfg apply_nanos sink_nanos.

(** ** The consumer of a mode with the store does what [parse] does *)

(** Enriching a block does not depend on the errors of who calls it. *)
Lemma enrich_txs_any {E E'} i ts fs flags total :
  enrich_txs (E := E') i ts fs flags total =
  match enrich_txs (E := E) i ts fs flags total with Ok x => Ok x | _ => Panic end.
Proof.
  revert i total. induction ts as [|t ts IH]; intros i total; [done|]. cbn [enrich_txs]. unfold mbind, Res_bind, index.
  destruct (fs !! _); [|done]. rewrite IH. by destruct (enrich_txs (E := E) _ _ _ _ _).
Qed.

Lemma enrich_any {E E'} b fs x : enrich (E := E) b fs = Ok x → enrich (E := E') b fs = Ok x.
Proof.
  unfold enrich, mbind, Res_bind. rewrite (enrich_txs_any (E := E) (E' := E')). destruct (enrich_txs (E := E) _ _ _ _ _); [|done|done]. m_unfold. by intros [= <-].
Qed.

Section sim.
Context `{ROCKS : RocksDB} `{CLOCK : Clock} `{ORDER : HashOrder} `{PARQ : ParquetLib} `{FS : Fs} `{IO : !AppendIo}.
Variable r : BenchRun.
Hypothesis Hutxo : r_utxo r = true.
Hypothesis Hfees : r_fees r = true.
Hypothesis Hcfg : r_sink_cfg r = sink_config_default.

Abbreviation k := (r_conf r).

(** The store and the count of missing outputs agree, and the files when the
    sink is on. *)
Definition same_end (p : Pipe) (s : Bench) : Prop :=
  bn_store s = Some (p_store p) ∧ bn_missing s = p_missing p ∧ (r_sink r = true → bn_closed s = p_closed p).

Definition same_run (p : Pipe) (s : Bench) : Prop :=
  same_end p s ∧
  if r_sink r then bn_sink s = Some (p_sink p) ∧ bn_part s = p_part p else bn_sink s = None.

Definition no_skips (items : list WorkItem) : Prop := Forall (λ i, match i with WiBlock _ _ => True | _ => False end) items.

Lemma rotate_sim next p p' u s :
  rotate k next p = (Ok u, p') → same_run p s → ∃ s', bench_rotate r next s = (Ok (), s') ∧ same_run p' s' ∧
    bn_blocks s' = bn_blocks s.
Proof.
  intros Hr [(Hst & Hm & Hcl) Hs]. unfold rotate, part_of, mbind, M_bind, m_get in Hr. unfold bench_rotate.
  destruct (k_blocks_per_part k =? 0) eqn:Hz; [done|]. cbn in Hr. unfold same_run, same_end.
  destruct (r_sink r) eqn:Hsink.
  - destruct Hs as [Hsk Hpart]. rewrite Hsk, Hpart. case_bool_decide as Hw.
    + injection Hr as <- <-. exists s. by split_and!.
    + unfold finish_part in Hr. unfold mbind, M_bind, bench_finish. rewrite Hsk.
      destruct (sink_finish (p_sink p)) as [ws|e|]; [|done|done]. unfold set_part, m_modify, open_part in Hr. cbn in Hr.
      unfold bench_open. cbn. rewrite Hcfg. destruct (sink_create _ _ _) as [sk|e|]; [|done|done]. injection Hr as <- <-.
      eexists. split; [done|]. cbn. rewrite Hpart, Hcl by done. by split_and!.
  - rewrite Hs. exists s. assert (p_store p' = p_store p ∧ p_missing p' = p_missing p) as [-> ->]; [|by split_and!].
    case_bool_decide; [by injection Hr as <- <-|]. unfold finish_part in Hr.
    destruct (sink_finish (p_sink p)) as [ws|e|]; [|done|done]. unfold set_part, m_modify, open_part in Hr. cbn in Hr.
    destruct (sink_create _ _ _) as [sk|e|]; [|done|done]. by injection Hr as <- <-.
Qed.

Lemma push_sim next b res p p' u s :
  on_sink (push_rows b (spends res)) p = (Ok u, p') → same_run p s →
  ∃ s', bench_push r next b (Some res) s = (Ok (), s') ∧ same_run p' s' ∧ bn_blocks s' = bn_blocks s.
Proof.
  intros Hp [(Hst & Hm & Hcl) Hs]. unfold on_sink in Hp. unfold bench_push, same_run, same_end.
  destruct (push_rows _ _ (p_sink p)) as [x sk] eqn:Hpush. destruct x as [[]|e|]; [|done|done]. injection Hp as _ <-. cbn.
  destruct (r_sink r) eqn:Hsink.
  - destruct Hs as [-> Hpart]. rewrite Hpush. eexists. split; [done|]. by split_and!.
  - rewrite Hs. exists s. by split_and!.
Qed.

Lemma block_sim next b p p' u s :
  consume_block k next b p = (Ok u, p') → same_run p s →
  ∃ s', bench_block r next b s = (Ok (), s') ∧ same_run p' s' ∧ bn_blocks s' = u64 (bn_blocks s + 1).
Proof.
  unfold consume_block, bench_block. intros Hc Hs. unfold mbind, M_bind in *.
  destruct (k_tripped k next); [done|]. cbn in Hc. cbn.
  destruct (rotate k next p) as [[u1|e|] p1] eqn:Hr; [|done|done].
  destruct (rotate_sim _ _ _ _ _ Hr Hs) as (s1 & -> & Hs1 & Hb1). destruct Hs1 as [(Hst & Hm & Hcl) Hsk].
  unfold on_store in Hc. unfold bench_apply. rewrite Hutxo, Hst.
  destruct (apply_block _ _ _ _ (p_store p1)) as [[res|e|] st]; cbn in Hc; [|done|done].
  unfold bench_fees, mbind, M_bind, m_modify. rewrite Hfees. unfold m_lift. cbn.
  destruct (enrich b (fees res)) as [b'|e|] eqn:Hen; [|done|done]. cbn in Hc.
  rewrite (enrich_any (E' := BenchError) _ _ _ Hen).
  match type of Hc with context [on_sink _ ?q] => set (p2 := q) in * end.
  match goal with |- context [bench_push _ _ _ _ ?q] => set (s2 := q) end.
  assert (same_run p2 s2) as Hs2.
  { subst p2 s2. unfold same_run, same_end. cbn. rewrite Hm. by destruct (r_sink r). }
  destruct (on_sink _ p2) as [[u2|e|] p3] eqn:Hpush; [|done|done].
  destruct (push_sim next _ _ _ _ _ _ Hpush Hs2) as (s3 & -> & Hs3 & Hb3). eexists. split; [done|].
  unfold record_height, mbind, M_bind, on_recorder in Hc. destruct (on_block_applied _ _ _ _) as [[b2|e|] rec]; [|done|done].
  injection Hc as _ <-. destruct Hs3 as [(H1 & H2 & H3) H4]. unfold same_run, same_end. cbn. split; [by split_and!|].
  rewrite Hb3. subst s2. cbn. by rewrite Hb1.
Qed.

Lemma finish_sim p p' u s : finish_part p = (Ok u, p') → same_run p s →
  ∃ s', bench_finish s = (Ok (), s') ∧ same_end p' s' ∧ bn_blocks s' = bn_blocks s.
Proof.
  unfold finish_part, bench_finish. intros Hf [(Hst & Hm & Hcl) Hs].
  destruct (sink_finish (p_sink p)) as [ws|e|] eqn:Hfin; [|done|done]. injection Hf as _ <-. unfold same_end.
  destruct (r_sink r) eqn:Hsink.
  - destruct Hs as [-> Hpart]. rewrite Hfin. eexists. split; [done|]. cbn. rewrite Hpart, Hcl by done. by split_and!.
  - rewrite Hs. exists s. by split_and!.
Qed.

(** What a loop leaves: the end, or a state to go on from. *)
Definition same_after (done : bool) (p : Pipe) (s : Bench) : Prop := if done then same_end p s else same_run p s.

Lemma drain_sim fuel q p q' d p' s :
  drain_loop k fuel q p = (Ok (q', d), p') → q_skipped q = ∅ → same_run p s →
  ∃ s', bench_drain r fuel q s = (Ok (q', d), s') ∧ q_skipped q' = ∅ ∧ same_after d p' s'.
Proof.
  revert q p s. induction fuel as [|fuel IH]; intros q p s Hd Hq Hs; [done|]. cbn [drain_loop bench_drain] in *.
  destruct (q_buffer q !! q_next q) as [b|]; [|injection Hd as <- <- <-; by exists s].
  unfold mbind, M_bind in *. destruct (consume_block k (q_next q) b p) as [[u|e|] p1] eqn:Hc; [|done|done].
  destruct (block_sim _ _ _ _ _ _ Hc Hs) as (s1 & -> & Hs1 & _). cbn [q_next] in *.
  destruct (k_end k <=? u32 (q_next q + 1)); [|by eapply IH].
  destruct (finish_part p1) as [[u1|e|] p2] eqn:Hf; [|done|done].
  destruct (finish_sim _ _ _ _ Hf Hs1) as (s2 & -> & Hs2 & _). injection Hd as <- <- <-. by exists s2.
Qed.

Lemma recv_sim items q p q' d p' s :
  recv_loop k items q p = (Ok (q', d), p') → no_skips items → q_skipped q = ∅ → same_run p s →
  ∃ s', bench_recv r items q s = (Ok (q', d), s') ∧ same_after d p' s'.
Proof.
  revert q p s. induction items as [|i items IH]; intros q p s Hr Hi Hq Hs; cbn [recv_loop bench_recv] in *.
  { injection Hr as <- <- <-. by exists s. }
  apply Forall_cons in Hi as [Hi Hitems]. destruct i as [h b|]; [|done]. unfold mbind, M_bind in *.
  unfold recv_round in Hr. cbn [bench_round]. set (q1 := receive (WiBlock h b) q) in *.
  assert (q_skipped q1 = ∅) as Hq1 by done.
  assert (skip_loop k (S (size (q_skipped q1))) q1 = mret (q1, false)) as Hskip.
  { cbn [skip_loop]. rewrite Hq1. rewrite bool_decide_false by set_solver. done. }
  rewrite Hskip in Hr. unfold mbind, M_bind, mret, M_ret in Hr.
  destruct (drain_loop _ _ q1 p) as [[[q2 d2]|e|] p2] eqn:Hd; [|done|done].
  destruct (drain_sim _ _ _ _ _ _ _ Hd Hq1 Hs) as (s2 & -> & Hq2 & Hs2). destruct d2.
  - injection Hr as <- <- <-. by exists s2.
  - by eapply IH.
Qed.

Lemma items_sim items p p' u s :
  consume_items k items p = (Ok u, p') → no_skips items → same_run p s →
  ∃ s', bench_items r items s = (Ok (), s') ∧ same_end p' s'.
Proof.
  unfold consume_items, bench_items, mbind, M_bind. intros Hc Hi Hs.
  destruct (recv_loop _ _ _ p) as [[[q d]|e|] p1] eqn:Hr; [|done|done].
  destruct (recv_sim _ _ _ _ _ _ _ Hr Hi eq_refl Hs) as (s1 & -> & Hs1). destruct d.
  { injection Hc as <- <-. by exists s1. }
  destruct (finish_part p1) as [[u1|e|] p2] eqn:Hf; [|done|done].
  destruct (finish_sim _ _ _ _ Hf Hs1) as (s2 & -> & Hs2 & _).
  destruct (_ <? _); [done|]. injection Hc as <- <-. by exists s2.
Qed.
End sim.

(** ** Theorem *)

(** C29: The benchmark measures what [parse] does. In the modes with the store,
    over any arrivals without skipped heights on which the consumer of [parse]
    succeeds, the consumer of [bench], with the production batch size,
    succeeds too and leaves the same store and the same count of missing
    outputs; in [full] mode also the same part files. *)
Theorem bench_measures_parse `{ROCKS : RocksDB, CLOCK : Clock, ORDER : HashOrder, PARQ : ParquetLib, FS : Fs, IO : !AppendIo}
    (m : BenchMode) (cfg : BenchConfig) (k : Conf) (arrivals : list WorkItem) (store : UtxoStore)
    (rec : DiskRecorder * option bytes) (apply_nanos sink_nanos : Z → Z) (p : Pipe)
    (Hmode : needs_utxo m = true) (Hrows : bc_sink_batch_rows cfg = None) (Hskips : no_skips arrivals)
    (Hparse : consume_ordered k arrivals store rec = (Ok (), Some p)) :
  ∃ s, bench_consume (mode_run m k (tuning_sink_config (from_cfg cfg)) apply_nanos sink_nanos) arrivals (Some store) =
         (Ok (), Some s) ∧
    bn_store s = Some (p_store p) ∧ bn_missing s = p_missing p ∧ (m = Full → bn_closed s = p_closed p).
Proof.
  unfold consume_ordered in Hparse. unfold bench_consume, from_cfg. rewrite Hrows.
  change (r_conf (mode_run m k _ _ _)) with k. destruct (k_blocks_per_part k =? 0); [done|].
  destruct (sink_create _ _ _) as [sink|e|] eqn:Hsink; [|done|done].
  destruct (consume_items k arrivals _) as [x p1] eqn:Hc. injection Hparse as -> ->.
  change (tuning_sink_config _) with sink_config_default. set (r := mode_run m k sink_config_default apply_nanos sink_nanos).
  assert (∀ s0, same_run r (mkPipe sink (k_start k `div` k_blocks_per_part k) store rec 0 []) s0 →
    ∃ s, bench_items r arrivals s0 = (Ok (), s) ∧ same_end r p s) as Hrun.
  { intros s0 Hs0. by apply (items_sim r Hmode Hmode eq_refl arrivals _ p () s0 Hc Hskips Hs0). }
  change (r_sink r) with (needs_sink m). change (r_sink_cfg r) with sink_config_default.
  change (r_conf r) with k.
  destruct (needs_sink m) eqn:Hns.
  - edestruct Hrun as (s & -> & H1 & H2 & H3); [|exists s; split_and!; [done..|]; intros _; by apply H3].
    unfold same_run, same_end. change (r_sink r) with (needs_sink m). rewrite Hns. by split_and!.
  - edestruct Hrun as (s & -> & H1 & H2 & H3); [|exists s; split_and!; [done..|]; by intros ->].
    unfold same_run, same_end. change (r_sink r) with (needs_sink m). rewrite Hns. by split_and!.
Qed.

(** [drain], documented as receiving and dropping every block where [parse]
    reorders and enriches, is the same run as [parse]. *)
Lemma drain_is_parse k cfg apply_nanos sink_nanos :
  mode_run Drain k cfg apply_nanos sink_nanos = mode_run Parse k cfg apply_nanos sink_nanos.
Proof. done. Qed.

(** Nor are rows built in [utxo] mode. *)
Lemma utxo_mode_builds_no_rows k cfg apply_nanos sink_nanos :
  r_sink (mode_run UtxoMode k cfg apply_nanos sink_nanos) = false.
Proof. done. Qed.

(** ** Witness *)

Module Ex.
Definition cfg : BenchConfig :=
  mkBenchConfig (str "b") Full 0 None None None None None 2 None None None 1 false 0 false None.
End Ex.

Lemma no_skips_check items : forallb (λ i, match i with WiBlock _ _ => true | _ => false end) items = true → no_skips items.
Proof. intros Hc. rewrite forallb_forall in Hc. apply Forall_forall. intros [h b|h] Hi%list_elem_of_In; [done|by apply Hc in Hi]. Qed.

Lemma bench_measures_parse_witness :
  match PipelineThms.Ex.run with
  | (Ok _, Some p) =>
    ∃ s, @bench_consume rocks_ref clock_ref order_ref Parquet.Ex.lib BlkFile.Ex.fs
           (mode_run Full (Pipeline.Ex.conf 0 3) (tuning_sink_config (from_cfg Ex.cfg)) (λ _, 7) (λ _, 9))
           PipelineThms.Ex.arrivals (Some Pipeline.Ex.store) = (Ok (), Some s) ∧
      bn_store s = Some (@p_store rocks_ref Parquet.Ex.lib p) ∧ bn_closed s = @p_closed rocks_ref Parquet.Ex.lib p
  | _ => False
  end.
Proof.
  assert (PipelineThms.Ex.done_ok = true) as Hb by (vm_compute; reflexivity). unfold PipelineThms.Ex.done_ok in Hb.
  pose proof (λ p, @bench_measures_parse rocks_ref clock_ref order_ref Parquet.Ex.lib BlkFile.Ex.fs Disk.Ex.io Full Ex.cfg
    (Pipeline.Ex.conf 0 3) PipelineThms.Ex.arrivals Pipeline.Ex.store Pipeline.Ex.recorder (λ _, 7) (λ _, 9) p eq_refl eq_refl)
    as Hr. fold PipelineThms.Ex.run in Hr. destruct PipelineThms.Ex.run as [[[]|e|] [p|]]; try discriminate Hb.
  destruct (Hr p) as (s & Hs & Hst & _ & Hcl); [|reflexivity|].
  { apply no_skips_check. vm_compute. reflexivity. }
  exists s. split; [exact Hs|]. split; [exact Hst|]. by apply Hcl.
Defined.

(** The percentiles of some durations, in milliseconds. *)
Example latency_of_five :
  match from_samples (E := ()) (Z.mul 1000000 <$> [5; 1; 4; 2; 3]) with
  | Ok r => (lat_n r, f64_to_u64 (p50_ms r), f64_to_u64 (p99_ms r), f64_to_u64 (max_ms r))
  | _ => (0, 0, 0, 0)
  end = (5, 3, 5, 5).
Proof. vm_compute. reflexivity. Qed.
