(* ===== verification/BenchThms.v ===== *)
(** * BenchThms: what the consumer of [bidx bench] leaves, in the modes with the store

    The consumer is the protocol of [Reorder]; it applies every block to the
    store, counts the outputs it does not find, and fails only in the database
    or in a part file. *)
From S2P Require Import Prelude F64 Rounding Text Hash Types Tx Block BlkFile Utxo UtxoStore UtxoSpec UtxoThms Disk DiskGuard.
From S2P Require Import Node Tracker Parquet Pipeline PipelineThms Restart Bench.

(** ** The percentiles *)

(** The index of a percentile is within the samples. *)
Lemma pick_index_in_range n mq eq :
  1 ≤ n ≤ 2 ^ 48 → - 100 ≤ eq → Z.pos mq * 2 ^ (eq + 200) ≤ 2 ^ 200 →
  0 ≤ pick_index n (S754_finite false mq eq) < n.
Proof.
  intros Hn Heq Hq. unfold pick_index. pose proof grain_facts as (Hg & _ & _ & _).
  assert ((n - 1) * grain ≤ 2 ^ 48 * grain) by (apply Z.mul_le_mono_nonneg_r; lia).
  pose proof (upto_of_Z n ltac:(lia)) as H1. apply upto_sub_one in H1; [|lia].
  apply (upto_mul _ _ mq eq) in H1; [|lia..]. destruct (f64_mul _ _) as [s|[]| |[] m e]; try (cbn; lia); [done|].
  destruct H1 as [He Hv]. unfold round_usize. pose proof (round_half_up_upto m e (n - 1) ltac:(lia) He) as Hr.
  specialize (Hr ltac:(lia)). unfold u64_max. lia.
Qed.

Lemma pick_total {E} (samples : list Z) mq eq :
  samples ≠ [] → len samples ≤ 2 ^ 48 → - 100 ≤ eq → Z.pos mq * 2 ^ (eq + 200) ≤ 2 ^ 200 →
  ∃ s, s ∈ samples ∧
    pick (E := E) samples (len samples) (S754_finite false mq eq) = Ok (f64_div (f64_of_Z s) (f64_of_Z 1000000)).
Proof.
  intros Hne Hl Heq Hq. assert (1 ≤ len samples) by (destruct samples; [done|rewrite len_cons; pose proof (len_nonneg samples); lia]).
  pose proof (pick_index_in_range (len samples) mq eq ltac:(lia) Heq Hq) as Hi. unfold pick, index.
  destruct (lookup_lt_is_Some_2 samples (Z.to_nat (pick_index (len samples) (S754_finite false mq eq)))) as [s Hs];
    [assert (len samples = Z.of_nat (length samples)) by done; lia|].
  exists s. split; [by eapply list_elem_of_lookup_2|]. by rewrite Hs.
Qed.

(** A report can be made of any durations; what it names are among them. *)
Lemma from_samples_total {E} (samples : list Z) :
  len samples ≤ 2 ^ 48 →
  ∃ rep, from_samples (E := E) samples = Ok rep ∧ lat_n rep = len samples ∧
    (samples ≠ [] → ∃ a b c, a ∈ samples ∧ b ∈ samples ∧ c ∈ samples ∧ (∀ x, x ∈ samples → x ≤ c) ∧
       let ms x := f64_div (f64_of_Z x) (f64_of_Z 1000000) in
       p50_ms rep = ms a ∧ p99_ms rep = ms b ∧ max_ms rep = ms c).
Proof.
  intros Hl. unfold from_samples. destruct samples as [|x0 xs]; [by eexists|]. set (samples := x0 :: xs) in *.
  pose proof (merge_sort_Permutation Z.le samples) as Hp. pose proof (Sorted_merge_sort Z.le samples) as Hsort.
  set (sorted := merge_sort Z.le samples) in *.
  assert (len sorted = len samples) as Hlen by (unfold len; by rewrite Hp).
  assert (sorted ≠ []) as Hne by (intros He; rewrite He in Hp; by apply Permutation_nil_l in Hp).
  change (f64_div (f64_of_Z 1) (f64_of_Z 2)) with (S754_finite false 4503599627370496 (-53)).
  change (f64_div (f64_of_Z 99) (f64_of_Z 100)) with (S754_finite false 8917127262193582 (-53)).
  destruct (pick_total (E := E) sorted 4503599627370496 (-53) Hne ltac:(lia) ltac:(lia) ltac:(vm_compute; discriminate)) as (a & Ha & ->).
  destruct (pick_total (E := E) sorted 8917127262193582 (-53) Hne ltac:(lia) ltac:(lia) ltac:(vm_compute; discriminate)) as (b & Hb & ->).
  assert (∃ c, last sorted = Some c) as [c Hc] by (destruct (last sorted) as [c|] eqn:Hc; [by exists c|by apply last_None in Hc]).
  assert (index (E := E) sorted (len sorted - 1) = Ok c) as ->.
  { unfold index. rewrite last_lookup in Hc. replace (Z.to_nat (len sorted - 1)) with (pred (length sorted)) by (unfold len; lia).
    by rewrite Hc. }
  eexists. split; [reflexivity|]. cbn [lat_n]. split; [exact Hlen|]. intros _. exists a, b, c. rewrite <-Hp.
  split_and!; try done; [by apply last_Some_elem_of|].
  intros x Hx. rewrite <-Hp in Hx. apply last_Some in Hc as [l Hl']. rewrite Hl' in Hx, Hsort.
  apply elem_of_app in Hx as [Hx| ->%list_elem_of_singleton]; [|done].
  apply Sorted_StronglySorted in Hsort; [|by intros ???; lia].
  by eapply StronglySorted_app_1_elem_of; [exact Hsort|exact Hx|apply list_elem_of_singleton].
Qed.

(** ** The protocol *)

Section protocol.
Context `{ROCKS : RocksDB} `{CLOCK : Clock} `{ORDER : HashOrder} `{PARQ : ParquetLib} `{FS : Fs}.
Variable r : BenchRun.

(** A skipped height ends the run at once. *)
Definition bench_handlers : Handlers Bench BenchError :=
  mkHandlers (bench_block r) (λ h, m_fail (BeSkipped h)) bench_finish (k_start (r_conf r)) (k_end (r_conf r)) BeClosedEarly.

Lemma bench_drain_generic fuel q : bench_drain r fuel q = g_drain_loop bench_handlers fuel q.
Proof. reflexivity. Qed.

(** Without skipped heights the first loop of the protocol does nothing. *)
Lemma no_skip_round i q : is_block i → q_skipped q = ∅ → bench_round r i q ≡ₘ g_recv_round bench_handlers i q.
Proof.
  intros Hi Hq. destruct i as [h b|]; [|done]. unfold g_recv_round. cbv zeta. set (q1 := receive (WiBlock h b) q).
  assert (g_skip_loop bench_handlers (S (size (q_skipped q1))) q1 = mret (q1, false)) as ->.
  { cbn [g_skip_loop]. rewrite bool_decide_false; [done|]. cbn. rewrite Hq. set_solver. }
  by rewrite m_ret_bind.
Qed.

Lemma drain_keeps_skipped fuel q s q' d s' :
  bench_drain r fuel q s = (Ok (q', d), s') → q_skipped q' = q_skipped q.
Proof.
  revert q s. induction fuel as [|fuel IH]; intros q s Hd; [done|]. cbn [bench_drain] in Hd.
  destruct (q_buffer q !! q_next q) as [b|]; [|by injection Hd as <- <- <-]. unfold mbind, M_bind in Hd.
  destruct (bench_block r (q_next q) b s) as [[u|e|] s1]; [|done..].
  destruct (_ <=? _); [|by apply IH in Hd].
  destruct (bench_finish s1) as [[u1|e|] s2]; [|done..]. by injection Hd as <- <- <-.
Qed.

Lemma bench_recv_generic items q s :
  Forall is_block items → q_skipped q = ∅ → bench_recv r items q s = g_recv_loop bench_handlers items q s.
Proof.
  revert q s. induction items as [|i items IH]; intros q s Hi Hq; [done|]. apply Forall_cons in Hi as [Hi Hitems].
  cbn [bench_recv g_recv_loop]. unfold mbind, M_bind. rewrite <-(m_eq_at (no_skip_round i q Hi Hq) s).
  destruct (bench_round r i q s) as [[[q1 d]|e|] s1] eqn:Hr; [|done..]. destruct d; [done|]. apply IH; [done|].
  destruct i as [h b|]; [|done]. unfold bench_round in Hr. apply drain_keeps_skipped in Hr. by rewrite Hr.
Qed.

Lemma bench_items_generic items s :
  Forall is_block items → bench_items r items s = g_consume_items bench_handlers items s.
Proof.
  intros Hi. unfold bench_items, g_consume_items, mbind, M_bind.
  rewrite bench_recv_generic by done. reflexivity.
Qed.
End protocol.

(** ** Lemmas: a block *)

Section block.
Context `{SHA : Sha256} `{RIP : Ripemd160}.
Context `{ROCKS : RocksDB} `{CLOCK : Clock} `{ORDER : HashOrder} `{PARQ : ParquetLib} `{FS : Fs}.
Variable r : BenchRun.
Hypothesis Hutxo : r_utxo r = true.
Hypothesis Hfees : r_fees r = true.
Hypothesis Hbpp : 0 < k_blocks_per_part (r_conf r).
Hypothesis Hquiet : ∀ h, k_tripped (r_conf r) h = false.

(** The only failures: the database, a part file. *)
Definition bench_io (e : BenchError) : Prop :=
  match e with BeUtxo (Rocks _) | BeSink _ => True | _ => False end.

Definition sink_ok (sk : option ParquetSink) : Prop := match sk with Some sk => sink_safe sk | None => True end.

(** The store [st] is open, the sink, if any, can be written, and these are the
    counts of blocks, of outputs not found and of blocks applied. *)
Definition counts (s : Bench) (st : UtxoStore) (blocks missing applied : Z) : Prop :=
  bn_store s = Some st ∧ store_inv st ∧ sink_ok (bn_sink s) ∧ bn_blocks s = u64 blocks ∧ bn_missing s = u64 missing ∧
  len (bn_samples s) = applied.

Lemma sink_create_safe dir part cfg sk : sink_create dir part cfg = Ok sk → sink_safe sk.
Proof.
  intros Hc. pose proof (sink_create_inv dir part sink_config_default) as Hd. unfold sink_create, mbind, Res_bind in *.
  repeat (match type of Hc with context [create_writer ?d ?e ?p ?sc] =>
            destruct (create_writer d e p sc) eqn:?; [|done|done] end).
  injection Hc as <-. specialize (Hd _ ltac:(done) eq_refl). apply sink_inv_safe in Hd. intros e. apply (Hd e).
Qed.

Lemma bench_finish_run s st n m c (Q : () → Bench → Prop) :
  counts s st n m c → (∀ s', counts s' st n m c → Q () s') → runs_to bench_io bench_finish s Q.
Proof.
  intros (H1 & H2 & H3 & H4 & H5 & H6) HQ. unfold runs_to, bench_finish. unfold sink_ok in H3.
  destruct (bn_sink s) as [sk|] eqn:Hs; [|apply HQ; split_and!; try done; by rewrite Hs].
  apply sink_finish_safe in H3. destruct (sink_finish sk); [|done|done]. by apply HQ.
Qed.

Lemma bench_rotate_run next s st n m c (Q : () → Bench → Prop) :
  counts s st n m c → (∀ s', counts s' st n m c → Q () s') → runs_to bench_io (bench_rotate r next) s Q.
Proof.
  intros Hc HQ. unfold runs_to, bench_rotate. destruct (bn_sink s) as [sk|] eqn:Hs; [|by apply HQ].
  rewrite (proj2 (Z.eqb_neq _ 0)) by lia. case_bool_decide; [by apply HQ|].
  apply runs_to_bind. eapply bench_finish_run; [done|]. intros s1 (H1 & H2 & _ & H4 & H5 & H6).
  unfold runs_to, bench_open.
  destruct (sink_create _ _ _) as [sk1|e|] eqn:Hcr; [|done|by apply sink_create_no_panic in Hcr].
  apply sink_create_safe in Hcr. by apply HQ.
Qed.

Lemma bench_push_run next fb sp s st n m c (Q : () → Bench → Prop) :
  Forall op_wf (rows_of fb (spends sp)) → counts s st n m c → (∀ s', counts s' st n m c → Q () s') →
  runs_to bench_io (bench_push r next fb (Some sp)) s Q.
Proof.
  intros Hw (H1 & H2 & H3 & H4 & H5 & H6) HQ. unfold runs_to, bench_push. unfold sink_ok in H3.
  destruct (bn_sink s) as [sk|] eqn:Hs; [|apply HQ; split_and!; try done; by rewrite Hs].
  rewrite (m_eq_at (push_rows_ops _ _)). pose proof (ops_run_safe _ sk Hw H3) as [Hnp Hsafe].
  destruct (ops_run _ sk) as [[[]|e|] sk']; [|done|done]. by apply HQ.
Qed.

Lemma u64_add_l a b : u64 (u64 a + b) = u64 (a + b).
Proof. unfold u64. by rewrite Zplus_mod_idemp_l. Qed.

(** A block of the chain: it is applied to the store, and counted. *)
Lemma bench_block_run h b fb s st n m (Q : () → Bench → Prop) :
  is_u32 (Z.of_nat h) → is_hash32 b.1 → 80 ≤ len b.2 → parsed h b = Ok fb → counts s st n m n →
  (∀ s' st', counts s' st' (n + 1) (m + e_missing (effect_of (utxos (db_view (db st))) h fb)) (n + 1) →
     (∀ x, utxos (db_view (db st')) x =
           after (utxos (db_view (db st))) (effect_of (utxos (db_view (db st))) h fb) x) → Q () s') →
  runs_to bench_io (bench_block r (Z.of_nat h) fb) s Q.
Proof.
  intros Hu Hb1 Hb2 Hp Hc HQ. pose proof (parsed_rows_wf _ _ _ Hp) as Hrows. unfold bench_block. rewrite Hquiet.
  apply runs_to_bind, runs_to_ret, runs_to_bind. eapply bench_rotate_run; [exact Hc|].
  clear s Hc. intros s (Hst & Hinv & Hsk & Hn & Hm & Hl). apply runs_to_bind. unfold runs_to at 1, bench_apply.
  rewrite Hutxo, Hst.
  pose proof (apply_block_outcome st (Z.of_nat h) (txs fb) (inputs fb) (outputs fb) Hinv Hrows Hu) as Ho.
  pose proof (apply_block_error st (Z.of_nat h) (txs fb) (inputs fb) (outputs fb)) as Herr.
  destruct (apply_block _ _ _ _ st) as [[res|e|] st']; [|by destruct Herr as [x ->]|done].
  apply applied_inv in Ho as Hai; [|done..]. destruct Hai as [Hset Hinv'].
  destruct Ho as (_ & _ & _ & _ & Hsp & Hmiss & Hlf & Hf & _).
  apply runs_to_bind. unfold bench_fees. rewrite Hfees. apply runs_to_bind. unfold runs_to at 1, m_modify.
  eapply runs_to_lift.
  { apply (enrich_run fb (effect_of (utxos (db_view (db st))) h fb)); [|done|exact Hf].
    destruct Hrows as (Hi & _). eapply Forall_impl; [exact Hi|]. intros i [[? _] _]. done. }
  apply runs_to_bind. eapply (bench_push_run _ _ _ _ st' n (m + e_missing (effect_of (utxos (db_view (db st))) h fb)) (n + 1)).
  - rewrite Hsp. change (rows_of _ _) with (block_ops (utxos (db_view (db st))) h fb).
    by apply (block_ops_wf _ _ _ _ (utxos_hashes _) Hb1 Hb2 Hu Hp).
  - unfold counts. cbn. rewrite Hn, Hm, Hmiss, u64_add_l, len_app, Hl. by split_and!.
  - clear Hsk. intros s2 (H1 & H2 & H3 & H4 & H5 & H6). unfold runs_to, m_modify. apply (HQ _ st'); [|exact Hset].
    unfold counts. cbn. rewrite H4, u64_add_l. by split_and!.
Qed.

(** A run of blocks. *)
Lemma bench_sequential_run h bs s st n m (Q : () → Bench → Prop) :
  Z.of_nat h + len bs ≤ 2 ^ 32 →
  (∀ j b, bs !! j = Some b → is_hash32 b.1 ∧ 80 ≤ len b.2 ∧ ∃ fb, parsed (h + j) b = Ok fb) →
  counts s st n m n →
  (∀ s' st', counts s' st' (n + len bs) (m + chain_missing (utxos (db_view (db st))) h bs) (n + len bs) →
     (∀ x, utxos (db_view (db st')) x = chain_utxos (utxos (db_view (db st))) h bs x) → Q () s') →
  runs_to bench_io (g_sequential (bench_handlers r) (chain_items h bs)) s Q.
Proof.
  revert h s st n m. induction bs as [|b bs IH]; intros h s st n m H32 Hgood Hc HQ.
  { apply (HQ s st); [|done]. by rewrite !Z.add_0_r. }
  rewrite len_cons in H32. pose proof (len_nonneg bs). destruct (Hgood 0%nat b eq_refl) as (Hb1 & Hb2 & fb & Hfb).
  rewrite Nat.add_0_r in Hfb. cbn [chain_items chain_missing chain_utxos] in *. rewrite Hfb in *.
  cbn [g_sequential g_do_item]. apply runs_to_bind. cbn [h_block bench_handlers].
  eapply bench_block_run; try done; [unfold is_u32; lia|]. intros s1 st1 Hc1 Hset1.
  eapply IH; [lia| |exact Hc1|].
  - intros j b' Hj. destruct (Hgood (S j) b' Hj) as (? & ? & fb' & Hf'). split_and!; [done..|].
    exists fb'. by replace (S h + j)%nat with (h + S j)%nat by lia.
  - intros s2 st2 Hc2 Hset2. apply (HQ s2 st2).
    + rewrite (chain_missing_ext _ _ (S h) bs Hset1) in Hc2.
      rewrite len_cons. by rewrite <-!Z.add_assoc in Hc2.
    + intros x. rewrite Hset2. by apply chain_ext.
Qed.

(** The consumer, over all blocks of the range in any order. *)
Lemma bench_consume_run (start : nat) (bs : list (Hash32 * bytes)) (arrivals : list WorkItem) (store : UtxoStore)
    (Hstart : k_start (r_conf r) = Z.of_nat start) (Hend : k_end (r_conf r) = k_start (r_conf r) + len bs)
    (H32 : k_end (r_conf r) < 2 ^ 32) (Hne : bs ≠ []) (Hstore : store_inv store)
    (Hgood : ∀ j b, bs !! j = Some b → is_hash32 b.1 ∧ 80 ≤ len b.2 ∧ ∃ fb, parsed (start + j) b = Ok fb)
    (Harr : arrivals ≡ₚ chain_items start bs) :
  let U := utxos (db_view (db store)) in
  match bench_consume r arrivals (Some store) with
  | (Ok _, Some s) =>
    ∃ st, counts s st (len bs) (chain_missing U start bs) (len bs) ∧ ∀ x, utxos (db_view (db st)) x = chain_utxos U start bs x
  | (Ok _, None) | (Panic, _) => False
  | (Err e, _) => bench_io e
  end.
Proof.
  intros U. destruct (chain_items_good start bs) as (Hl & Hblocks & Hcons); [intros j b Hj; apply (Hgood j b Hj)|].
  assert (chain_items start bs ≠ []) as Hne' by (intros He; rewrite He in Hl; by destruct bs).
  rewrite <-Hstart in Hcons.
  assert (∀ s0, counts s0 store 0 0 0 → runs_to bench_io (bench_items r arrivals) s0 (λ _ s, ∃ st,
    counts s st (len bs) (chain_missing U start bs) (len bs) ∧ ∀ x, utxos (db_view (db st)) x = chain_utxos U start bs x)) as Hrun.
  { intros s0 Hs0. unfold runs_to. rewrite bench_items_generic by by rewrite Harr.
    rewrite (m_eq_at (g_consume_items_all (bench_handlers r) (chain_items start bs) Hcons
      ltac:(unfold len in *; rewrite Hl; exact Hend) ltac:(cbn; lia) arrivals Harr Hblocks Hne')).
    apply runs_to_bind. eapply bench_sequential_run; [lia|done|exact Hs0|]. intros s st Hc Hset.
    eapply bench_finish_run; [exact Hc|]. intros s' Hc'. by exists st. }
  unfold bench_consume. rewrite (proj2 (Z.eqb_neq _ 0)) by lia. unfold runs_to in Hrun. destruct (r_sink r).
  - destruct (sink_create _ _ _) as [sk|e|] eqn:Hcr; [|done|by apply sink_create_no_panic in Hcr].
    apply sink_create_safe in Hcr. match goal with |- context [bench_items r arrivals ?s] => specialize (Hrun s) end.
    destruct (bench_items _ _ _) as [[u|e|] s]; by apply Hrun.
  - match goal with |- context [bench_items r arrivals ?s] => specialize (Hrun s) end.
    destruct (bench_items _ _ _) as [[u|e|] s]; by apply Hrun.
Qed.
End block.

(** ** Theorem *)

(** C40: The latency report of a stage exists for any durations, as many as
    2^48: the computation of a percentile's index in floating point, with its
    rounding, stays within the samples. It has their number; its percentiles are
    durations among them, in milliseconds, and its maximum is the greatest. *)
Theorem latency_in_range {E} (samples : list Z) (Hlen : len samples ≤ 2 ^ 48) :
  ∃ rep, from_samples (E := E) samples = Ok rep ∧ lat_n rep = len samples ∧
    (samples ≠ [] → ∃ a b c, a ∈ samples ∧ b ∈ samples ∧ c ∈ samples ∧ (∀ x, x ∈ samples → x ≤ c) ∧
       let ms x := f64_div (f64_of_Z x) (f64_of_Z 1000000) in
       p50_ms rep = ms a ∧ p99_ms rep = ms b ∧ max_ms rep = ms c).
Proof. by apply from_samples_total. Qed.

Lemma latency_in_range_witness :
  ∃ rep, from_samples (E := ()) (Z.mul 1000000 <$> [5; 1; 4; 2; 3]) = Ok rep ∧ lat_n rep = 5.
Proof.
  destruct (latency_in_range (E := ()) (Z.mul 1000000 <$> [5; 1; 4; 2; 3])) as (rep & Hr & Hn & _); [done|].
  exists rep. split; [exact Hr|exact Hn].
Defined.
