(* ===== verification/Trial.v ===== *)
(** * Trial: the trials of [bidx bench] and their reports, [bidx-cli/src/bench/mod.rs]

    A trial runs the header pass, the parse stage and the consumer of [Bench],
    and reports; [run_bench] repeats trials over one store. What is measured of
    the process is an input, what is printed an output. *)
From S2P Require Import Prelude F64 Fmt Text Hash Types Tx Block BlkFile Chain Utxo UtxoStore UtxoSpec UtxoThms Disk DiskGuard.
From S2P Require Import Node Tracker Parquet Pipeline PipelineThms FileCache ParseRun Restart StoreStats Bench.

(** ** Reports *)

Record StageReport : Type := mkStageReport { sr_name : rstr; sr_wall_secs : f64; sr_cpu_util : f64; sr_peak_rss_mb : f64 }.

Record RocksDbProperty : Type := mkProperty { rp_name : rstr; rp_value : rstr }.

Record TrialReport : Type := mkReport {
  tr_trial : Z; tr_mode : BenchMode; tr_blocks : Z; blocks_per_sec : f64; blocks_per_sec_ex_header : f64;
  user_cpu_secs : f64; peak_rss_mb : f64; tr_missing_utxos : Z; tr_db_lookups : Z; tr_db_nanos : Z;
  tr_pending_hits : Z; tr_cache_hits : Z; stages : list StageReport; parse_latency : LatencyReport;
  utxo_latency : LatencyReport; rocksdb : list RocksDbProperty }.

(** What the process can be asked: [_SC_CLK_TCK], [available_parallelism], the
    current directory, the one for temporary files, its id. *)
Record Proc : Type := mkProc {
  pr_clk_tck : Z; pr_parallelism : option Z; pr_cwd : option rstr; pr_temp_dir : rstr; pr_id : Z }.

(** The clock, in nanoseconds, with the samples of the process at that moment. *)
Record Reading : Type := mkReading { rd_nanos : Z; rd_sample : ResourceSample; rd_peak_kb : Z }.

Definition num_cpus (p : Proc) : Z := default 4 (pr_parallelism p).

Definition jiffies_to_secs (p : Proc) (jiffies : Z) : f64 := f64_div (f64_of_Z jiffies) (f64_of_Z (pr_clk_tck p)).

(** [x as f64 / 1024.0]. *)
Definition mb (kb : Z) : f64 := f64_div (f64_of_Z kb) (f64_of_Z 1024).

Definition per_sec (blocks : f64) (secs : f64) : f64 := f64_div blocks (f64_max secs micro).

Definition report_stage (p : Proc) (name : rstr) (m : StageMeasure) (threads : option Z) : StageReport :=
  mkStageReport name (wall_secs m) (cpu_utilization m (pr_clk_tck p) (f64_of_Z (default (num_cpus p) threads)))
    (mb (sm_peak_rss_kb m)).

Definition measured (start stop : Reading) : StageMeasure :=
  timer_stop (timer_start (rd_nanos start) (rd_sample start)) (rd_nanos stop) (rd_sample stop) (rd_peak_kb stop).

(** [BenchMode]'s [Display]. *)
Definition mode_name (m : BenchMode) : rstr :=
  match m with
  | Full => str "full" | Headers_ => str "headers" | Parse => str "parse" | Drain => str "drain"
  | UtxoMode => str "utxo" | SinkMode => str "sink"
  end.

Definition header_stage : rstr := str "header_pass".
Definition parse_stage : rstr := str "parse (" ++ [0x3A3] ++ str " worker CPU-ish)".
Definition utxo_stage : rstr := str "utxo_apply (sequential)".
Definition sink_stage : rstr := str "parquet_sink".
Definition total_stage : rstr := str "pipeline_wall_total".

Definition headers_report (p : Proc) (trial : Z) (m : StageMeasure) (header : StageReport) (index : ChainIndex) : TrialReport :=
  let tip := default 0 (tip_height index) in
  let rate := per_sec (f64_add (f64_of_Z tip) (f64_of_Z 1)) (wall_secs m) in
  let none := mkLatency 0 f64_zero f64_zero f64_zero f64_zero in
  mkReport trial Headers_ (u64 (tip + 1)) rate rate (jiffies_to_secs p (sm_cpu_jiffies m)) (mb (sm_peak_rss_kb m))
    0 0 0 0 0 [header] none none [].

(** [jiffies_to_secs(end.saturating_sub(start))]. *)
Definition cpu_secs (p : Proc) (start stop : Reading) : f64 :=
  jiffies_to_secs p (sat_sub (cpu_jiffies (rd_sample stop)) (cpu_jiffies (rd_sample start))).

Definition pipeline_secs (start stop : Reading) : f64 := as_secs_f64 (rd_nanos stop - rd_nanos start).

(** A stage of which only the sum of durations is known. *)
Definition summed_stage (name : rstr) (nanos : Z) : StageReport :=
  mkStageReport name (as_secs_f64 nanos) f64_zero f64_zero.

Definition trial_stages (p : Proc) (cfg : BenchConfig) (header : StageReport) (start stop : Reading)
    (parse_ns utxo_ns sink_ns : Z) : list StageReport :=
  [header; summed_stage parse_stage parse_ns] ++
  (if needs_utxo (bc_mode cfg) then [summed_stage utxo_stage utxo_ns] else []) ++
  (if needs_sink (bc_mode cfg) then [summed_stage sink_stage sink_ns] else []) ++
  [mkStageReport total_stage (pipeline_secs start stop)
     (f64_div (f64_div (cpu_secs p start stop) (f64_max (pipeline_secs start stop) micro))
        (f64_of_Z (default (num_cpus p) (bc_threads cfg))))
     (mb (rd_peak_kb stop))].

(** [slice::join]. *)
Fixpoint join (sep : rstr) (l : list rstr) : rstr :=
  match l with [] => [] | [x] => x | x :: l => x ++ sep ++ join sep l end.

Section trial.
Context `{SHA : Sha256} `{RIP : Ripemd160} `{LIBM : Libm} `{FS : Fs} `{ENV : RpcEnv}.
Context `{ROCKS : RocksDB} `{CLOCK : Clock} `{ORDER : HashOrder} `{PARQ : ParquetLib}.

Definition rocksdb_properties (cfg : BenchConfig) (utxo : option UtxoStore) : list RocksDbProperty :=
  match bc_rocksdb_stats cfg, utxo with
  | true, Some u =>
    ((λ p : rstr * rstr, mkProperty p.1 p.2) <$> perf_properties u) ++
    [mkProperty (str "stall_lines")
       (match stall_report u with [] => str "none" | stalls => join (str " | ") stalls end)]
  | _, _ => []
  end.

Inductive TrialError : Type :=
  | TrBlk (e : BlkError)
  | TrEmptyChain
  | TrEmptyRange
  | TrUtxo (e : UtxoError)
  | TrOutDir (e : SinkIoError)
  | TrWorkers (e : RunError)
  | TrConsumer (e : BenchError)
  | TrConsumerPanicked
  | TrMissing (trial missing : Z)
  | TrNoBlockFiles (dir : rstr)
  | TrReadDir (e : IoError)
  | TrCsv.

(** What a trial meets: the clock and the samples around the header pass and
    around the pipeline, the peak when the report is made, the seconds since the
    epoch, [/proc/meminfo], the durations of the consumer's stages; and of the
    parse stage the items the consumer receives, the result of the workers with
    their durations, the watchdog's readings. *)
Record TrialEnv : Type := mkTrialEnv {
  te_header : Reading * Reading; te_pipeline : Reading * Reading; te_peak_kb : Z; te_unix_secs : option Z;
  te_meminfo : option rstr; te_apply_nanos : Z → Z; te_sink_nanos : Z → Z;
  te_stage : ChainIndex → Z * Z → Tuning → list WorkItem * Res RunError (list Z) * (Z → bool) }.

(** What the process leaves: the lines it prints, the database it closed, the
    file of results, the directories it removes. *)
Record Left : Type := mkLeft {
  lf_out : list rstr; lf_db : option DB; lf_csv : option (rstr * rstr); lf_removed : list rstr }.

Definition say (l : rstr) : M Left TrialError () :=
  m_modify (λ w, mkLeft (lf_out w ++ [l]) (lf_db w) (lf_csv w) (lf_removed w)).

Fixpoint say_all (l : list rstr) : M Left TrialError () :=
  match l with [] => mret () | x :: l => _ ← say x; say_all l end.

Definition close_db (s : option UtxoStore) : M Left TrialError () :=
  m_modify (λ w, match s with
                 | Some s => mkLeft (lf_out w) (Some (db s)) (lf_csv w) (lf_removed w)
                 | None => w
                 end).

(** ** One trial *)

Definition bench_range (cfg : BenchConfig) (index : ChainIndex) : Res TrialError (Z * Z) :=
  tip ← ok_or TrEmptyChain (tip_height index);
  let start := Z.min (bc_start cfg) tip in
  let end_ := Z.min (default (u32 (tip + 1)) (bc_end cfg)) (u32 (tip + 1)) in
  if end_ <=? start then Err TrEmptyRange else Ok (start, end_).

Definition banner (p : Proc) (cfg : BenchConfig) (trial : Z) (range : Z * Z) : rstr :=
  let tuning := from_cfg cfg in
  str "bench trial " ++ fmt_dec trial ++ str ": " ++ fmt_dec (u32 (range.2 - range.1)) ++ str " blocks (heights "
  ++ fmt_dec range.1 ++ str ".." ++ fmt_dec range.2 ++ str ") mode=" ++ mode_name (bc_mode cfg)
  ++ str " threads=" ++ fmt_dec (default (num_cpus p) (bc_threads cfg))
  ++ str " reorder_high=" ++ fmt_dec (reorder_high tuning) ++ str " channel_depth=" ++ fmt_dec (channel_depth tuning)
  ++ str " sink_batch_rows=" ++ fmt_dec (sink_batch_rows tuning).

(** The closure of the workers, past the backpressure check: no orphans here. *)
Definition bench_worker (blocks_dir : rstr) (index : ChainIndex) (height : Z) : M CacheInner RunError WorkItem :=
  worker blocks_dir index None height.

(** [mb << 20] drops what does not fit a [usize]. *)
Definition trial_store (left : option DB) (cfg : BenchConfig) (utxo_path : rstr) : Res TrialError (option UtxoStore) :=
  if needs_utxo (bc_mode cfg) then
    let bytes := u64 (Z.shiftl (bc_utxo_cache_mb cfg) 20) in
    store ← map_err TrUtxo
      (match bc_rocksdb_stats cfg, bc_utxo_cache_mb cfg =? 0 with
       | true, true => open_statistics left utxo_path
       | false, true => store_open left utxo_path
       | true, false => open_cached_statistics left utxo_path bytes
       | false, false => open_cached left utxo_path bytes
       end);
    Ok (Some store)
  else Ok None.

(** "Default root for benchmark scratch output". *)
Definition default_perf_dir (p : Proc) : rstr :=
  match pr_cwd p with
  | Some cwd => fs_join cwd (str "bidx-perf")
  | None => fs_join (pr_temp_dir p) (str "bidx-perf")
  end.

(** [{prefix}-{pid}-{secs}]; a clock before the epoch panics. *)
Definition unique_name {E} (p : Proc) (prefix : rstr) (unix_secs : option Z) : Res E rstr :=
  match unix_secs with
  | Some secs => Ok (prefix ++ str "-" ++ fmt_dec (pr_id p) ++ str "-" ++ fmt_dec secs)
  | None => Panic
  end.

Definition out_dir_for (p : Proc) (cfg : BenchConfig) (unix_secs : option Z) : Res TrialError rstr :=
  match bc_out_dir cfg with
  | Some d => _ ← map_err TrOutDir (create_dir_all d); Ok d
  | None =>
    name ← unique_name p (str "bidx-bench-out") unix_secs;
    let dir := fs_join (default_perf_dir p) name in
    _ ← map_err TrOutDir (create_dir_all dir); Ok dir
  end.

(** Called only when a sink writes. *)
Definition trial_out_dir (p : Proc) (env : TrialEnv) (cfg : BenchConfig) : Res TrialError rstr :=
  if needs_sink (bc_mode cfg) then out_dir_for p cfg (te_unix_secs env) else Ok [].

(** The sum of the workers' durations, [parse_wall]. *)
Definition parse_wall (samples : list Z) : Z := foldl (λ n dt, u64 (n + dt)) 0 samples.

(** What follows the consumer: "A cold UTXO store makes [apply_block] look free". *)
Definition trial_report (p : Proc) (env : TrialEnv) (cfg : BenchConfig) (trial : Z) (header : StageReport)
    (header_secs : f64) (parse_samples : list Z) (s : Bench) : Res TrialError TrialReport :=
  let '(start, stop) := te_pipeline env in
  let blocks := f64_of_Z (bn_blocks s) in
  let secs := pipeline_secs start stop in
  if needs_utxo (bc_mode cfg) && (0 <? bn_missing s) && negb (bc_allow_missing_utxos cfg) then
    Err (TrMissing trial (bn_missing s))
  else
    let rocksdb := rocksdb_properties cfg (bn_store s) in
    parse_latency ← from_samples parse_samples;
    utxo_latency ← from_samples (bn_samples s);
    Ok (mkReport trial (bc_mode cfg) (bn_blocks s) (per_sec blocks secs) (per_sec blocks (f64_add secs header_secs))
          (cpu_secs p start stop) (mb (te_peak_kb env)) (bn_missing s) (bn_lookups s) (bn_db_nanos s) (bn_pending s)
          (bn_cache s)
          (trial_stages p cfg header start stop (parse_wall parse_samples) (bn_utxo_wall s) (bn_sink_wall s))
          parse_latency utxo_latency rocksdb).

(** The parse stage and the consumer, up to their results: the workers' comes
    first, a panic of the consumer's thread is an error. *)
Definition trial_pipeline (env : TrialEnv) (cfg : BenchConfig) (index : ChainIndex) (range : Z * Z) (out_dir : rstr)
    (store : option UtxoStore) : M Left TrialError (list Z * Bench) :=
  let tuning := from_cfg cfg in
  let '(arrivals, workers, tripped) := te_stage env index range tuning in
  let k := mkConf range.1 range.2 (bc_blocks_per_part cfg) out_dir None (λ _ _, None) tripped (max_rss_kb (te_meminfo env)) in
  let run := mode_run (bc_mode cfg) k (tuning_sink_config tuning) (te_apply_nanos env) (te_sink_nanos env) in
  let '(consumer, s) := bench_consume run arrivals store in
  _ ← close_db (match s with Some s => bn_store s | None => store end);
  parse_samples ← m_lift (map_err TrWorkers workers);
  match consumer, s with
  | Ok _, Some s => mret (parse_samples, s)
  | Err e, _ => m_fail (TrConsumer e)
  | _, _ => m_fail TrConsumerPanicked
  end.

Definition run_trial (p : Proc) (env : TrialEnv) (cfg : BenchConfig) (utxo_path : rstr) (trial : Z)
    : M Left TrialError TrialReport :=
  idx ← m_lift (match build_chain_index (bc_blocks_dir cfg) with Some x => map_err TrBlk x | None => Panic end);
  let header_m := measured (te_header env).1 (te_header env).2 in
  let header := report_stage p header_stage header_m (bc_threads cfg) in
  if bool_decide (bc_mode cfg = Headers_) then mret (headers_report p trial header_m header idx.1)
  else
    range ← m_lift (bench_range cfg idx.1);
    _ ← say (banner p cfg trial range);
    w ← m_get;
    store ← m_lift (trial_store (lf_db w) cfg utxo_path);
    out_dir ← m_lift (trial_out_dir p env cfg);
    r ← trial_pipeline env cfg idx.1 range out_dir store;
    m_lift (trial_report p env cfg trial header (wall_secs header_m) r.1 r.2).

(** ** Printing *)

Definition secs_cell (x : f64) : rstr := pad_right_align 7 (fmt_fixed 3 x) ++ str "s".

Definition stage_line (s : StageReport) : rstr :=
  str "  " ++ pad_right_align 30 (sr_name s) ++ str "  wall " ++ secs_cell (sr_wall_secs s)
  ++ str "  cpu_util " ++ fmt_fixed 0 (f64_mul (sr_cpu_util s) (f64_of_Z 100))
  ++ str "%  peak_rss " ++ pad_right_align 8 (fmt_fixed 0 (sr_peak_rss_mb s)) ++ str " MB".

Definition latency_line (name : rstr) (l : LatencyReport) : list rstr :=
  if 0 <? lat_n l then
    [str "per-block " ++ name ++ str "   p50 " ++ pad_right_align 7 (fmt_fixed 2 (p50_ms l))
     ++ str "ms  p99 " ++ pad_right_align 8 (fmt_fixed 2 (p99_ms l))
     ++ str "ms  max " ++ pad_right_align 8 (fmt_fixed 2 (max_ms l)) ++ str "ms  (n=" ++ fmt_dec (lat_n l) ++ str ")"]
  else [].

(** [100.0 * a / b], or 0 of nothing. *)
Definition percent (a b : Z) : f64 :=
  if 0 <? b then f64_div (f64_mul (f64_of_Z 100) (f64_of_Z a)) (f64_of_Z b) else f64_zero.

(** The nanoseconds of the first stage that is the apply stage. *)
Definition apply_ns (r : TrialReport) : Z :=
  match filter (λ s, is_Some (strip_prefix (str "utxo_apply") (sr_name s))) (stages r) with
  | s :: _ => f64_to_u64 (f64_mul (sr_wall_secs s) (f64_of_Z 1000000000))
  | [] => 0
  end.

Definition lookups_line (r : TrialReport) : rstr :=
  str "utxo lookups: " ++ fmt_dec (tr_db_lookups r) ++ str " db / " ++ fmt_dec (tr_pending_hits r) ++ str " pending ("
  ++ fmt_display (percent (tr_db_lookups r) (u64 (tr_db_lookups r + tr_pending_hits r)))
  ++ str "% db)  db_time: " ++ fmt_fixed 3 (f64_div (f64_of_Z (tr_db_nanos r)) (f64_of_Z 1000000000))
  ++ str "s (" ++ fmt_fixed 1 (percent (tr_db_nanos r) (apply_ns r)) ++ str "% of apply)".

(** The lines of [print_trial]. *)
Definition print_trial (r : TrialReport) : list rstr :=
  [[]; str "=== trial " ++ fmt_dec (tr_trial r) ++ str " (" ++ mode_name (tr_mode r) ++ str ") ===";
   str "blocks: " ++ fmt_dec (tr_blocks r);
   str "blocks/s: " ++ fmt_fixed 1 (blocks_per_sec r);
   str "blocks/s incl. header pass: " ++ fmt_fixed 1 (blocks_per_sec_ex_header r);
   str "user cpu: " ++ fmt_fixed 1 (user_cpu_secs r) ++ str "s peak rss: " ++ fmt_fixed 1 (peak_rss_mb r) ++ str " MB";
   str "missing utxos: " ++ fmt_dec (tr_missing_utxos r);
   lookups_line r]
  ++ (if 0 <? tr_cache_hits r then [str "utxo cache hits: " ++ fmt_dec (tr_cache_hits r)] else [])
  ++ [str "stages:"] ++ (stage_line <$> stages r)
  ++ latency_line (str "parse") (parse_latency r) ++ latency_line (str "apply") (utxo_latency r)
  ++ (match rocksdb r with
      | [] => []
      | props => str "rocksdb:" :: ((λ p, str "  " ++ pad_right_align 28 (rp_name p) ++ str "  " ++ rp_value p) <$> props)
      end).

(** [by_stage.entry(name).or_default().push(wall)], the map as the list of its
    entries in order. *)
Fixpoint entry_push (name : rstr) (x : f64) (m : list (rstr * list f64)) : list (rstr * list f64) :=
  match m with
  | [] => [(name, [x])]
  | (n, v) :: m =>
    if bool_decide (n = name) then (n, v ++ [x]) :: m
    else if str_le name n then (name, [x]) :: (n, v) :: m
    else (n, v) :: entry_push name x m
  end.

Definition by_stage (trials : list TrialReport) : list (rstr * list f64) :=
  foldl (λ m s, entry_push (sr_name s) (sr_wall_secs s) m) [] (trials ≫= stages).

Definition aggregate_line (name : rstr) (v : list f64) : Res TrialError rstr :=
  m ← median v;
  let '(mn, med, mx) := m in
  Ok (str "  " ++ pad_right_align 30 name ++ str "  min " ++ secs_cell mn ++ str "  med " ++ secs_cell med
      ++ str "  max " ++ secs_cell mx).

Fixpoint say_stages (m : list (rstr * list f64)) : M Left TrialError () :=
  match m with
  | [] => mret ()
  | (name, v) :: m => l ← m_lift (aggregate_line name v); _ ← say l; say_stages m
  end.

Definition print_aggregate (trials : list TrialReport) : M Left TrialError () :=
  _ ← say_all [[]; str "=== aggregate over " ++ fmt_dec (len trials) ++ str " trials ==="];
  say_stages (by_stage trials).

(** ** All trials *)

(** What a run of the command meets: the process, the clock when it starts, what
    each trial meets, [serde_json::to_string_pretty] and [fs::write]. *)
Record BenchEnv : Type := mkBenchEnv {
  be_proc : Proc; be_unix_secs : option Z; be_trial : Z → TrialEnv;
  be_json : list TrialReport → option rstr; be_write : rstr → rstr → bool }.

(** The directory of the store, and what to remove at the end. *)
Definition bench_utxo_path (env : BenchEnv) (cfg : BenchConfig) : Res TrialError (rstr * option rstr) :=
  match bc_utxo cfg with
  | Some p => Ok (p, None)
  | None =>
    if needs_utxo (bc_mode cfg) then
      let root := default (default_perf_dir (be_proc env)) (bc_utxo_dir cfg) in
      _ ← map_err TrOutDir (create_dir_all root);
      name ← unique_name (be_proc env) (str "bidx-bench-utxo") (be_unix_secs env);
      let p := fs_join root name in
      _ ← map_err TrOutDir (create_dir_all p);
      Ok (p, Some p)
    else Ok (str "/dev/null", None)
  end.

(** The trials from number [trial] on, [n] of them. *)
Fixpoint run_trials (env : BenchEnv) (cfg : BenchConfig) (utxo_path : rstr) (n : nat) (trial : Z)
    : M Left TrialError (list TrialReport) :=
  match n with
  | O => mret []
  | S n =>
    report ← run_trial (be_proc env) (be_trial env trial) cfg utxo_path trial;
    _ ← say_all (print_trial report);
    reports ← run_trials env cfg utxo_path n (trial + 1);
    mret (report :: reports)
  end.

(** The results as JSON, to the terminal or to a file. *)
Definition write_csv (env : BenchEnv) (cfg : BenchConfig) (trials : list TrialReport) : M Left TrialError () :=
  match bc_csv cfg with
  | None => mret ()
  | Some path =>
    json ← m_lift (ok_or TrCsv (be_json env trials));
    if bool_decide (path = str "-") then say json
    else if be_write env path json then m_modify (λ w, mkLeft (lf_out w) (lf_db w) (Some (path, json)) (lf_removed w))
    else m_fail TrCsv
  end.

Definition remove_dir_all (p : rstr) : M Left TrialError () :=
  m_modify (λ w, mkLeft (lf_out w) (lf_db w) (lf_csv w) (lf_removed w ++ [p])).

Definition run_bench (env : BenchEnv) (cfg : BenchConfig) : M Left TrialError () :=
  entries ← m_lift (map_err TrReadDir (fs_read_dir (bc_blocks_dir cfg)));
  match entries with
  | [] => m_fail (TrNoBlockFiles (bc_blocks_dir cfg))
  | _ =>
    utxo ← m_lift (bench_utxo_path env cfg);
    trials ← run_trials env cfg utxo.1 (Z.to_nat (bc_repeat cfg)) 0;
    _ ← (if 1 <? bc_repeat cfg then print_aggregate trials else mret ());
    _ ← write_csv env cfg trials;
    match utxo.2 with Some p => remove_dir_all p | None => mret () end
  end.
End trial.
