(* ===== verification/TrialThms.v ===== *)
(** * TrialThms: what the trials of [bidx bench] measure

    In the modes with the store a trial leaves the UTXO set of its blocks and
    reports the outputs that were not found; and a trial that is repeated over
    the store of the one before reports the same. *)
From S2P Require Import Prelude F64 Fmt Text Hash Types Tx Block BlkFile Chain Utxo UtxoStore UtxoSpec UtxoThms Disk DiskGuard.
From S2P Require Import Node Tracker Parquet Pipeline PipelineThms FileCache ParseRun Restart StoreStats Bench BenchThms Trial.

(** ** Specification *)

Section spec.
Context `{SHA : Sha256} `{RIP : Ripemd160} `{LIBM : Libm} `{FS : Fs} `{ENV : RpcEnv}.
Context `{ROCKS : RocksDB} `{CLOCK : Clock} `{ORDER : HashOrder} `{PARQ : ParquetLib}.

(** The pool of a trial: when the workers succeed, every height was given to a
    worker, with its duration, and the consumer receives what they made of them
    in some order; the watchdog stays quiet, and no worker panics. *)
Definition workers_done (dir : rstr) (idx : ChainIndex) (range : Z * Z)
    (st : list WorkItem * Res RunError (list Z) * (Z → bool)) : Prop :=
  let '(arrivals, workers, tripped) := st in
  (∀ h, tripped h = false) ∧ workers ≠ Panic ∧
  ∀ samples, workers = Ok samples → length samples = length arrivals ∧ ∃ sent,
    Forall2 (λ h i, ∃ c, cache_ok dir c ∧ fst (bench_worker dir idx h c) = Ok i) (seqZ range.1 (range.2 - range.1)) sent ∧
    arrivals ≡ₚ sent.

(** The failures that are not about what was measured: the database, a
    directory, a part file, the workers. *)
Definition trial_io (e : TrialError) : Prop :=
  match e with TrUtxo _ | TrOutDir _ | TrWorkers _ => True | TrConsumer e => bench_io e | _ => False end.

(** ** Lemmas *)

(** The blocks of a range are those the files hold: there is one list of them. *)
Lemma blocks_read_unique dir idx start bs bs' :
  blocks_read dir idx start bs → blocks_read dir idx start bs' → length bs = length bs' → bs = bs'.
Proof.
  intros H1 H2 Hl. apply list_eq. intros j. destruct (bs !! j) as [b|] eqn:Hj.
  - destruct (lookup_lt_is_Some_2 bs' j) as [b' Hj']; [rewrite <-Hl; by eapply lookup_lt_Some|]. rewrite Hj'. f_equal.
    destruct (H1 _ _ Hj) as (Hb & loc & Hloc & Hr), (H2 _ _ Hj') as (Hb' & loc' & Hloc' & Hr').
    simplify_eq. destruct b as [h raw], b' as [h' raw']. cbn [fst snd] in *. congruence.
  - symmetry. apply lookup_ge_None_2. rewrite <-Hl. by apply lookup_ge_None_1.
Qed.

Lemma bench_range_bounds cfg idx start end_ :
  bench_range cfg idx = Ok (start, end_) → 0 ≤ bc_start cfg → start < end_ ∧ 0 ≤ start ∧ end_ < 2 ^ 32.
Proof.
  unfold bench_range. destruct (tip_height idx) as [tip|] eqn:Ht; [|done]. cbn. intros Hr H0.
  destruct (_ <=? _) eqn:Hle; [done|]. injection Hr as <- <-. apply Z.leb_gt in Hle.
  assert (0 ≤ tip) by (unfold tip_height in Ht; destruct (by_height idx); [done|injection Ht as <-; apply Z.mod_pos_bound; lia]).
  pose proof (Z.mod_pos_bound (tip + 1) (2 ^ 32) ltac:(lia)). unfold u32 in *. lia.
Qed.

Lemma cache_new_inv budget : 0 ≤ budget → cache_inv (cache_new budget).
Proof. intros Hb. split_and!; [|done|done]. intros k. cbn. rewrite lookup_empty. by intros []. Qed.

(** The store of a trial is fresh but for the database. *)
Lemma trial_store_ok left cfg path s :
  trial_store left cfg path = Ok s → needs_utxo (bc_mode cfg) = true →
  ∃ st, s = Some st ∧ store_inv st ∧ ∀ d, left = Some d → db_view (db st) = db_view d.
Proof.
  unfold trial_store. intros Hs Hm. rewrite Hm in Hs.
  assert (∀ stats st, open_with left path false false stats = Ok st →
    store_inv st ∧ (∀ d, left = Some d → db_view (db st) = db_view d) ∧
    store_inv (set_recent (Some (cache_new (u64 (Z.shiftl (bc_utxo_cache_mb cfg) 20)))) st)) as Hopen.
  { intros stats st (opts & d & cfs & Hd & ->)%open_with_ok. split; [by split|]. split.
    - intros d0 ->. by eapply db_open_again.
    - split; [done|]. split; [apply cache_new_inv, Z.mod_pos_bound; lia|]. intros k v. cbn. by rewrite lookup_empty. }
  destruct (bc_rocksdb_stats cfg), (bc_utxo_cache_mb cfg =? 0);
    unfold open_statistics, store_open, open_cached_statistics, open_cached in Hs.
  all: match type of Hs with context [open_with ?l ?p ?w ?u ?st] =>
         destruct (open_with l p w u st) as [s0|e|] eqn:Ho; [|done..] end.
  all: cbn in Hs; injection Hs as <-; destruct (Hopen _ _ Ho) as (H1 & H2 & H3); by eexists.
Qed.

Lemma say_all_run l w (Q : () → Left → Prop) :
  (∀ w', lf_db w' = lf_db w → Q () w') → runs_to trial_io (say_all l) w Q.
Proof.
  revert w. induction l as [|x l IH]; intros w HQ; [by apply HQ|]. cbn [say_all]. apply runs_to_bind.
  apply IH. intros w' Hw'. by apply HQ.
Qed.

Lemma say_run x w (Q : () → Left → Prop) :
  (∀ w', lf_db w' = lf_db w → Q () w') → runs_to trial_io (say x) w Q.
Proof. intros HQ. by apply HQ. Qed.
End spec.

Section trial.
Context `{SHA : Sha256} `{RIP : Ripemd160} `{LIBM : Libm} `{FS : Fs} `{ENV : RpcEnv}.
Context `{ROCKS : RocksDB} `{CLOCK : Clock} `{ORDER : HashOrder} `{PARQ : ParquetLib}.
Variables (p : Proc) (cfg : BenchConfig) (path : rstr) (idx : ChainIndex) (stats : ChainBuildStats) (a b : Z).
Variable bs : list (Hash32 * bytes).
Abbreviation start := (Z.to_nat a).

Hypothesis Hmode : needs_utxo (bc_mode cfg) = true.
Hypothesis Hbpp : 0 < bc_blocks_per_part cfg.
Hypothesis Hstart : 0 ≤ bc_start cfg.
Hypothesis Hidx : build_chain_index (bc_blocks_dir cfg) = Some (Ok (idx, stats)).
Hypothesis Hrange : bench_range cfg idx = Ok (a, b).
Hypothesis Hread : blocks_read (bc_blocks_dir cfg) idx start bs.
Hypothesis Hlen : len bs = b - a.
Hypothesis Hopen : ∀ left, trial_store left cfg path ≠ Panic.

(** What a trial leaves: the set of its blocks. *)
Definition left_set (U : bytes → option UtxoValue) (w : Left) : Prop :=
  ∃ d, lf_db w = Some d ∧ ∀ x, utxos (db_view d) x = U x.

Definition good_blocks : Prop :=
  ∀ j b, bs !! j = Some b → is_hash32 b.1 ∧ 80 ≤ len b.2 ∧ ∃ fb, parsed (start + j) b = Ok fb.

(** The error of an open that fails. *)
Lemma trial_store_err left e : trial_store left cfg path = Err e → ∃ e', e = TrUtxo e'.
Proof.
  unfold trial_store. rewrite Hmode. intros Hs. destruct (bc_rocksdb_stats cfg), (bc_utxo_cache_mb cfg =? 0);
    unfold open_statistics, store_open, open_cached_statistics, open_cached in Hs.
  all: match type of Hs with context [open_with ?l ?p ?w ?u ?st] => destruct (open_with l p w u st) end.
  all: cbn in Hs; simplify_eq; by eexists.
Qed.

Lemma trial_out_dir_run env w (Q : rstr → Left → Prop) :
  te_unix_secs env ≠ None → (∀ d, Q d w) → runs_to trial_io (m_lift (trial_out_dir p env cfg)) w Q.
Proof.
  intros Hc HQ. apply runs_to_lift_err. unfold trial_out_dir, out_dir_for, unique_name. destruct (needs_sink _); [|apply HQ].
  destruct (te_unix_secs env) as [secs|]; [|done]. pose proof create_dir_no_panic as Hnp.
  destruct (bc_out_dir cfg) as [d|]; cbn;
    match goal with |- context [create_dir_all ?d] => specialize (Hnp d); destruct (create_dir_all d) end;
    try done; apply HQ.
Qed.

(** The stage and the consumer, over a store whose set is [U]. *)
Lemma trial_pipeline_run env out_dir st w (U : bytes → option UtxoValue) (Q : list Z * Bench → Left → Prop) :
  workers_done (bc_blocks_dir cfg) idx (a, b) (te_stage env idx (a, b) (from_cfg cfg)) →
  store_inv st → (∀ x, utxos (db_view (db st)) x = U x) →
  (∀ samples s w', len samples = len bs → len (bn_samples s) = len bs → bn_missing s = u64 (chain_missing U start bs) → bn_blocks s = len bs →
     good_blocks → left_set (chain_utxos U start bs) w' → Q (samples, s) w') →
  runs_to trial_io (trial_pipeline env cfg idx (a, b) out_dir (Some st)) w Q.
Proof.
  intros Hstage Hinv HU HQ. pose proof (bench_range_bounds _ _ _ _ Hrange Hstart) as (Hab & Ha & Hb).
  unfold trial_pipeline, workers_done in *. destruct (te_stage env _ _ _) as [[arrivals workers] tripped].
  destruct Hstage as (Hquiet & Hnp & Hsent). cbv zeta.
  set (r := mode_run _ _ _ _ _). destruct (bench_consume r arrivals (Some st)) as [consumer s] eqn:Hc.
  apply runs_to_bind. unfold runs_to at 1, close_db, m_modify. apply runs_to_bind, runs_to_lift_err.
  destruct workers as [samples|e|]; [|done|done]. destruct (Hsent samples eq_refl) as (Hl & sent & Hf & Hperm).
  cbn [fst snd] in Hf. replace a with (Z.of_nat start) in Hf at 1 by lia.
  replace (b - a) with (Z.of_nat (length bs)) in Hf by (unfold len in Hlen; lia).
  destruct (workers_items _ _ _ _ _ Hf) as (bs' & Hl' & Hread' & -> & Hgood).
  pose proof (blocks_read_unique _ _ _ _ _ Hread Hread' (eq_sym Hl')) as <-.
  pose proof (bench_consume_run r Hmode Hmode Hbpp Hquiet start bs arrivals st) as Hrun. cbv zeta in Hrun.
  rewrite Hc in Hrun. cbn [r mode_run r_conf k_start k_end fst snd] in Hrun.
  specialize (Hrun ltac:(lia) ltac:(lia) ltac:(lia) ltac:(intros He; rewrite He in Hlen; unfold len in Hlen; cbn in Hlen; lia) Hinv Hgood Hperm).
  assert (length samples = length bs) as Hsl.
  { rewrite Hl, Hperm. apply (chain_items_good start bs). intros j b0 Hj. apply (Hgood j b0 Hj). }
  destruct consumer as [u|e|], s as [s|]; try done.
  destruct Hrun as (st' & (Hst & _ & _ & Hn & Hm & Hk) & Hset). cbn [map_err]. apply runs_to_ret, HQ; [unfold len; lia|done| | |done|].
  - rewrite Hm. f_equal. by apply chain_missing_ext.
  - rewrite Hn, u64_small; [done|]. pose proof (len_nonneg bs). lia.
  - rewrite Hst. eexists. split; [reflexivity|]. intros x. rewrite Hset. by apply chain_ext.
Qed.

(** One trial, over a store whose set is [U]. *)
Lemma run_trial_run env trial w (U : bytes → option UtxoValue) :
  workers_done (bc_blocks_dir cfg) idx (a, b) (te_stage env idx (a, b) (from_cfg cfg)) →
  te_unix_secs env ≠ None →
  (∀ st, trial_store (lf_db w) cfg path = Ok (Some st) → ∀ x, utxos (db_view (db st)) x = U x) →
  u64 (chain_missing U start bs) = 0 ∨ bc_allow_missing_utxos cfg = true →
  runs_to trial_io (run_trial p env cfg path trial) w (λ rep w',
    tr_missing_utxos rep = u64 (chain_missing U start bs) ∧ tr_blocks rep = len bs ∧ good_blocks ∧
    left_set (chain_utxos U start bs) w').
Proof.
  intros Hstage Hclock HU Hmiss. pose proof (bench_range_bounds _ _ _ _ Hrange Hstart) as (Hab & Ha & Hb).
  unfold run_trial. apply runs_to_bind. eapply runs_to_lift; [by rewrite Hidx|]. cbn [map_err fst snd].
  rewrite bool_decide_false by (intros He; by rewrite He in Hmode). cbv zeta.
  apply runs_to_bind. eapply runs_to_lift; [exact Hrange|].
  apply runs_to_bind, say_run. intros w1 Hw1. apply runs_to_bind. unfold runs_to at 1, m_get. rewrite Hw1.
  apply runs_to_bind, runs_to_lift_err. pose proof (Hopen (lf_db w)) as Hnp.
  destruct (trial_store (lf_db w) cfg path) as [s|e|] eqn:Hs; [|by apply trial_store_err in Hs as [e' ->]|done].
  destruct (trial_store_ok _ _ _ _ Hs Hmode) as (st & -> & Hinv & _).
  apply runs_to_bind, trial_out_dir_run; [done|]. intros d.
  apply runs_to_bind. apply (trial_pipeline_run _ _ _ _ U); [done|done|by apply HU|].
  intros samples s w2 Hl Hk Hm Hn Hgood Hset. apply runs_to_lift_err. unfold trial_report.
  destruct (te_pipeline env) as [t0 t1]. cbn [fst snd].
  assert (needs_utxo (bc_mode cfg) && (0 <? bn_missing s) && negb (bc_allow_missing_utxos cfg) = false) as ->.
  { rewrite Hm. destruct Hmiss as [-> | ->]; [by rewrite andb_false_r|by rewrite !andb_false_r]. }
  destruct (from_samples_total (E := TrialError) samples ltac:(lia)) as (r1 & -> & _).
  destruct (from_samples_total (E := TrialError) (bn_samples s)) as (r2 & -> & _); [lia|]. by cbn.
Qed.
End trial.

(** ** Theorem *)

(** C30: Repeating a trial does not make its store cold. In the modes with the
    store, over a fresh store and blocks that spend only outputs of the range:
    every trial, over the database that the trial before it closed, reports that
    no output was missing and counts every block of the range, and leaves the
    UTXO set the blocks make, once; so the check for a cold store never fires. A
    run fails only in the database, a directory, a part file or the workers, and
    never panics: the percentiles are within the samples. *)
Theorem trials_agree `{SHA : Sha256, RIP : Ripemd160, LIBM : Libm, FS : Fs, HEX : Hex, ENV : !RpcEnv}
    `{ROCKS : RocksDB, CLOCK : Clock, ORDER : HashOrder, PARQ : ParquetLib}
    (env : BenchEnv) (cfg : BenchConfig) (path : rstr) (idx : ChainIndex) (stats : ChainBuildStats) (a b : Z)
    (bs : list (Hash32 * bytes)) (n : nat) (trial : Z) (w : Left)
    (Hmode : needs_utxo (bc_mode cfg) = true) (Hbpp : 0 < bc_blocks_per_part cfg) (Hstart : 0 ≤ bc_start cfg)
    (Hidx : build_chain_index (bc_blocks_dir cfg) = Some (Ok (idx, stats))) (Hrange : bench_range cfg idx = Ok (a, b))
    (Hread : blocks_read (bc_blocks_dir cfg) idx (Z.to_nat a) bs) (Hlen : len bs = b - a)
    (Hopen : ∀ left, trial_store left cfg path ≠ Panic)
    (Hfresh : ∀ st, trial_store None cfg path = Ok (Some st) → ∀ x, utxos (db_view (db st)) x = None)
    (Hcomplete : chain_missing (λ _, None) (Z.to_nat a) bs = 0)
    (Hstage : ∀ t, workers_done (bc_blocks_dir cfg) idx (a, b) (te_stage (be_trial env t) idx (a, b) (from_cfg cfg)))
    (Hclock : ∀ t, te_unix_secs (be_trial env t) ≠ None) (Hw : lf_db w = None) :
  match run_trials env cfg path n trial w with
  | (Ok reports, w') =>
    length reports = n ∧ Forall (λ r, tr_missing_utxos r = 0 ∧ tr_blocks r = len bs) reports ∧
    (n ≠ 0%nat → left_set (chain_utxos (λ _, None) (Z.to_nat a) bs) w')
  | (Err e, _) => trial_io e
  | (Panic, _) => False
  end.
Proof.
  set (start := Z.to_nat a) in *. set (none := λ _ : bytes, None : option UtxoValue) in *.
  set (U := chain_utxos none start bs).
  assert (∀ n trial w, lf_db w = None ∨ (good_blocks a bs ∧ left_set U w) →
    runs_to trial_io (run_trials env cfg path n trial) w (λ reports w',
      length reports = n ∧ Forall (λ r, tr_missing_utxos r = 0 ∧ tr_blocks r = len bs) reports ∧
      (n ≠ 0%nat → left_set U w') ∧ (n = 0%nat → w' = w))) as Hgen.
  { clear n trial w Hw. induction n as [|n IH]; intros trial w Hw; [by apply runs_to_ret|].
    assert (∃ V, (∀ st, trial_store (lf_db w) cfg path = Ok (Some st) → ∀ x, utxos (db_view (db st)) x = V x) ∧
      chain_missing V start bs = 0 ∧ (∀ x, chain_utxos V start bs x = U x)) as (V & HV & Hmiss & Hsame).
    { destruct Hw as [Hw|[Hgood (d & Hd & Hset)]].
      - exists none. rewrite Hw. split_and!; [intros st Hs x; by rewrite (Hfresh st Hs)|done|done].
      - exists U. split; [|split].
        + intros st Hs x. destruct (trial_store_ok _ _ _ _ Hs Hmode) as (st' & [= <-] & _ & Hd').
          by rewrite (Hd' d Hd).
        + by apply (chain_ops_sub none U start bs).
        + intros x. unfold U. rewrite <-(firstn_all bs) at 1.
          pose proof (chain_resume none start bs 0 (length bs) x) as Hr. rewrite Nat.add_0_r, drop_0 in Hr.
          apply Hr; [|lia|lia]. intros j b0 Hj. apply (Hgood j b0 Hj). }
    cbn [run_trials]. apply runs_to_bind.
    eapply runs_to_mono; [eapply (run_trial_run _ cfg path idx stats a b bs) with (U := V); [done..|exact HV|left; fold start; by rewrite Hmiss]|].
    intros rep w1 (Hm & Hn & Hgood & Hset). fold start in Hm, Hset. apply runs_to_bind, say_all_run. intros w2 Hw2.
    assert (left_set U w2) as Hset2.
    { destruct Hset as (d & Hd & Hset). exists d. rewrite Hw2. split; [done|]. intros x. by rewrite Hset. }
    apply runs_to_bind. eapply runs_to_mono; [apply IH; right; by split|].
    intros reports w3 (Hl & Hall & Hlast & Hzero). apply runs_to_ret. split_and!; [by cbn; rewrite Hl| |intros _|done].
    - constructor; [|done]. rewrite Hm, Hmiss. by split.
    - destruct n as [|n]; [by rewrite Hzero|by apply Hlast]. }
  specialize (Hgen n trial w (or_introl Hw)). unfold runs_to in Hgen.
  destruct (run_trials _ _ _ _ _ _) as [[reports|e|] w']; [|done|done]. by destruct Hgen as (H1 & H2 & H3 & _).
Qed.

(** ** Witness *)

Module Ex.
Import Hash.Ref.
Definition cfg : BenchConfig :=
  mkBenchConfig (str "b") UtxoMode 0 None (Some 2) (Some (str "u")) None None 10 None None None 2 false 1 false None.
Definition reading (t : Z) : Reading := mkReading t (mkSample 10 3 1) 20.
Abbreviation run_error := (@RunError ParseRun.Ex.fs hex_ref Node.Ref.rpc_ref rocks_ref Parquet.Ex.lib).

(** The parse stage of [ParseRun.Ex], each block in 7 ns. *)
Definition stage (idx : ChainIndex) (range : Z * Z) (t : Tuning) : list WorkItem * Res run_error (list Z) * (Z → bool) :=
  let s := ParseRun.Ex.stage ParseRun.Ex.fs idx range None in
  (st_arrivals s, match st_result s with Ok _ => Ok (replicate (length (st_arrivals s)) 7) | Err e => Err e | Panic => Panic end,
   st_tripped s).

Definition env : @BenchEnv ParseRun.Ex.fs hex_ref Node.Ref.rpc_ref rocks_ref Parquet.Ex.lib :=
  @mkBenchEnv _ _ _ _ _ (mkProc 100 (Some 8) (Some (str "w")) (str "tmp") 42) (Some 5)
    (λ t, @mkTrialEnv _ _ _ _ _ (reading 0, reading 2000000) (reading 2000000, reading 9000000) 30 (Some 5) None (λ _, 11) (λ _, 0) stage)
    (λ _, None) (λ _ _, true).
Definition start : @Left rocks_ref := @mkLeft rocks_ref [] None None [].
Definition bs : list (Hash32 * bytes) :=
  (λ raw, (@dsha256 sha_ref (slice 0 80 raw), raw)) <$> [ParseRun.Ex.b0; ParseRun.Ex.b1].

Abbreviation index := (@build_chain_index ParseRun.Ex.fs sha_ref ParseRun.Ex.libm order_ref (str "b")).
Abbreviation trials := (@run_trials sha_ref ParseRun.Ex.libm ParseRun.Ex.fs hex_ref Node.Ref.rpc_ref rocks_ref clock_ref
  order_ref Parquet.Ex.lib env cfg (str "u") 2 0 start).
Abbreviation range idx := (@bench_range ParseRun.Ex.fs hex_ref Node.Ref.rpc_ref rocks_ref Parquet.Ex.lib cfg idx).
Abbreviation read loc := (@read_block ParseRun.Ex.fs (str "b") loc).

(** The blocks of the files, by height. *)
Definition reads_all (idx : ChainIndex) : bool :=
  bool_decide (((λ loc, res_ok (read loc)) <$> by_height idx) = (Some <$> bs.*2)).
Definition index_ok : bool :=
  match index with
  | Some (Ok (idx, _)) => reads_all idx && match range idx with Ok r => bool_decide (r = (0, 2)) | _ => false end
  | _ => false
  end.
End Ex.

Lemma ex_workers_done idx range t :
  @workers_done Hash.Ref.sha_ref Hash.Ref.ripemd_ref ParseRun.Ex.fs Hash.Ref.hex_ref Node.Ref.rpc_ref rocks_ref
    Parquet.Ex.lib (str "b") idx range (Ex.stage idx range t).
Proof.
  destruct (ex_stage_done ParseRun.Ex.fs idx range None) as [Hq Hs]. unfold workers_done, Ex.stage. split; [exact Hq|].
  destruct (st_result (ParseRun.Ex.stage ParseRun.Ex.fs idx range None)) as [[]|e|] eqn:Hr; [|done|].
  - split; [done|]. intros samples [= <-]. split; [by rewrite length_replicate|]. exact (Hs eq_refl).
  - exfalso. unfold ParseRun.Ex.stage in Hr. cbn [st_result] in Hr. by case_bool_decide.
Qed.

Lemma blocks_read_check `{SHA : Sha256, FS : Fs} dir idx (bs : list (Hash32 * bytes)) :
  (λ loc, res_ok (read_block dir loc)) <$> by_height idx = Some <$> bs.*2 →
  Forall (λ b, b.1 = dsha256 (slice 0 80 b.2)) bs → blocks_read dir idx 0 bs.
Proof.
  intros Hr Hids j b Hj. split; [by eapply Forall_lookup_1 in Hids|].
  apply (f_equal (λ l, l !! j)) in Hr. rewrite !list_lookup_fmap, Hj in Hr. cbn [Nat.add].
  destruct (by_height idx !! j) as [loc|]; [|done]. exists loc. split; [done|]. injection Hr as Hr.
  destruct (read_block dir loc); [|done..]. cbn in Hr. by injection Hr as ->.
Qed.

Lemma ex_blocks_read idx : Ex.reads_all idx = true → @blocks_read Hash.Ref.sha_ref ParseRun.Ex.fs (str "b") idx 0 Ex.bs.
Proof.
  unfold Ex.reads_all. rewrite bool_decide_eq_true. intros Hr. apply blocks_read_check; [exact Hr|].
  unfold Ex.bs. apply Forall_fmap, Forall_forall. by intros raw _.
Qed.

Abbreviation ex_missing := (@chain_missing Hash.Ref.sha_ref Hash.Ref.ripemd_ref (λ _, None) 0 Ex.bs).

(** Two trials over the two blocks of a file. *)
Lemma trials_agree_witness :
  match Ex.trials with
  | (Ok reports, w) => (tr_missing_utxos <$> reports) = [0; 0] ∧ (tr_blocks <$> reports) = [2; 2]
  | _ => False
  end.
Proof.
  assert (match Ex.trials with (Ok _, _) => true | _ => false end = true) as Hb by (vm_compute; reflexivity).
  assert (Ex.index_ok = true) as Hr by (vm_compute; reflexivity). unfold Ex.index_ok in Hr.
  destruct Ex.index as [[[idx stats]|e|]|] eqn:Hi; try discriminate Hr. apply andb_prop in Hr as [Hread Hr].
  destruct (Ex.range idx) as [r|e|] eqn:Hrange; try discriminate Hr. apply bool_decide_eq_true in Hr. subst r.
  pose proof (@trials_agree Hash.Ref.sha_ref Hash.Ref.ripemd_ref ParseRun.Ex.libm ParseRun.Ex.fs Hash.Ref.hex_ref
    Node.Ref.rpc_ref rocks_ref clock_ref order_ref Parquet.Ex.lib Ex.env Ex.cfg (str "u") idx stats 0 2 Ex.bs 2 0 Ex.start
    eq_refl eq_refl ltac:(discriminate) Hi Hrange (ex_blocks_read idx Hread) eq_refl) as Ht.
  specialize (Ht ltac:(by intros [?|])).
  specialize (Ht ltac:(by intros st [= <-])). specialize (Ht ltac:(vm_compute; reflexivity) ltac:(intros t; apply ex_workers_done)
    ltac:(done) eq_refl).
  destruct Ex.trials as [[reports|e|] w]; try discriminate Hb. destruct Ht as (Hl & Hall & _).
  destruct reports as [|r1 [|r2 [|r3 rs]]]; try discriminate Hl.
  apply Forall_cons in Hall as [[H1 H2] [[H3 H4] _]%Forall_cons]. change (len Ex.bs) with 2 in H2, H4. clear Hb Hi.
  cbn [fmap list_fmap]. rewrite H1, H2, H3, H4. split; reflexivity.
Defined.
