(* ===== verification/Main.v ===== *)
(** * Main: [main], [bidx-cli/src/main.rs]

    The subcommands with the configuration each makes of its arguments, and what
    [main] runs for them. Parsing the command line is [clap]'s. *)
From S2P Require Import Prelude F64 Text Hash Types Tx Block BlkFile Chain Utxo UtxoStore Disk DiskGuard Node Tracker.
From S2P Require Import Parquet Pipeline FileCache ParseRun Loader Live Bench Trial.

Inductive NetworkArg : Type := ArgMainnet | ArgTestnet3 | ArgTestnet4 | ArgSignet | ArgRegtest.

(** [impl From<NetworkArg> for Network]. *)
Definition network_from (a : NetworkArg) : Network :=
  match a with
  | ArgMainnet => Mainnet | ArgTestnet3 => Testnet3 | ArgTestnet4 => Testnet4 | ArgSignet => Signet
  | ArgRegtest => Regtest
  end.

Record ParseArgs : Type := mkParseArgs {
  pa_blocks_dir : rstr; pa_out : rstr; pa_utxo : rstr; pa_start : Z; pa_end : option Z; pa_blocks_per_part : Z;
  pa_threads : option Z; pa_rpc_url : option rstr; pa_rpc_cookie : option rstr; pa_skip_disk_check : bool;
  pa_network : option NetworkArg; pa_checkpoint_file : option rstr }.

Record LiveArgs : Type := mkLiveArgs {
  la_rpc_url : rstr; la_cookie : option rstr; la_rpc_user : option rstr; la_rpc_password : option rstr;
  la_zmq : option rstr; la_utxo : rstr; la_out : option rstr; la_max_reorg_depth : Z; la_blocks_dir : option rstr;
  la_network : option NetworkArg; la_skip_disk_check : bool; la_checkpoint_file : option rstr }.

(** The arguments that have to be given, and the defaults of the others. *)
Definition parse_args (blocks_dir out utxo : rstr) : ParseArgs :=
  mkParseArgs blocks_dir out utxo 0 None 10000 None None None false None None.

Definition live_args (utxo : rstr) : LiveArgs :=
  mkLiveArgs (str "http://127.0.0.1:8332") None None None None utxo None 100 None None false None.

Definition parse_config (a : ParseArgs) : ParseConfig :=
  mkParseConfig (pa_blocks_dir a) (pa_out a) (pa_utxo a) (pa_start a) (pa_end a) (pa_blocks_per_part a) (pa_threads a)
    (pa_rpc_url a) (pa_rpc_cookie a) (pa_skip_disk_check a) (pa_checkpoint_file a) (network_from <$> pa_network a) None.

Definition live_config (a : LiveArgs) : LiveConfig :=
  mkLiveConfig (la_rpc_url a) (la_cookie a) (la_rpc_user a) (la_rpc_password a) (la_zmq a) (la_utxo a) (la_out a)
    (la_max_reorg_depth a) (la_blocks_dir a) (network_from <$> la_network a) (la_skip_disk_check a) (la_checkpoint_file a).

(** The subcommands: [InitDb] and [Load] take the arguments of [ChConfig]. *)
Inductive Cmd : Type :=
  | CmdHeaders (blocks_dir : rstr)
  | CmdParse (a : ParseArgs)
  | CmdInitDb (cfg : ChConfig)
  | CmdLoad (input : rstr) (cfg : ChConfig)
  | CmdLive (a : LiveArgs)
  | CmdInspect (blocks_dir : rstr) (height : Z)
  | CmdBench (cfg : BenchConfig).

Record Cli : Type := mkCli { cli_cmd : Cmd; cli_log : rstr }.

(** What [bench] is given when only the directory is. *)
Definition bench_args (blocks_dir : rstr) : BenchConfig :=
  mkBenchConfig blocks_dir Full 0 None None None None None 10000 None None None 1 false 0 false None.

Section commands.
Context `{SHA : Sha256} `{RIP : Ripemd160} `{LIBM : Libm} `{FS : Fs} `{IO : !AppendIo} `{ENV : RpcEnv} `{ZMQ : !ZmqLib}.
Context `{ROCKS : RocksDB} `{CLOCK : Clock} `{ORDER : HashOrder} `{PARQ : ParquetLib} `{COMMAND : Command}.

Inductive MainError : Type :=
  | MeRun (e : RunError)
  | MeLoad (e : LoadError)
  | MeLive (e : LiveError)
  | MeBench (e : TrialError).

(** What the arms use of the outside: the network, the programs they run, and
    what the process prints, closes and removes. *)
Record Outside : Type := mkOutside { o_net : Net; o_progs : ProcState; o_left : Left }.

Record MainEnv : Type := mkMainEnv { me_run : RunEnv; me_live : LiveEnv; me_rounds : nat; me_bench : BenchEnv }.

Definition on_net {E A} (f : E → MainError) (m : M Net E A) : M Outside MainError A := λ o,
  let '(r, net) := m (o_net o) in (map_err f r, mkOutside net (o_progs o) (o_left o)).

Definition on_progs {A} (m : M ProcState LoadError A) : M Outside MainError A := λ o,
  let '(r, s) := m (o_progs o) in (map_err MeLoad r, mkOutside (o_net o) s (o_left o)).

Definition on_left {A} (m : M Left TrialError A) : M Outside MainError A := λ o,
  let '(r, w) := m (o_left o) in (map_err MeBench r, mkOutside (o_net o) (o_progs o) w).

Definition println (l : rstr) : M Outside MainError () := on_left (say l).

Fixpoint print_all (l : list rstr) : M Outside MainError () :=
  match l with [] => mret () | x :: l => _ ← println x; print_all l end.

(** The arm [Headers]. *)
Definition headers_lines (index : ChainIndex) (s : ChainBuildStats) : list rstr :=
  [str "scanned " ++ fmt_dec (files_scanned s) ++ str " files, " ++ fmt_dec (total_records s) ++ str " records, "
   ++ fmt_dec (unique_blocks s) ++ str " unique blocks";
   str "main chain: height " ++ fmt_dec (st_tip_height s) ++ str " tip " ++ hash_display (Chain.tip_hash s);
   str "orphans/stale: " ++ fmt_dec (orphans s);
   str "chain index entries: " ++ fmt_dec (len (by_height index))].

Definition cmd_headers (blocks_dir : rstr) : M Outside MainError () :=
  idx ← m_lift (map_err MeRun (chain_index blocks_dir));
  print_all (headers_lines idx.1 idx.2).

Definition cmd_parse (env : RunEnv) (a : ParseArgs) : M Outside MainError () :=
  _ ← on_net MeRun (run_parse env (parse_config a)); mret ().

(** What [inspect_block] prints, of the first three transactions at most. *)
Definition tx_line (tx : TxRow) : rstr :=
  str "  tx[" ++ fmt_dec (tr_tx_index tx) ++ str "] " ++ hash_display (tr_txid tx) ++ str " in=" ++ fmt_dec (tr_input_count tx)
  ++ str " out=" ++ fmt_dec (tr_output_count tx) ++ str " witness=" ++ str (if tr_has_witness tx then "true" else "false").

Definition inspect_lines (height : Z) (hash : Hash32) (b : FullBlock) : list rstr :=
  [str "block " ++ fmt_dec height ++ str " hash " ++ hash_display hash;
   str "  txs=" ++ fmt_dec (br_tx_count (block_row b)) ++ str " size=" ++ fmt_dec (br_size (block_row b))
   ++ str " weight=" ++ fmt_dec (br_weight (block_row b));
   str "  inputs=" ++ fmt_dec (len (inputs b)) ++ str " outputs=" ++ fmt_dec (len (outputs b))]
  ++ (tx_line <$> take 3 (txs b)).

Definition cmd_inspect (blocks_dir : rstr) (height : Z) : M Outside MainError () :=
  x ← m_lift (map_err MeRun (inspect_block blocks_dir height));
  print_all (inspect_lines height x.1 x.2).

Definition cmd_live (env : LiveEnv) (a : LiveArgs) (rounds : nat) : M Outside MainError () :=
  _ ← on_net MeLive (run_live env (live_config a) rounds); mret ().

(** [main], past the parsing of the command line and the set-up of the log. *)
Definition main (env : MainEnv) (cli : Cli) : M Outside MainError () :=
  match cli_cmd cli with
  | CmdHeaders blocks_dir => cmd_headers blocks_dir
  | CmdParse a => cmd_parse (me_run env) a
  | CmdInitDb cfg => _ ← on_progs (cmd_init_db cfg); println (str "schema initialized")
  | CmdLoad input cfg => _ ← on_progs (cmd_load cfg input); println (str "load complete")
  | CmdInspect blocks_dir height => cmd_inspect blocks_dir height
  | CmdBench cfg => on_left (run_bench (me_bench env) cfg)
  | CmdLive a => cmd_live (me_live env) a (me_rounds env)
  end.
End commands.

(** ** Lemmas *)

(** Every network can be named, by one name. *)
Lemma network_from_bijective : ∀ n, exists! a, network_from a = n.
Proof.
  intros n. exists (match n with Mainnet => ArgMainnet | Testnet3 => ArgTestnet3 | Testnet4 => ArgTestnet4
                    | Signet => ArgSignet | Regtest => ArgRegtest end).
  split; [by destruct n|]. by intros [] <-.
Qed.

(** The subcommands that only read leave the network and the programs alone. *)
Lemma reading_commands `{SHA : Sha256, RIP : Ripemd160, LIBM : Libm, FS : Fs, IO : !AppendIo, HEX : Hex, ENV : !RpcEnv, ZMQ : !ZmqLib}
    `{ROCKS : RocksDB, CLOCK : Clock, ORDER : HashOrder, PARQ : ParquetLib, COMMAND : Command}
    (env : MainEnv) (cli : Cli) (o : Outside) :
  match cli_cmd cli with CmdHeaders _ | CmdInspect _ _ | CmdBench _ => True | _ => False end →
  o_net (main env cli o).2 = o_net o ∧ o_progs (main env cli o).2 = o_progs o.
Proof.
  assert (∀ l o, o_net (print_all l o).2 = o_net o ∧ o_progs (print_all l o).2 = o_progs o) as Hprint.
  { induction l as [|x l IH]; intros o'; [done|]. cbn [print_all]. unfold mbind, M_bind.
    change (println x o') with (Ok () : Res MainError (), mkOutside (o_net o') (o_progs o') (say x (o_left o')).2). cbn iota beta.
    by destruct (IH (mkOutside (o_net o') (o_progs o') (say x (o_left o')).2)). }
  unfold main. destruct (cli_cmd cli) as [d|a|c|i c|a|d h|c]; try done; intros _.
  - unfold cmd_headers, mbind, M_bind, m_lift. destruct (map_err _ _); [apply Hprint|done..].
  - unfold cmd_inspect, mbind, M_bind, m_lift. destruct (map_err _ _); [apply Hprint|done..].
  - unfold on_left. by destruct (run_bench _ _ _).
Qed.

(** "The bench must measure production defaults unless told otherwise." *)
Lemma bench_args_production dir :
  from_cfg (bench_args dir) = mkTuning REORDER_HIGH 512 (batch_size sink_config_default).
Proof. done. Qed.
