(* ===== verification/Digest.v ===== *)
(** * Digest: SHA-256 and RIPEMD-160 as instances of the hash classes

    The program takes its digests from the [sha2] and [ripemd] crates, which the
    development leaves as the classes [Hash.Sha256] and [Hash.Ripemd160]. Here are
    the functions of the standards (FIPS 180-4; Dobbertin, Bosselaers and
    Preneel), executable, so that the model can be run on real blocks. *)
From S2P Require Import Prelude Hash.

(** ** Words of 32 bits *)

Definition w32 (x : Z) : Z := Z.land x 0xffffffff.
Definition rotr (n x : Z) : Z := Z.lor (Z.shiftr x n) (w32 (Z.shiftl x (32 - n))).
Definition rotl (n x : Z) : Z := rotr (32 - n) x.
Definition not32 (x : Z) : Z := Z.lxor x 0xffffffff.

(** [n] groups of [k] bytes. *)
Fixpoint groups {A} (k n : nat) (l : list A) : list (list A) :=
  match n with O => [] | S n => take k l :: groups k n (drop k l) end.

(** The message with a one bit, zeros, and its length in bits, in 64-byte blocks. *)
Definition padded (length_bytes : Z → bytes) (d : bytes) : list bytes :=
  let m := d ++ [x80] ++ zeros (Z.to_nat ((55 - len d) `mod` 64)) ++ length_bytes (8 * len d) in
  groups 64 (Z.to_nat (len m `div` 64)) m.

(** ** SHA-256 *)

(** The first [n] primes from [p] on. *)
Fixpoint primes_from (fuel n : nat) (p : Z) : list Z :=
  match fuel, n with
  | S fuel, S n' =>
    if forallb (λ d, negb (p `mod` d =? 0)) (seqZ 2 (p - 2)) then p :: primes_from fuel n' (p + 1)
    else primes_from fuel n (p + 1)
  | _, _ => []
  end.

(** The integer part of the cube root of a number below [2 ^ 108]. *)
Definition cube_root (n : Z) : Z :=
  foldl (λ r i, let r' := r + 2 ^ i in if r' * r' * r' <=? n then r' else r) 0 (rev (seqZ 0 36)).

(** The first 32 bits of the fractional parts of the cube roots of the first 64
    primes, and of the square roots of the first 8. *)
Definition sha_k : list Z := Eval vm_compute in (λ p, w32 (cube_root (p * 2 ^ 96))) <$> primes_from 400 64 2.
Definition sha_h : list Z := Eval vm_compute in (λ p, w32 (Z.sqrt (p * 2 ^ 64))) <$> primes_from 400 8 2.

Definition be_val (b : bytes) : Z := le_val (rev b).

(** The message schedule, from a window of the last 16 words. *)
Fixpoint schedule (n : nat) (win : list Z) : list Z :=
  match n, win with
  | S n, w :: rest =>
    let s0 := let x := rest !!! 0%nat in Z.lxor (Z.lxor (rotr 7 x) (rotr 18 x)) (Z.shiftr x 3) in
    let s1 := let x := rest !!! 13%nat in Z.lxor (Z.lxor (rotr 17 x) (rotr 19 x)) (Z.shiftr x 10) in
    w :: schedule n (rest ++ [w32 (w + s0 + rest !!! 8%nat + s1)])
  | _, _ => []
  end.

Definition sha_round (st : list Z) (kw : Z * Z) : list Z :=
  match st with
  | [a; b; c; d; e; f; g; h] =>
    let s1 := Z.lxor (Z.lxor (rotr 6 e) (rotr 11 e)) (rotr 25 e) in
    let ch := Z.lxor (Z.land e f) (Z.land (not32 e) g) in
    let t1 := h + s1 + ch + kw.1 + kw.2 in
    let s0 := Z.lxor (Z.lxor (rotr 2 a) (rotr 13 a)) (rotr 22 a) in
    let maj := Z.lxor (Z.lxor (Z.land a b) (Z.land a c)) (Z.land b c) in
    [w32 (t1 + s0 + maj); a; b; c; w32 (d + t1); e; f; g]
  | _ => st
  end.

Definition sha_block (st : list Z) (blk : bytes) : list Z :=
  let ws := schedule 64 (be_val <$> groups 4 16 blk) in
  zip_with (λ x y, w32 (x + y)) st (foldl sha_round st (zip sha_k ws)).

Definition be_word (x : Z) : bytes := be_bytes 4 x.

Definition sha256_digest (d : bytes) : bytes :=
  let st := foldl sha_block sha_h (padded (be_bytes 8) d) in
  mjoin ((λ i, be_word (st !!! i)) <$> seq 0 8).

(** ** RIPEMD-160 *)

Definition rmd_r1 : list Z :=
  [0; 1; 2; 3; 4; 5; 6; 7; 8; 9; 10; 11; 12; 13; 14; 15;
   7; 4; 13; 1; 10; 6; 15; 3; 12; 0; 9; 5; 2; 14; 11; 8;
   3; 10; 14; 4; 9; 15; 8; 1; 2; 7; 0; 6; 13; 11; 5; 12;
   1; 9; 11; 10; 0; 8; 12; 4; 13; 3; 7; 15; 14; 5; 6; 2;
   4; 0; 5; 9; 7; 12; 2; 10; 14; 1; 3; 8; 11; 6; 15; 13].
Definition rmd_r2 : list Z :=
  [5; 14; 7; 0; 9; 2; 11; 4; 13; 6; 15; 8; 1; 10; 3; 12;
   6; 11; 3; 7; 0; 13; 5; 10; 14; 15; 8; 12; 4; 9; 1; 2;
   15; 5; 1; 3; 7; 14; 6; 9; 11; 8; 12; 2; 10; 0; 4; 13;
   8; 6; 4; 1; 3; 11; 15; 0; 5; 12; 2; 13; 9; 7; 10; 14;
   12; 15; 10; 4; 1; 5; 8; 7; 6; 2; 13; 14; 0; 3; 9; 11].
Definition rmd_s1 : list Z :=
  [11; 14; 15; 12; 5; 8; 7; 9; 11; 13; 14; 15; 6; 7; 9; 8;
   7; 6; 8; 13; 11; 9; 7; 15; 7; 12; 15; 9; 11; 7; 13; 12;
   11; 13; 6; 7; 14; 9; 13; 15; 14; 8; 13; 6; 5; 12; 7; 5;
   11; 12; 14; 15; 14; 15; 9; 8; 9; 14; 5; 6; 8; 6; 5; 12;
   9; 15; 5; 11; 6; 8; 13; 12; 5; 12; 13; 14; 11; 8; 5; 6].
Definition rmd_s2 : list Z :=
  [8; 9; 9; 11; 13; 15; 15; 5; 7; 7; 8; 11; 14; 14; 12; 6;
   9; 13; 15; 7; 12; 8; 9; 11; 7; 7; 12; 7; 6; 15; 13; 11;
   9; 7; 15; 11; 8; 6; 6; 14; 12; 13; 5; 14; 13; 13; 7; 5;
   15; 5; 8; 11; 14; 14; 6; 14; 6; 9; 12; 9; 12; 5; 15; 8;
   8; 5; 12; 9; 12; 5; 14; 6; 8; 13; 6; 5; 15; 13; 11; 11].

Definition rmd_k1 : list Z := [0x00000000; 0x5a827999; 0x6ed9eba1; 0x8f1bbcdc; 0xa953fd4e].
Definition rmd_k2 : list Z := [0x50a28be6; 0x5c4dd124; 0x6d703ef3; 0x7a6d76e9; 0x00000000].
Definition rmd_h : list Z := [0x67452301; 0xefcdab89; 0x98badcfe; 0x10325476; 0xc3d2e1f0].

Definition rmd_f (i : Z) (x y z : Z) : Z :=
  if i =? 0 then Z.lxor (Z.lxor x y) z
  else if i =? 1 then Z.lor (Z.land x y) (Z.land (not32 x) z)
  else if i =? 2 then Z.lxor (Z.lor x (not32 y)) z
  else if i =? 3 then Z.lor (Z.land x z) (Z.land y (not32 z))
  else Z.lxor x (Z.lor y (not32 z)).

(** A step of a line: its function, constant, message word and rotation. *)
Definition rmd_step (xs : list Z) (st : list Z) (p : Z * Z * (Z * Z)) : list Z :=
  match st with
  | [a; b; c; d; e] =>
    let '((f, k), (r, s)) := p in
    let t := w32 (rotl s (w32 (a + rmd_f f b c d + xs !!! Z.to_nat r + k)) + e) in
    [e; t; b; rotl 10 c; d]
  | _ => st
  end.

(** The functions and constants of the 80 steps of the two lines. *)
Definition rmd_line1 : list (Z * Z * (Z * Z)) :=
  zip (mjoin (imap (λ i k, replicate 16 (Z.of_nat i, k)) rmd_k1)) (zip rmd_r1 rmd_s1).
Definition rmd_line2 : list (Z * Z * (Z * Z)) :=
  zip (mjoin (imap (λ i k, replicate 16 (4 - Z.of_nat i, k)) rmd_k2)) (zip rmd_r2 rmd_s2).

Definition rmd_block (st : list Z) (blk : bytes) : list Z :=
  let xs := le_val <$> groups 4 16 blk in
  let l := foldl (rmd_step xs) st rmd_line1 in
  let r := foldl (rmd_step xs) st rmd_line2 in
  (λ i, w32 (st !!! ((i + 1) `mod` 5)%nat + l !!! ((i + 2) `mod` 5)%nat + r !!! ((i + 3) `mod` 5)%nat)) <$> seq 0 5.

Definition rmd160_digest (d : bytes) : bytes :=
  let st := foldl rmd_block rmd_h (padded (le_bytes 8) d) in
  mjoin ((λ i, le_bytes 4 (st !!! i)) <$> seq 0 5).

(** ** The instances *)

Lemma len_words (n : nat) (f : nat → bytes) : (∀ i, length (f i) = 4%nat) → len (mjoin (f <$> seq 0 n)) = 4 * Z.of_nat n.
Proof.
  intros Hf. generalize 0%nat. induction n as [|n IH]; intros k; [done|]. cbn [seq].
  rewrite mjoin_fmap_cons, len_app, IH. unfold len. rewrite Hf. lia.
Qed.

Lemma stream_append (chunks : list bytes) (acc : bytes) : foldl app acc chunks = acc ++ mjoin chunks.
Proof. apply Ref.sha_ref_stream. Qed.

(** The streaming state keeps the bytes so far. *)
Program Definition sha256 : Sha256 := {|
  sha_state := bytes; sha_new := []; sha_update := app; sha_finalize := sha256_digest; sha_digest := sha256_digest |}.
Next Obligation. intros chunks. simpl. by rewrite stream_append. Qed.
Next Obligation. intros d. apply (len_words 8). intros i. apply length_be_bytes. Qed.

Program Definition ripemd160 : Ripemd160 := {| ripemd_digest := rmd160_digest |}.
Next Obligation. intros d. apply (len_words 5). intros i. apply length_le_bytes. Qed.
