(* ===== verification/TestsCore.v ===== *)
(** * TestsCore: the unit tests of [bidx-core], run on the model

    Each test of [cursor.rs], [hash.rs], [types.rs], [script.rs] and [disk.rs] is
    a boolean, its assertions in their order; the digests are those of [Digest].
    [core_tests_pass] evaluates them all. *)
From S2P Require Import Prelude F64 Text Cursor Hash Types Script BlkFile Disk Digest.

#[local] Existing Instance Ref.hex_ref.
#[local] Existing Instance sha256.
#[local] Existing Instance ripemd160.

(** ** Assertions *)

Definition is_ok {E A} (r : Res E A) : bool := match r with Ok _ => true | _ => false end.
Definition is_err {E A} (r : Res E A) : bool := match r with Err _ => true | _ => false end.
Definition yields {E A} `{EqDecision A} (r : Res E A) (a : A) : bool :=
  match r with Ok x => bool_decide (x = a) | _ => false end.
(** [hex::decode(..).unwrap()] *)
Definition unhex (s : rstr) : bytes := match hex_decode s with Ok b => b | _ => [] end.
(** [[b; n]] *)
Definition fill (b : byte) (n : nat) : bytes := replicate n b.

#[global] Arguments is_ok : simpl never.
#[global] Arguments is_err : simpl never.

(** ** [cursor.rs] *)

Module Cursors.
Definition test_varint_encodings : bool :=
  forallb (λ c : bytes * Z, yields (fst (read_varint (new c.1))) c.2)
    [([x00], 0); ([xfc], 252); ([xfd; xfd; x00], 253); ([xfd; xff; xff], 65535);
     ([xfe; x00; x00; x01; x00], 65536); (fill xff 9, u64_max)].

Definition test_eof_errors : bool :=
  is_err (fst (read_u32 (new [x01; x02]))) && is_err (fst (read_u8 (new []))).

Definition test_count_overflow_rejected : bool :=
  match fst (read_count (new (fill xff 9))) with Err (CountOverflow _ _) => true | _ => false end &&
  yields (fst (read_count (new (xff :: le_bytes 8 4000000)))) 4000000.

Definition test_read_u16_u32_u64_le : bool :=
  let '(a, c) := read_u16 (new [x01; x02; x03; x04; x05; x06; x07; x08]) in
  let '(b, c) := read_u32 c in
  yields a 0x0201 && yields b 0x06050403 && (pos c =? 6).

Definition test_read_i32_i64_le : bool :=
  yields (fst (read_i32 (new (le_bytes 4 (-1))))) (-1) && yields (fst (read_i64 (new (le_bytes 8 (-2))))) (-2).

Definition test_read_bytes_and_array : bool :=
  let '(b, c) := read_bytes 4 (new (fill x09 8)) in
  let '(arr, c) := read_array 4 c in
  yields b (fill x09 4) && yields arr (fill x09 4) && is_empty c &&
  match fst (read_u8 c) with Err (Eof _ _ _) => true | _ => false end.

Definition test_skip_advances_and_reports_eof : bool :=
  let '(r, c) := skip 8 (new (fill x00 8)) in
  is_ok r && is_empty c && is_err (fst (skip 1 c)).

Definition test_remaining_empty_pos_track_pos : bool :=
  let c := new (fill x00 10) in
  (remaining c =? 10) && negb (is_empty c) && (pos c =? 0) &&
  let '(r, c) := skip 3 c in
  is_ok r && (remaining c =? 7) && (pos c =? 3).

Definition test_eof_carries_offset_and_counts : bool :=
  match fst (read_u64 (new (fill x00 1))) with
  | Err (Eof offset needed remaining) => (offset =? 0) && (needed =? 8) && (remaining =? 1)
  | _ => false
  end.
End Cursors.

(** ** [hash.rs] *)

Module Hashes.
Definition genesis_hex : rstr := str "000000000019d6689c085ae165831e934ff763ae46a2a6c172b3f1b60a8ce26f".

Definition test_hex_roundtrip : bool :=
  match from_hex genesis_hex with Ok h => bool_decide (to_hex h = genesis_hex) | _ => false end.

Definition test_dsha256_known : bool :=
  let h := dsha256 [] in
  bool_decide (to_raw_hex h = str "5df6e0e2761359d30a8275058e299fcc0381534545f55cf43e41983f5d4c9456") &&
  bool_decide (to_hex h = str "56944c5d3f98413ef45cf54545538103cc9f298e0575820ad3591376e2e0f65d").

Definition test_hash160_known : bool :=
  bool_decide (hex_encode (hash160 []) = str "b472a266d0bd89c13706a4132ccfb16f7c3b9fcb").

Definition test_default_is_zero_and_debug_display_format : bool :=
  let h := hash_default in
  bool_decide (as_bytes h = fill x00 32) &&
  bool_decide (hash_debug h = str "Hash32(" ++ to_hex h ++ str ")") &&
  bool_decide (hash_display h = to_hex h) && bool_decide (ZERO = hash_default) &&
  bool_decide (h = from_bytes (as_bytes h)).

Definition test_raw_hex_is_unreversed_and_display_is_reversed : bool :=
  let h := from_bytes ((λ i, Zbyte (Z.of_nat i)) <$> seq 0 32) in
  bool_decide (to_raw_hex h = str "000102030405060708090a0b0c0d0e0f101112131415161718191a1b1c1d1e1f") &&
  bool_decide (to_hex h = str "1f1e1d1c1b1a191817161514131211100f0e0d0c0b0a09080706050403020100").

Definition test_from_hex_rejects_bad_input : bool :=
  is_err (from_hex (str "abc")) && is_err (from_hex (str "zz")) &&
  is_err (from_hex (mjoin (replicate 31 (str "00")))) && is_err (from_hex (mjoin (replicate 33 (str "00")))).
End Hashes.

(** ** [types.rs] *)

Module Headers.
Definition merkle_hex : rstr := str "4a5e1e4baab89f3a32518a88c31bc87f618f76673e2cc77ab2127b7afdeda33b".

Definition genesis_header_raw : bytes :=
  le_bytes 4 1 ++ fill x00 32 ++ rev (unhex merkle_hex) ++
  le_bytes 4 1231006505 ++ le_bytes 4 0x1d00ffff ++ le_bytes 4 2083236893.

Definition test_parse_genesis_header_fields : bool :=
  let h := header_parse genesis_header_raw in
  (version h =? 1) && (time h =? 1231006505) && (bits h =? 0x1d00ffff) && (nonce h =? 2083236893) &&
  bool_decide (prev_hash h = fill x00 32) && bool_decide (merkle_root h = rev (unhex merkle_hex)).

Definition test_header_hash_matches_dsha256_of_raw : bool :=
  let raw := genesis_header_raw in
  bool_decide (header_hash (header_parse raw) raw = dsha256 raw).

Definition test_block_location_data_offset : bool := data_offset (mkLoc 3 42 100) =? 50.
End Headers.

(** ** [script.rs] *)

Module Scripts.
#[local] Instance ScriptType_eq_dec : EqDecision ScriptType.
Proof. solve_decision. Defined.

Definition classified (spk : bytes) : ScriptType * bytes :=
  match classify_script (E := ()) spk with Ok r => r | _ => (Unknown, []) end.
Definition is_type (spk : bytes) (t : ScriptType) : bool := bool_decide ((classified spk).1 = t).

Definition test_classifies_p2pkh : bool :=
  let spk := [x76; xa9; x14] ++ fill xab 20 ++ [x88; xac] in
  let h := (classified spk).2 in
  is_type spk P2PKH && bool_decide (take 20 h = fill xab 20) && bool_decide (drop 20 h = fill x00 12).

Definition test_classifies_p2sh : bool :=
  let spk := [xa9; x14] ++ fill xcd 20 ++ [x87] in
  is_type spk P2SH && bool_decide (take 20 (classified spk).2 = fill xcd 20).

Definition test_classifies_segwit : bool :=
  is_type ([x00; x14] ++ fill x11 20) P2WPKH && is_type ([x00; x20] ++ fill x22 32) P2WSH &&
  let tr := [x51; x20] ++ fill x33 32 in
  is_type tr P2TR && bool_decide (take 32 (classified tr).2 = fill x33 32).

Definition test_classifies_op_return_and_multisig : bool :=
  is_type [x6a; x04; x01; x02; x03; x04] OpReturn &&
  is_type ([x51; x21] ++ fill x02 33 ++ [x21] ++ fill x03 33 ++ [x52; xae]) BareMultisig.

Definition test_genesis_coinbase_is_p2pk : bool :=
  let spk := [x41] ++ unhex (str "04678afdb0fe5548271967f1a67130b7105cd6a828e03909a67962e0ea1f61deb649f6bc3f4cef38c4f35504e51ec112de5c384df7ba0b8d578a4c702b6bf11d5f") ++ [xac] in
  is_type spk P2PK &&
  bool_decide (take 20 (classified spk).2 = unhex (str "62e907b15cbf27d5425399ebf6f0fb50ebb88f18")).
End Scripts.

(** ** [disk.rs] *)

Module Disks.
(** A directory with the one file [name] of these bytes, if any. *)
Definition one_file (file : option (rstr * bytes)) : Fs := {|
  IoError := (); fs_open p := Ok p; fs_mmap _ := Err ();
  fs_read p := match file with Some (n, b) => if bool_decide (p = n) then Ok b else Err () | None => Err () end;
  fs_read_dir _ := Ok (match file with Some (n, _) => [Ok (n, n)] | None => [] end);
  fs_parent _ := None; fs_join d n := n |}.
Definition no_faults : @AppendIo (one_file None) := @Build_AppendIo (one_file None) None None (λ _ _, None).

Definition detected (file : option (rstr * bytes)) : option Network := @detect_from_blocks_dir (one_file file) (str "t").

Definition test_network_detection_mainnet : bool :=
  bool_decide (detected (Some (str "blk00000.dat", le_bytes 4 BLOCK_MAGIC ++ fill x00 12)) = Some Mainnet).

Definition test_from_magic_covers_all_known_networks : bool :=
  bool_decide (from_magic BLOCK_MAGIC = Some Mainnet) && bool_decide (from_magic BLOCK_MAGIC_TESTNET3 = Some Testnet3) &&
  bool_decide (from_magic BLOCK_MAGIC_SIGNET = Some Signet) && bool_decide (from_magic BLOCK_MAGIC_TESTNET4 = Some Testnet4) &&
  bool_decide (from_magic BLOCK_MAGIC_REGTEST = Some Regtest) && bool_decide (from_magic 0xDEADBEEF = None).

Definition test_detect_from_blocks_dir_returns_none_on_missing_or_garbage : bool :=
  bool_decide (detected None = None) && bool_decide (detected (Some (str "blk00000.dat", [x61; x62])) = None).

Definition test_checkpoints_roundtrip_and_growth : bool :=
  let append cp := @append_checkpoint _ no_faults Mainnet cp in
  let '(r1, f) := append (mkCp 100000 1000) None in
  let '(r2, f) := append (mkCp 200000 2000) f in
  let '(r3, f) := append (mkCp 100000 1000) f in
  let v := read_checkpoints f Mainnet in
  is_ok r1 && is_ok r2 && is_ok r3 && (len v =? 2) && (projected_total_bytes v 300000 =? 3000).
End Disks.

(** ** All of them *)

Definition core_tests : list bool :=
  [Cursors.test_varint_encodings; Cursors.test_eof_errors; Cursors.test_count_overflow_rejected;
   Cursors.test_read_u16_u32_u64_le; Cursors.test_read_i32_i64_le; Cursors.test_read_bytes_and_array;
   Cursors.test_skip_advances_and_reports_eof; Cursors.test_remaining_empty_pos_track_pos;
   Cursors.test_eof_carries_offset_and_counts;
   Hashes.test_hex_roundtrip; Hashes.test_dsha256_known; Hashes.test_hash160_known;
   Hashes.test_default_is_zero_and_debug_display_format; Hashes.test_raw_hex_is_unreversed_and_display_is_reversed;
   Hashes.test_from_hex_rejects_bad_input;
   Headers.test_parse_genesis_header_fields; Headers.test_header_hash_matches_dsha256_of_raw;
   Headers.test_block_location_data_offset;
   Scripts.test_classifies_p2pkh; Scripts.test_classifies_p2sh; Scripts.test_classifies_segwit;
   Scripts.test_classifies_op_return_and_multisig; Scripts.test_genesis_coinbase_is_p2pk;
   Disks.test_network_detection_mainnet; Disks.test_from_magic_covers_all_known_networks;
   Disks.test_detect_from_blocks_dir_returns_none_on_missing_or_garbage; Disks.test_checkpoints_roundtrip_and_growth].

Lemma core_tests_pass : core_tests = replicate 27 true.
Proof. vm_compute. reflexivity. Qed.
