(* ===== verification/TestsParser.v ===== *)
(** * TestsParser: the tests of [bidx-parser], run on the model

    The unit tests of [tx.rs] and [blkfile.rs] and the genesis block of
    [tests/genesis.rs], with the assertions and digests of [TestsCore]. *)
From S2P Require Import Prelude F64 Text Cursor Hash Types Script Tx BlkFile Disk Digest TestsCore.

#[local] Existing Instance Ref.hex_ref.
#[local] Existing Instance sha256.
#[local] Existing Instance ripemd160.

(** ** [tx.rs] *)

Module Txs.
Definition header_for (version : Z) : BlockHeader := mkHeader version ZERO ZERO 0 0 0.

Definition synth_tx_body (value_sat : Z) : bytes :=
  le_bytes 4 1 ++ [x01] ++ fill xab 32 ++ le_bytes 4 0 ++ [x00] ++ le_bytes 4 0xffffffff ++
  [x01] ++ le_bytes 8 value_sat ++ [x00] ++ le_bytes 4 0.

Definition block_with (txs : list bytes) : bytes := fill x00 80 ++ [Zbyte (len txs)] ++ mjoin txs.

(** [parse_block_full], with the hash of the payload's first 80 bytes. *)
Definition parse (payload : bytes) (height : Z) (header : BlockHeader) : Res TxParseError FullBlock :=
  parse_block_full payload height (dsha256 (slice 0 80 payload)) header.

(** What is asserted of the block, and of its first transaction's rows. *)
Definition with_block (r : Res TxParseError FullBlock) (f : FullBlock → bool) : bool :=
  match r with Ok b => f b | _ => false end.
Definition with_first {A} (l : list A) (f : A → bool) : bool := match l with x :: _ => f x | [] => false end.

Definition test_parses_simple_block_weight_size_and_txid_fields : bool :=
  let tx0 := synth_tx_body 42000 in
  let payload := block_with [tx0] in
  let hash := dsha256 (slice 0 80 payload) in
  with_block (parse_block_full payload 5 hash (header_for 1)) (λ block,
    let r := block_row block in
    (br_height r =? 5) && (br_tx_count r =? 1) && (br_size r =? u32 (len payload)) && (br_coinbase_value r =? 42000) &&
    (br_total_fee r =? 0) && bool_decide (br_hash r = as_bytes hash) &&
    with_first (txs block) (λ tx,
      (tr_tx_index tx =? 0) && (tr_height tx =? 5) && (tr_version tx =? 1) && (tr_locktime tx =? 0) &&
      (tr_input_count tx =? 1) && (tr_output_count tx =? 1) && negb (tr_has_witness tx) &&
      (tr_size tx =? u32 (len tx0)) && (tr_weight tx =? u32 (len tx0) * 4) && bool_decide (tr_txid tx = dsha256 tx0) &&
      with_first (inputs block) (λ inp,
        bool_decide (ir_prev_txid inp = fill xab 32) && (ir_prev_vout inp =? 0) && (ir_sequence inp =? 0xffffffff) &&
        bool_decide (ir_txid inp = tr_txid tx) && negb (ir_is_coinbase inp)) &&
      with_first (outputs block) (λ out,
        (or_value_sat out =? 42000) && bool_decide (or_txid out = tr_txid tx)))).

Definition test_detects_coinbase_via_prev_out_pattern : bool :=
  let tx := le_bytes 4 1 ++ [x01] ++ fill x00 32 ++ le_bytes 4 0xffffffff ++ [x00] ++ le_bytes 4 0 ++
            [x01] ++ le_bytes 8 5000000000 ++ [x00] ++ le_bytes 4 0 in
  with_block (parse (block_with [tx]) 0 (header_for 1)) (λ block,
    with_first (inputs block) ir_is_coinbase &&
    with_first (outputs block) (λ out, or_value_sat out =? 5000000000) &&
    (br_coinbase_value (block_row block) =? 5000000000)).

Definition test_rejects_value_above_21m_btc : bool :=
  match parse (block_with [synth_tx_body (21000001 * 100000000)]) 0 (header_for 1) with
  | Err (BadValue _) => true
  | _ => false
  end.

Definition test_tx_count_mismatch_when_payload_truncated : bool :=
  match parse (fill x00 80 ++ [x02] ++ synth_tx_body 1000) 0 (header_for 1) with
  | Err (TPCursor _) | Err (TxCountMismatch _ _) => true
  | _ => false
  end.

Definition test_segwit_tx_parses_witness_bytes_and_weight : bool :=
  let tx := le_bytes 4 1 ++ [x00; x01; x01] ++ fill xcd 32 ++ le_bytes 4 7 ++ [x00] ++ le_bytes 4 0 ++
            [x01] ++ le_bytes 8 10000 ++ [x00] ++ [x01; x02; xaa; xbb] ++ le_bytes 4 0x11223344 in
  with_block (parse (block_with [tx]) 9 (header_for 2)) (λ block,
    with_first (txs block) (λ txrow,
      tr_has_witness txrow && (tr_locktime txrow =? 0x11223344) &&
      with_first (inputs block) (λ inp, (ir_witness_items inp =? 1) && (ir_witness_bytes inp =? 2)) &&
      let stripped := 4 + 1 + 41 + 1 + 9 + 4 in
      let total := len tx in
      (tr_size txrow =? u32 total) && (tr_weight txrow =? u32 (stripped * 3 + total)) &&
      let stripped_bytes := le_bytes 4 1 ++ [x01] ++ fill xcd 32 ++ le_bytes 4 7 ++ [x00] ++ le_bytes 4 0 ++
                            [x01] ++ le_bytes 8 10000 ++ [x00] ++ le_bytes 4 0x11223344 in
      bool_decide (tr_txid txrow = dsha256 stripped_bytes))).

Definition test_segwit_flag_zero_rejected : bool :=
  match parse (block_with [le_bytes 4 1 ++ [x00; x00] ++ fill x00 32]) 0 (header_for 1) with
  | Err (BadSegwitFlag _) => true
  | _ => false
  end.

Definition test_multi_tx_block_rolls_up_counts_and_weight : bool :=
  let tx0 := synth_tx_body 1000 in
  let tx1 := synth_tx_body 2000 in
  with_block (parse (block_with [tx0; tx1]) 7 (header_for 1)) (λ block,
    (len (txs block) =? 2) && (len (inputs block) =? 2) && (len (outputs block) =? 2) &&
    match txs block with
    | a :: b :: _ => (tr_tx_index a =? 0) && (tr_tx_index b =? 1) && negb (bool_decide (tr_txid a = tr_txid b))
    | _ => false
    end && (br_tx_count (block_row block) =? 2) &&
    (br_weight (block_row block) =? u32 (len tx0 * 4 + len tx1 * 4 + 80 * 4))).

Definition test_varint_multi_byte_lengths_for_in_out_counts : bool :=
  let tx := le_bytes 4 1 ++ [xfd] ++ le_bytes 2 1 ++ fill x00 32 ++ le_bytes 4 0xffffffff ++ [x00] ++ le_bytes 4 0 ++
            [xfe] ++ le_bytes 4 1 ++ le_bytes 8 5000 ++ [x00] ++ le_bytes 4 0 in
  with_block (parse (block_with [tx]) 4 (header_for 1)) (λ block,
    (len (inputs block) =? 1) && (len (outputs block) =? 1)).

Definition test_multi_input_witness_each_tracked_independently : bool :=
  let input := fill xee 32 ++ le_bytes 4 0 ++ [x00] ++ le_bytes 4 0 in
  let tx := le_bytes 4 1 ++ [x00; x01; x02] ++ input ++ input ++ [x01] ++ le_bytes 8 1000 ++ [x00] ++
            [x00] ++ [x02; x01; xaa; x03; xbb; xcc; xdd] ++ le_bytes 4 0 in
  with_block (parse (block_with [tx]) 8 (header_for 1)) (λ block,
    match inputs block with
    | [a; b] => (ir_witness_items a =? 0) && (ir_witness_bytes a =? 0) && (ir_witness_items b =? 2) && (ir_witness_bytes b =? 4)
    | _ => false
    end &&
    let stripped := 4 + 1 + 2 * 41 + 1 + 9 + 4 in
    with_first (txs block) (λ t, (tr_size t =? len tx) && (tr_weight t =? stripped * 3 + len tx))).
End Txs.

(** ** [tests/genesis.rs] *)

Module Genesis.
Import Txs.

Definition genesis_bytes : bytes :=
  unhex (str "0100000000000000000000000000000000000000000000000000000000000000000000003ba3edfd7a7b12b27ac72c3e67768f617fc81bc3888a51323a9fb8aa4b1e5e4a29ab5f49ffff001d1dac2b7c01"
      ++ str "01000000010000000000000000000000000000000000000000000000000000000000000000ffffffff4d04ffff001d0104455468652054696d65732030332f4a616e2f32303039204368616e63656c6c6f72206f6e206272696e6b206f66207365636f6e64206261696c6f757420666f722062616e6b73ffffffff"
      ++ str "0100f2052a01000000434104678afdb0fe5548271967f1a67130b7105cd6a828e03909a67962e0ea1f61deb649f6bc3f4cef38c4f35504e51ec112de5c384df7ba0b8d578a4c702b6bf11d5fac00000000").

Definition test_parses_genesis_block : bool :=
  let payload := genesis_bytes in
  let header_raw := slice 0 80 payload in
  let header := header_parse header_raw in
  let hash := dsha256 header_raw in
  (len payload =? 285) &&
  bool_decide (to_hex hash = str "000000000019d6689c085ae165831e934ff763ae46a2a6c172b3f1b60a8ce26f") &&
  bool_decide (prev_hash header = ZERO) && (time header =? 1231006505) && (bits header =? 0x1d00ffff) &&
  with_block (parse_block_full payload 0 hash header) (λ block,
    match txs block, inputs block, outputs block with
    | [tx], [inp], [out] =>
      bool_decide (to_hex (from_bytes (tr_txid tx)) = str "4a5e1e4baab89f3a32518a88c31bc87f618f76673e2cc77ab2127b7afdeda33b") &&
      negb (tr_has_witness tx) && (tr_input_count tx =? 1) && (tr_output_count tx =? 1) &&
      ir_is_coinbase inp && bool_decide (ir_prev_txid inp = fill x00 32) && (ir_prev_vout inp =? 0xffffffff) &&
      (or_value_sat out =? 50 * 100000000) && (or_script_type out =? script_type_u8 P2PK) &&
      (br_coinbase_value (block_row block) =? 50 * 100000000) && (br_tx_count (block_row block) =? 1) &&
      (br_size (block_row block) =? 285)
    | _, _, _ => false
    end).
End Genesis.

(** ** [blkfile.rs] *)

Module BlkFiles.
Definition xored (key plain : bytes) : bytes := imap (λ i b, bxor b (key !!! (i `mod` 8)%nat)) plain.

Definition test_parses_blk_names : bool :=
  bool_decide (parse_blk_name (str "blk00000.dat") = Some 0) && bool_decide (parse_blk_name (str "blk04269.dat") = Some 4269) &&
  bool_decide (parse_blk_name (str "blk0000.dat") = None) && bool_decide (parse_blk_name (str "blk00000.dat.bak") = None) &&
  bool_decide (parse_blk_name (str "rev00000.dat") = None).

Definition test_xor_decode_roundtrip_and_partial_tail : bool :=
  let key := [x99; x73; xa9; x54; x4c; x10; x97; x0c] in
  let plaintext := (λ i, Zbyte (Z.of_nat i)) <$> seq 0 100 in
  let tiny := fill xaa 5 in
  bool_decide (xor_decode (xored key plaintext) key = plaintext) && bool_decide (xor_decode [] key = []) &&
  bool_decide (xor_decode (xored key tiny) key = tiny).

Definition synth_records (n payload_len : nat) (zero_tail : bool) : bytes :=
  mjoin ((λ i : nat,
    le_bytes 4 BLOCK_MAGIC ++ le_bytes 4 (Z.of_nat payload_len) ++
    (if zero_tail && bool_decide (i = n - 1)%nat then fill xab (payload_len - 1) ++ [x00] else fill xab payload_len))
    <$> seq 0 n).

Definition test_record_walk_end_handles_zero_padding : bool :=
  let data := synth_records 3 100 false in record_walk_end (data ++ fill x00 128) None =? len data.

Definition test_record_walk_end_keeps_final_record_ending_in_zeros : bool :=
  let data := synth_records 3 100 true in
  bool_decide (last data = Some x00) && (record_walk_end data None =? len data).

Definition test_record_walk_end_excludes_partial_trailing_record : bool :=
  let data := synth_records 2 100 false in
  record_walk_end (data ++ le_bytes 4 BLOCK_MAGIC ++ le_bytes 4 500 ++ fill xcd 40) None =? len data.

Definition test_record_walk_end_stops_on_non_magic : bool :=
  let data := synth_records 1 100 false in
  (record_walk_end (data ++ fill xde 64) None =? len data) && (record_walk_end [] None =? 0) &&
  (record_walk_end (fill x00 16) None =? 0).

Definition test_record_walk_end_preserves_short_length_for_diagnosis : bool :=
  let data := le_bytes 4 BLOCK_MAGIC ++ le_bytes 4 10 ++ fill x00 200 in record_walk_end data None =? len data.

Definition test_record_walk_end_preserves_malformed_file_for_diagnosis : bool :=
  let data := le_bytes 4 0xDEADBEEF ++ le_bytes 4 80 ++ fill x01 80 in record_walk_end data None =? len data.

Definition test_record_walk_end_preserves_overrun_length_for_diagnosis : bool :=
  let data := le_bytes 4 BLOCK_MAGIC ++ le_bytes 4 u32_max ++ fill x01 80 in record_walk_end data None =? len data.

Definition test_record_walk_end_works_under_xor_with_padding : bool :=
  let key := [x11; x22; x33; x44; x55; x66; x77; x88] in
  let plain := synth_records 3 100 true in
  let obfuscated := xored key (plain ++ fill x00 256) in
  negb (bool_decide (last obfuscated = Some x00)) && (record_walk_end obfuscated (Some key) =? len plain).

(** A directory with one blk file, perhaps an [xor.dat], and these names. *)
Definition dir_fs (blk : bytes) (xor_dat : option bytes) (names : list rstr) : Fs := {|
  IoError := (); fs_open p := Ok p; fs_mmap _ := Ok blk;
  fs_read p := match xor_dat with Some k => if bool_decide (p = str "t/xor.dat") then Ok k else Err () | None => Err () end;
  fs_read_dir _ := Ok ((λ n, Ok (n, str "t/" ++ n)) <$> names);
  fs_parent _ := Some (str "t"); fs_join d n := d ++ str "/" ++ n |}.

Definition blk : rstr := str "t/blk00000.dat".

Definition test_read_xor_key_treats_all_zero_as_none : bool :=
  let key_of xor_dat := @read_xor_key (dir_fs (utf8_encode (str "xyz")) xor_dat []) blk in
  let k := [x01; x02; x03; x04; x05; x06; x07; x08] in
  bool_decide (key_of None = None) && bool_decide (key_of (Some (utf8_encode (str "short"))) = None) &&
  bool_decide (key_of (Some (fill x00 8)) = None) && bool_decide (key_of (Some k) = Some k).

Definition blk_header (i : nat) : bytes :=
  le_bytes 4 1 ++ fill x00 32 ++ ((λ j, Zbyte (Z.of_nat (i * 32 + j))) <$> seq 0 32) ++ fill x00 11 ++ [x01].

Definition make_blk (records : nat) : bytes :=
  mjoin ((λ i, le_bytes 4 BLOCK_MAGIC ++ le_bytes 4 80 ++ blk_header i) <$> seq 0 records) ++ fill x00 128.

(** [BlkFile::open(..).unwrap()] of these bytes. *)
Definition opened (data : bytes) (id : Z) (f : BlkFile.BlkFile → bool) : bool :=
  match @open (dir_fs data None []) blk id with Ok bf => f bf | _ => false end.

(** [bf.records().next().unwrap()] *)
Definition first_record (bf : BlkFile.BlkFile) : option (Res (@BlkError (dir_fs [] None [])) BlkRecord) :=
  fst (@next (dir_fs [] None []) sha256 (records bf)).

Definition test_records_iter_yields_valid_and_skips_padding : bool :=
  opened (make_blk 3) 0 (λ bf,
    match @all_records (dir_fs [] None []) sha256 bf with
    | Some (Ok recs) =>
      (len recs =? 3) &&
      forallb id (imap (λ i r,
        (file_id (location r) =? 0) && (offset (location r) =? Z.of_nat i * 88) && (record_len (location r) =? 88) &&
        (version (rec_header r) =? 1) &&
        bool_decide (merkle_root (rec_header r) = (λ j, Zbyte (Z.of_nat (i * 32 + j))) <$> seq 0 32) &&
        negb (bool_decide (rec_hash r = ZERO))) recs)
    | _ => false
    end).

Definition test_block_bytes_by_location : bool :=
  opened (make_blk 2) 1 (λ bf,
    match first_record bf with
    | Some (Ok blk1) =>
      let read l := @block_bytes (dir_fs [] None []) bf l in
      match read (location blk1) with Ok b => (len b =? 80) && bool_decide (take 4 b = [x01; x00; x00; x00]) | _ => false end &&
      match read (mkLoc (file_id (location blk1)) (offset (location blk1)) u32_max) with Err (Corrupt _ _ _) => true | _ => false end
    | _ => false
    end).

Definition test_bad_record_len_rejected : bool :=
  let data := make_blk 1 in
  opened (take 4 data ++ le_bytes 4 u32_max ++ drop 8 data) 2 (λ bf,
    match first_record bf with Some (Err (Corrupt _ _ _)) => true | _ => false end).

Definition test_bad_magic_rejected_with_network_in_mind : bool :=
  opened (le_bytes 4 0xDEADBEEF ++ le_bytes 4 80 ++ [x01] ++ fill x00 79) 0 (λ bf,
    match first_record bf with
    | Some (Err (Corrupt _ _ reason)) => bool_decide (is_Some (strip_prefix (str "bad magic") reason))
    | _ => false
    end).

Definition test_discover_blk_files_sorts_and_rejects_missing : bool :=
  let discover names := @discover_blk_files (dir_fs [] None names) (str "t") in
  match discover [str "blk00010.dat"; str "blk00000.dat"; str "blk00007.dat"] with
  | Ok got => bool_decide (got.*1 = [0; 7; 10])
  | _ => false
  end && match discover [] with Err (NoFiles _) => true | _ => false end.

Definition test_known_network_magics_all_accepted : bool :=
  forallb (λ magic,
    opened (le_bytes 4 magic ++ le_bytes 4 80 ++ [x01] ++ fill x00 78 ++ [x01]) 0 (λ bf,
      match first_record bf with Some r => is_ok r | None => false end))
    [BLOCK_MAGIC; BLOCK_MAGIC_TESTNET3; BLOCK_MAGIC_TESTNET4; BLOCK_MAGIC_SIGNET; BLOCK_MAGIC_REGTEST].
End BlkFiles.

(** ** All of them *)

Definition parser_tests : list bool :=
  [Txs.test_parses_simple_block_weight_size_and_txid_fields; Txs.test_detects_coinbase_via_prev_out_pattern;
   Txs.test_rejects_value_above_21m_btc; Txs.test_tx_count_mismatch_when_payload_truncated;
   Txs.test_segwit_tx_parses_witness_bytes_and_weight; Txs.test_segwit_flag_zero_rejected;
   Txs.test_multi_tx_block_rolls_up_counts_and_weight; Txs.test_varint_multi_byte_lengths_for_in_out_counts;
   Txs.test_multi_input_witness_each_tracked_independently; Genesis.test_parses_genesis_block;
   BlkFiles.test_parses_blk_names; BlkFiles.test_xor_decode_roundtrip_and_partial_tail;
   BlkFiles.test_record_walk_end_handles_zero_padding; BlkFiles.test_record_walk_end_keeps_final_record_ending_in_zeros;
   BlkFiles.test_record_walk_end_excludes_partial_trailing_record; BlkFiles.test_record_walk_end_stops_on_non_magic;
   BlkFiles.test_record_walk_end_preserves_short_length_for_diagnosis;
   BlkFiles.test_record_walk_end_preserves_malformed_file_for_diagnosis;
   BlkFiles.test_record_walk_end_preserves_overrun_length_for_diagnosis;
   BlkFiles.test_record_walk_end_works_under_xor_with_padding; BlkFiles.test_read_xor_key_treats_all_zero_as_none;
   BlkFiles.test_records_iter_yields_valid_and_skips_padding; BlkFiles.test_block_bytes_by_location;
   BlkFiles.test_bad_record_len_rejected; BlkFiles.test_bad_magic_rejected_with_network_in_mind;
   BlkFiles.test_discover_blk_files_sorts_and_rejects_missing; BlkFiles.test_known_network_magics_all_accepted].

Lemma parser_tests_pass : parser_tests = replicate 27 true.
Proof. vm_compute. reflexivity. Qed.
