(* ===== verification/TestsStore.v ===== *)
(** * TestsStore: the tests of [bidx-store], run on the model

    The unit tests of [utxo.rs] and those of [tests/utxo_reorg.rs], over the
    database [rocks_ref]; and [tests/parquet_roundtrip.rs], over the files of
    [Parquet.Ex.lib], which hold the batches written. A test on a store is a computation; a failed assertion
    is a panic, as in Rust. *)
From S2P Require Import Prelude F64 Text Hash Types Script BlkFile Utxo UtxoStore Parquet TestsCore.

#[local] Existing Instance rocks_ref.
#[local] Existing Instance clock_ref.
#[local] Existing Instance order_ref.

(** [assert!], [.unwrap()] of a call, [matches!(.., Err(..))], and a test. *)
Definition assert_ {S E} (b : bool) : M S E () := λ s, (if b then Ok () else Panic, s).
Definition outcome {S E A} (m : M S E A) : M S E (Res E A) := λ s, let '(r, s) := m s in (Ok r, s).
Definition passes {S E A F} (open : Res F S) (m : M S E A) : bool :=
  match open with Ok s => is_ok (fst (m s)) | _ => false end.

(** ** Codecs *)

Module Codecs.
#[local] Instance UtxoValue_eq_dec : EqDecision UtxoValue.
Proof. solve_decision. Defined.

Definition test_utxo_value_roundtrip : bool :=
  let v := mkUtxo 123456789 x02 800000 (fill xab 32) in bool_decide (utxo_decode (utxo_encode v) = Some v).

Definition undo_key_of (i : Z) : bytes := [Zbyte i] ++ fill x00 34 ++ [Zbyte (255 - i)].
Definition created_key_of (i : Z) : bytes := fill x00 10 ++ [Zbyte i] ++ fill x00 25.

Definition test_block_undo_roundtrip : bool :=
  let u := mkUndo ((λ i, (undo_key_of i, mkUtxo (i * 1000000) (Zbyte i) (100 + i) (fill (Zbyte i) 32))) <$> seqZ 0 5)
             (created_key_of <$> seqZ 0 3) in
  match undo_decode (undo_encode u) with
  | Some dec =>
    (len (bu_spent dec) =? 5) && (len (bu_created dec) =? 3) &&
    bool_decide (bu_spent u = bu_spent dec) && bool_decide (bu_created u = bu_created dec)
  | None => false
  end.

Definition test_block_undo_empty_and_varint_boundaries : bool :=
  match undo_decode (undo_encode (mkUndo [] [])) with
  | Some dec => bool_decide (bu_spent dec = []) && bool_decide (bu_created dec = [])
  | None => false
  end && (len (put_varint [] 252) =? 1) && (len (put_varint [] 253) =? 3) &&
  bool_decide (fst (read_varint (put_varint [] 4000000)) = Some 4000000).

Definition test_block_undo_rejects_truncated : bool :=
  let enc := undo_encode (mkUndo [(fill x01 36, mkUtxo 1 x00 0 (fill x00 32))] []) in
  match undo_decode (take 20 enc) with None => true | _ => false end.

Definition test_read_varint_all_classes_and_eof : bool :=
  forallb (λ c : bytes * option Z, bool_decide (fst (read_varint c.1) = c.2))
    [([x00], Some 0); ([xfc], Some 252); ([xfd; xfd; x00], Some 253); ([xfe; x00; x00; x01; x00], Some 65536);
     (xff :: x01 :: fill x00 7, Some 1); ([xfd], None); ([xfd; xaa], None); ([xfe], None); ([xfe; x00; x00; x00], None);
     ([xff], None); (xff :: fill x00 7, None); ([], None)] &&
  forallb (λ n, bool_decide (fst (read_varint (put_varint [] n)) = Some n))
    [0; 252; 253; 65535; 65536; u32_max; u64_max - 1].

Definition test_utxo_value_decode_rejects_wrong_len : bool :=
  forallb (λ n, match utxo_decode (fill x00 n) with None => true | _ => false end) (seq 0 45 ++ [46%nat]).

(** [<] on the keys. *)
Definition key_lt (a b : bytes) : bool := str_le (byteZ <$> a) (byteZ <$> b) && negb (bool_decide (a = b)).

Definition test_undo_key_is_big_endian_height_ordering : bool :=
  key_lt (undo_key 100) (undo_key 200) && key_lt (undo_key (u32_max - 1)) (undo_key u32_max) &&
  bool_decide (undo_key 0xDEADBEEF = [xde; xad; xbe; xef]).
End Codecs.

(** ** Stores *)

Module Stores.
Definition out_row (height tx_index output_index : Z) (txid : bytes) (value_sat : Z) : OutputRow :=
  mkOutputRow height tx_index output_index txid value_sat 25 1 (fill xee 32).
Definition inp_row (height tx_index input_index : Z) (txid prev_txid : bytes) (prev_vout : Z) (is_coinbase : bool) : InputRow :=
  mkInputRow height tx_index input_index txid prev_txid prev_vout 0 0 0 0 is_coinbase.
Definition tx_row (height tx_index : Z) (txid : bytes) : TxRow :=
  mkTxRow height tx_index txid 1 0 0 0 0 1 1 false.

Definition id (b : byte) : bytes := fill b 32.
Definition dir : rstr := str "t".

(** [db.db.get_cf(..).unwrap()] *)
Definition get_cf (cf : Cf) (k : bytes) : M UtxoStore UtxoError (option bytes) := λ s,
  (map_err Rocks (db_get (db s) cf k), s).
(** [db.tip().unwrap()] *)
Definition get_tip : M UtxoStore UtxoError (option TipState) := λ s, (tip s, s).

Definition no_undo (h : Z) (r : Res UtxoError ()) : bool := match r with Err (NoUndo h') => h' =? h | _ => false end.

(** The first spend row satisfies [f]. *)
Definition spend0 (r : SpendResult) (f : SpendRow → bool) : bool := match spends r with s :: _ => f s | [] => false end.
Definition fee (r : SpendResult) (i : nat) (v : Z) : bool := bool_decide (fees r !! i = Some v).

Definition test_apply_link_spend_disconnect_roundtrip : bool :=
  passes (open_live None dir) (
    let fund := out_row 0 0 0 (id x11) 50000 in
    r ← apply_block 0 [tx_row 0 0 (id x11)] [] [fund];
    _ ← assert_ (bool_decide (len (spends r) = 0) && (missing r =? 0));
    let spend_cb := inp_row 1 0 0 (id x22) (fill x00 32) 0xffffffff true in
    let spend_in := inp_row 1 1 0 (id x22) (id x11) 0 false in
    r ← apply_block 1 [tx_row 1 0 (fill x00 32); tx_row 1 1 (id x22)] [spend_cb; spend_in] [out_row 1 1 0 (id x22) 45000];
    _ ← assert_ ((len (spends r) =? 1) && spend0 r (λ s,
          bool_decide (sr_spent_txid s = id x11) && (sr_spent_vout s =? 0) && (sr_spent_value_sat s =? 50000) &&
          (sr_spent_height s =? 0) && bool_decide (sr_spending_txid s = id x22) && (sr_spending_tx_index s =? 1)) &&
          fee r 1 5000);
    _ ← set_tip (mkTip 1 (id xee));
    t ← get_tip;
    _ ← assert_ (match t with Some t => (tip_h t =? 1) && bool_decide (tip_hash t = id xee) | None => false end);
    _ ← disconnect_block 1;
    v ← get_cf CfDefault (make_key (id x11) 0);
    _ ← assert_ (match v with Some b => len b =? 45 | None => false end);
    gone ← get_cf CfDefault (make_key (id x22) 0);
    _ ← assert_ (bool_decide (gone = None));
    r ← outcome (disconnect_block 1);
    _ ← assert_ (no_undo 1 r);
    t2 ← get_tip;
    assert_ (match t2 with Some t => tip_h t =? 1 | None => false end)).

Definition test_missing_utxo_counted_not_fatal : bool :=
  passes (store_open None dir) (
    r ← apply_block 0 [tx_row 0 0 (id x33)] [inp_row 0 0 0 (id x33) (id x44) 0 false] [];
    assert_ ((missing r =? 1) && (len (spends r) =? 0))).

Definition test_bulk_mode_no_undo_recorded : bool :=
  passes (store_open None dir) (
    _ ← apply_block 0 [tx_row 0 0 (id xaa)] [] [out_row 0 0 0 (id xaa) 100];
    r ← apply_block 1 [tx_row 1 0 (id xbb)] [inp_row 1 0 0 (id xbb) (id xaa) 0 false] [];
    _ ← assert_ ((len (spends r) =? 1) && fee r 0 100);
    r ← outcome (disconnect_block 1);
    assert_ (no_undo 1 r)).

Definition test_same_block_spend_affects_undo_correctly : bool :=
  passes (open_live None dir) (
    r ← apply_block 0 [tx_row 0 0 (id x99); tx_row 0 1 (id x88)] [inp_row 0 1 0 (id x99) (id x99) 0 false]
          [out_row 0 0 0 (id x99) 1000];
    _ ← assert_ (len (spends r) =? 1);
    disconnect_block 0).

Definition test_same_block_spend_removes_key_from_undo_created : bool :=
  passes (open_live None dir) (
    _ ← apply_block 0 [tx_row 0 0 (id x77); tx_row 0 1 (id x66)] [inp_row 0 1 0 (id x77) (id x77) 0 false]
          [out_row 0 0 0 (id x77) 1000; out_row 0 0 1 (id x77) 2000];
    raw ← get_cf CfUndo (undo_key 0);
    _ ← assert_ (match raw ≫= undo_decode with
          | Some undo => (len (bu_spent undo) =? 0) && bool_decide (bu_created undo = [make_key (id x77) 1])
          | None => false
          end);
    disconnect_block 0).

Definition test_apply_block_reports_db_and_pending_lookup_counts : bool :=
  passes (open_live None dir) (
    _ ← apply_block 0 [tx_row 0 0 (id xa1)] [] [out_row 0 0 0 (id xa1) 1000];
    r ← apply_block 1 [tx_row 1 0 (id xb1); tx_row 1 1 (id xc1); tx_row 1 2 (id xd1)]
          [inp_row 1 1 0 (id xc1) (id xa1) 0 false; inp_row 1 2 0 (id xd1) (id xb1) 0 false]
          [out_row 1 0 0 (id xb1) 500];
    assert_ ((db_lookups r =? 1) && (pending_hits r =? 1) && (db_lookups r + pending_hits r =? 2) &&
             (0 <? db_nanos r) && (missing r =? 0))).

Definition test_apply_block_reports_no_db_lookups_when_all_spends_are_same_block : bool :=
  passes (open_live None dir) (
    r ← apply_block 0 [tx_row 0 0 (id xa2); tx_row 0 1 (id xc2)] [inp_row 0 1 0 (id xc2) (id xa2) 0 false]
          [out_row 0 0 0 (id xa2) 700];
    assert_ ((db_lookups r =? 0) && (pending_hits r =? 1) && (db_nanos r =? 0))).

Definition test_apply_block_excludes_coinbase_from_lookup_counts : bool :=
  passes (open_live None dir) (
    r ← apply_block 0 [tx_row 0 0 (id xa3)] [inp_row 0 0 0 (id xa3) (fill x00 32) u32_max true] [out_row 0 0 0 (id xa3) 50];
    assert_ ((db_lookups r =? 0) && (pending_hits r =? 0) && (len (spends r) =? 0))).

Definition test_recent_cache_serves_recent_spend_without_db_lookup : bool :=
  passes (open_cached None dir (Z.shiftl 8 20)) (
    _ ← apply_block 0 [tx_row 0 0 (id xe1)] [] [out_row 0 0 0 (id xe1) 4242];
    r ← apply_block 1 [tx_row 1 0 (id xe2)] [inp_row 1 0 0 (id xe2) (id xe1) 0 false] [];
    assert_ ((cache_hits r =? 1) && (db_lookups r =? 0) && (missing r =? 0) && (len (spends r) =? 1) &&
      spend0 r (λ s, (sr_spent_value_sat s =? 4242) && (sr_spent_height s =? 0) &&
        bool_decide (sr_spent_address_hash s = id xee)) && fee r 0 4242)).

Definition test_recent_cache_disabled_uses_db_lookup : bool :=
  passes (store_open None dir) (
    _ ← apply_block 0 [tx_row 0 0 (id xe3)] [] [out_row 0 0 0 (id xe3) 100];
    r ← apply_block 1 [tx_row 1 0 (id xe4)] [inp_row 1 0 0 (id xe4) (id xe3) 0 false] [];
    _ ← assert_ ((cache_hits r =? 0) && (db_lookups r =? 1) && spend0 r (λ s, sr_spent_value_sat s =? 100));
    stats ← m_gets cache_stats;
    assert_ (match stats with None => true | Some _ => false end)).

(** [for h in from..to { db.apply_block(h, ..) }]: a block of one output each. *)
Fixpoint blocks_of_one (hs : list Z) : M UtxoStore UtxoError () :=
  match hs with
  | [] => mret ()
  | h :: hs =>
    _ ← apply_block h [tx_row h 0 (id (Zbyte h))] [] [out_row h 0 0 (id (Zbyte h)) 10];
    blocks_of_one hs
  end.

Definition test_recent_cache_evicts_to_budget_and_still_resolves : bool :=
  passes (open_cached None dir (4 * CACHE_ENTRY_COST)) (
    _ ← apply_block 0 [tx_row 0 0 (id xe5)] [] [out_row 0 0 0 (id xe5) 999];
    _ ← blocks_of_one (seqZ 1 40);
    stats ← m_gets cache_stats;
    _ ← assert_ (match stats with Some s => cs_bytes s <=? cs_budget_bytes s | None => false end);
    r ← apply_block 41 [tx_row 41 0 (id xe6)] [inp_row 41 0 0 (id xe6) (id xe5) 0 false] [];
    assert_ ((missing r =? 0) && spend0 r (λ s, (sr_spent_value_sat s =? 999) && (sr_spent_height s =? 0)))).

(** [cache_clear_for_test]: an empty cache of the same budget. *)
Definition cache_clear_for_test : M UtxoStore UtxoError () :=
  m_modify (λ s, set_recent ((λ c, mkCache ∅ [] (c_budget c) (c_hits c) (c_misses c)) <$> recent s) s).

Definition test_recent_cache_accounting_is_exhaustive : bool :=
  passes (open_cached None dir (Z.shiftl 8 20)) (
    _ ← apply_block 0 [tx_row 0 0 (id xe7)] [] [out_row 0 0 0 (id xe7) 100];
    _ ← apply_block 1 [tx_row 1 0 (id xe8)] [] [out_row 1 0 0 (id xe8) 77];
    _ ← cache_clear_for_test;
    r ← apply_block 2 [tx_row 2 0 (id xe9); tx_row 2 1 (id xea); tx_row 2 2 (id xeb); tx_row 2 3 (id xec)]
          [inp_row 2 1 0 (id xea) (id xe9) 0 false; inp_row 2 2 0 (id xeb) (id xe7) 0 false;
           inp_row 2 3 0 (id xec) (id xe8) 0 false] [out_row 2 0 0 (id xe9) 5];
    assert_ ((pending_hits r + db_lookups r + cache_hits r =? 3) && (pending_hits r =? 1) && (db_lookups r =? 2) &&
             (cache_hits r =? 0) && (missing r =? 0))).

Definition test_recent_cache_stats_and_hit_rate : bool :=
  passes (open_cached None dir (Z.shiftl 8 20)) (
    stats ← m_gets cache_stats;
    _ ← assert_ (match stats with
          | Some s => (cs_hits s =? 0) && (cs_misses s =? 0) && (cs_entries s =? 0) &&
                      match hit_rate s with None => true | _ => false end
          | None => false
          end);
    _ ← apply_block 0 [tx_row 0 0 (id xf1)] [] [out_row 0 0 0 (id xf1) 1];
    _ ← apply_block 1 [tx_row 1 0 (id xf2)] [inp_row 1 0 0 (id xf2) (id xf1) 0 false] [];
    _ ← apply_block 2 [tx_row 2 0 (id xf3)] [inp_row 2 0 0 (id xf3) (id xf1) 0 false] [];
    stats ← m_gets cache_stats;
    assert_ (match stats with
      | Some s => (cs_hits s =? 1) && (1 <=? cs_misses s) &&
                  match hit_rate s with
                  | Some rate => f64_le f64_zero rate && f64_le rate (f64_of_Z 1)
                  | None => false
                  end
      | None => false
      end)).

(** [N] is 512 in the source; [store_tests] takes 32, for the time. *)
Definition test_same_block_reconciliation_scales_to_many_outputs (N : Z) : bool :=
  passes (open_live None dir) (
    let outs := (λ vout, out_row 0 0 vout (id x5a) (1000 + vout)) <$> seqZ 0 N in
    let spent := filter (λ vout, vout `mod` 2 = 0) (seqZ 0 N) in
    let expected_created := make_key (id x5a) <$> filter (λ vout, vout `mod` 2 ≠ 0) (seqZ 0 N) in
    let inps := (λ vout, inp_row 0 1 vout (id x5a) (id x5a) vout false) <$> spent in
    r ← apply_block 0 [tx_row 0 0 (id x5a); tx_row 0 1 (id x5b)] inps outs;
    _ ← assert_ (len (spends r) =? N / 2);
    raw ← get_cf CfUndo (undo_key 0);
    assert_ (match raw ≫= undo_decode with
      | Some undo => (len (bu_spent undo) =? 0) && (len (bu_created undo) =? len expected_created) &&
                     forallb (λ k, bool_decide (k ∈ bu_created undo)) expected_created
      | None => false
      end)).

Definition test_tip_set_get_overwrite_and_empty : bool :=
  passes (open_live None dir) (
    t ← get_tip;
    _ ← assert_ (match t with None => true | _ => false end);
    let is_tip (t : option TipState) (h : Z) (b : byte) :=
      match t with Some t => (tip_h t =? h) && bool_decide (tip_hash t = id b) | None => false end in
    _ ← set_tip (mkTip 10 (id x01));
    t ← get_tip;
    _ ← assert_ (is_tip t 10 x01);
    _ ← set_tip (mkTip 11 (id x02));
    t ← get_tip;
    assert_ (is_tip t 11 x02)).
End Stores.

(** ** [tests/utxo_reorg.rs] *)

Module Reorgs.
Definition txid_of (marker : byte) : bytes := fill marker 32.

Definition tx (height tx_index : Z) (marker : byte) : TxRow :=
  mkTxRow height tx_index (txid_of marker) 1 0 100 400 0 1 1 false.

Definition coinbase_out (height tx_index : Z) (marker : byte) (value : Z) : OutputRow :=
  mkOutputRow height tx_index 0 (txid_of marker) value 25 2 (fill xaa 32).

Definition coinbase_in (height tx_index : Z) (marker : byte) : InputRow :=
  mkInputRow height tx_index 0 (txid_of marker) (fill x00 32) 0xffffffff 4 0xffffffff 0 0 true.

(** A transaction spending an output of [prev_marker], with one output. *)
Definition spend (height tx_index : Z) (marker prev_marker : byte) (prev_vout out_value : Z) : TxRow * InputRow * OutputRow :=
  (tx height tx_index marker,
   mkInputRow height tx_index 0 (txid_of marker) (txid_of prev_marker) prev_vout 100 0xffffffff 0 0 false,
   coinbase_out height tx_index marker out_value).

(** A block of a coinbase and one such transaction. *)
Definition apply_spend (height : Z) (cb : byte) (s : TxRow * InputRow * OutputRow) : M UtxoStore UtxoError SpendResult :=
  apply_block height [tx height 0 cb; s.1.1] [coinbase_in height 0 cb; s.1.2]
    [coinbase_out height 0 cb 5000000000; s.2].

Definition test_apply_then_disconnect_restores_utxo : bool :=
  passes (open_live None Stores.dir) (
    r1 ← apply_block 1 [tx 1 0 xa1] [coinbase_in 1 0 xa1] [coinbase_out 1 0 xa1 5000000000];
    _ ← assert_ (bool_decide (fees r1 = [0]) && (len (spends r1) =? 0));
    r2 ← apply_spend 2 xb1 (spend 2 1 xc1 xa1 0 4000000000);
    _ ← assert_ (Stores.fee r2 0 0 && Stores.fee r2 1 1000000000 && (len (spends r2) =? 1) &&
                 Stores.spend0 r2 (λ s, sr_spent_value_sat s =? 5000000000));
    _ ← set_tip (mkTip 2 (fill x02 32));
    t ← Stores.get_tip;
    _ ← assert_ (match t with Some t => tip_h t =? 2 | None => false end);
    _ ← disconnect_block 2;
    r2b ← apply_spend 2 xb9 (spend 2 1 xc9 xa1 0 4500000000);
    _ ← assert_ ((len (spends r2b) =? 1) && Stores.fee r2b 1 500000000);
    _ ← disconnect_block 2;
    _ ← disconnect_block 1;
    r3 ← apply_spend 1 xd0 (spend 1 1 xd1 xa1 0 1000000000);
    assert_ ((missing r3 =? 1) && (len (spends r3) =? 0))).

Definition test_same_block_spend_chain_disconnect : bool :=
  passes (open_live None Stores.dir) (
    let '(t11, i11, o11) := spend 10 1 x0b x0a 0 4000000000 in
    let '(t12, i12, o12) := spend 10 2 x0c x0b 0 3000000000 in
    r ← apply_block 10 [tx 10 0 x0a; t11; t12] [coinbase_in 10 0 x0a; i11; i12]
          [coinbase_out 10 0 x0a 5000000000; o11; o12];
    _ ← assert_ (len (spends r) =? 2);
    _ ← disconnect_block 10;
    let '(t99, i99, o99) := spend 11 0 x63 x0c 0 1000000000 in
    r2 ← apply_block 11 [t99] [i99] [o99];
    assert_ (missing r2 =? 1)).
End Reorgs.

(** ** [tests/parquet_roundtrip.rs] *)

Module Parquets.
#[local] Existing Instance Hash.Ref.hex_ref.
#[local] Existing Instance Parquet.Ex.lib.
#[local] Existing Instance BlkFile.Ex.fs.

#[local] Instance Cell_eq_dec : EqDecision Cell.
Proof. solve_decision. Defined.

(** The cell of a column in the first row of the first batch of a file. *)
Definition cell (w : list (list (list Cell))) (col : nat) : option Cell := b ← head w; c ← b !! col; head c.

Definition test_parquet_roundtrip_genesis : bool :=
  match from_hex (str "000000000019d6689c085ae165831e934ff763ae46a2a6c172b3f1b60a8ce26f"),
        from_hex (str "4a5e1e4baab89f3a32518a88c31bc87f618f76673e2cc77ab2127b7afdeda33b"),
        sink_create (str "t") 0 (mkSinkConfig 1000) with
  | Ok block_hash, Ok txid, Ok sink =>
    let addr := unhex (str "62e907b15cbf27d5425399ebf6f0fb50ebb88f18") ++ fill x00 12 in
    let pushes : M ParquetSink SinkError () :=
      _ ← push_block (mkBlockRow 0 block_hash (fill x00 32) (fill x00 32) 1231006505 0x1d00ffff 2083236893 1 1 285 1136 0 5000000000);
      _ ← push_tx (mkTxRow 0 0 txid 1 0 204 816 0 1 1 false);
      _ ← push_input (mkInputRow 0 0 0 txid (fill x00 32) 0xffffffff 77 0xffffffff 0 0 true);
      _ ← push_output (mkOutputRow 0 0 0 txid 5000000000 67 (script_type_u8 P2PK) addr);
      push_spend (mkSpendRow 1 0 0 (fill x11 32) txid 0 5000000000 (script_type_u8 P2PK) addr 0) in
    let '(r, sink) := pushes sink in
    is_ok r &&
    match sink_finish sink with
    | Ok (blocks :: _ :: _ :: outputs :: _) =>
      let blocks : list (list (list Cell)) := blocks in
      bool_decide ((λ b : list (list Cell), length (default [] (head b))) <$> blocks = [1%nat]) &&
      bool_decide (cell blocks 0 = Some (CU32 0)) && bool_decide (cell blocks 1 = Some (CBin block_hash)) &&
      bool_decide (cell blocks 12 = Some (CU64 5000000000)) &&
      bool_decide (cell outputs 4 = Some (CU64 5000000000)) && bool_decide (cell outputs 7 = Some (CBin addr))
    | _ => false
    end
  | _, _, _ => false
  end.
End Parquets.

(** ** All of them *)

Definition store_tests : list bool :=
  [Codecs.test_utxo_value_roundtrip; Codecs.test_block_undo_roundtrip; Codecs.test_block_undo_empty_and_varint_boundaries;
   Codecs.test_block_undo_rejects_truncated; Codecs.test_read_varint_all_classes_and_eof;
   Codecs.test_utxo_value_decode_rejects_wrong_len; Codecs.test_undo_key_is_big_endian_height_ordering;
   Stores.test_apply_link_spend_disconnect_roundtrip; Stores.test_missing_utxo_counted_not_fatal;
   Stores.test_bulk_mode_no_undo_recorded; Stores.test_same_block_spend_affects_undo_correctly;
   Stores.test_same_block_spend_removes_key_from_undo_created;
   Stores.test_apply_block_reports_db_and_pending_lookup_counts;
   Stores.test_apply_block_reports_no_db_lookups_when_all_spends_are_same_block;
   Stores.test_apply_block_excludes_coinbase_from_lookup_counts;
   Stores.test_recent_cache_serves_recent_spend_without_db_lookup; Stores.test_recent_cache_disabled_uses_db_lookup;
   Stores.test_recent_cache_evicts_to_budget_and_still_resolves; Stores.test_recent_cache_accounting_is_exhaustive;
   Stores.test_recent_cache_stats_and_hit_rate; Stores.test_same_block_reconciliation_scales_to_many_outputs 32;
   Stores.test_tip_set_get_overwrite_and_empty;
   Reorgs.test_apply_then_disconnect_restores_utxo; Reorgs.test_same_block_spend_chain_disconnect;
   Parquets.test_parquet_roundtrip_genesis].

Lemma store_tests_pass : store_tests = replicate 25 true.
Proof. vm_compute. reflexivity. Qed.
