(* ===== verification/TestsLive.v ===== *)
(** * TestsLive: the tests of [bidx-live], run on the model

    The unit tests of [node.rs], [zmqsub.rs] and [tracker.rs]. A response is a
    JSON value, and what the client deserializes of it is read as [serde] does;
    a fake node answers from a chain, as in the tests. *)
From S2P Require Import Prelude F64 Text Cursor Hash Types Tx Utxo UtxoStore StoreStats Node Tracker Digest TestsCore TestsStore.

#[local] Existing Instance Ref.hex_ref.
#[local] Existing Instance sha256.
#[local] Existing Instance ripemd160.
#[local] Existing Instance rocks_ref.
#[local] Existing Instance clock_ref.
#[local] Existing Instance order_ref.

(** ** JSON and the derived [Deserialize] *)

Inductive Value : Type :=
  | JNull | JNum (z : Z) | JStr (s : rstr) | JArr (l : list Value) | JObj (l : list (rstr * Value)).

(** The field of an object; an absent one is [null]. *)
Definition field (k : rstr) (v : Value) : Value :=
  match v with
  | JObj l => default JNull (snd <$> find (λ e, bool_decide (e.1 = k)) l)
  | _ => JNull
  end.

Definition json_num (v : Value) : option Z := match v with JNum z => Some z | _ => None end.
Definition json_str (v : Value) : option rstr := match v with JStr s => Some s | _ => None end.
(** An [Option<T>]: [null] is [None]; the outer option is the failure. *)
Definition optional {A} (d : Value → option A) (v : Value) : option (option A) :=
  match v with JNull => Some None | _ => Some <$> d v end.

Definition header_value (v : Value) : option BlockHeaderInfo :=
  hash ← json_str (field (str "hash") v);
  height ← json_num (field (str "height") v);
  confirmations ← json_num (field (str "confirmations") v);
  previous ← optional json_str (field (str "previousblockhash") v);
  next ← optional json_str (field (str "nextblockhash") v);
  Some (mkHeaderInfo hash height confirmations previous next).

Definition tip_value (v : Value) : option ChainTip :=
  height ← json_num (field (str "height") v);
  hash ← json_str (field (str "hash") v);
  branch_len ← json_num (field (str "branchlen") v);
  status ← json_str (field (str "status") v);
  Some (mkChainTip height hash branch_len status).

Definition rpc_err_value (v : Value) : option RpcErr :=
  code ← json_num (field (str "code") v); message ← json_str (field (str "message") v); Some (mkRpcErr code message).

Definition result_value {T} (d : De T) : Value → option T :=
  match d in De T return Value → option T with
  | DeU32 => json_num
  | DeString => json_str
  | DeHeader => header_value
  | DeTips => λ v, match v with JArr l => mapM tip_value l | _ => None end
  end.

Definition resp_value {T} (d : De T) (v : Value) : Res () (RpcResp T) :=
  match v with
  | JObj _ =>
    match optional (result_value d) (field (str "result") v), optional rpc_err_value (field (str "error") v) with
    | Some r, Some e => Ok (mkResp r e)
    | _, _ => Err ()
    end
  | _ => Err ()
  end.

(** The world is the responses still to come. *)
#[local] Instance json_env : RpcEnv := {|
  Net := list Value; Json := Value; SerdeError := (); HttpError := (); FileError := (); HttpClient := ();
  j_str := JStr; j_num := JNum; j_arr := JArr; j_obj := JObj; from_value := @resp_value;
  read_to_string _ := Err (); base64_encode s := s; http_build := Ok ();
  http_post _ _ _ _ s := (Err (), s); hex_error_string _ := str "hex" |}.

#[local] Instance no_zmq : ZmqLib := {|
  ZmqLibError := (); Socket := (); sub_socket := Ok (); set_subscribe _ _ := Ok (); set_rcvhwm _ _ := Ok ();
  zmq_connect _ _ := Ok (); recv_multipart _ s := (Err (), s) |}.

(** ** [node.rs] *)

Module Nodes.
(** [ScriptTransport]: each element in order, then the last for ever. *)
Definition script_transport : Transport := λ _ script,
  match script with
  | [] => (Panic, script)
  | [v] => (Ok v, script)
  | v :: script => (Ok v, script)
  end.

Definition client_with {A} (call : Transport → M Net RpcError A) (script : list Value) : Res RpcError A :=
  fst (call script_transport script).

Definition resp (result error : Value) : Value := JObj [(str "result", result); (str "error", error)].

Definition is_bad_response {A} (r : Res RpcError A) : bool := match r with Err (RpcBadResponse _) => true | _ => false end.

Definition test_get_block_count_rendering_and_rpc_errors : bool :=
  yields (client_with get_block_count [resp (JNum 42) JNull]) 42 &&
  match client_with get_block_count [resp JNull (JObj [(str "code", JNum (-5)); (str "message", JStr (str "not found"))])] with
  | Err (RpcRpc code message) => (code =? -5) && bool_decide (message = str "not found")
  | _ => false
  end && is_bad_response (client_with get_block_count [resp JNull JNull]).

Definition test_get_block_hash_hex_to_internal_order_roundtrip : bool :=
  match client_with (λ c, get_block_hash c 123) [resp (JStr (mjoin (replicate 60 (str "0")) ++ str "1234")) JNull] with
  | Ok (a :: b :: rest) => bool_decide (a = x34) && bool_decide (b = x12) && bool_decide (rest = fill x00 30)
  | _ => false
  end && is_bad_response (client_with (λ c, get_block_hash c 1) [resp (JStr (str "zz")) JNull]).

Definition test_get_block_raw_hex_decode_and_bad_hex : bool :=
  let raw := [xde; xad; xbe; xef] in
  yields (client_with (λ c, get_block_raw c ZERO) [resp (JStr (hex_encode raw)) JNull]) raw &&
  is_bad_response (client_with (λ c, get_block_raw c ZERO) [resp (JStr (str "xx")) JNull]).

Definition test_get_block_header_deserializes_optional_fields : bool :=
  match client_with (λ c, get_block_header c ZERO)
    [resp (JObj [(str "hash", JStr (str "00000000")); (str "height", JNum 800000); (str "confirmations", JNum 5);
                 (str "previousblockhash", JStr (str "prev"))]) JNull] with
  | Ok h => (hi_height h =? 800000) && bool_decide (hi_hash h = str "00000000") &&
            bool_decide (hi_previous h = Some (str "prev")) && bool_decide (hi_next h = None)
  | _ => false
  end.

Definition test_unparseable_transport_response_is_json_error : bool :=
  match client_with get_block_count [JStr (str "this is not an RpcResp object")] with
  | Err (RpcJson _) => true
  | _ => false
  end.
End Nodes.

(** ** [zmqsub.rs] *)

Module Zmqs.
Definition malformed (msg : list bytes) (part : rstr) : bool :=
  match parse_hashblock_multipart msg with Err (ZmqMalformed s) => str_contains part s | _ => false end.

Definition vb (s : rstr) : bytes := utf8_encode s.

Definition test_parses_valid_hashblock_multipart : bool :=
  let raw := [x01] ++ fill xab 30 ++ [xff] in
  yields (parse_hashblock_multipart [vb (str "hashblock"); raw; fill x00 4]) raw.

Definition test_rejects_when_frames_too_few : bool :=
  malformed [vb (str "hashblock")] (str "expected >=2 frames, got 1") && malformed [] (str "expected >=2 frames, got 0").

Definition test_tolerates_off_topic_frames_but_still_returns_hash : bool :=
  yields (parse_hashblock_multipart [vb (str "hashtx"); fill x12 32]) (fill x12 32).

Definition test_rejects_short_or_long_payload : bool :=
  forallb (λ n : nat, malformed [vb (str "hashblock"); fill x00 n] (str "payload " ++ fmt_dec (Z.of_nat n) ++ str " bytes"))
    [31; 33; 0]%nat.
End Zmqs.

(** ** [tracker.rs] *)

Module Trackers.
Definition synth_block (height : Z) (prev_hash : Hash32) (coinbase_out_sat : Z) : bytes * Hash32 :=
  let hdr := le_bytes 4 1 ++ prev_hash ++ ((λ j, Zbyte (Z.shiftr height 3 + j)) <$> seqZ 0 32) ++
             le_bytes 4 1231006505 ++ le_bytes 4 0x1d00ffff ++ le_bytes 4 height in
  let tx := le_bytes 4 1 ++ [x01] ++ fill x00 32 ++ le_bytes 4 0xffffffff ++ [x00] ++ le_bytes 4 0 ++
            [x01] ++ le_bytes 8 coinbase_out_sat ++ [x00] ++ le_bytes 4 0 in
  (hdr ++ [x01] ++ tx, dsha256 hdr).

(** The chain of a [FakeNode], by height. *)
Abbreviation Chain := (list (Z * (bytes * Hash32))).

Definition fake_node (chain : Chain) : Transport := λ body net,
  let reply v := (Ok (JObj [(str "result", v); (str "error", JNull)]), net) in
  let method := json_str (field (str "method") body) in
  let param := match field (str "params") body with JArr (p :: _) => p | _ => JNull end in
  if bool_decide (method = Some (str "getblockcount")) then reply (JNum (foldl Z.max 0 chain.*1))
  else if bool_decide (method = Some (str "getblockhash")) then
    match json_num param ≫= (λ h, find (λ e, e.1 =? h) chain) with
    | Some (_, (_, hash)) => reply (JStr (to_hex hash))
    | None => reply (JStr (to_hex ZERO))
    end
  else if bool_decide (method = Some (str "getblock")) then
    match find (λ e : Z * (bytes * Hash32), bool_decide (Some (to_hex e.2.2) = json_str param)) chain with
    | Some (_, (raw, _)) => reply (JStr (hex_encode raw))
    | None => reply (JStr (str "00"))
    end
  else reply JNull.

(** [tracker.catch_up(&mut |e, _| events.push(e))] of a tracker over the store. *)
Definition catch_up_with (chain : Chain) (cfg : TrackerConfig) : M UtxoStore TrackerError (list TrackerEvent) := λ s,
  let '(r, w) := catch_up (fake_node chain) cfg (mkWorld [] s []) in
  (_ ← r; Ok (w_events w).*1, w_store w).

Definition store {A} (m : M UtxoStore UtxoError A) : M UtxoStore TrackerError A := m_map_err TeUtxo m.

Definition is_tip (t : option TipState) (h : Z) (hash : Hash32) : bool :=
  match t with Some t => (tip_h t =? h) && bool_decide (tip_hash t = hash) | None => false end.

Definition test_catch_up_with_no_prior_tip_seeds_from_node_tip : bool :=
  let g := synth_block 0 ZERO 5000000000 in
  passes (open_live None (str "noprior")) (
    events ← catch_up_with [(0, g)] tracker_config_default;
    _ ← assert_ (match events with [CaughtUp height] => height =? 0 | _ => false end);
    t ← store Stores.get_tip;
    assert_ (is_tip t 0 g.2)).

Definition test_catch_up_applies_forward_blocks_in_order : bool :=
  let g := synth_block 0 ZERO 5000000000 in
  let b1 := synth_block 1 g.2 5000000000 in
  let b2 := synth_block 2 b1.2 5000000000 in
  passes (open_live None (str "fwd")) (
    _ ← store (set_tip (mkTip 0 g.2));
    events ← catch_up_with [(0, g); (1, b1); (2, b2)] tracker_config_default;
    let heights := omap (λ e, match e with Applied h _ _ => Some h | _ => None end) events in
    _ ← assert_ (bool_decide (heights = [1; 2]));
    t ← store Stores.get_tip;
    _ ← assert_ (is_tip t 2 b2.2);
    assert_ (match last events with Some (CaughtUp h) => h =? 2 | _ => false end)).

Definition kind (e : TrackerEvent) : rstr :=
  match e with
  | Applied _ _ _ => str "applied"
  | Disconnected _ _ => str "disconnected"
  | ReorgStart _ => str "reorgstart"
  | CaughtUp _ => str "caughtup"
  end.

Definition test_catch_up_handles_depth_one_reorg : bool :=
  let g := synth_block 0 ZERO 5000000000 in
  let a := synth_block 1 g.2 5000000000 in
  let raw_b := take 76 a.1 ++ le_bytes 4 0xDEADBEEF ++ drop 80 a.1 in
  let b := (raw_b, dsha256 (take 80 raw_b)) in
  passes (open_live None (str "reorg")) (
    _ ← store (set_tip (mkTip 0 g.2));
    _ ← catch_up_with [(0, g); (1, a)] tracker_config_default;
    t ← store Stores.get_tip;
    _ ← assert_ (is_tip t 1 a.2);
    seen ← catch_up_with [(0, g); (1, b)] tracker_config_default;
    _ ← assert_ (bool_decide (kind <$> seen = [str "reorgstart"; str "disconnected"; str "applied"; str "caughtup"]));
    t ← store Stores.get_tip;
    assert_ (is_tip t 1 b.2)).

Definition test_catch_up_bails_on_deep_reorg : bool :=
  let g := synth_block 0 ZERO 5000000000 in
  let a := synth_block 1 g.2 5000000000 in
  let raw_2a := take 76 a.1 ++ le_bytes 4 2 ++ drop 80 a.1 in
  passes (open_live None (str "deep")) (
    _ ← store (set_tip (mkTip 2 (dsha256 (take 80 raw_2a))));
    r ← outcome (catch_up_with [(0, g)] (mkTrackerConfig 0));
    assert_ (match r with Err (ReorgTooDeep _) => true | _ => false end)).

Definition test_parse_header_under_80_bytes_errors : bool :=
  is_err (parse_header (fill x00 20)) && is_ok (parse_header (fill x00 80)).
End Trackers.

(** ** All of them *)

Definition live_tests : list bool :=
  [Nodes.test_get_block_count_rendering_and_rpc_errors; Nodes.test_get_block_hash_hex_to_internal_order_roundtrip;
   Nodes.test_get_block_raw_hex_decode_and_bad_hex; Nodes.test_get_block_header_deserializes_optional_fields;
   Nodes.test_unparseable_transport_response_is_json_error;
   Zmqs.test_parses_valid_hashblock_multipart; Zmqs.test_rejects_when_frames_too_few;
   Zmqs.test_tolerates_off_topic_frames_but_still_returns_hash; Zmqs.test_rejects_short_or_long_payload;
   Trackers.test_catch_up_with_no_prior_tip_seeds_from_node_tip; Trackers.test_catch_up_applies_forward_blocks_in_order;
   Trackers.test_catch_up_handles_depth_one_reorg; Trackers.test_catch_up_bails_on_deep_reorg;
   Trackers.test_parse_header_under_80_bytes_errors].

Lemma live_tests_pass : live_tests = replicate 14 true.
Proof. vm_compute. reflexivity. Qed.
