(* ===== verification/TestsCli.v ===== *)
(** * TestsCli: the tests of [bidx-loader] and [bidx-cli], run on the model

    The unit tests of [lib.rs] and [schema.rs] of the loader, and of
    [diskguard.rs], [live.rs], [pipeline.rs] and [main.rs], over a file system of
    the files the tests write. Where a test looks for a text in the message of an
    error, the error is looked at; where it looks for a part file, the parts the
    model finished are. *)
From S2P Require Import Prelude F64 Text Cursor Hash Types Script Tx Block BlkFile Chain Utxo UtxoStore Disk DiskGuard.
From S2P Require Import Node Tracker Parquet Pipeline FileCache ParseRun Loader StoreStats GuardReport Live Main.
From S2P Require Import Digest TestsCore TestsStore.

#[local] Existing Instance Ref.hex_ref.
#[local] Existing Instance sha256.
#[local] Existing Instance ripemd160.
#[local] Existing Instance Node.Ref.rpc_ref.
#[local] Existing Instance rocks_ref.
#[local] Existing Instance clock_ref.
#[local] Existing Instance order_ref.
#[local] Existing Instance Parquet.Ex.lib.
#[local] Existing Instance ParseRun.Ex.libm.

(** The first bytes of a string, and where a text is in it. *)
Definition starts_with (pat s : rstr) : bool := bool_decide (is_Some (strip_prefix pat s)).
Fixpoint find_at (pat s : rstr) (i : Z) : option Z :=
  if starts_with pat s then Some i else match s with [] => None | _ :: s => find_at pat s (i + 1) end.
(** How often a text that does not overlap itself is in a string. *)
Fixpoint matches (pat s : rstr) : Z :=
  (if starts_with pat s then 1 else 0) + match s with [] => 0 | _ :: s => matches pat s end.
Definition nl : rstr := [10].

(** ** [bidx-loader/src/lib.rs] *)

Module Loaders.
(** A system where [which] finds a client, or finds none, and no other program
    can be started. *)
#[program] Definition system (found : option rstr) : Command := {|
  ProcState := (); SpawnError := ();
  output program args s :=
    if bool_decide (program = str "which") then
      (Ok match found with Some p => mkOutput true (utf8_encode p) [] | None => mkOutput false [] [] end, s)
    else (Err (), s) |}.
Next Obligation. intros found program args s. cbn. by case_bool_decide. Qed.

Definition bogus : Command := system None.

Definition test_default_config_uses_local_clickhouse_defaults : bool :=
  let c := ch_config_default in
  bool_decide (ch_host c = str "localhost") && (ch_port c =? 9000) && bool_decide (ch_user c = str "default") &&
  bool_decide (ch_password c = None) && bool_decide (ch_database c = str "bitcoin").

(** With a client on the path and without. *)
Definition test_new_loader_resolves_or_errors : bool :=
  let cfg := ch_config_default in
  forallb (λ found,
    match fst (@loader_new (system found) cfg ()) with
    | Ok l =>
      let args := base_args l in
      existsb (λ a, bool_decide (a = str "--host=" ++ ch_host cfg)) args &&
      existsb (λ a, bool_decide (a = str "--port=" ++ fmt_dec (ch_port cfg))) args &&
      existsb (λ a, bool_decide (a = str "--user=" ++ ch_user cfg)) args &&
      negb (existsb (starts_with (str "--password")) args)
    | Err (@NoClient _) => true
    | _ => false
    end) [None; Some (str "/usr/bin/clickhouse-client")].

Definition test_base_args_includes_optional_password : bool :=
  let cfg := mkCh (str "h") 9999 (str "u") (Some (str "sekret")) (str "db") in
  let loader := mkLoader cfg (str "/definitely/not/a/real/binary/clickhouse-client") in
  bool_decide (base_args loader = [str "--host=h"; str "--port=9999"; str "--user=u"; str "--password=sekret"]) &&
  match fst (@run_query bogus loader (str "SELECT 1") ()) with
  | Err (@LeIo _ _) | Err (@Client _ _) => true
  | _ => false
  end.

Definition test_load_entity_builds_file_glob_query_and_errors_off : bool :=
  let loader := mkLoader ch_config_default (str "/definitely/not/a/real/bidx-ch") in
  is_err (fst (@load_entity bogus BlkFile.Ex.fs loader (str "blocks") (str "t") ())).
End Loaders.

(** ** [bidx-loader/src/schema.rs] *)

Module Schemas.
Definition body (db : rstr) : rstr := join_with nl (schema.all_ddl db).

Definition test_all_ddl_covers_every_entity_and_reorg_views : bool :=
  let ddls := schema.all_ddl (str "testdb") in
  let body := join_with nl ddls in
  (len ddls =? 8) &&
  forallb (λ entity, str_contains (str "testdb." ++ entity) body) schema.ENTITIES &&
  (matches (str "CREATE TABLE IF NOT EXISTS") body =? 8) &&
  str_contains (str "FixedString(32)") body && negb (str_contains (str " String ") body) &&
  negb (str_contains (str "(String") body) && str_contains (str "PARTITION BY intDiv(height, 10000)") body &&
  str_contains (str "transactions_by_txid") body && str_contains (str "outputs_by_address") body &&
  str_contains (str "inputs_by_prev_output") body.

Definition test_entities_array_matches_all_ddl_entities : bool :=
  forallb (λ entity, str_contains (str "db." ++ entity ++ str " ") (body (str "db"))) schema.ENTITIES.

Definition test_txs_and_by_txid_schemas_are_compatible : bool :=
  match find_at (str "transactions_by_txid") (body (str "db")) 0, find_at (str "ORDER BY txid") (body (str "db")) 0 with
  | Some a, Some b => a <? b
  | _, _ => false
  end.
End Schemas.

(** ** [diskguard.rs] *)

Module Guards.
#[local] Existing Instance BlkFile.Ex.fs.
#[local] Existing Instance Disk.Ex.io.

(** [tmp_cfg]: a checkpoint file and one tracked directory. *)
Definition tmp_cfg : DiskGuardConfig := mkGuard (str "t/ckpt.txt") Mainnet (str "t") [str "t"].

(** The checkpoint file after [append_checkpoint(..).unwrap()] of each. *)
Definition appended (cps : list DiskCheckpoint) : option bytes :=
  foldl (λ f c, snd (append_checkpoint Mainnet c f)) None cps.

(** A tracked directory of one file of [n] bytes; a disk with 100 GiB free. *)
Definition tree (n : Z) : rstr → option Entry := λ _, Some (Dir (Some [Disk.File (Some n)])).
Definition disk (f : option bytes) (n : Z) : DiskView := mkDisk (λ _, f) (tree n) (λ _, [Some (Some (100 * 2 ^ 30, 1))]).

(** [rec.on_block_applied(h).unwrap()] is [b]. *)
Definition applied_is (step : rstr) (h : Z) (b : bool) : M (DiskRecorder * option bytes) GuardError () :=
  r ← on_block_applied (Some step) (tree 64) h; assert_ (Bool.eqb r b).

(** The heights in the file. *)
Definition heights : M (DiskRecorder * option bytes) GuardError (list Z) := λ s,
  (Ok (cp_height <$> read_checkpoints (snd s) Mainnet), s).

Definition recording {A} (file : option bytes) (m : M (DiskRecorder * option bytes) GuardError A) : bool :=
  is_ok (fst (m (recorder_new tmp_cfg file, file))).

Definition test_pre_flight_bails_on_insufficient_disk : bool :=
  match run_pre_flight tmp_cfg (disk (appended [mkCp 100000 (2 ^ 30)]) 64) 1000000000 100000 MIN_FREE_BYTES with
  | Err (GeInsufficient network node_tip additional_needed free_at_end min_free need_gib) =>
    let s := insufficient_message network node_tip additional_needed free_at_end min_free need_gib in
    str_contains (str "insufficient disk space") s && str_contains (str "GiB") s
  | _ => false
  end.

Definition test_pre_flight_succeeds_with_no_checkpoints : bool :=
  match run_pre_flight tmp_cfg (disk None 64) 900000 0 MIN_FREE_BYTES with
  | Ok r => (rp_checkpoints_used r =? 0) && bool_decide (rp_network r = Mainnet) && (rp_node_tip r =? 900000) &&
      (rp_additional_needed_bytes r =? 0) && (0 <? rp_free_bytes_now r) &&
      (rp_free_bytes_at_completion r =? rp_free_bytes_now r)
  | _ => false
  end.

Definition test_pre_flight_projection_positive_when_checkpoints_show_growth : bool :=
  match run_pre_flight tmp_cfg (disk (appended [mkCp 100000 (2 ^ 29); mkCp 200000 (2 ^ 30)]) 64) 400000 200000 0 with
  | Ok r => (rp_checkpoints_used r =? 2) && (rp_current_total_bytes r <? rp_projected_total_bytes r) &&
      (0 <? rp_additional_needed_bytes r)
  | _ => false
  end.

Definition test_recorder_on_block_applied_respects_step_and_dedup : bool :=
  let step := str "5" in
  recording None (
    _ ← applied_is step 0 false;
    _ ← applied_is step 1 false; _ ← applied_is step 2 false; _ ← applied_is step 3 false;
    _ ← applied_is step 4 false; _ ← applied_is step 6 false;
    _ ← applied_is step 5 true;
    _ ← applied_is step 10 true;
    _ ← applied_is step 5 false;
    read ← heights;
    assert_ (bool_decide (read = [5; 10]))).

Definition test_current_total_bytes_sums_tracked_dirs : bool :=
  let cfg := mkGuard (str "t/ckpt.txt") Mainnet (str "t") [str "t/a"; str "t/b"] in
  let tree d := Some (Dir (Some [Disk.File (Some (if bool_decide (d = str "t/a") then 16 else 32))])) in
  48 <=? current_total_bytes cfg tree.

Definition test_default_layout_builds_expected_paths : bool :=
  let root := str "/tmp/bidx-root" in
  let utxo := str "/tmp/bidx-root/utxo" in
  let out := str "/tmp/bidx-root/out" in
  let cfg := default_layout root Testnet4 utxo [out] in
  bool_decide (dg_network cfg = Testnet4) && bool_decide (index_root cfg = root) &&
  bool_decide (checkpoint_file cfg = fs_join root (str "bidx-disk-checkpoints.txt")) &&
  bool_decide (tracked_dirs cfg = [utxo; out]).

Definition test_recorder_boots_up_last_known_checkpoint_skips_rewrites : bool :=
  let step := str "10" in
  recording (appended [mkCp 20 1]) (
    _ ← applied_is step 10 false;
    _ ← applied_is step 30 true;
    read ← heights;
    assert_ (bool_decide (read = [20; 30]))).
End Guards.

(** ** [live.rs] *)

Module LiveSinks.
#[local] Existing Instance BlkFile.Ex.fs.

Definition synthetic_block (height : Z) : FullBlock :=
  let coinbase_txid := fill x11 32 in
  mkFullBlock (mkBlockRow height (fill xaa 32) (fill x00 32) (fill x00 32) 0 0 0 1 1 0 0 0 100)
    [mkTxRow height 0 coinbase_txid 1 0 0 0 0 1 1 false]
    [mkInputRow height 0 0 coinbase_txid (fill x00 32) 0xffffffff 0 0 0 0 true]
    [mkOutputRow height 0 0 coinbase_txid 100 0 0 (fill x00 32)].

(** [LiveSink::create(&dir, 0).unwrap()] and the rest of a test. *)
Definition with_live_sink (m : M LiveSink SinkError ()) : bool := passes (live_create (str "t") 0) m.

(** [sink.write_block(..).unwrap()], after which [sink.part] is [part]. *)
Definition writes_to (height part : Z) : M LiveSink SinkError () :=
  _ ← write_block (synthetic_block height) [];
  l ← m_get;
  assert_ (ls_part l =? part).

(** The parts of which the five files were finished. *)
Definition finished_parts : M LiveSink SinkError (list Z) := λ l,
  (Ok (filter (λ p, Exists (λ c : Z * list ArrowWriter, c.1 = p ∧ length c.2 = 5%nat) (ls_closed l)) (ls_closed l).*1), l).

Definition test_live_sink_rotates_every_live_blocks_per_part : bool :=
  with_live_sink (
    _ ← writes_to 0 0;
    _ ← writes_to 500 0;
    _ ← writes_to LIVE_BLOCKS_PER_PART 1;
    _ ← writes_to (2 * LIVE_BLOCKS_PER_PART) 2;
    _ ← finish_taken;
    parts ← finished_parts;
    assert_ (bool_decide (parts = [0; 1; 2]))).

Definition test_live_sink_write_block_emits_all_row_kinds : bool :=
  let block := synthetic_block 7 in
  let r := block_row block in
  let txid_s := fill x22 32 in
  let block := mkFullBlock
    (mkBlockRow (br_height r) (br_hash r) (br_prev_hash r) (br_merkle_root r) (br_time r) (br_bits r) (br_nonce r)
       (br_version r) 2 (br_size r) (br_weight r) (br_total_fee r) (br_coinbase_value r))
    (txs block ++ [mkTxRow 7 1 txid_s 1 0 0 0 5 1 1 false])
    (inputs block ++ [mkInputRow 7 1 0 txid_s (fill xee 32) 3 0 1 0 0 false])
    (outputs block ++ [mkOutputRow 7 1 0 txid_s 50 0 1 (fill xbb 32)]) in
  let spends := [mkSpendRow 7 1 0 txid_s (fill xee 32) 3 55 1 (fill xcc 32) 0] in
  with_live_sink (
    _ ← write_block block spends;
    _ ← finish_taken;
    parts ← finished_parts;
    assert_ (bool_decide (parts = [0]))).
End LiveSinks.

(** ** [pipeline.rs] *)

Module Pipelines.
(** A directory of these blk files, the first one [blk00000.dat]. *)
Definition blk_name (i : nat) : rstr := str "blk" ++ fmt_dec0 5 (Z.of_nat i) ++ str ".dat".
Definition blk_files (contents : list bytes) : Fs := {|
  IoError := ();
  fs_open p := if existsb (λ i, bool_decide (p = str "t/" ++ blk_name i)) (seq 0 (length contents)) then Ok p else Err ();
  fs_mmap p := default (Err ())
    (Ok <$> head (omap (λ i, if bool_decide (p = str "t/" ++ blk_name i) then contents !! i else None) (seq 0 (length contents))));
  fs_read _ := Err ();
  fs_read_dir _ := Ok ((λ i, Ok (blk_name i, str "t/" ++ blk_name i)) <$> seq 0 (length contents));
  fs_parent _ := Some (str "t"); fs_join d n := d ++ str "/" ++ n |}.

Definition coinbase_tx : bytes :=
  le_bytes 4 1 ++ [x01] ++ fill x00 32 ++ le_bytes 4 0xffffffff ++ [x00] ++ le_bytes 4 0 ++
  [x01] ++ le_bytes 8 100 ++ [x00] ++ le_bytes 4 0x11223344.

(** A record of a header and the coinbase transaction. *)
Definition record (hdr : bytes) : bytes :=
  le_bytes 4 BLOCK_MAGIC ++ le_bytes 4 (80 + 1 + len coinbase_tx) ++ hdr ++ [x01] ++ coinbase_tx.

Definition make_chain (n : Z) : bytes * list Hash32 :=
  let '(data, _, hashes) :=
    foldl (λ '(data, prev, hashes) i,
      let hdr := [Zbyte (1 + i)] ++ fill x00 3 ++ prev ++ ((λ j, Zbyte (i + j)) <$> seqZ 0 32) ++
                 le_bytes 4 (1000 + i) ++ le_bytes 4 0x1d00ffff ++ le_bytes 4 i in
      (data ++ record hdr, dsha256 hdr, hashes ++ [dsha256 hdr]))
      (([], ZERO, []) : bytes * Hash32 * list Hash32) (seqZ 0 n) in
  (data, hashes).

Definition make_many_blk_files (n : Z) : list bytes :=
  (λ file_id, record ([x01] ++ fill x00 75 ++ le_bytes 4 file_id)) <$> seqZ 0 n.

(** The directory of [make_chain]. *)
Definition chain_dir (n : Z) : Fs := blk_files [(make_chain n).1].

Definition test_inspect_block_prints_rows_for_existing_height : bool :=
  let dir := chain_dir 4 in
  forallb (λ h, is_ok (@inspect_block _ _ _ dir _ _ _ _ _ (str "t") h)) [0; 2; 3].

Definition test_inspect_block_out_of_range_returns_err : bool :=
  let dir := chain_dir 2 in
  match @inspect_block _ _ _ dir _ _ _ _ _ (str "t") 99 with Err ReHeight => true | _ => false end.

Section runs.
Context (F : Fs).
Let io : @AppendIo F := @Build_AppendIo F None None (λ _ _, None).
#[local] Existing Instance io.

(** The workers in order of height, each with a cache of its own. *)
Definition stage (idx : ChainIndex) (range : Z * Z) (o : option (gset Hash32)) : ParseStage :=
  let sent := (λ h, fst (worker (str "t") idx o h cache_init)) <$> seqZ range.1 (range.2 - range.1) in
  mkStage (omap res_ok sent) (if forallb is_ok sent then Ok () else Err ReConsumerDropped) (λ _, false).

Definition run_env : RunEnv := mkEnv None None (mkDisk (λ _, None) (λ _, None) (λ _, [])) (λ _ _, None) stage.

Definition parse_cfg (start : Z) (end_ : option Z) (blocks_per_part threads : Z) : ParseConfig :=
  mkParseConfig (str "t") (str "out") (str "utxo") start end_ blocks_per_part (Some threads) None None true
    (Some (str "utxo/ckpts.txt")) (Some Mainnet) None.

(** [run_parse(..)]: the parts of which the five files were finished, or the error. *)
Definition parsed_parts (cfg : ParseConfig) : Res RunError (list Z) :=
  match fst (run_parse run_env cfg (Tracker.Ex.net [])) with
  | Ok (Some p) =>
    Ok (omap (λ c : Z * list ArrowWriter, if bool_decide (length c.2 = 5%nat) then Some c.1 else None) (p_closed p))
  | Ok None => Ok []
  | Err e => Err e
  | Panic => Panic
  end.
End runs.

Definition test_run_parse_writes_parquet_files_in_range : bool :=
  yields (parsed_parts (chain_dir 3) (parse_cfg 0 (Some 3) 2 2)) [0; 1].

Definition test_run_parse_rejects_empty_range : bool :=
  match parsed_parts (chain_dir 3) (parse_cfg 10 (Some 0) 1000 1) with Err (ReEmptyRange _ _) => true | _ => false end.

Definition loc (file_id : Z) : BlockLocation := mkLoc file_id 0 (80 + 1 + 47 + 8).

(** [cache.block_bytes(..).unwrap()] of each file, the resident count after it
    held to the bound. *)
Fixpoint read_files (F : Fs) (ids : list Z) : M CacheInner (@BlkError F) () :=
  match ids with
  | [] => mret ()
  | i :: ids =>
    _ ← cached_block_bytes (str "t") (loc i);
    c ← m_get;
    _ ← assert_ (resident c <=? MAX_CACHED_FILES);
    read_files F ids
  end.

Definition cache_passes {F : Fs} (m : M CacheInner (@BlkError F) ()) : bool := is_ok (fst (m cache_init)).

Definition test_thread_file_cache_opens_and_caches : bool :=
  let dir := chain_dir 2 in
  @cache_passes dir (
    b1 ← cached_block_bytes (str "t") (loc 0);
    _ ← assert_ (len b1 =? record_len (loc 0) - 8);
    b2 ← cached_block_bytes (str "t") (loc 0);
    assert_ (len b1 =? len b2)).

Definition resident_is {F : Fs} (n : Z) : M CacheInner (@BlkError F) () := c ← m_get; assert_ (resident c =? n).

Definition test_thread_file_cache_evicts_beyond_capacity : bool :=
  let n := MAX_CACHED_FILES + 8 in
  let dir := blk_files (make_many_blk_files n) in
  cache_passes (_ ← read_files dir (seqZ 0 n); resident_is MAX_CACHED_FILES).

Definition test_thread_file_cache_reuses_within_capacity : bool :=
  let n := MAX_CACHED_FILES - 2 in
  let dir := blk_files (make_many_blk_files n) in
  cache_passes (_ ← read_files dir (seqZ 0 n); _ ← resident_is n; _ ← read_files dir [0]; resident_is n).
End Pipelines.

(** ** [main.rs] *)

Module Mains.
Definition test_network_arg_maps_to_bidx_core_network : bool :=
  forallb (λ p : NetworkArg * Network, bool_decide (network_from p.1 = p.2))
    [(ArgMainnet, Mainnet); (ArgTestnet3, Testnet3); (ArgTestnet4, Testnet4); (ArgSignet, Signet); (ArgRegtest, Regtest)].
End Mains.

(** ** All of them *)

Definition cli_tests : list bool :=
  [Loaders.test_default_config_uses_local_clickhouse_defaults; Loaders.test_new_loader_resolves_or_errors;
   Loaders.test_base_args_includes_optional_password; Loaders.test_load_entity_builds_file_glob_query_and_errors_off;
   Schemas.test_all_ddl_covers_every_entity_and_reorg_views; Schemas.test_entities_array_matches_all_ddl_entities;
   Schemas.test_txs_and_by_txid_schemas_are_compatible;
   Guards.test_pre_flight_bails_on_insufficient_disk; Guards.test_pre_flight_succeeds_with_no_checkpoints;
   Guards.test_pre_flight_projection_positive_when_checkpoints_show_growth;
   Guards.test_recorder_on_block_applied_respects_step_and_dedup; Guards.test_current_total_bytes_sums_tracked_dirs;
   Guards.test_default_layout_builds_expected_paths;
   Guards.test_recorder_boots_up_last_known_checkpoint_skips_rewrites;
   LiveSinks.test_live_sink_rotates_every_live_blocks_per_part;
   LiveSinks.test_live_sink_write_block_emits_all_row_kinds;
   Pipelines.test_inspect_block_prints_rows_for_existing_height; Pipelines.test_inspect_block_out_of_range_returns_err;
   Pipelines.test_run_parse_writes_parquet_files_in_range; Pipelines.test_run_parse_rejects_empty_range;
   Pipelines.test_thread_file_cache_opens_and_caches; Pipelines.test_thread_file_cache_evicts_beyond_capacity;
   Pipelines.test_thread_file_cache_reuses_within_capacity;
   Mains.test_network_arg_maps_to_bidx_core_network].

Lemma cli_tests_pass : cli_tests = replicate 24 true.
Proof. vm_compute. reflexivity. Qed.
