(* ===== verification/TestsBench.v ===== *)
(** * TestsBench: the tests of [bidx-cli/src/bench/mod.rs], run on the model

    The tests of the modes, the numbers of a report, the consumer on synthetic
    blocks, and [run_bench] over the directory of [make_chain]. A duration or a
    sample of the process is an input of the model; where a test only says that
    it is positive, the input is. *)
From S2P Require Import Prelude F64 Fmt Text Cursor Hash Types Tx Block BlkFile Chain Utxo UtxoStore Disk DiskGuard.
From S2P Require Import Node Tracker Parquet Pipeline FileCache ParseRun StoreStats Bench Trial.
From S2P Require Import Digest TestsCore TestsStore TestsCli.

#[local] Existing Instance Ref.hex_ref.
#[local] Existing Instance sha256.
#[local] Existing Instance ripemd160.
#[local] Existing Instance Node.Ref.rpc_ref.
#[local] Existing Instance rocks_ref.
#[local] Existing Instance clock_ref.
#[local] Existing Instance order_ref.
#[local] Existing Instance Parquet.Ex.lib.
#[local] Existing Instance ParseRun.Ex.libm.

(** [a == b] and [(a - b).abs() < 1e-9] on floats. *)
Definition f64_eqb (a b : f64) : bool := f64_le a b && f64_le b a.
Definition close (a b : f64) : bool :=
  let eps := f64_div (f64_of_Z 1) (f64_of_Z (10 ^ 9)) in f64_lt (f64_sub a b) eps && f64_lt (f64_sub b a) eps.

(** ** Modes and numbers *)

Module Modes.
Definition all_modes : list BenchMode := [Full; Headers_; Parse; Drain; UtxoMode; SinkMode].

Definition test_cfg (mode : BenchMode) : BenchConfig :=
  mkBenchConfig (str "/tmp") mode 0 None None None None None 1 None None None 1 false 0 false None.

Definition test_bench_mode_display_is_lowercase : bool :=
  bool_decide (mode_name <$> all_modes = [str "full"; str "headers"; str "parse"; str "drain"; str "utxo"; str "sink"]).

Definition test_needs_utxo_toggle_by_mode : bool :=
  bool_decide (needs_utxo <$> all_modes = [true; false; false; false; true; false]).

Definition test_needs_sink_toggle_by_mode : bool :=
  bool_decide (needs_sink <$> all_modes = [true; false; false; false; false; true]).

Definition test_needs_fee_enrichment_follows_utxo : bool :=
  forallb (λ m, Bool.eqb (needs_fee_enrichment m) (needs_utxo m)) all_modes.

Definition test_tuning_defaults_match_production_pipeline : bool :=
  let t := from_cfg (test_cfg Full) in
  (reorder_high t =? REORDER_HIGH) && (channel_depth t =? 512) && (sink_batch_rows t =? batch_size sink_config_default).

Definition test_tuning_overrides_are_honoured : bool :=
  let cfg := mkBenchConfig (str "/tmp") Full 0 None None None None None 1 (Some 1000) (Some 4) (Some 64) 1 false 0 false None in
  let t := from_cfg cfg in
  (reorder_high t =? 4) && (channel_depth t =? 64) && (batch_size (tuning_sink_config t) =? 1000).

(** [median] of these numbers is this one, between these. *)
Definition median_is (v : list Z) (f : f64 → f64 → f64 → bool) : bool :=
  match @median () (f64_of_Z <$> v) with Ok (lo, med, hi) => f lo med hi | _ => false end.

Definition test_median_picks_center_and_averages_even_sizes : bool :=
  median_is [1; 2; 3] (λ lo med hi,
    f64_eqb lo (f64_of_Z 1) && f64_eqb med (f64_of_Z 2) && f64_eqb hi (f64_of_Z 3)) &&
  median_is [1; 2; 3; 4] (λ _ med _, f64_eqb med (f64_div (f64_of_Z 5) (f64_of_Z 2))) &&
  median_is [5] (λ _ med _, f64_eqb med (f64_of_Z 5)) &&
  median_is [9; 1; 5; 2] (λ _ med _, f64_eqb med (f64_div (f64_add (f64_of_Z 2) (f64_of_Z 5)) (f64_of_Z 2))).

Definition report_of (samples : list Z) (f : LatencyReport → bool) : bool :=
  match @from_samples () samples with Ok r => f r | _ => false end.

Definition test_latency_report_empty_is_all_zero : bool :=
  report_of [] (λ r, (lat_n r =? 0) && f64_eqb (p50_ms r) f64_zero && f64_eqb (p99_ms r) f64_zero &&
    f64_eqb (max_ms r) f64_zero && f64_eqb (sum_secs r) f64_zero).

Definition test_latency_report_percentiles_and_sum : bool :=
  report_of (replicate 100 1000000 ++ [500000000]) (λ r,
    (lat_n r =? 101) && close (p50_ms r) (f64_of_Z 1) && close (p99_ms r) (f64_of_Z 1) &&
    close (max_ms r) (f64_of_Z 500) && close (sum_secs r) (f64_div (f64_of_Z 6) (f64_of_Z 10))).

Definition test_latency_report_single_sample_is_all_that_sample : bool :=
  let ms := f64_div (f64_of_Z 5) (f64_of_Z 2) in
  report_of [2500000] (λ r, (lat_n r =? 1) && close (p50_ms r) ms && close (p99_ms r) ms && close (max_ms r) ms).
End Modes.

(** ** The consumer *)

Module Consumers.
#[local] Existing Instance BlkFile.Ex.fs.

Definition synth_block (height : Z) : FullBlock :=
  let h := fill (Zbyte height) 32 in
  let txid := fill (Zbyte (height * 7)) 32 in
  mkFullBlock (mkBlockRow height h (fill x00 32) h (1609459200 + height) 0x1d00ffff 0 1 1 100 400 0 5000000000)
    [mkTxRow height 0 txid 1 0 10 40 0 1 1 false]
    [mkInputRow height 0 0 txid (fill x00 32) 0xffffffff 0 0xffffffff 0 0 true]
    [mkOutputRow height 0 0 txid 5000000000 0 0 (fill x00 32)].

Definition items (hs : list Z) : list WorkItem := (λ h, WiBlock h (synth_block h)) <$> hs.

(** A run of [bench_consume]; every block takes 5 ns to apply and 3 to write. *)
Definition run (end_ blocks_per_part : Z) (do_sink do_utxo do_fees : bool) (tripped : bool) : BenchRun :=
  mkBenchRun (mkConf 0 end_ blocks_per_part (str "out") None (λ _ _, None) (λ _, tripped) 1)
    do_sink do_utxo do_fees sink_config_default (λ _, 5) (λ _, 3).

Definition drive_consume (blocks : list WorkItem) (end_ blocks_per_part : Z) (do_sink do_utxo do_fees : bool)
    (utxo : option UtxoStore) (f : Bench → bool) : bool :=
  match bench_consume (run end_ blocks_per_part do_sink do_utxo do_fees false) blocks utxo with
  | (Ok _, Some s) => f s
  | _ => false
  end.

(** [UtxoStore::open(&dir).unwrap()] *)
Definition over_store (f : UtxoStore → bool) : bool :=
  match store_open None (str "t") with Ok s => f s | _ => false end.

Definition test_bench_consume_thread_counts_blocks_and_rolls_part_files : bool :=
  drive_consume (items [0; 1]) 2 1 false false false None (λ got,
    (bn_blocks got =? 2) && (bn_sink_wall got =? 0) && (bn_utxo_wall got =? 0) && bool_decide (bn_samples got = [])).

(** The depth and the next height are those of the buffer at the end. *)
Definition test_bench_consume_tracks_reorder_depth_and_publishes_next_height : bool :=
  let r := run 3 1000 false false false false in
  match bench_recv r (items [0; 1; 2]) (mkReorder ∅ ∅ 0 0) (mkBench None 0 None [] 0 0 0 0 0 0 0 0 []) with
  | (Ok (q, done), s) => done && (bn_blocks s =? 3) && (q_depth q =? 0) && (q_next q =? 3)
  | _ => false
  end.

Definition test_bench_consume_bails_when_channel_closes_early : bool :=
  match bench_consume (run 5 1 false false false false) [] None with (Err (BeClosedEarly _), _) => true | _ => false end.

Definition test_bench_consume_rejects_skipped_height : bool :=
  match bench_consume (run 1 1 false false false false) [WiSkipped 0] None with
  | (Err (BeSkipped _), _) => true
  | _ => false
  end.

(** The block of height 0, its input no longer a coinbase's. *)
Definition spending_block : FullBlock :=
  let b := synth_block 0 in
  mkFullBlock (block_row b) (txs b)
    ((λ i, mkInputRow (ir_height i) (ir_tx_index i) (ir_input_index i) (ir_txid i) (ir_prev_txid i) (ir_prev_vout i)
        (ir_script_sig_len i) (ir_sequence i) (ir_witness_items i) (ir_witness_bytes i) false) <$> inputs b) (outputs b).

Definition test_bench_consume_utxo_mode_records_samples_and_missing : bool :=
  over_store (λ store,
    drive_consume [WiBlock 0 spending_block] 1 1 false true true (Some store) (λ got,
      (bn_blocks got =? 1) && (bn_missing got =? 1) && (len (bn_samples got) =? 1) && (0 <? bn_utxo_wall got))).

Definition test_bench_consume_sink_mode_writes_rows_without_fees : bool :=
  drive_consume (items [0]) 1 1 true false false None (λ got,
    (bn_blocks got =? 1) && (0 <? bn_sink_wall got) && (bn_missing got =? 0) &&
    bool_decide ((λ c : Z * list ArrowWriter, (c.1, length c.2)) <$> bn_closed got = [(0, 5%nat)])).

Definition test_bench_consume_returns_samples_only_for_enabled_stages : bool :=
  over_store (λ store,
    drive_consume (items [0; 1; 2]) 3 10 false true true (Some store) (λ got,
      (bn_blocks got =? 3) && (len (bn_samples got) =? 3))).

(** The watchdog of a limit of 1 KiB, after its first sample of a process of 5 MiB. *)
Definition test_watchdog_trips_when_limit_is_below_current_rss : bool :=
  negb (is_tripped (watchdog_start 1 [])) && is_tripped (watchdog_start 1 [5120]).

Definition test_watchdog_stays_quiet_under_a_generous_limit : bool :=
  negb (is_tripped (watchdog_start u64_max (replicate 2 5120))).

Definition test_consume_ordered_aborts_when_watchdog_is_tripped : bool :=
  over_store (λ store,
    let watchdog := watchdog_start 1 [5120] in
    is_tripped watchdog &&
    match bench_consume (run 1 1 false true true (is_tripped watchdog)) (items [0]) (Some store) with
    | (Err (BeWatchdog _), Some s) => bn_blocks s =? 0
    | _ => false
    end).

(** With the memory of a machine of 16 GiB, half of it available. *)
Definition test_max_rss_kb_is_positive_and_below_total_memory : bool :=
  let meminfo := Some (str "MemTotal:       16777216 kB" ++ [10] ++ str "MemAvailable:    8388608 kB" ++ [10]) in
  let ceiling := max_rss_kb meminfo in
  (0 <? ceiling) && match field_kb meminfo (str "MemTotal:") with Some total => ceiling <? total | None => false end.
End Consumers.

(** ** [run_bench] *)

Module Runs.
Section runs.
Context (F : Fs).

(** The workers in order of height, each with a cache of its own, in 7 ns. *)
Definition stage (idx : ChainIndex) (range : Z * Z) (t : Tuning) : list WorkItem * Res RunError (list Z) * (Z → bool) :=
  let sent := (λ h, fst (bench_worker (str "t") idx h cache_init)) <$> seqZ range.1 (range.2 - range.1) in
  (omap res_ok sent, if forallb is_ok sent then Ok (replicate (length sent) 7) else Err ReConsumerDropped, λ _, false).

Definition reading (t : Z) : Reading := mkReading t (mkSample 10 3 1) 20.

(** The report of a trial as [serde_json] would print some of its fields. *)
Definition json_of (r : TrialReport) : rstr :=
  str "mode: " ++ mode_name (tr_mode r) ++ str ", blocks: " ++ fmt_dec (tr_blocks r) ++ str ", missing_utxos: "
  ++ fmt_dec (tr_missing_utxos r) ++ str ", utxo_latency.n: " ++ fmt_dec (lat_n (utxo_latency r)).

Definition bench_env : BenchEnv :=
  mkBenchEnv (mkProc 100 (Some 8) (Some (str "w")) (str "tmp") 42) (Some 5)
    (λ _, mkTrialEnv (reading 0, reading 2000000) (reading 2000000, reading 9000000) 30 (Some 5) None (λ _, 11) (λ _, 3) stage)
    (λ rs, Some (Trial.join nl (json_of <$> rs))) (λ _ _, true).

(** [run_bench(cfg)], from nothing printed or stored. *)
Definition bench (cfg : BenchConfig) : Res TrialError () * Left := run_bench bench_env cfg (mkLeft [] None None []).
End runs.

(** [test_cfg] with the blocks directory [t] and these changes. *)
Definition cfg (mode : BenchMode) (threads : option Z) (utxo utxo_dir out_dir csv : option rstr) : BenchConfig :=
  mkBenchConfig (str "t") mode 0 None threads utxo utxo_dir out_dir 1 None None None 1 false 0 false csv.

Definition chain_bench (n : Z) (c : BenchConfig) := bench (Pipelines.chain_dir n) c.
Definition bench_ok (n : Z) (c : BenchConfig) : bool := is_ok (fst (chain_bench n c)).

Definition proc : Proc := mkProc 100 (Some 8) (Some (str "w")) (str "tmp") 42.

Definition test_out_dir_for_creates_unique_dir_under_perf_root : bool :=
  match @out_dir_for (Pipelines.chain_dir 0) _ _ _ _ proc (Modes.test_cfg Full) (Some 5) with
  | Ok dir1 => starts_with (@default_perf_dir (Pipelines.chain_dir 0) proc) dir1
  | _ => false
  end.

Definition test_default_perf_dir_is_bidx_perf_under_cwd : bool :=
  bool_decide (@default_perf_dir (Pipelines.chain_dir 0) proc = str "w/bidx-perf").

Definition explicit : rstr := str "tmp/bidx-bench-explicit".
Definition out_dir_of : option rstr :=
  res_ok (@out_dir_for (Pipelines.chain_dir 0) _ _ _ _ proc (cfg Full None None None (Some explicit) None) (Some 5)).

Definition test_out_dir_for_honours_explicit_out_dir : bool :=
  bool_decide (out_dir_of = Some explicit) && negb (str_contains (str "bidx-bench-out-") explicit).

Definition test_run_bench_rejects_empty_blocks_dir : bool :=
  match fst (bench (Pipelines.blk_files []) (cfg Full None None None None None)) with Err (TrNoBlockFiles _) => true | _ => false end.

(** A directory that cannot be listed. *)
Definition no_dir : Fs := {|
  IoError := (); fs_open _ := Err (); fs_mmap _ := Err (); fs_read _ := Err (); fs_read_dir _ := Err ();
  fs_parent _ := None; fs_join d n := d ++ str "/" ++ n |}.

Definition test_run_bench_rejects_missing_blocks_dir : bool :=
  is_err (fst (bench no_dir (cfg Full None None None None None))).

Definition test_run_bench_headers_mode_reports_tip_and_stages : bool :=
  bench_ok 3 (cfg Headers_ None None None None None).

Definition test_run_bench_headers_mode_empty_chain_reports_error_not_panic : bool :=
  match fst (bench (Pipelines.blk_files [[]]) (cfg Headers_ None None None None None)) with
  | Err (TrBlk (NoRecords _)) => true
  | _ => false
  end.

Definition test_run_bench_parse_mode_skips_utxo_and_sink : bool :=
  bench_ok 4 (cfg Parse (Some 2) None None None None).

Definition test_run_bench_drain_mode_parses_and_discards : bool :=
  let report := str "tmp/bidx-bench-drain.json" in
  match chain_bench 4 (cfg Drain (Some 2) None None None (Some report)) with
  | (Ok _, w) => bool_decide (lf_csv w = Some (report, str "mode: drain, blocks: 4, missing_utxos: 0, utxo_latency.n: 0"))
  | _ => false
  end.

Definition test_run_bench_utxo_mode_without_out_dir_uses_temp : bool :=
  bench_ok 3 (cfg UtxoMode (Some 2) (Some (str "tmp/utxo")) None None None).

Definition test_run_bench_rejects_empty_range : bool :=
  match fst (chain_bench 3 (mkBenchConfig (str "t") Parse 10 (Some 0) None None None None 1 None None None 1 false 0 false None)) with
  | Err (@TrEmptyRange _ _ _ _ _) => true
  | _ => false
  end.

Definition test_run_bench_repeat_aggregates_without_panicking : bool :=
  bench_ok 3 (mkBenchConfig (str "t") Parse 0 None (Some 2) None None None 1 None None None 2 false 0 false None).

(** To a file, and with [-] to the terminal and no file. *)
Definition test_run_bench_writes_json_report_and_stdout_variant : bool :=
  let report := str "tmp/bidx-bench-report.json" in
  match chain_bench 3 (cfg Headers_ None None None None (Some report)), chain_bench 3 (cfg Headers_ None None None None (Some (str "-"))) with
  | (Ok _, w), (Ok _, w') =>
    match lf_csv w with
    | Some (p, body) => bool_decide (p = report) && str_contains (str "mode: headers") body && str_contains (str "missing_utxos") body
    | None => false
    end && bool_decide (lf_csv w' = None) && existsb (str_contains (str "mode: headers")) (lf_out w')
  | _, _ => false
  end.

(** The store is under the root and is removed at the end. *)
Definition test_run_bench_utxo_dir_override_controls_throwaway_location : bool :=
  let root := str "tmp/bidx-bench-utxoroot" in
  match chain_bench 2 (cfg UtxoMode (Some 1) None (Some root) None None) with
  | (Ok _, w) => match lf_removed w with [p] => starts_with (root ++ str "/") p | _ => false end
  | _ => false
  end.

Definition test_run_bench_backpressure_and_batch_overrides_are_accepted : bool :=
  bench_ok 3 (mkBenchConfig (str "t") Full 0 None (Some 2) (Some (str "tmp/utxo")) None None 1 (Some 1) (Some 2) (Some 16)
                1 false 0 false None).

Definition tenths (n : Z) : f64 := f64_div (f64_of_Z n) (f64_of_Z 10).

(** [print_trial] has no error to give; its lines are those of the report. *)
Definition test_print_trial_and_aggregate_do_not_panic : bool :=
  match @from_samples () [1000000; 2000000], @from_samples () [3000000] with
  | Ok parse, Ok apply =>
    let stages := [mkStageReport (str "header_pass") (tenths 5) (tenths 9) (f64_of_Z 64);
                   mkStageReport (str "pipeline_wall_total") (f64_of_Z 20) (tenths 8) (f64_of_Z 128)] in
    let t trial := mkReport trial Full 100 (f64_of_Z 5) (tenths 45) (tenths 15) (f64_of_Z 128) 0 0 0 0 0 stages parse apply [mkProperty (str "stall_micros") (str "0")] in
    (0 <? len (print_trial (t 0))) &&
    is_ok (fst (@print_aggregate (Pipelines.chain_dir 0) _ _ _ _ [t 0; t 1] (mkLeft [] None None [])))
  | _, _ => false
  end.

(** No line of latencies and none of RocksDB. *)
Definition test_print_trial_handles_report_with_no_latency_or_rocksdb : bool :=
  let none := mkLatency 0 f64_zero f64_zero f64_zero f64_zero in
  let t := mkReport 0 Headers_ 10 (f64_of_Z 1) (tenths 9) (tenths 1) (f64_of_Z 8) 0 0 0 0 0
             [mkStageReport (str "header_pass") (f64_of_Z 1) (tenths 5) (f64_of_Z 8)] none none [] in
  negb (existsb (λ l, str_contains (str "per-block") l || str_contains (str "rocksdb") l) (print_trial t)).
End Runs.

(** ** All of them *)

Definition bench_tests : list bool :=
  [Modes.test_bench_mode_display_is_lowercase; Modes.test_needs_utxo_toggle_by_mode; Modes.test_needs_sink_toggle_by_mode;
   Modes.test_needs_fee_enrichment_follows_utxo; Modes.test_tuning_defaults_match_production_pipeline;
   Modes.test_tuning_overrides_are_honoured; Modes.test_median_picks_center_and_averages_even_sizes;
   Modes.test_latency_report_empty_is_all_zero; Modes.test_latency_report_percentiles_and_sum;
   Modes.test_latency_report_single_sample_is_all_that_sample;
   Consumers.test_bench_consume_thread_counts_blocks_and_rolls_part_files;
   Consumers.test_bench_consume_tracks_reorder_depth_and_publishes_next_height;
   Consumers.test_bench_consume_bails_when_channel_closes_early; Consumers.test_bench_consume_rejects_skipped_height;
   Consumers.test_bench_consume_utxo_mode_records_samples_and_missing;
   Consumers.test_bench_consume_sink_mode_writes_rows_without_fees;
   Consumers.test_bench_consume_returns_samples_only_for_enabled_stages;
   Consumers.test_watchdog_trips_when_limit_is_below_current_rss;
   Consumers.test_watchdog_stays_quiet_under_a_generous_limit;
   Consumers.test_consume_ordered_aborts_when_watchdog_is_tripped;
   Consumers.test_max_rss_kb_is_positive_and_below_total_memory;
   Runs.test_out_dir_for_creates_unique_dir_under_perf_root; Runs.test_default_perf_dir_is_bidx_perf_under_cwd;
   Runs.test_out_dir_for_honours_explicit_out_dir; Runs.test_run_bench_rejects_empty_blocks_dir;
   Runs.test_run_bench_rejects_missing_blocks_dir; Runs.test_run_bench_headers_mode_reports_tip_and_stages;
   Runs.test_run_bench_headers_mode_empty_chain_reports_error_not_panic;
   Runs.test_run_bench_parse_mode_skips_utxo_and_sink; Runs.test_run_bench_drain_mode_parses_and_discards;
   Runs.test_run_bench_utxo_mode_without_out_dir_uses_temp; Runs.test_run_bench_rejects_empty_range;
   Runs.test_run_bench_repeat_aggregates_without_panicking;
   Runs.test_run_bench_writes_json_report_and_stdout_variant;
   Runs.test_run_bench_utxo_dir_override_controls_throwaway_location;
   Runs.test_run_bench_backpressure_and_batch_overrides_are_accepted;
   Runs.test_print_trial_and_aggregate_do_not_panic;
   Runs.test_print_trial_handles_report_with_no_latency_or_rocksdb].

Lemma bench_tests_pass : bench_tests = replicate 38 true.
Proof. vm_compute. reflexivity. Qed.
